(* ===== verification/_CoqProject ===== *)
-Q . S2P
Prelude.v
Enums.v
Float64.v
Scheduler.v
RingBuffer.v
Coalescer.v
Results.v
Hysteresis.v
GoTime.v
Json.v
GoDuration.v
JsonRaw.v
JsonRoundTrip.v
JsonIds.v
JsonUtf8.v
JsonCompact.v
RequestKey.v
Rpc.v
Responses.v
Commands.v
Envelopes.v
Config.v
DeviceResult.v
ResultText.v
Capabilities.v
NatsClient.v
NatsConnect.v
Transaction.v
Cache.v
Store.v
FileSys.v
OpCodec.v
DiskStore.v
DiskSafe.v
DiskLaws.v
DiskDemo.v
Manager.v
Handler.v
WsClient.v
WsReader.v
WsWriter.v
WsOrder.v
WsLive.v
ManagerSteps.v
Startup.v
StartupSafe.v
ManagerInv.v
ManagerSafety.v
ManagerProgress.v
NatsResults.v
ManagerReplay.v
ManagerDue.v
ManagerOps.v
ManagerDemo.v
RestartDemo.v
HandlerSafe.v
HandlerAnswers.v
HandlerLive.v
ManagerPush.v
ManagerOnce.v
ManagerContent.v
Daemon.v
DaemonSafe.v
DaemonInv.v
DaemonStart.v
DaemonContent.v
DaemonOrigin.v
DaemonFair.v
DaemonLive.v
DaemonDeliver.v
Teardown.v
HandlerDemo.v
WsDemo.v
StartupDemo.v
DaemonDemo.v
