(* ===== verification/Prelude.v ===== *)
(** * The uCentral client: a verified model

    The program is a daemon on an OLG gateway.  It keeps a WebSocket to the
    uCentral cloud, takes JSON-RPC requests from it, hands each to an agent on
    the device over NATS, and answers the cloud with the agent's result.  This
    library translates its Go sources into executable definitions and proves
    what each part promises and what they guarantee together.

    ** The parts and how they meet

<<
    cloud --frames--> reader --> frame handler --> request manager --+
                                     |                               |
                            dispatch goroutine --> NATS client --> agent
                                                                     |
    cloud <-- writer <-- scheduler <-- request manager <-- results <-+
>>

    A frame that the reader of pkg/websocket accepts goes to the handler of
    cmd/ucentral-client, which refuses it or opens a transaction in the
    request manager of pkg/reqmgr and starts a goroutine that publishes the
    command through pkg/nats.  The agent's result comes back through a bounded
    queue, ends the transaction and pushes a response into the priority
    scheduler of pkg/queues, which the writer of pkg/websocket drains.
    Responses are cached for repeated requests; an upgrade passes the lock of
    the device to an operation recorded on disk, which survives a restart.

    ** Files and sources

    Queues (pkg/queues): [Scheduler] (scheduler.go, against the class
    [OutboundScheduler] its clients use), [RingBuffer] (buffer.go),
    [Coalescer] (coalescer.go), [Results] (results.go), [Hysteresis]
    (hysteresis.go, doubles from [Float64]).

    Contracts (pkg/contracts): [Enums] (enums.go), [Rpc], [Commands] and
    [DeviceResult] (rpc.go), [Envelopes] (envelopes.go).  [Responses] reads a
    marshalled response back, as the cloud does, and [ResultText] the result
    object in it.

    Request manager (pkg/reqmgr): [Transaction] (transaction.go), [Cache]
    (cache.go), [RequestKey] and [Manager] (manager.go), [Store] (store.go as
    the class [OperationStore] with its laws), [DiskStore] (disk_store.go over
    the directories of [FileSys], records written by [OpCodec]).  One
    definition is one method; a method that leaves the mutex in between
    (RespondAndRetain) is cut where it does so.  [ManagerSteps] is the
    relation of all interleavings of the critical sections.

    Configuration (pkg/config): [Config].  NATS (pkg/nats): [NatsClient] and
    [NatsConnect] (client.go), [Capabilities] (capabilities.go and the metadata
    provider of handler.go).

    WebSocket (pkg/websocket/client.go): [WsClient] (the reconnect loop,
    TLS, the connect message), [WsReader] (the reader), [WsWriter] (feeder,
    writer and the slot between sessions).

    Daemon (cmd/ucentral-client): [Handler] (handler.go: connection state,
    admission, dispatch goroutine), [Startup] and [DaemonStart] (main.go up to
    the launch of the goroutines), [NatsResults] (the way of a result),
    [Daemon] (the running program: [dstep], the interleavings of everything
    above on one manager and one scheduler, the recovery of the NATS client
    call by call), [Teardown] (the process: the daemon with the reconnect loop,
    signals, panics and main up to [os.Exit]).

    Go itself: [GoTime] (instants, durations, RFC 3339), [GoDuration]
    (time.ParseDuration, strconv.Atoi), [Float64], [Json] with [JsonRaw],
    [JsonRoundTrip], [JsonIds], [JsonUtf8] and [JsonCompact] (encoding/json as
    the source uses it).
    Strings are byte sequences; an [int] or a [time.Duration] is a [Z] with
    the wrap-around written where the code can overflow.

    ** What the theorems show

    - The whole daemon: in an execution that is fair to its parts a frame that
      asks for an answer gets one on the wire, on its own session
      ([DaemonDeliver]: [daemon_serves], from [daemon_answers_requests] of
      [DaemonFair] and [urgent_written] of [WsLive]), and no part ever waits
      for another to act ([daemon_never_blocks]).  Every message on the
      wire answers one received frame, another for each, on the session of that
      frame, with its id and an error or the result delivered for it
      ([daemon_wire]; [DaemonOrigin] for the frames, [DaemonContent] for what
      the messages say).  Every step of the daemon is a run of the parts' own
      models ([daemon_refines]); no request is left to nobody
      ([daemon_watches_requests]); slots, queue and NATS client are accounted
      for ([daemon_resources]; [DaemonInv] is the invariant).  What start-up
      launches is such a daemon ([startup_launches_daemon]).  The process
      leaves after a signal or a broken CA file only, and panics only on one
      kind of result ([daemon_exits], on the life of the process in
      [Teardown]).
    - The request manager ([ManagerInv] is the invariant): one owner of the
      state lock, at most one response per request, bounded and duplicate-free
      registry, a timer for every request in flight ([ManagerSafety]); replay
      of completed requests ([ManagerReplay]); responses only to the session of
      their request ([ManagerPush]), one at a time ([ManagerOnce]), and only what was given for it
      ([ManagerContent]); requests only move forward ([ManagerProgress]) and,
      once their deadline has passed, to their end ([ManagerDue]); what the
      operations do alone, with failures of the
      store, and what a restart finds of the state lock ([ManagerOps]);
      request keys ([RequestKey]).
    - Frames and commands: every frame is answered, admitted or without
      effect, the last for a short list of reasons ([HandlerAnswers]), and an admitted command is accepted by the NATS
      client ([HandlerSafe]); the dispatch goroutine ends, returns its slot and never
      strands its request ([HandlerLive]); which [configure] requests are
      accepted ([Commands]); results are never dropped and settle their
      request ([NatsResults]); what the cloud finds in a result object
      ([ResultText]); a response reads as what was put into it ([Responses]).
    - The disk store: an atomic write and a delete under any failing call and
      any power loss ([DiskSafe]), the listing and the quarantine ([DiskLaws],
      which also discharges the laws of [Store]), what is read of a record that
      was written ([OpCodec]).
    - The WebSocket client: protocol, backoff and end of the reconnect loop
      ([WsClient]), the reader's error budget ([WsReader]), conservation and
      order of messages ([WsWriter], [WsOrder]), delivery of responses
      ([WsLive]).
    - Start-up: it refuses unsafe configurations, and panics only for queues
      too large to allocate ([StartupSafe], [NatsConnect], [Config]).
    - The queues: fairness and order, refinement of a bounded list
      ([Scheduler], [RingBuffer], [Coalescer], [Results], [Hysteresis]).

    [DiskDemo], [ManagerDemo], [RestartDemo] (a restart on the disk store),
    [HandlerDemo], [WsDemo], [StartupDemo] and [DaemonDemo] evaluate the
    definitions on concrete runs and apply the theorems there.

    ** Fuel

    The JSON parser has fuel [parse_fuel], linear in the text, and
    [parse_fuel_enough] shows that more changes nothing; the string and
    base64 loops have the length of their input.  A [configure] request may
    hold a compressed request, which may not hold another: [configure_fuel] is 2, and
    [ValidateAndGetUUID_two_levels] shows that more fuel gives the same
    answer.  Everything that loops for as long as the program runs is a step
    relation, without a bound.

    ** What is assumed

    Code outside the repository is a parameter, a class or a section variable:
    [GoLib] (base64, zlib, URLs, quoting, the schema validator), [ConfigLib]
    (files, certificates, NATS credentials, addresses), [AgentLib] and
    [AgentClient] (the agent-core library), [UUID] and [GoSort], the system
    calls of [FileSys], the answer of each library call in [dstep].  Where a
    theorem relies on documented behaviour it says so: a fresh UUID is not in
    use and contains only hexadecimal digits and hyphens, [sort.Slice] sorts, [url.Parse] and
    [url.ParseRequestURI] find the same scheme, the store's errors are its
    own, and the text of a [float64] is a JSON number.  [make] panics beyond
    [maxAlloc], the address space of the runtime on a 64-bit machine.  Critical sections of a mutex are atomic, and a timer may fire at any
    time from its instant on.

    ** Fairness

    [daemon_answers_requests] is about executions that are [fair]: the clock
    advances past every instant, a dispatch goroutine, a due or fired timer and
    a call suspended between its critical sections eventually take their next
    step.  Nothing is asked of the agent, the network, the cloud or the worker
    of the result queue.  [daemon_serves] asks more of a session, and only while
    it is open: feeder and writer go on, by finishing a write, say, or by ending
    the session because it failed, unless the feeder sleeps on an empty scheduler
    ([sessions_run]).  What is asked can always be done
    ([daemon_never_blocks]), and [DaemonDemo] has a fair execution in which the
    agent never answers and the timeout is what is written.

    ** Not modelled

    Log output, and with it the texts of the errors of libraries; the end of
    the loops on a cancelled context (in the model the goroutines may go on
    until [os.Exit], which is more than they do); an end of the process from
    outside other than by the two signals it listens for, or for lack of
    memory; the timing of deadlines, pings and pongs (that one of them fails or
    runs out, the five seconds of the teardown included, is an input); the
    inside of the agent-core library; plain structures that no code uses (the typed responses of rpc.go);
    [Transaction.Clone], a copy of a value here.

    ** Left to do

    Lives of the daemon one after the other on one operation store. *)

From stdpp Require Export base gmap strings list sorting pretty relations.
From stdpp Require Import options.
From Stdlib Require Export ZArith Lia.
From Stdlib Require Export Ascii.

#[export] Set Default Proof Using "Type".

(** ** Go values

    A Go [string] or [[]byte] is a finite sequence of bytes; both are
    [String.string] here, an [ascii] being one byte.  Where the code
    distinguishes a nil slice from an empty one the model uses
    [option string]. *)

#[global] Arguments String.append : simpl nomatch.

Declare Scope go_scope.
Delimit Scope go_scope with go.
Open Scope Z_scope.

(** [len(s)] as the Go [int] it is. *)
Definition len (s : string) : Z := Z.of_nat (String.length s).

(** [len(b)] for a slice that may be nil. *)
Definition len_opt (b : option string) : Z :=
  match b with None => 0 | Some s => len s end.

Lemma len_nonneg s : 0 <= len s.
Proof. unfold len. lia. Qed.

Lemma len_opt_nonneg b : 0 <= len_opt b.
Proof. destruct b as [s|]; simpl; [apply len_nonneg | lia]. Qed.

Lemma length_append (s t : string) :
  String.length (s +:+ t) = (String.length s + String.length t)%nat.
Proof. induction s as [|a s IH]; simpl; [done | by rewrite IH]. Qed.

Lemma len_append s t : len (s +:+ t) = len s + len t.
Proof. unfold len. rewrite length_append. lia. Qed.

(** ** Machine integers *)

(** The value of an unsigned / signed [w]-bit integer after overflow. *)
Definition wrap_u (w z : Z) : Z := z mod 2 ^ w.
Definition wrap_s (w z : Z) : Z := (z + 2 ^ (w - 1)) mod 2 ^ w - 2 ^ (w - 1).

Abbreviation wrap_int := (wrap_s 64).
Abbreviation wrap_uint64 := (wrap_u 64).

Definition max_int64 : Z := 2 ^ 63 - 1.
Definition min_int64 : Z := - 2 ^ 63.

Lemma wrap_u_range w z : 0 <= w -> 0 <= wrap_u w z < 2 ^ w.
Proof. intros. unfold wrap_u. apply Z.mod_pos_bound. lia. Qed.

Lemma wrap_u_small w z : 0 <= z < 2 ^ w -> wrap_u w z = z.
Proof. intros. unfold wrap_u. by apply Z.mod_small. Qed.

Lemma wrap_s_small w z :
  - 2 ^ (w - 1) <= z < 2 ^ (w - 1) -> 0 < w -> wrap_s w z = z.
Proof.
  intros Hz Hw. unfold wrap_s.
  assert (2 ^ w = 2 * 2 ^ (w - 1)) as ->
    by (rewrite <- Z.pow_succ_r by lia; f_equal; lia).
  rewrite Z.mod_small; lia.
Qed.

(** [make] panics for a size that is negative or beyond the address space the
    Go runtime may use; the limits are those of a 64-bit host.  [size] is the
    size of an element in bytes, [slice_header] that of a [[]byte]. *)
Definition maxAlloc : Z := 2 ^ 48.
Definition hchanSize : Z := 96.
Definition slice_header : Z := 24.
Definition make_slice_ok (size n : Z) : bool := (0 <=? n) && (n * size <=? maxAlloc).
Definition make_chan_ok (size n : Z) : bool := (0 <=? n) && (n * size <=? maxAlloc - hchanSize).

Lemma wrap_int_small z : min_int64 <= z <= max_int64 -> wrap_int z = z.
Proof.
  unfold min_int64, max_int64. intros.
  apply wrap_s_small; simpl; lia.
Qed.

(** ** Errors

    Go error values.  [ESentinel] is a package-level [errors.New] variable,
    compared by identity (its message stands for the identity, the
    messages of the repository's sentinels being pairwise different);
    [ENew] a fresh [errors.New] or an [fmt.Errorf] without [%w]; [EWrap] an
    [fmt.Errorf] with [%w]; [ECachedResponse] is the type
    [reqmgr.CachedResponseError]. *)
Inductive error :=
| ESentinel (msg : string)
| ENew (msg : string)
| EWrap (prefix : string) (inner : error)
| ECachedResponse (payload : string).

#[global] Instance error_eq_dec : EqDecision error.
Proof. solve_decision. Defined.

(** The [Error()] method. *)
Fixpoint error_msg (e : error) : string :=
  match e with
  | ESentinel m | ENew m => m
  | EWrap p i => p +:+ error_msg i
  | ECachedResponse _ => "request already completed and cached"
  end.

(** [errors.Is e target] for a sentinel target. *)
Fixpoint errors_Is (e target : error) : bool :=
  match e, target with
  | ESentinel a, ESentinel b => bool_decide (a = b)
  | EWrap _ i, _ => errors_Is i target
  | _, _ => false
  end.

(** [errors.As(err, &cacheErr)]. *)
Fixpoint errors_As_cached (e : error) : option string :=
  match e with
  | ECachedResponse p => Some p
  | EWrap _ i => errors_As_cached i
  | _ => None
  end.

Definition context_Canceled : error := ESentinel "context canceled".
Definition context_DeadlineExceeded : error := ESentinel "context deadline exceeded".
Definition io_EOF : error := ESentinel "EOF".

(** The (value, error) pair of a Go call that returns one or the other. *)
Inductive result (A : Type) :=
| Ok (a : A)
| Err (e : error).
Arguments Ok {A} a.
Arguments Err {A} e.

#[global] Instance result_eq_dec {A} `{EqDecision A} : EqDecision (result A).
Proof. solve_decision. Defined.

Notation "x <-? c ; k" :=
  (match c with Ok x => k | Err e => Err e end)
  (at level 60, c at next level, right associativity) : go_scope.

(** ** Bytes of strings *)

Definition byte_val (a : ascii) : Z := Z.of_N (N_of_ascii a).

Definition byte (z : Z) : ascii := ascii_of_N (Z.to_N z).

Definition is_digit (a : ascii) : bool :=
  (48 <=? byte_val a) && (byte_val a <=? 57).

Definition digit_val (a : ascii) : Z := byte_val a - 48.

Fixpoint string_forallb (p : ascii -> bool) (s : string) : bool :=
  match s with
  | EmptyString => true
  | String a s => p a && string_forallb p s
  end.

Lemma string_forallb_app p s t :
  string_forallb p (s +:+ t) = string_forallb p s && string_forallb p t.
Proof. induction s as [|a s IH]; simpl; [done|]. by rewrite IH, andb_assoc. Qed.

Fixpoint string_existsb (p : ascii -> bool) (s : string) : bool :=
  match s with
  | EmptyString => false
  | String a s => p a || string_existsb p s
  end.

(** The value of a run of decimal digits, most significant first. *)
Fixpoint digits_val (acc : Z) (s : string) : Z :=
  match s with
  | EmptyString => acc
  | String a s => digits_val (10 * acc + digit_val a) s
  end.

(** [strings.HasPrefix], returning what follows the prefix. *)
Fixpoint strip_prefix (p s : string) : option string :=
  match p, s with
  | EmptyString, _ => Some s
  | String a p, String b s => if Ascii.eqb a b then strip_prefix p s else None
  | _, EmptyString => None
  end.

Fixpoint string_rev_app (s acc : string) : string :=
  match s with
  | EmptyString => acc
  | String a s => string_rev_app s (String a acc)
  end.
Definition string_rev (s : string) : string := string_rev_app s EmptyString.

Definition has_suffix (suf s : string) : bool :=
  match strip_prefix (string_rev suf) (string_rev s) with Some _ => true | None => false end.

Lemma strip_prefix_app p s : strip_prefix p (p +:+ s) = Some s.
Proof. induction p as [|a p IH]; simpl; [done|]. by rewrite Ascii.eqb_refl. Qed.

Lemma strip_prefix_Some p s r : strip_prefix p s = Some r -> s = p +:+ r.
Proof.
  revert s. induction p as [|a p IH]; intros s; simpl; [by intros [= ->]|].
  destruct s as [|b s]; [done|].
  destruct (Ascii.eqb_spec a b) as [->|]; [|done].
  intros ->%IH. done.
Qed.

Lemma string_app_nil_r s : s +:+ "" = s.
Proof. induction s as [|a s IH]; simpl; [done | by rewrite IH]. Qed.

Lemma string_app_assoc (s t u : string) : (s +:+ t) +:+ u = s +:+ (t +:+ u).
Proof. induction s as [|a s IH]; simpl; [done | by rewrite IH]. Qed.

Lemma string_app_inj_l (s t u : string) : s +:+ t = s +:+ u -> t = u.
Proof. induction s as [|a s IH]; simpl; [done | intros [= ?]; auto]. Qed.

(** Strings without a given byte: where such a prefix ends is determined. *)
Definition lacks (c : ascii) (s : string) : bool :=
  string_forallb (fun a => negb (Ascii.eqb a c)) s.

Lemma lacks_split c s1 s2 r1 r2 :
  lacks c s1 = true -> lacks c s2 = true ->
  s1 +:+ String c r1 = s2 +:+ String c r2 -> s1 = s2 /\ r1 = r2.
Proof.
  unfold lacks. revert s2. induction s1 as [|a s1 IH]; intros [|b s2]; simpl.
  - by intros _ _ [= ->].
  - intros _ [Hb _]%andb_true_iff [= <- _]. by rewrite Ascii.eqb_refl in Hb.
  - intros [Hb _]%andb_true_iff _ [= -> _]. by rewrite Ascii.eqb_refl in Hb.
  - intros [_ H1]%andb_true_iff [_ H2]%andb_true_iff [= -> H].
    by destruct (IH s2 H1 H2 H) as [-> ->].
Qed.

Lemma lacks_append c s t : lacks c (s +:+ t) = lacks c s && lacks c t.
Proof.
  unfold lacks. induction s as [|a s IH]; simpl; [done|].
  by rewrite IH, andb_assoc.
Qed.

(** Decimal notation uses digits and the minus sign only. *)
Lemma lacks_pretty_N c n : is_digit c = false -> lacks c (pretty (n : N)) = true.
Proof.
  intros Hc.
  assert (Hchar : forall m, Ascii.eqb (pretty_N_char m) c = false).
  { intros m. destruct (Ascii.eqb_spec (pretty_N_char m) c) as [<-|]; [|done].
    exfalso. revert Hc. unfold pretty_N_char. by repeat case_match. }
  assert (Hgo : forall s, lacks c s = true -> lacks c (pretty_N_go n s) = true).
  { induction (N.lt_wf_0 n) as [n _ IH]. intros s Hs.
    assert (n = 0 \/ 0 < n)%N as [->|Hn] by lia; [by rewrite pretty_N_go_0|].
    rewrite pretty_N_go_step by done. apply IH; [by apply N.div_lt|].
    unfold lacks in *. cbn [string_forallb]. by rewrite Hchar, Hs. }
  unfold pretty, pretty_N. case_decide as Hz; [|by apply Hgo].
  change "0" with (String (pretty_N_char 0) "").
  unfold lacks. cbn [string_forallb]. by rewrite Hchar.
Qed.

Lemma lacks_pretty_Z c z : is_digit c = false -> c <> "-"%char -> lacks c (pretty (z : Z)) = true.
Proof.
  intros Hc Hd. assert (H0 : lacks c "0" = true).
  { exact (lacks_pretty_N c 0 Hc). }
  destruct z as [|p|p]; unfold pretty, pretty_Z; [done|by apply lacks_pretty_N|].
  rewrite lacks_append. change (pretty p) with (pretty (Npos p)).
  rewrite lacks_pretty_N by done.
  unfold lacks. cbn [string_forallb]. rewrite andb_true_r, andb_true_r, negb_true_iff.
  apply Ascii.eqb_neq. congruence.
Qed.

Lemma digits_val_app acc s t : digits_val acc (s +:+ t) = digits_val (digits_val acc s) t.
Proof. revert acc. induction s as [|a s IH]; intros acc; simpl; [done|]. apply IH. Qed.

Lemma pretty_char_digit n :
  is_digit (pretty_N_char (n `mod` 10)) = true /\ digit_val (pretty_N_char (n `mod` 10)) = Z.of_N (n `mod` 10).
Proof.
  assert (n `mod` 10 < 10)%N as Hn by (by apply N.mod_lt).
  destruct (n `mod` 10)%N as [|p]; [done|]. do 4 (destruct p as [p|p|]; try (by compute in Hn); try done).
Qed.

Lemma pretty_N_go_app n s : pretty_N_go n s = pretty_N_go n "" +:+ s.
Proof.
  revert s. induction (N.lt_wf_0 n) as [n _ IH]. intros s.
  assert (n = 0 \/ 0 < n)%N as [->|Hn] by lia; [by rewrite !pretty_N_go_0|].
  assert (n `div` 10 < n)%N as Hlt by (by apply N.div_lt).
  rewrite !(pretty_N_go_step n) by done. rewrite (IH _ Hlt (String _ s)), (IH _ Hlt (String _ "")).
  by rewrite string_app_assoc.
Qed.

(** The digits of a positive number denote it and begin with none that is 0. *)
Lemma pretty_N_digits n :
  (0 < n)%N -> string_forallb is_digit (pretty_N_go n "") = true /\ digits_val 0 (pretty_N_go n "") = Z.of_N n /\
  exists a r, pretty_N_go n "" = String a r /\ digit_val a <> 0.
Proof.
  induction (N.lt_wf_0 n) as [n _ IH]. intros Hn. rewrite pretty_N_go_step by done. rewrite pretty_N_go_app.
  destruct (pretty_char_digit n) as [Hd Hv].
  rewrite string_forallb_app, digits_val_app. cbn [string_forallb digits_val]. rewrite Hd, Hv.
  assert (Hdm : n = (10 * (n `div` 10) + n `mod` 10)%N) by (by apply N.div_mod').
  destruct (N.eq_0_gt_0_cases (n `div` 10)) as [E|E].
  - rewrite E in Hdm |- *. rewrite pretty_N_go_0. split; [done|]. cbn [digits_val String.append].
    split; [rewrite Hdm at 2; lia|]. eexists _, _. split; [done|]. lia.
  - destruct (IH (n `div` 10)%N) as (-> & -> & a & r & -> & Ha); [by apply N.div_lt|done|]. split; [done|].
    split; [lia|]. by exists a, (r +:+ String (pretty_N_char (n `mod` 10)) "").
Qed.

(** The white space of [unicode.IsSpace], as UTF-8 byte sequences. *)
Definition b1 (x : Z) : string := String (byte x) "".
Definition b2 (x y : Z) : string := String (byte x) (b1 y).
Definition b3 (x y z : Z) : string := String (byte x) (b2 y z).

Definition unicode_spaces : list string :=
  [ b1 9; b1 10; b1 11; b1 12; b1 13; b1 32;
    b2 194 133; b2 194 160; b3 225 154 128;
    b3 226 128 128; b3 226 128 129; b3 226 128 130; b3 226 128 131;
    b3 226 128 132; b3 226 128 133; b3 226 128 134; b3 226 128 135;
    b3 226 128 136; b3 226 128 137; b3 226 128 138;
    b3 226 128 168; b3 226 128 169; b3 226 128 175; b3 226 129 159;
    b3 227 128 128 ].

Fixpoint strip_any (ps : list string) (s : string) : option string :=
  match ps with
  | [] => None
  | p :: ps => match strip_prefix p s with Some r => Some r | None => strip_any ps s end
  end.

Fixpoint trim_left_with (ps : list string) (fuel : nat) (s : string) : string :=
  match fuel with
  | O => s
  | S fuel =>
      match strip_any ps s with
      | Some r => trim_left_with ps fuel r
      | None => s
      end
  end.

(** [strings.TrimSpace] and [bytes.TrimSpace]: the fuel is the length, each
    round dropping at least one byte. *)
Definition trim_space (s : string) : string :=
  let l := trim_left_with unicode_spaces (String.length s) s in
  string_rev
    (trim_left_with (map string_rev unicode_spaces) (String.length l) (string_rev l)).

Example trim_space_ex : trim_space " 	ab c  " = "ab c".
Proof. vm_compute. reflexivity. Qed.

Lemma string_rev_app_spec s acc : string_rev_app s acc = string_rev s +:+ acc.
Proof.
  unfold string_rev. revert acc. induction s as [|a s IH]; intros acc; [done|].
  cbn [string_rev_app]. rewrite IH, (IH (String a "")). by rewrite string_app_assoc.
Qed.

Lemma string_rev_cons a s : string_rev (String a s) = string_rev s +:+ String a "".
Proof. exact (string_rev_app_spec s (String a "")). Qed.

Lemma string_rev_append s t : string_rev (s +:+ t) = string_rev t +:+ string_rev s.
Proof.
  induction s as [|a s IH]; simpl; [by rewrite string_app_nil_r|].
  by rewrite !string_rev_cons, IH, string_app_assoc.
Qed.

Lemma string_rev_involutive s : string_rev (string_rev s) = s.
Proof.
  induction s as [|a s IH]; [done|]. by rewrite string_rev_cons, string_rev_append, IH.
Qed.

Lemma strip_any_Some ps s r : strip_any ps s = Some r -> exists p, p ∈ ps /\ s = p +:+ r.
Proof.
  induction ps as [|p ps IH]; simpl; [done|].
  destruct (strip_prefix p s) eqn:Hp.
  - intros [= <-]. exists p. split; [left|by apply strip_prefix_Some].
  - intros (q & ? & ?)%IH. exists q. split; [by right|done].
Qed.

Lemma strip_any_None ps s p r : strip_any ps s = None -> p ∈ ps -> s <> p +:+ r.
Proof.
  induction ps as [|q ps IH]; simpl; intros H Hin; [by apply elem_of_nil in Hin|].
  destruct (strip_prefix q s) eqn:Hq; [done|].
  apply elem_of_cons in Hin as [->|Hin]; [|by apply IH].
  intros ->. by rewrite strip_prefix_app in Hq.
Qed.

Lemma trim_left_suffix ps n s : exists p, s = p +:+ trim_left_with ps n s.
Proof.
  revert s. induction n as [|n IH]; intros s; simpl; [by exists ""|].
  destruct (strip_any ps s) as [r|] eqn:Hs; [|by exists ""].
  apply strip_any_Some in Hs as (q & _ & ->). destruct (IH r) as [p Hp].
  exists (q +:+ p). rewrite string_app_assoc. by f_equal.
Qed.

Lemma trim_left_done ps n s :
  "" ∉ ps -> (String.length s <= n)%nat -> strip_any ps (trim_left_with ps n s) = None.
Proof.
  intros Hps. revert s. induction n as [|n IH]; intros s Hn; simpl.
  - destruct s; [|simpl in Hn; lia]. destruct (strip_any ps "") as [r|] eqn:H; [|done].
    apply strip_any_Some in H as (p & Hp & H). by destruct p.
  - destruct (strip_any ps s) as [r|] eqn:H; [|done].
    apply strip_any_Some in H as (p & Hp & ->). apply IH.
    rewrite length_append in Hn. destruct p; [done|]. simpl in Hn. lia.
Qed.

(** What is left of a string after trimming does not start with a space. *)
Lemma trim_space_head a s r :
  trim_space s = String a r -> b1 (byte_val a) ∉ unicode_spaces.
Proof.
  unfold trim_space. set (l := trim_left_with unicode_spaces _ _).
  set (m := trim_left_with (map string_rev unicode_spaces) _ _). intros Hm.
  assert (Hl : strip_any unicode_spaces l = None).
  { apply trim_left_done; [|done]. apply (bool_decide_unpack _). by vm_compute. }
  destruct (trim_left_suffix (map string_rev unicode_spaces) (String.length l) (string_rev l))
    as [p Hp]. fold m in Hp.
  apply (f_equal string_rev) in Hp. rewrite string_rev_involutive, string_rev_append, Hm in Hp.
  intros Hin. apply (strip_any_None _ _ _ (r +:+ string_rev p) Hl Hin). rewrite Hp.
  unfold b1, byte, byte_val. rewrite N2Z.id, ascii_N_embedding. done.
Qed.

Lemma string_rev_length s : String.length (string_rev s) = String.length s.
Proof. induction s as [|a s IH]; [done|]. rewrite string_rev_cons, length_append, IH. simpl. lia. Qed.

Lemma trim_left_none ps n s : strip_any ps s = None -> trim_left_with ps n s = s.
Proof. intros Hs. destruct n; simpl; [done|by rewrite Hs]. Qed.

Lemma strip_any_prefix ps s r : strip_any ps (s +:+ r) = None -> strip_any ps s = None.
Proof.
  intros Hs. destruct (strip_any ps s) as [x|] eqn:E; [|done]. exfalso.
  apply strip_any_Some in E as (q & Hq & ->). rewrite string_app_assoc in Hs.
  by apply (strip_any_None _ _ _ (x +:+ r) Hs Hq).
Qed.

Lemma trim_space_idem s : trim_space (trim_space s) = trim_space s.
Proof.
  unfold trim_space at 2 3. set (l := trim_left_with unicode_spaces _ s).
  set (m := trim_left_with (map string_rev unicode_spaces) (String.length l) (string_rev l)).
  assert (strip_any unicode_spaces l = None) as Hl.
  { apply trim_left_done; [|done]. apply (bool_decide_unpack _). by vm_compute. }
  assert (strip_any (map string_rev unicode_spaces) m = None) as Hm.
  { apply trim_left_done; [|by rewrite string_rev_length]. apply (bool_decide_unpack _). by vm_compute. }
  assert (strip_any unicode_spaces (string_rev m) = None) as Hr.
  { destruct (trim_left_suffix (map string_rev unicode_spaces) (String.length l) (string_rev l)) as [p Hp].
    fold m in Hp. apply (f_equal string_rev) in Hp. rewrite string_rev_involutive, string_rev_append in Hp.
    rewrite Hp in Hl. by eapply strip_any_prefix. }
  unfold trim_space. rewrite (trim_left_none _ _ _ Hr), string_rev_involutive.
  by rewrite (trim_left_none _ _ _ Hm).
Qed.

(** [strings.ToLower] on the ASCII letters; bytes above 127 are left. *)
Definition lower_ascii (a : ascii) : ascii :=
  if (65 <=? byte_val a) && (byte_val a <=? 90) then byte (byte_val a + 32) else a.

Fixpoint string_map (f : ascii -> ascii) (s : string) : string :=
  match s with
  | EmptyString => EmptyString
  | String a s => String (f a) (string_map f s)
  end.

(** A literal in which single quotes stand for double ones. *)
Definition dq (s : string) : string :=
  string_map (fun a => if Ascii.eqb a "'" then byte 34 else a) s.

(** ** Automation *)

Create HintDb ucentral.
Create Rewrite HintDb ucentral.
#[export] Hint Resolve len_nonneg len_opt_nonneg : ucentral.

(** Split every [match] and [if] of the hypotheses and the goal, closing the
    branches that are contradictory. *)
Ltac case_all :=
  repeat (case_match || case_decide || simplify_eq); try done.

(** Turn boolean comparisons into the propositions they decide. *)
Ltac bool_to_prop :=
  repeat match goal with
  | H : (_ && _)%bool = true |- _ => apply andb_true_iff in H as [? ?]
  | H : (_ && _)%bool = false |- _ => apply andb_false_iff in H
  | H : (_ || _)%bool = true |- _ => apply orb_true_iff in H
  | H : (_ || _)%bool = false |- _ => apply orb_false_iff in H as [? ?]
  | H : negb _ = true |- _ => apply negb_true_iff in H
  | H : negb _ = false |- _ => apply negb_false_iff in H
  | H : (_ =? _) = true |- _ => apply Z.eqb_eq in H
  | H : (_ =? _) = false |- _ => apply Z.eqb_neq in H
  | H : (_ <=? _) = true |- _ => apply Z.leb_le in H
  | H : (_ <=? _) = false |- _ => apply Z.leb_gt in H
  | H : (_ <? _) = true |- _ => apply Z.ltb_lt in H
  | H : (_ <? _) = false |- _ => apply Z.ltb_ge in H
  | H : bool_decide _ = true |- _ => apply bool_decide_eq_true in H
  | H : bool_decide _ = false |- _ => apply bool_decide_eq_false in H
  end.

(** ** Sorted lists *)

Lemma StronglySorted_take_rest {A} (R : A -> A -> Prop) n l x y :
  StronglySorted R l -> x ∈ take n l -> y ∈ l -> y ∉ take n l -> R x y.
Proof.
  intros Hs Hx Hy Hno. rewrite <- (take_drop n l) in Hs, Hy. apply elem_of_app in Hy as [?|Hy]; [done|].
  by eapply StronglySorted_app_1_elem_of.
Qed.

Lemma StronglySorted_take {A} (R : A -> A -> Prop) n l :
  StronglySorted R l -> StronglySorted R (take n l).
Proof.
  revert n. induction l as [|a l IH]; intros [|n] Hl; simpl; try constructor;
    inversion Hl as [|? ? Hs Hf]; subst; [by apply IH|]. by apply Forall_take.
Qed.

Lemma StronglySorted_weaken {A} (R R' : A -> A -> Prop) (P : A -> Prop) l :
  StronglySorted R l -> Forall P l -> (forall a b, P a -> P b -> R a b -> R' a b) -> StronglySorted R' l.
Proof.
  intros Hl HP HR. induction Hl as [|a l Hl IH Ha]; constructor; apply Forall_cons in HP as [Hpa Hpl].
  - by apply IH.
  - rewrite Forall_forall in Ha, Hpl |- *. intros b Hb. apply HR; [done|by apply Hpl|by apply Ha].
Qed.

(** ** Permutations by counting

    [permute] proves a permutation from permutations in the context, once the
    lists are built from the same parts. *)
Section Counting.
Context {A : Type} `{EqDecision A}.

(** One occurrence, if [a] is [x]. *)
Definition single (x a : A) : nat := if decide (a = x) then 1 else 0.

Definition count (x : A) (l : list A) : nat := count_occ (fun a b => decide (a = b)) l x.

Lemma permutation_count l k : l ≡ₚ k <-> forall x, count x l = count x k.
Proof. apply Permutation_count_occ. Qed.

Lemma count_app x l k : count x (l ++ k) = (count x l + count x k)%nat.
Proof. apply count_occ_app. Qed.

Lemma count_cons x a l : count x (a :: l) = (single x a + count x l)%nat.
Proof. unfold count, single; simpl. by destruct (decide (a = x)). Qed.

Lemma count_nil x : count x [] = 0%nat.
Proof. done. Qed.
End Counting.

Ltac permute :=
  repeat match goal with H : _ ≡ₚ _ |- _ => rewrite permutation_count in H end;
  rewrite permutation_count; let x := fresh "x" in intros x;
  repeat match goal with H : forall y, count y _ = count y _ |- _ => specialize (H x) end;
  rewrite ?count_app, ?count_cons, ?count_app, ?count_cons, ?count_app, ?count_nil in *; lia.
