(* ===== verification/Enums.v ===== *)
(** * Enumerations of [pkg/contracts/enums.go]

    The string-typed enumerations of the NATS and JSON-RPC contracts, the
    command/action matrix and the derived connection state.  As in the source
    every enumeration is a string type with named constants; the [Valid]
    methods are boolean functions. *)

From S2P Require Import Prelude.

Infix "=s" := String.eqb (at level 70, no associativity) : go_scope.
Open Scope go_scope.

(** ** Result types *)

Definition ResultType := string.
Definition ResultSuccess : ResultType := "success".
Definition ResultRejected : ResultType := "rejected".
Definition ResultFailed : ResultType := "failure".
Definition ResultTimeout : ResultType := "timeout".
Definition ResultRolledBack : ResultType := "rolled_back".
Definition ResultRollbackFailed : ResultType := "rollback_failed".
Definition ResultStale : ResultType := "stale".
Definition ResultBusy : ResultType := "busy".
Definition ResultUnsupported : ResultType := "unsupported".

(** Membership of a value in the constants of a Go [switch] case. *)
Definition one_of (x : string) (l : list string) : bool := existsb (String.eqb x) l.

Definition ResultType_Valid (r : ResultType) : bool :=
  one_of r [ResultSuccess; ResultRejected; ResultFailed; ResultTimeout;
            ResultRolledBack; ResultRollbackFailed; ResultStale; ResultBusy;
            ResultUnsupported].

(** ** Commands and actions *)

Definition CommandType := string.
Definition ActionType := string.
Definition ScriptType := string.

Definition CommandAction : CommandType := "action".
Definition CommandConfigure : CommandType := "configure".
Definition CommandExecute : CommandType := "execute".
Definition CommandUpgrade : CommandType := "upgrade".
Definition CommandScript : CommandType := "script".
Definition CommandReboot : CommandType := "reboot".

Definition ActionUpgrade : ActionType := "upgrade".
Definition ActionReboot : ActionType := "reboot".
Definition ActionExecute : ActionType := "execute".
Definition ActionFactory : ActionType := "factory".
Definition ActionCertupdate : ActionType := "certupdate".
Definition ActionReenroll : ActionType := "reenroll".
Definition ActionRTTY : ActionType := "rtty".
Definition ActionLeds : ActionType := "leds".
Definition ActionTrace : ActionType := "trace".
Definition ActionPing : ActionType := "ping".
Definition ActionTelemetry : ActionType := "telemetry".

Definition ScriptTypeShell : ScriptType := "shell".
Definition ScriptTypeUcode : ScriptType := "ucode".
Definition ScriptTypeBundle : ScriptType := "bundle".

Definition RemoteAccessRTTY : string := "rtty".

Definition CommandType_Valid (c : CommandType) : bool :=
  one_of c [CommandAction; CommandConfigure; CommandExecute; CommandUpgrade;
            CommandScript; CommandReboot].

Definition ActionType_Valid (a : ActionType) : bool :=
  one_of a [ActionUpgrade; ActionReboot; ActionExecute; ActionFactory;
            ActionCertupdate; ActionReenroll; ActionRTTY; ActionLeds;
            ActionTrace; ActionPing; ActionTelemetry].

Definition ValidCommandAction (command : CommandType) (action : ActionType) : bool :=
  if negb (action =s "") && negb (ActionType_Valid action) then false else
  if negb (CommandType_Valid command) then false else
  if command =s CommandAction then ActionType_Valid action else
  if (command =s CommandExecute) || (command =s CommandScript)
  then action =s ActionExecute else
  if command =s CommandUpgrade then action =s ActionUpgrade else
  if command =s CommandReboot then action =s ActionReboot else
  if command =s CommandConfigure then action =s "" else
  false.

(** ** Connection state *)

Definition ConnectionState := string.
Definition StateConnecting : ConnectionState := "connecting".
Definition StateOperational : ConnectionState := "operational".
Definition StateCloudDegraded : ConnectionState := "cloud_degraded".
Definition StateNATSDegraded : ConnectionState := "nats_degraded".

Definition LinkState := string.
Definition LinkConnecting : LinkState := "connecting".
Definition LinkConnected : LinkState := "connected".

(** The string returned beside a non-nil error is never looked at by the
    contract of the function but is by [GetSystemState], which drops the
    error, so both are returned. *)
Definition DeriveConnectionState (cloud nats : LinkState) : ConnectionState * option error :=
  if negb (cloud =s LinkConnecting) && negb (cloud =s LinkConnected)
  then ("", Some (ENew ("invalid cloud state: " +:+ cloud))) else
  if negb (nats =s LinkConnecting) && negb (nats =s LinkConnected)
  then ("", Some (ENew ("invalid nats state: " +:+ nats))) else
  if (cloud =s LinkConnecting) && (nats =s LinkConnecting) then (StateConnecting, None) else
  if (cloud =s LinkConnecting) && (nats =s LinkConnected) then (StateCloudDegraded, None) else
  if (cloud =s LinkConnected) && (nats =s LinkConnecting) then (StateNATSDegraded, None) else
  if (cloud =s LinkConnected) && (nats =s LinkConnected) then (StateOperational, None) else
  ("", Some (ENew ("unrecognized state combination: cloud=" +:+ cloud +:+ ", nats=" +:+ nats))).

(** ** Lemmas *)

Lemma one_of_elem x l : one_of x l = true <-> x ∈ l.
Proof.
  unfold one_of. rewrite existsb_exists. split.
  - intros (y & Hy & ->%String.eqb_eq). by apply list_elem_of_In.
  - intros Hx. exists x. split; [by apply list_elem_of_In | by apply String.eqb_refl].
Qed.

(** Decide a goal about membership in concrete constants. *)
Ltac eqb_cases :=
  repeat match goal with
  | |- context [String.eqb ?a ?b] => destruct (String.eqb_spec a b)
  | H : context [String.eqb ?a ?b] |- _ => destruct (String.eqb_spec a b)
  end; subst.

Definition link_state (l : LinkState) : Prop := l = LinkConnecting \/ l = LinkConnected.

(** The command/action matrix: every accepted pair is one of the rows of the
    table below, and every row is accepted. *)
Definition command_action_row (command : CommandType) (action : ActionType) : Prop :=
  (command = CommandAction /\ ActionType_Valid action = true) \/
  ((command = CommandExecute \/ command = CommandScript) /\ action = ActionExecute) \/
  (command = CommandUpgrade /\ action = ActionUpgrade) \/
  (command = CommandReboot /\ action = ActionReboot) \/
  (command = CommandConfigure /\ action = "").

(** [ValidCommandAction] accepts exactly the rows of the command/action
    matrix: the generic [action] command with any known action, [execute] and
    [script] with [execute], [upgrade] and [reboot] with their own action, and
    [configure] with no action at all. *)
Theorem ValidCommandAction_matrix command action :
  ValidCommandAction command action = true <-> command_action_row command action.
Proof.
  unfold command_action_row. split.
  - unfold ValidCommandAction. intros H. repeat case_match; try done; bool_to_prop;
      eqb_cases; naive_solver.
  - intros [[-> Ha]|[[[->| ->] ->]|[[-> ->]|[[-> ->]|[-> ->]]]]];
      try (vm_compute; reflexivity).
    unfold ValidCommandAction. rewrite Ha. by rewrite andb_false_r.
Qed.

(** on well-formed link states [DeriveConnectionState] never fails and is
    injective: the four derived states identify the two links exactly. *)
Theorem DeriveConnectionState_injective c1 n1 c2 n2 :
  link_state c1 -> link_state n1 -> link_state c2 -> link_state n2 ->
  (DeriveConnectionState c1 n1).2 = None /\
  ((DeriveConnectionState c1 n1).1 = (DeriveConnectionState c2 n2).1 ->
   c1 = c2 /\ n1 = n2).
Proof.
  intros [->| ->] [->| ->] [->| ->] [->| ->]; vm_compute; naive_solver.
Qed.

Lemma DeriveConnectionState_injective_witness :
  link_state LinkConnected /\
  ((DeriveConnectionState LinkConnected LinkConnecting).2 = None /\
   ((DeriveConnectionState LinkConnected LinkConnecting).1 =
    (DeriveConnectionState LinkConnected LinkConnecting).1 ->
    LinkConnected = LinkConnected /\ LinkConnecting = LinkConnecting)).
Proof.
  split; [by right |].
  apply (DeriveConnectionState_injective LinkConnected LinkConnecting
           LinkConnected LinkConnecting); [by right | by left | by right | by left].
Defined.
