(* ===== verification/Float64.v ===== *)
(** * Doubles

    Go's [float64], computed with the executable [SpecFloat] operations at
    precision 53 and exponent bound 1024. *)

From Stdlib Require Import Floats.SpecFloat.
From S2P Require Import Prelude.

Definition float64 := spec_float.
Definition float64_of_int (n : Z) : float64 := binary_normalize 53 1024 n 0 false.
Definition float64_div (x y : float64) : float64 := SFdiv 53 1024 x y.
Definition float64_mul (x y : float64) : float64 := SFmul 53 1024 x y.
Definition float64_add (x y : float64) : float64 := SFadd 53 1024 x y.

(** The conversion of a finite value to an integer, towards zero. *)
Definition float64_trunc (x : float64) : Z :=
  match x with
  | S754_finite s m e =>
      let a := if 0 <=? e then Zpos m * 2 ^ e else Zpos m / 2 ^ (- e) in
      if s then - a else a
  | _ => 0
  end.

(** ** Bounds

    [within x b]: [x] is a double between 0 and the integer [b].  Rounding
    keeps this bound, because [b] itself is a double. *)
Definition within (x : float64) (b : Z) : Prop :=
  x = S754_zero false \/
  exists m e, x = S754_finite false m e /\ e <= 0 /\ Zpos m <= b * 2 ^ (- e).

Lemma float64_trunc_within x b : 0 <= b -> within x b -> 0 <= float64_trunc x <= b.
Proof.
  intros Hb [->|(m & e & -> & He & Hm)]; [simpl; lia|]. unfold float64_trunc.
  destruct (Z.leb_spec 0 e).
  - assert (e = 0) as -> by lia. lia.
  - split; [apply Z.div_pos; lia|]. apply Z.div_le_upper_bound; lia.
Qed.

(** An intermediate result [mrs] at exponent [e] does not exceed [b], and is
    below it when digits have been dropped. *)
Definition below (b e : Z) (mrs : shr_record) : Prop :=
  0 <= shr_m mrs /\ shr_m mrs + (if shr_r mrs || shr_s mrs then 1 else 0) <= b * 2 ^ (- e).

Lemma shr_1_below b e mrs : e < 0 -> below b e mrs -> below b (e + 1) (shr_1 mrs).
Proof.
  intros He [H1 H2]. destruct mrs as [m r s]. unfold below in *. cbn [shr_m shr_r shr_s] in *.
  replace (- e) with (Z.succ (- (e + 1))) in H2 by lia. rewrite Z.pow_succ_r in H2 by lia.
  set (B := b * 2 ^ (- (e + 1))) in *. replace (b * (2 * 2 ^ (- (e + 1)))) with (2 * B) in H2 by (unfold B; ring).
  destruct m as [|p|p]; [| |lia]; [destruct r, s; cbn in *; lia|].
  destruct p, r, s; cbn [shr_1 shr_m shr_r shr_s orb] in *; lia.
Qed.

Lemma iter_pos_below b n e mrs :
  e + Zpos n <= 0 -> below b e mrs -> below b (e + Zpos n) (SpecFloat.iter_pos shr_1 n mrs).
Proof.
  revert e mrs. induction n as [n IH|n IH|]; intros e mrs He Hm; cbn [SpecFloat.iter_pos].
  - replace (e + Zpos n~1) with (e + 1 + Zpos n + Zpos n) by lia.
    apply IH; [lia|]. apply IH; [lia|]. apply shr_1_below; [lia|done].
  - replace (e + Zpos n~0) with (e + Zpos n + Zpos n) by lia.
    apply IH; [lia|]. apply IH; [lia|done].
  - apply shr_1_below; [lia|done].
Qed.

Lemma digits2_pos_size p : Zpos (digits2_pos p) = Zpos (Pos.size p).
Proof. induction p; cbn; lia. Qed.

Lemma Zdigits2_bound m k : 0 <= m < 2 ^ k -> 0 <= k -> Zdigits2 m <= k.
Proof.
  intros [H1 H2] Hk. destruct m as [|p|p]; [cbn; lia| |lia]. cbn. rewrite digits2_pos_size.
  pose proof (Pos.size_le p) as Hs.
  assert (2 ^ Zpos (Pos.size p) <= 2 * Zpos p) as Hp by (rewrite <- Pos2Z.inj_pow; lia).
  destruct (Z.le_gt_cases (Zpos (Pos.size p)) k) as [?|Hgt]; [done|].
  assert (2 ^ (k + 1) <= 2 ^ Zpos (Pos.size p)) by (apply Z.pow_le_mono_r; lia).
  rewrite Z.pow_add_r in * by lia. lia.
Qed.

(** Dropping digits down to 53 of them stays at a negative exponent. *)
Lemma shr_fexp_below b m e l mrs e' :
  0 < b < 2 ^ 53 -> e <= 0 -> below b e (shr_record_of_loc m l) ->
  shr_fexp 53 1024 m e l = (mrs, e') -> e' <= 0 /\ below b e' mrs.
Proof.
  intros Hb He Hm. unfold shr_fexp, shr.
  assert (shr_m (shr_record_of_loc m l) = m) as Hshr by (by destruct l as [|[]]).
  assert (Zdigits2 m <= 53 - e) as Hd.
  { apply Zdigits2_bound; [|lia]. destruct Hm as [H1 H2]. rewrite Hshr in *. split; [done|].
    replace (53 - e) with (53 + - e) by lia. rewrite Z.pow_add_r by lia.
    assert (0 < 2 ^ (- e)) by lia. destruct (_ || _); nia. }
  assert (fexp 53 1024 (Zdigits2 m + e) <= 0) as Hf by (unfold fexp, emin; lia).
  destruct (fexp 53 1024 (Zdigits2 m + e) - e) as [|n|n] eqn:Hn; intros [= <- <-]; [done| |done].
  split; [lia|]. apply iter_pos_below; [lia|done].
Qed.

Lemma binary_round_aux_within b m e l :
  0 < b < 2 ^ 53 -> e <= 0 -> below b e (shr_record_of_loc m l) ->
  within (binary_round_aux 53 1024 false m e l) b.
Proof.
  intros Hb He Hm. unfold binary_round_aux.
  destruct (shr_fexp 53 1024 m e l) as [mrs e'] eqn:E1.
  apply (shr_fexp_below b) in E1 as [He' Hm']; [|done..].
  set (m' := round_nearest_even _ _). assert (0 <= m' <= b * 2 ^ (- e')) as Hr.
  { destruct mrs as [m1 r s], Hm' as [H1 H2]. unfold m'; cbn [shr_m shr_r shr_s] in *.
    destruct r, s; cbn in *; try destruct (Z.even m1); lia. }
  destruct (shr_fexp 53 1024 m' e' loc_Exact) as [mrs2 e2] eqn:E2.
  apply (shr_fexp_below b) in E2 as [He2 [H1 H2]]; [|done|done|unfold below; cbn; lia].
  destruct (shr_m mrs2) as [|p|p] eqn:Hp; [by left| |lia].
  replace (e2 <=? 1024 - 53) with true by lia. right. exists p, e2.
  split_and!; [done..|]. destruct (_ || _); lia.
Qed.

Lemma float64_mul_within x y b :
  0 < b < 2 ^ 53 -> within x 1 -> within y b -> within (float64_mul x y) b.
Proof.
  intros Hb Hx Hy. unfold float64_mul.
  destruct Hx as [->|(m & e & -> & He & Hm)], Hy as [->|(n & f & -> & Hf & Hn)]; [by left..|].
  cbn [SFmul xorb]. apply binary_round_aux_within; [done|lia|]. unfold below. cbn [shr_record_of_loc shr_m shr_r shr_s orb].
  rewrite Pos2Z.inj_mul. split; [lia|]. replace (- (e + f)) with (- e + - f) by lia.
  rewrite Z.pow_add_r by lia. assert (0 < 2 ^ (- f)) by lia. nia.
Qed.

Lemma float64_of_int_within n : 0 <= n < 2 ^ 53 -> within (float64_of_int n) n.
Proof.
  intros Hn. destruct n as [|p|p]; [by left| |lia]. unfold float64_of_int, binary_normalize, binary_round.
  assert (Zdigits2 (Zpos p) <= 53) as Hd by (apply Zdigits2_bound; lia). cbn in Hd.
  destruct (shl_align p 0 _) as [m e] eqn:E.
  assert (e <= 0 /\ Zpos m = Zpos p * 2 ^ (- e)) as [He Hm].
  { unfold shl_align in E. unfold fexp, emin in E. rewrite Z.add_0_r in E.
    replace (Z.max (Zpos (digits2_pos p) - 53) (3 - 1024 - 53)) with (Zpos (digits2_pos p) - 53) in E by lia.
    destruct (Zpos (digits2_pos p) - 53 - 0) as [|d|d] eqn:Hd'; injection E as <- <-; [lia|lia|].
    split; [lia|]. replace (- (Zpos (digits2_pos p) - 53)) with (Zpos d) by lia.
    clear. induction d as [|d IH] using Pos.peano_ind; [cbn; lia|].
    rewrite Pos.iter_succ, Pos2Z.inj_succ, Z.pow_succ_r by lia. lia. }
  apply binary_round_aux_within; [lia|done|]. unfold below. cbn. lia.
Qed.

(** The quotient and the location of the rest. *)
Lemma new_location_below b e q r d :
  0 < d -> 0 <= q -> 0 <= r < d -> q * d + r < b * 2 ^ (- e) * d ->
  below b e (shr_record_of_loc q (new_location d r)).
Proof.
  intros Hd Hq Hr H. assert (q + 1 <= b * 2 ^ (- e)) as Hq1 by nia.
  split; destruct (new_location d r) as [|[]]; cbn; lia.
Qed.

(** Dividing by [2 ^ 53] an integer below it. *)
Lemma float64_div_unit k :
  0 <= k < 2 ^ 53 -> within (float64_div (float64_of_int k) (float64_of_int (2 ^ 53))) 1.
Proof.
  intros Hk. assert (float64_of_int (2 ^ 53) = S754_finite false (2 ^ 52) 1) as -> by (by vm_compute).
  destruct (float64_of_int_within k Hk) as [->|(m & e & -> & He & Hm)]; [by left|].
  unfold float64_div, SFdiv, SFdiv_core_binary. cbv zeta.
  change (Zdigits2 (Zpos (2 ^ 52))) with 53. change (Zpos (2 ^ 52)) with (2 ^ 52).
  set (e' := Z.min _ (e - 1)). assert (e' <= e - 1) as He' by (unfold e'; lia). clearbody e'.
  set (m' := match e - 1 - e' with Z0 => _ | Zpos _ => _ | Zneg _ => _ end).
  assert (m' = Zpos m * 2 ^ (e - 1 - e')) as Hm'.
  { unfold m'. destruct (e - 1 - e') as [|s|s] eqn:Hs; [lia|apply Z.shiftl_mul_pow2; lia|lia]. }
  pose proof (Z_div_mod m' (2 ^ 52) ltac:(lia)) as Hdiv. destruct (Z.div_eucl m' (2 ^ 52)) as [q r].
  destruct Hdiv as [Hdiv Hr]. cbn [xorb].
  assert (m' < 1 * 2 ^ (- e') * 2 ^ 52) as Hlt.
  { rewrite Hm', <- !Z.mul_assoc, Z.mul_1_l, <- Z.pow_add_r by lia.
    replace (- e' + 52) with (53 + - e + (e - 1 - e')) by lia.
    rewrite !Z.pow_add_r by lia. assert (0 < 2 ^ (e - 1 - e')) by lia. assert (0 < 2 ^ (- e)) by lia. nia. }
  assert (0 <= m') by (rewrite Hm'; lia).
  apply binary_round_aux_within; [lia..|]. apply new_location_below; [lia|nia|lia|nia].
Qed.
