(* ===== verification/Scheduler.v ===== *)
(** * The outbound priority scheduler ([pkg/queues/scheduler.go])

    [PriorityScheduler] keeps four FIFO queues, one per priority; priority 0
    has its own (emergency) capacity.  [tryDequeue] serves the lowest
    non-empty priority, except that after ten consecutive priority-0 messages
    it looks at priorities 1, 2, 3 round-robin first.

    The interface [OutboundScheduler] is the class of the same name; its
    clients (the WebSocket writer, the request manager) are verified against
    the class and [PriorityScheduler] discharges its laws. *)

From S2P Require Import Prelude.

(** ** Messages and the interface *)

Definition PriorityHighest : Z := 0.
Definition PriorityHigh : Z := 1.
Definition PriorityMedium : Z := 2.
Definition PriorityLow : Z := 3.

Record OutboundMessage := mkMsg {
  SessionID : string;
  Priority : Z;
  Payload : string;
}.

#[global] Instance OutboundMessage_eq_dec : EqDecision OutboundMessage.
Proof. solve_decision. Defined.

Definition ErrQueueFull : error := ESentinel "queue is at maximum capacity".
Definition ErrInvalidPriority : error := ESentinel "invalid message priority".

(** What one pass of the [Next] loop does: return a message, return the
    context's error, or sleep on the condition variable. *)
Inductive next_outcome (S : Type) :=
| NextMessage (m : OutboundMessage) (s : S)
| NextCancelled (e : error)
| NextWait (s : S).
Arguments NextMessage {S} m s.
Arguments NextCancelled {S} e.
Arguments NextWait {S} s.

(** The Go interface: [Push], and one pass of [Next] under a given value of
    [ctx.Err()].  [os_contents] is the abstract state, the bag of messages
    held. *)
Class OutboundScheduler (S : Type) := {
  os_Push : S -> OutboundMessage -> S * option error;
  os_Next : S -> option error -> next_outcome S;
  os_contents : S -> list OutboundMessage;
}.

(** The contract of the interface's comments, on the states [Inv] an
    implementation keeps: ownership transfers only when [Push] returns nil,
    [Next] hands over a message that was held, returns [ctx.Err()] promptly
    after cancellation and sleeps only when nothing is held. *)
Class OutboundSchedulerLaws (S : Type) `{OutboundScheduler S} (Inv : S -> Prop) := {
  os_Push_ok s m s' :
    Inv s -> os_Push s m = (s', None) -> Inv s' /\ os_contents s' ≡ₚ m :: os_contents s;
  os_Push_err s m s' e : os_Push s m = (s', Some e) -> s' = s;
  os_Next_cancelled s e : os_Next s (Some e) = NextCancelled e;
  os_Next_message s m s' :
    Inv s -> os_Next s None = NextMessage m s' ->
    Inv s' /\ os_contents s ≡ₚ m :: os_contents s';
  os_Next_wait s s' :
    Inv s -> os_Next s None = NextWait s' ->
    Inv s' /\ os_contents s = [] /\ os_contents s' = [];
  os_Next_alive s e : os_Next s None <> NextCancelled e;
}.

(** No message of priority 0 waits for ever: [os_wait] bounds, at any moment,
    the dequeues that may still come before a held one.  Later pushes do not
    lengthen its wait, and each message that goes before it shortens it. *)
Class OutboundSchedulerPrompt (S : Type) `{OutboundScheduler S} (Inv : S -> Prop) := {
  os_wait : S -> OutboundMessage -> nat;
  os_wait_push s m m' s' :
    Inv s -> Priority m = PriorityHighest -> m ∈ os_contents s -> os_Push s m' = (s', None) ->
    (os_wait s' m <= os_wait s m)%nat;
  os_wait_next s m m' s' :
    Inv s -> Priority m = PriorityHighest -> m ∈ os_contents s -> os_Next s None = NextMessage m' s' ->
    m' = m \/ m ∈ os_contents s' /\ (os_wait s' m < os_wait s m)%nat;
}.

Module PriorityScheduler.

(** ** State *)

Record t := mk {
  queues : list (list OutboundMessage);
  capacity : Z;
  emergencyCap : Z;
  consecutiveP0 : Z;
  lastYield : Z;
}.

#[global] Instance t_eq_dec : EqDecision t.
Proof. solve_decision. Defined.

(** [s.queues[p]] and [s.queues[p] = q]: the array has four entries. *)
Definition queue (s : t) (p : Z) : list OutboundMessage :=
  default [] (queues s !! Z.to_nat p).

Definition set_queue (s : t) (p : Z) (q : list OutboundMessage) : t :=
  mk (<[Z.to_nat p := q]> (queues s)) (capacity s) (emergencyCap s)
     (consecutiveP0 s) (lastYield s).

Definition set_consecutiveP0 (s : t) (c : Z) : t :=
  mk (queues s) (capacity s) (emergencyCap s) c (lastYield s).

Definition set_lastYield (s : t) (p : Z) : t :=
  mk (queues s) (capacity s) (emergencyCap s) (consecutiveP0 s) p.

(** The constructor panics (here [None]) on a non-positive capacity. *)
Definition NewPriorityScheduler (capacity emergencyCap : Z) : option t :=
  if (capacity <=? 0) || (emergencyCap <=? 0) then None
  else Some (mk [[]; []; []; []] capacity emergencyCap 0 0).

(** ** Operations *)

Definition isFull (s : t) (priority : Z) : bool :=
  if priority =? PriorityHighest
  then emergencyCap s <=? Z.of_nat (length (queue s priority))
  else capacity s <=? Z.of_nat (length (queue s priority)).

(** [Push] also broadcasts on the condition variable when it succeeds; the
    broadcast is the boolean. *)
Definition Push (s : t) (msg : OutboundMessage) : t * option error * bool :=
  if (Priority msg <? PriorityHighest) || (PriorityLow <? Priority msg)
  then (s, Some ErrInvalidPriority, false) else
  if isFull s (Priority msg) then (s, Some ErrQueueFull, false) else
  (set_queue s (Priority msg) (queue s (Priority msg) ++ [msg]), None, true).

(** [pop(&s.queues[p])] for a queue found non-empty by the caller. *)
Definition pop (s : t) (p : Z) : option (OutboundMessage * t) :=
  match queue s p with
  | [] => None
  | msg :: rest => Some (msg, set_queue s p rest)
  end.

(** The round-robin loop over priorities 1, 2, 3: it records every priority
    it looks at in [lastYield], found or not. *)
Fixpoint anti_starvation (rounds : nat) (s : t) : option OutboundMessage * t :=
  match rounds with
  | O => (None, s)
  | S rounds =>
      let p := lastYield s mod 3 + 1 in
      let s := set_lastYield s p in
      match pop s p with
      | Some (msg, s) => (Some msg, set_consecutiveP0 s 0)
      | None => anti_starvation rounds s
      end
  end.

(** The normal selection loop, over the priorities [ps]. *)
Fixpoint normal_selection (ps : list Z) (s : t) : option OutboundMessage * t :=
  match ps with
  | [] => (None, s)
  | p :: ps =>
      match pop s p with
      | Some (msg, s) =>
          if p =? PriorityHighest
          then (Some msg, set_consecutiveP0 s (wrap_int (consecutiveP0 s + 1)))
          else (Some msg, set_consecutiveP0 s 0)
      | None => normal_selection ps s
      end
  end.

Definition tryDequeue (s : t) : option OutboundMessage * t :=
  let r := if 10 <=? consecutiveP0 s then anti_starvation 3 s else (None, s) in
  match r with
  | (Some msg, s) => (Some msg, s)
  | (None, s) => normal_selection [0; 1; 2; 3] s
  end.

(** One pass of the loop of [Next], [ctx_err] being [ctx.Err()]. *)
Definition Next (s : t) (ctx_err : option error) : next_outcome t :=
  match ctx_err with
  | Some e => NextCancelled e
  | None =>
      match tryDequeue s with
      | (Some msg, s) => NextMessage msg s
      | (None, s) => NextWait s
      end
  end.

(** ** Invariant *)

Definition valid_priority (p : Z) : Prop := 0 <= p <= 3.

Record wf (s : t) : Prop := {
  wf_length : length (queues s) = 4%nat;
  wf_caps : 0 < capacity s /\ 0 < emergencyCap s;
  wf_bounded p : valid_priority p ->
    Z.of_nat (length (queue s p)) <= (if p =? 0 then emergencyCap s else capacity s);
  wf_priority p m : valid_priority p -> m ∈ queue s p -> Priority m = p;
  wf_lastYield : 0 <= lastYield s <= 3;
}.

Lemma queue_set_eq s p q :
  length (queues s) = 4%nat -> valid_priority p -> queue (set_queue s p q) p = q.
Proof.
  intros Hl Hp. unfold queue, set_queue; simpl.
  rewrite list_lookup_insert_eq; [done | unfold valid_priority in *; lia].
Qed.

Lemma queue_set_ne s p p' q :
  0 <= p -> 0 <= p' -> p <> p' -> queue (set_queue s p q) p' = queue s p'.
Proof.
  intros. unfold queue, set_queue; simpl. rewrite list_lookup_insert_ne; [done | lia].
Qed.

Lemma queue_set s p p' q :
  length (queues s) = 4%nat -> valid_priority p -> valid_priority p' ->
  queue (set_queue s p q) p' = if decide (p = p') then q else queue s p'.
Proof.
  intros Hl Hp Hp'. case_decide; [subst; by apply queue_set_eq |].
  apply queue_set_ne; unfold valid_priority in *; lia.
Qed.

Lemma queue_set_consecutiveP0 s c p : queue (set_consecutiveP0 s c) p = queue s p.
Proof. done. Qed.

Lemma queue_set_lastYield s y p : queue (set_lastYield s y) p = queue s p.
Proof. done. Qed.

Lemma queues_set_length s p q : length (queues (set_queue s p q)) = length (queues s).
Proof. unfold set_queue; simpl. apply length_insert. Qed.

#[export] Hint Rewrite queue_set_consecutiveP0 queue_set_lastYield queues_set_length : ucentral.

Lemma priority_cases p : valid_priority p -> p = 0 \/ p = 1 \/ p = 2 \/ p = 3.
Proof. unfold valid_priority. lia. Qed.

Lemma valid_round_robin s : valid_priority (lastYield s mod 3 + 1).
Proof. unfold valid_priority. pose proof (Z.mod_pos_bound (lastYield s) 3). lia. Qed.

(** ** What a dequeue does

    [dequeue_effect s p m s']: the message [m] left the head of queue [p],
    nothing else about the queues changed, and the counter of consecutive
    priority-0 messages was advanced or reset. *)
Record dequeue_effect (s : t) (p : Z) (m : OutboundMessage) (s' : t) : Prop := {
  de_valid : valid_priority p;
  de_head : queue s p = m :: queue s' p;
  de_other p' : valid_priority p' -> p' <> p -> queue s' p' = queue s p';
  de_length : length (queues s') = length (queues s);
  de_caps : capacity s' = capacity s /\ emergencyCap s' = emergencyCap s;
  de_counter : consecutiveP0 s' =
    if p =? 0 then wrap_int (consecutiveP0 s + 1) else 0;
}.

Lemma pop_Some s p m s' :
  length (queues s) = 4%nat -> valid_priority p -> pop s p = Some (m, s') ->
  queue s p = m :: queue s' p /\ s' = set_queue s p (queue s' p).
Proof.
  intros Hl Hp. unfold pop. destruct (queue s p) as [|m0 rest] eqn:Hq; [done|].
  intros [= -> <-]. by rewrite queue_set_eq.
Qed.

Lemma pop_None s p : pop s p = None <-> queue s p = [].
Proof. unfold pop. by destruct (queue s p). Qed.

Lemma pop_effect s p m s' c y :
  length (queues s) = 4%nat -> valid_priority p ->
  pop (set_lastYield s y) p = Some (m, s') ->
  c = (if p =? 0 then wrap_int (consecutiveP0 s + 1) else 0) ->
  dequeue_effect s p m (set_consecutiveP0 s' c) /\ lastYield s' = y /\
  consecutiveP0 s' = consecutiveP0 s.
Proof.
  intros Hl Hp Hpop ->. apply pop_Some in Hpop as [Hq ->]; [|done|done].
  rewrite queue_set_lastYield in Hq.
  set (q := queue s' p) in *. clearbody q. split; [|done].
  split; simpl; rewrite ?length_insert; try done.
  - rewrite queue_set_consecutiveP0, queue_set_eq; done.
  - intros p' Hp' Hne. rewrite queue_set_consecutiveP0, queue_set_ne; [done|..];
      unfold valid_priority in *; lia.
Qed.

Lemma normal_selection_spec ps s :
  length (queues s) = 4%nat -> Forall valid_priority ps ->
  match normal_selection ps s with
  | (Some m, s') => exists p, p ∈ ps /\ dequeue_effect s p m s' /\ lastYield s' = lastYield s /\
      (forall p', p' ∈ ps -> p' < p -> Sorted Z.lt ps -> queue s p' = [])
  | (None, s') => s' = s /\ forall p, p ∈ ps -> queue s p = []
  end.
Proof.
  intros Hl. induction 1 as [|p ps Hp Hps IH]; simpl.
  { split; [done|]. intros p Hp. by apply not_elem_of_nil in Hp. }
  destruct (pop s p) as [[m s1]|] eqn:Hpop.
  - replace s with (set_lastYield s (lastYield s)) in Hpop by by destruct s.
    destruct (pop_effect s p m s1 _ _ Hl Hp Hpop eq_refl) as (He & Hy & Hc).
    assert (Hlow : forall p', p' ∈ p :: ps -> p' < p ->
              Sorted Z.lt (p :: ps) -> queue s p' = []).
    { intros p' Hin Hlt Hs. apply Sorted_StronglySorted in Hs; [|intros ???; lia].
      inversion Hs as [|?? _ Hall]; subst. apply elem_of_cons in Hin as [->|Hin]; [lia|].
      rewrite Forall_forall in Hall. apply Hall in Hin. lia. }
    simpl in He, Hy. unfold PriorityHighest. rewrite Hc. revert He.
    destruct (p =? 0); intros He; (exists p; split; [set_solver|]); auto.
  - apply pop_None in Hpop.
    destruct (normal_selection ps s) as [[m|] s1].
    + destruct IH as (q & Hq & He & Hy & Hlow). exists q.
      split; [set_solver|]. do 2 (split; [done|]).
      intros p' [->|Hin]%elem_of_cons Hlt Hs; [done|].
      apply Hlow; [done | done | by inversion Hs].
    + destruct IH as [-> Hall]. split; [done|].
      intros q [->|Hq]%elem_of_cons; auto.
Qed.

(** The round-robin distance from the last yielded priority to [p]: how many
    priorities the loop looks at before [p]. *)
Definition rr_distance (y p : Z) : Z := (p - y - 1) mod 3.

Lemma rr_distance_range y p : 0 <= rr_distance y p < 3.
Proof. unfold rr_distance. apply Z.mod_pos_bound. lia. Qed.

Lemma rr_distance_zero y p :
  1 <= p <= 3 -> rr_distance y p = 0 -> y mod 3 + 1 = p.
Proof.
  unfold rr_distance. intros.
  pose proof (Z.mod_pos_bound y 3). pose proof (Z.div_mod y 3).
  pose proof (Z.div_mod (p - y - 1) 3). lia.
Qed.

Lemma rr_distance_next y p :
  0 < rr_distance y p -> rr_distance (y mod 3 + 1) p = rr_distance y p - 1.
Proof.
  unfold rr_distance. intros Hpos.
  pose proof (Z.mod_pos_bound (p - y - 1) 3 ltac:(lia)).
  pose proof (Z.div_mod y 3 ltac:(lia)) as Hy.
  pose proof (Z.div_mod (p - y - 1) 3 ltac:(lia)) as Hd.
  symmetry. apply Z.mod_unique_pos with (q := (p - y - 1) / 3 + y / 3); lia.
Qed.

(** The round-robin loop: with enough rounds to reach the non-empty queue
    [p] it yields something, from [p] itself or from a queue met before it. *)
Lemma anti_starvation_spec rounds s :
  length (queues s) = 4%nat ->
  match anti_starvation rounds s with
  | (Some m, s') => exists p, 1 <= p <= 3 /\ dequeue_effect s p m s' /\
      0 <= lastYield s' <= 3 /\
      forall p', 1 <= p' <= 3 -> queue s p' <> [] -> p' <> p ->
        rr_distance (lastYield s') p' + 1 <= rr_distance (lastYield s) p'
  | (None, s') => s' = set_lastYield s (lastYield s') /\
      (0 <= lastYield s <= 3 -> 0 <= lastYield s' <= 3) /\
      forall p, 1 <= p <= 3 -> rr_distance (lastYield s) p < Z.of_nat rounds -> queue s p = []
  end.
Proof.
  revert s. induction rounds as [|rounds IH]; intros s Hl; simpl.
  { destruct s; split; [done|]. split; [done|]. intros p _ Hd.
    pose proof (rr_distance_range lastYield0 p). simpl in *; lia. }
  set (r := lastYield s mod 3 + 1).
  pose proof (valid_round_robin s) as Hr. fold r in Hr.
  assert (1 <= r <= 3) as Hr'
    by (unfold r; pose proof (Z.mod_pos_bound (lastYield s) 3); lia).
  destruct (pop (set_lastYield s r) r) as [[m s1]|] eqn:Hpop.
  - destruct (pop_effect s r m s1 0 r Hl Hr Hpop) as (He & Hy & _).
    { destruct (Z.eqb_spec r 0); [lia | done]. }
    exists r. split; [done|]. split; [done|]. simpl. rewrite Hy.
    split; [unfold valid_priority in *; lia|].
    intros p' Hp' _ Hne. destruct (decide (rr_distance (lastYield s) p' = 0)) as [H0|H0].
    + apply rr_distance_zero in H0; [|done]. unfold r in Hne. lia.
    + pose proof (rr_distance_range (lastYield s) p').
      unfold r. rewrite rr_distance_next; lia.
  - apply pop_None in Hpop. rewrite queue_set_lastYield in Hpop.
    specialize (IH (set_lastYield s r) Hl).
    assert (Hstep : forall p, 1 <= p <= 3 -> queue s p <> [] ->
              rr_distance r p = rr_distance (lastYield s) p - 1).
    { intros p Hp Hq. unfold r. apply rr_distance_next.
      pose proof (rr_distance_range (lastYield s) p).
      destruct (decide (rr_distance (lastYield s) p = 0)) as [H0|]; [|lia].
      apply rr_distance_zero in H0; [|done]. fold r in H0. congruence. }
    destruct (anti_starvation rounds (set_lastYield s r)) as [[m|] s1].
    + destruct IH as (p & Hp & He & Hy & Hrr). exists p. split; [done|].
      split; [by destruct He; split|]. split; [done|].
      intros p' Hp' Hq Hne. specialize (Hrr p' Hp' Hq Hne). simpl in Hrr.
      rewrite Hstep in Hrr by done. lia.
    + destruct IH as (-> & Hy & Hall). split; [done|].
      split; [intros; apply Hy; simpl; unfold valid_priority in *; lia|].
      intros p Hp Hd. destruct (decide (queue s p = [])) as [|Hq]; [done|].
      apply (Hall p Hp). simpl. rewrite Hstep by done. lia.
Qed.

(** The whole of [tryDequeue]: an effect on one queue; strict priority while
    the counter is below ten; at ten, priority 0 only if the others are
    empty, and progress of the round robin towards every non-empty one. *)
Record dequeue_choice (s : t) (p : Z) (s' : t) : Prop := {
  dc_strict : consecutiveP0 s < 10 ->
    lastYield s' = lastYield s /\ forall p', 0 <= p' < p -> queue s p' = [];
  dc_forced : 10 <= consecutiveP0 s -> p = 0 ->
    forall p', 1 <= p' <= 3 -> queue s p' = [];
  dc_round_robin : 10 <= consecutiveP0 s ->
    forall p', 1 <= p' <= 3 -> queue s p' <> [] -> p' <> p ->
      rr_distance (lastYield s') p' + 1 <= rr_distance (lastYield s) p';
  dc_lastYield : 0 <= lastYield s <= 3 -> 0 <= lastYield s' <= 3;
}.

Lemma all_priorities_valid : Forall valid_priority [0; 1; 2; 3].
Proof. repeat constructor; unfold valid_priority; lia. Qed.

Lemma priority_in_all p : valid_priority p <-> p ∈ [0; 1; 2; 3].
Proof.
  unfold valid_priority. rewrite !elem_of_cons, elem_of_nil. lia.
Qed.

Lemma all_priorities_sorted : Sorted Z.lt [0; 1; 2; 3].
Proof. repeat constructor; lia. Qed.

Lemma dequeue_effect_lastYield s y p m s' :
  dequeue_effect (set_lastYield s y) p m s' -> dequeue_effect s p m s'.
Proof. by destruct 1; split. Qed.

Lemma tryDequeue_spec s :
  length (queues s) = 4%nat ->
  match tryDequeue s with
  | (Some m, s') => exists p, dequeue_effect s p m s' /\ dequeue_choice s p s'
  | (None, s') => (exists y, s' = set_lastYield s y) /\
      (0 <= lastYield s <= 3 -> 0 <= lastYield s' <= 3) /\
      forall p, valid_priority p -> queue s p = []
  end.
Proof.
  intros Hl. unfold tryDequeue. destruct (Z.leb_spec 10 (consecutiveP0 s)) as [Hc|Hc].
  - pose proof (anti_starvation_spec 3 s Hl) as Ha.
    destruct (anti_starvation 3 s) as [[m|] s1].
    { destruct Ha as (p & Hp & He & Hy & Hrr). exists p. split; [done|].
      split; [lia | lia | done | done]. }
    destruct Ha as (Hs1 & Hy & Hempty).
    assert (Hlow : forall p, 1 <= p <= 3 -> queue s p = []).
    { intros p Hp. apply Hempty; [done|]. pose proof (rr_distance_range (lastYield s) p). lia. }
    assert (length (queues s1) = 4%nat) as Hl1 by (by rewrite Hs1).
    pose proof (normal_selection_spec [0;1;2;3] s1 Hl1 all_priorities_valid) as Hn.
    destruct (normal_selection [0;1;2;3] s1) as [[m|] s2].
    + destruct Hn as (p & Hp%priority_in_all & He & Hy2 & _).
      rewrite Hs1 in He. apply dequeue_effect_lastYield in He.
      exists p. split; [done|]. split; [lia | | | rewrite Hy2; done].
      * intros _ _. done.
      * intros _ p' Hp' Hq. by rewrite Hlow in Hq.
    + destruct Hn as [-> Hall]. split; [by exists (lastYield s1)|]. split; [done|].
      intros p Hp%priority_in_all. specialize (Hall p Hp). by rewrite Hs1 in Hall.
  - pose proof (normal_selection_spec [0;1;2;3] s Hl all_priorities_valid) as Hn.
    destruct (normal_selection [0;1;2;3] s) as [[m|] s2].
    + destruct Hn as (p & Hp%priority_in_all & He & Hy2 & Hlow). exists p. split; [done|].
      split; [|lia|lia|by rewrite Hy2].
      intros _. split; [done|]. intros p' Hp'.
      apply Hlow; [apply priority_in_all; unfold valid_priority in *; lia | lia
                  | apply all_priorities_sorted].
    + destruct Hn as [-> Hall]. split; [exists (lastYield s); by destruct s|].
      split; [done|]. intros p Hp%priority_in_all. auto.
Qed.

(** ** Invariant preservation *)

Lemma new_wf c e s : NewPriorityScheduler c e = Some s -> wf s.
Proof.
  unfold NewPriorityScheduler. case_match eqn:E; [done|]. bool_to_prop.
  intros [= <-]. split; simpl; [done | lia | | | lia].
  - intros p Hp. unfold queue; simpl.
    destruct (priority_cases p Hp) as [->|[->|[->| ->]]]; simpl; lia.
  - intros p m Hp. unfold queue; simpl.
    destruct (priority_cases p Hp) as [->|[->|[->| ->]]]; simpl; set_solver.
Qed.

Lemma dequeue_effect_wf s p m s' :
  wf s -> dequeue_effect s p m s' -> 0 <= lastYield s' <= 3 -> wf s'.
Proof.
  intros [Hl Hcap Hb Hprio Hy] [Hv Hh Ho Hl' [Hc He] _] Hy'.
  split; [lia | by rewrite Hc, He | | | done].
  - intros q Hq. rewrite Hc, He. specialize (Hb q Hq).
    destruct (decide (q = p)) as [->|Hne]; [|rewrite Ho by done; lia].
    rewrite Hh in Hb. simpl in Hb. destruct (p =? 0); lia.
  - intros q x Hq Hx. apply Hprio; [done|].
    destruct (decide (q = p)) as [->|Hne]; [rewrite Hh; by right | by rewrite <- Ho].
Qed.

Lemma tryDequeue_wf s r s' : wf s -> tryDequeue s = (r, s') -> wf s'.
Proof.
  intros Hw Hd. pose proof (tryDequeue_spec s (wf_length s Hw)) as Hs. rewrite Hd in Hs.
  destruct r as [m|].
  - destruct Hs as (p & He & Hc). eapply dequeue_effect_wf; [done..|].
    apply (dc_lastYield _ _ _ Hc), Hw.
  - destruct Hs as ((y & ->) & Hy & _). destruct Hw. by split; auto.
Qed.

Lemma Push_cases s m :
  Push s m =
    if decide (valid_priority (Priority m)) then
      if isFull s (Priority m) then (s, Some ErrQueueFull, false)
      else (set_queue s (Priority m) (queue s (Priority m) ++ [m]), None, true)
    else (s, Some ErrInvalidPriority, false).
Proof.
  unfold Push, PriorityHighest, PriorityLow, valid_priority.
  destruct (Z.ltb_spec (Priority m) 0), (Z.ltb_spec 3 (Priority m));
    simpl; case_decide; try lia; done.
Qed.

Lemma Push_wf s m s' e b : wf s -> Push s m = (s', e, b) -> wf s'.
Proof.
  intros Hw. rewrite Push_cases. case_decide as Hv; [|by intros [= <- _ _]].
  destruct (isFull s (Priority m)) eqn:Hf; [by intros [= <- _ _]|]. intros [= <- _ _].
  destruct Hw as [Hl Hcap Hb Hprio Hy]. split; autorewrite with ucentral; simpl; [done..| | |done].
  - intros q Hq. rewrite queue_set by done. specialize (Hb q Hq).
    case_decide; [subst q|done]. rewrite length_app; simpl. unfold isFull, PriorityHighest in Hf.
    destruct (Priority m =? 0); bool_to_prop; lia.
  - intros q x Hq. rewrite queue_set by done. case_decide; [subst q|by auto].
    rewrite elem_of_app, list_elem_of_singleton. intros [?| ->]; auto.
Qed.

(** ** The scheduler implements the interface *)

Definition contents (s : t) : list OutboundMessage := concat (queues s).

#[global] Instance scheduler_interface : OutboundScheduler t := {|
  os_Push s m := let '(s', e, _) := Push s m in (s', e);
  os_Next := Next;
  os_contents := contents;
|}.

Lemma contents_four s :
  length (queues s) = 4%nat ->
  contents s = queue s 0 ++ queue s 1 ++ queue s 2 ++ queue s 3.
Proof.
  unfold contents, queue. destruct (queues s) as [|a [|b [|c [|d [|]]]]]; try done.
  intros _. simpl. by rewrite app_nil_r.
Qed.

Lemma dequeue_effect_contents s p m s' :
  length (queues s) = 4%nat -> dequeue_effect s p m s' ->
  contents s ≡ₚ m :: contents s'.
Proof.
  intros Hl [Hv Hh Ho Hl' _ _]. rewrite !contents_four by lia.
  assert (Hothers : forall q, valid_priority q -> q <> p -> queue s q = queue s' q)
    by (intros; symmetry; auto).
  destruct (priority_cases p Hv) as [->|[->|[->| ->]]]; rewrite Hh;
    rewrite !Hothers by (unfold valid_priority; lia); solve_Permutation.
Qed.

Lemma Push_contents s m s' b :
  wf s -> Push s m = (s', None, b) -> contents s' ≡ₚ m :: contents s.
Proof.
  intros Hw. rewrite Push_cases. case_decide as Hv; [|done].
  destruct (isFull s (Priority m)); [done|]. intros [= <- _].
  pose proof (wf_length s Hw) as Hl.
  rewrite !contents_four by (autorewrite with ucentral; done).
  assert (Hq : forall q, valid_priority q ->
    queue (set_queue s (Priority m) (queue s (Priority m) ++ [m])) q =
    if decide (Priority m = q) then queue s (Priority m) ++ [m] else queue s q)
    by (intros; by apply queue_set).
  rewrite !Hq by (unfold valid_priority; lia).
  destruct (priority_cases _ Hv) as [->|[->|[->| ->]]]; simpl; solve_Permutation.
Qed.

#[global] Instance scheduler_laws : OutboundSchedulerLaws t wf.
Proof.
  split; simpl.
  - intros s m s' Hw. destruct (Push s m) as [[s1 e] b] eqn:Hp. intros [= -> ->].
    split; [by eapply Push_wf | by eapply Push_contents].
  - intros s m s' e. rewrite Push_cases.
    case_decide; [destruct (isFull s (Priority m))|]; by intros [= <- _].
  - done.
  - intros s m s' Hw. unfold Next. destruct (tryDequeue s) as [[m0|] s1] eqn:Hd; [|done].
    intros [= -> ->]. split; [by eapply tryDequeue_wf|].
    pose proof (tryDequeue_spec s (wf_length s Hw)) as Hs. rewrite Hd in Hs.
    destruct Hs as (p & He & _). by eapply dequeue_effect_contents; [apply Hw|].
  - intros s s' Hw. unfold Next. destruct (tryDequeue s) as [[m0|] s1] eqn:Hd; [done|].
    intros [= ->]. split; [by eapply tryDequeue_wf|].
    pose proof (tryDequeue_spec s (wf_length s Hw)) as Hs. rewrite Hd in Hs.
    destruct Hs as ((y & ->) & _ & Hall).
    rewrite !contents_four by (simpl; apply Hw). rewrite !queue_set_lastYield.
    rewrite !Hall by (unfold valid_priority; lia). done.
  - intros s e. unfold Next. by destruct (tryDequeue s) as [[|] ?].
Qed.

(** ** No response waits for ever *)

Lemma Push_queue s m s' e b p :
  wf s -> valid_priority p -> Push s m = (s', e, b) ->
  queue s' p = queue s p ++
    match e with
    | Some _ => []
    | None => if decide (Priority m = p) then [m] else []
    end.
Proof.
  intros Hw Hp. rewrite Push_cases. case_decide as Hv.
  - destruct (isFull s (Priority m)); intros [= <- <- _]; [by rewrite app_nil_r|].
    rewrite queue_set by (auto; apply Hw). case_decide; subst; by rewrite ?app_nil_r.
  - intros [= <- <- _]. by rewrite app_nil_r.
Qed.

Lemma Push_counters s m s' e b :
  Push s m = (s', e, b) ->
  consecutiveP0 s' = consecutiveP0 s /\ lastYield s' = lastYield s.
Proof. rewrite Push_cases. repeat case_match; by intros [= <- _ _]. Qed.

(** The place of the first copy of a message. *)
Fixpoint place (m : OutboundMessage) (l : list OutboundMessage) : nat :=
  match l with
  | [] => 0
  | x :: l => if decide (x = m) then 0 else S (place m l)
  end.

Lemma place_app m l k : m ∈ l -> place m (l ++ k) = place m l.
Proof.
  induction l as [|x l IH]; [by intros ?%elem_of_nil|]. simpl. case_decide; [done|].
  intros [->|Hm]%elem_of_cons; [done|]. by rewrite IH.
Qed.

(** A message ahead of it costs two, so that one of another priority, let
    through after ten of priority 0, costs one. *)
Definition wait (s : t) (m : OutboundMessage) : nat :=
  2 * place m (queue s 0) + if 10 <=? consecutiveP0 s then 1 else 0.

Lemma in_contents s m :
  wf s -> Priority m = PriorityHighest -> m ∈ contents s <-> m ∈ queue s 0.
Proof.
  intros Hw Hm. rewrite contents_four by apply Hw. split; [|intros ?; apply elem_of_app; by left].
  assert (forall p, 1 <= p <= 3 -> m ∉ queue s p) as Hno.
  { intros p Hp Hin. apply (wf_priority s Hw) in Hin; [|unfold valid_priority; lia].
    unfold PriorityHighest in Hm. lia. }
  rewrite !elem_of_app. intros [?|[Hin|[Hin|Hin]]]; [done|..]; by apply Hno in Hin; [|lia].
Qed.

Lemma Push_wait s m m' s' b :
  wf s -> m ∈ queue s 0 -> Push s m' = (s', None, b) -> wait s' m = wait s m.
Proof.
  intros Hw Hin Hp. unfold wait. destruct (Push_counters _ _ _ _ _ Hp) as [-> _].
  rewrite (Push_queue _ _ _ _ _ 0 Hw ltac:(unfold valid_priority; lia) Hp). by rewrite place_app.
Qed.

Lemma tryDequeue_wait s m m' s' :
  wf s -> m ∈ queue s 0 -> tryDequeue s = (Some m', s') ->
  m' = m \/ m ∈ queue s' 0 /\ (wait s' m < wait s m)%nat.
Proof.
  intros Hw Hin Hd. pose proof (tryDequeue_spec s (wf_length s Hw)) as Hs. rewrite Hd in Hs.
  destruct Hs as (p & He & Hc). unfold wait. rewrite (de_counter _ _ _ _ He).
  destruct (Z.eqb_spec p 0) as [->|Hp].
  - rewrite (de_head _ _ _ _ He) in Hin |- *. simpl. destruct (decide (m' = m)) as [|Hne]; [by left|right].
    apply elem_of_cons in Hin as [->|Hin]; [done|]. split; [done|]. repeat case_match; lia.
  - right. rewrite (de_other _ _ _ _ He) by (unfold valid_priority; lia). split; [done|].
    destruct (Z.leb_spec 10 (consecutiveP0 s)) as [|Hlt]; simpl; [lia|].
    destruct (dc_strict _ _ _ Hc Hlt) as [_ Hempty]. pose proof (de_valid _ _ _ _ He) as Hv.
    rewrite Hempty in Hin; [by apply elem_of_nil in Hin|unfold valid_priority in Hv; lia].
Qed.

#[global] Instance scheduler_prompt : OutboundSchedulerPrompt t wf.
Proof.
  refine {| os_wait := wait |}; simpl.
  - intros s m m' s' Hw Hm Hin. destruct (Push s m') as [[s1 e] b] eqn:Hp. intros [= -> ->].
    rewrite in_contents in Hin by done. by rewrite (Push_wait _ _ _ _ _ Hw Hin Hp).
  - intros s m m' s' Hw Hm Hin. unfold Next. destruct (tryDequeue s) as [[m0|] s1] eqn:Hd; [|done].
    intros [= -> ->]. pose proof (tryDequeue_wf _ _ _ Hw Hd) as Hw'. rewrite in_contents in Hin |- * by done.
    by apply (tryDequeue_wait s).
Defined.

(** ** Runs

    A run is a sequence of operations, in the order in which the goroutines
    obtained [s.mu]: pushes and passes of [Next] by live consumers.  [run]
    collects the messages accepted by [Push] and those yielded by [Next]. *)
Inductive op := OpPush (m : OutboundMessage) | OpNext.

Fixpoint run (ops : list op) (s : t) : list OutboundMessage * list OutboundMessage * t :=
  match ops with
  | [] => ([], [], s)
  | OpPush m :: ops =>
      match Push s m with
      | (s, None, _) => let '(acc, out, s) := run ops s in (m :: acc, out, s)
      | (s, Some _, _) => run ops s
      end
  | OpNext :: ops =>
      match tryDequeue s with
      | (Some m, s) => let '(acc, out, s) := run ops s in (acc, m :: out, s)
      | (None, s) => run ops s
      end
  end.

(** The messages of one priority, in order. *)
Definition of_priority (p : Z) (l : list OutboundMessage) : list OutboundMessage :=
  filter (fun m => Priority m = p) l.

Lemma dequeue_effect_priority s p m s' :
  wf s -> dequeue_effect s p m s' -> Priority m = p.
Proof.
  intros Hw He. apply (wf_priority s Hw); [apply He|]. rewrite (de_head _ _ _ _ He). by left.
Qed.

(** C39: no message is lost, duplicated or reordered within its priority: for
    every run and every priority, what was queued followed by what [Push]
    accepted is what [Next] yielded followed by what is still queued. *)
Theorem scheduler_fifo_per_priority ops s acc out s' p :
  wf s -> valid_priority p -> run ops s = (acc, out, s') ->
  queue s p ++ of_priority p acc = of_priority p out ++ queue s' p.
Proof.
  intros Hw Hp. revert s Hw acc out. unfold of_priority.
  induction ops as [|[m|] ops IH]; intros s Hw acc out; simpl.
  - intros [= <- <- <-]. by rewrite app_nil_r.
  - destruct (Push s m) as [[s1 e] b] eqn:Hpush.
    pose proof (Push_wf _ _ _ _ _ Hw Hpush) as Hw1.
    pose proof (Push_queue _ _ _ _ _ p Hw Hp Hpush) as Hq. destruct e as [e|].
    + intros Hr. rewrite <- (IH s1 Hw1 _ _ Hr), Hq. by rewrite app_nil_r.
    + destruct (run ops s1) as [[acc1 out1] s2] eqn:Hr. intros [= <- <- <-].
      rewrite <- (IH s1 Hw1 _ _ Hr), Hq, filter_cons.
      case_decide; rewrite <- ?app_assoc; done.
  - destruct (tryDequeue s) as [[m|] s1] eqn:Hd;
      pose proof (tryDequeue_wf _ _ _ Hw Hd) as Hw1;
      pose proof (tryDequeue_spec s (wf_length s Hw)) as Hs; rewrite Hd in Hs.
    + destruct Hs as (q & He & _). pose proof (dequeue_effect_priority _ _ _ _ Hw He) as Hm.
      destruct (run ops s1) as [[acc1 out1] s2] eqn:Hr. intros [= <- <- <-].
      specialize (IH s1 Hw1 _ _ Hr). rewrite filter_cons. case_decide as Hqp.
      * assert (q = p) as -> by congruence.
        rewrite (de_head _ _ _ _ He). simpl. by f_equal.
      * rewrite <- IH, (de_other _ _ _ _ He); [done | done | congruence].
    + destruct Hs as ((y & Hy) & _). intros Hr. rewrite <- (IH s1 Hw1 _ _ Hr).
      by rewrite Hy, queue_set_lastYield.
Qed.

(** ** Fairness *)

(** How many priority-0 messages may still be yielded before the
    anti-starvation branch is entered. *)
Definition credit (s : t) : Z := Z.max 0 (10 - consecutiveP0 s).

Lemma counter_step s : 0 <= consecutiveP0 s < 10 ->
  wrap_int (consecutiveP0 s + 1) = consecutiveP0 s + 1.
Proof. intros. apply wrap_int_small. unfold min_int64, max_int64. lia. Qed.

Lemma dequeue_keeps_lower s q m s' p :
  dequeue_effect s q m s' -> q <> p -> valid_priority p ->
  queue s p <> [] -> queue s' p <> [].
Proof. intros He Hne Hp. rewrite (de_other _ _ _ _ He); auto. Qed.

Lemma Push_keeps s m s' e b p :
  wf s -> valid_priority p -> Push s m = (s', e, b) -> queue s p <> [] -> queue s' p <> [].
Proof.
  intros Hw Hp Hpush. rewrite (Push_queue _ _ _ _ _ p Hw Hp Hpush).
  by destruct (queue s p).
Qed.

(** While a lower priority waits, a priority-0 message costs one credit. *)
Lemma dequeue_credit s m s' p :
  wf s -> 0 <= consecutiveP0 s -> 1 <= p <= 3 -> queue s p <> [] ->
  tryDequeue s = (Some m, s') -> Priority m = 0 ->
  0 <= consecutiveP0 s' /\ credit s = credit s' + 1 /\ queue s' p <> [].
Proof.
  intros Hw Hc Hp Hq Hd Hm. pose proof (tryDequeue_spec s (wf_length s Hw)) as Hs.
  rewrite Hd in Hs. destruct Hs as (q & He & Hch).
  pose proof (dequeue_effect_priority _ _ _ _ Hw He) as Hmq.
  assert (q = 0) as -> by congruence.
  destruct (Z_lt_le_dec (consecutiveP0 s) 10) as [Hlt|Hge].
  - pose proof (de_counter _ _ _ _ He) as Hcnt. simpl in Hcnt.
    rewrite counter_step in Hcnt by lia. unfold credit. rewrite Hcnt.
    split; [lia|]. split; [lia|].
    eapply dequeue_keeps_lower; [done | lia | unfold valid_priority; lia | done].
  - destruct Hq. by apply (dc_forced _ _ _ Hch).
Qed.

Lemma run_only_P0_bounded ops s acc out s' p :
  wf s -> 0 <= consecutiveP0 s -> 1 <= p <= 3 -> queue s p <> [] ->
  run ops s = (acc, out, s') -> Forall (fun m => Priority m = 0) out ->
  Z.of_nat (length out) <= credit s.
Proof.
  intros Hw Hc Hp Hq. revert s Hw Hc Hq acc out.
  induction ops as [|[m|] ops IH]; intros s Hw Hc Hq acc out; simpl.
  - intros [= _ <- _] _. simpl. unfold credit. lia.
  - destruct (Push s m) as [[s1 e] b] eqn:Hpush.
    destruct (Push_counters _ _ _ _ _ Hpush) as [Hc1 _].
    pose proof (Push_wf _ _ _ _ _ Hw Hpush) as Hw1.
    pose proof (Push_keeps _ _ _ _ _ p Hw ltac:(unfold valid_priority; lia) Hpush Hq) as Hq1.
    assert (credit s1 = credit s) as <- by (unfold credit; by rewrite Hc1).
    destruct e; [by apply (IH s1 Hw1 ltac:(lia) Hq1)|].
    destruct (run ops s1) as [[acc1 out1] s2] eqn:Hr. intros [= _ <- <-].
    by apply (IH s1 Hw1 ltac:(lia) Hq1 acc1).
  - destruct (tryDequeue s) as [[m|] s1] eqn:Hd.
    + destruct (run ops s1) as [[acc1 out1] s2] eqn:Hr. intros [= _ <- <-] Hall.
      inversion Hall as [|?? Hm Hall']; subst.
      destruct (dequeue_credit s m s1 p Hw Hc Hp Hq Hd Hm) as (Hc1 & Hcr & Hq1).
      pose proof (tryDequeue_wf _ _ _ Hw Hd) as Hw1.
      specialize (IH s1 Hw1 Hc1 Hq1 _ _ Hr Hall'). simpl. lia.
    + pose proof (tryDequeue_spec s (wf_length s Hw)) as Hs. rewrite Hd in Hs.
      destruct Hs as (_ & _ & Hall). destruct Hq. apply Hall. unfold valid_priority; lia.
Qed.

(** C38: the anti-starvation rule (REQ-014).  While some queue of priority 1, 2
    or 3 is non-empty, a run cannot yield more than ten messages that are all
    of priority 0, whatever is pushed in between. *)
Theorem scheduler_no_starvation ops s acc out s' p :
  wf s -> 0 <= consecutiveP0 s -> 1 <= p <= 3 -> queue s p <> [] ->
  run ops s = (acc, out, s') -> Forall (fun m => Priority m = PriorityHighest) out ->
  Z.of_nat (length out) <= 10.
Proof.
  intros Hw Hc Hp Hq Hr Hall.
  pose proof (run_only_P0_bounded ops s acc out s' p Hw Hc Hp Hq Hr Hall) as Hb.
  unfold credit in Hb. lia.
Qed.

(** Priority 0 has a message at every dequeue of the run. *)
Fixpoint p0_flooded (ops : list op) (s : t) : Prop :=
  match ops with
  | [] => True
  | OpPush m :: ops => p0_flooded ops (Push s m).1.1
  | OpNext :: ops => queue s 0 <> [] /\ p0_flooded ops (tryDequeue s).2
  end.

(** The number of messages that may be yielded before one of priority [p]. *)
Definition patience (s : t) (p : Z) : Z := credit s + 11 * rr_distance (lastYield s) p.

Lemma dequeue_patience s m s' p :
  wf s -> 0 <= consecutiveP0 s -> 1 <= p <= 3 -> queue s p <> [] -> queue s 0 <> [] ->
  tryDequeue s = (Some m, s') -> Priority m <> p ->
  0 <= consecutiveP0 s' /\ patience s' p + 1 <= patience s p /\ queue s' p <> [].
Proof.
  intros Hw Hc Hp Hq Hq0 Hd Hm. pose proof (tryDequeue_spec s (wf_length s Hw)) as Hs.
  rewrite Hd in Hs. destruct Hs as (q & He & Hch).
  pose proof (dequeue_effect_priority _ _ _ _ Hw He) as Hmq.
  pose proof (de_valid _ _ _ _ He) as Hvq.
  assert (queue s' p <> []) as Hq'
    by (eapply dequeue_keeps_lower; [done | congruence | unfold valid_priority; lia | done]).
  pose proof (de_counter _ _ _ _ He) as Hcnt. unfold patience, credit.
  destruct (Z_lt_le_dec (consecutiveP0 s) 10) as [Hlt|Hge].
  - destruct (dc_strict _ _ _ Hch Hlt) as [Hy Hempty].
    assert (q = 0) as ->.
    { destruct (decide (q = 0)) as [|Hne]; [done|]. destruct Hq0. apply Hempty.
      unfold valid_priority in Hvq. lia. }
    simpl in Hcnt. rewrite counter_step in Hcnt by lia. rewrite Hcnt, Hy.
    split_and!; [lia | lia | done].
  - assert (q <> 0) as Hq0'.
    { intros ->. destruct Hq. by apply (dc_forced _ _ _ Hch). }
    assert (p <> q) as Hpq by congruence.
    pose proof (dc_round_robin _ _ _ Hch Hge p Hp Hq Hpq).
    destruct (Z.eqb_spec q 0); [done|]. rewrite Hcnt. split_and!; [lia | lia | done].
Qed.

(** under a permanent flood of priority-0 traffic the round robin serves
    every class: a run that yields no message of a waiting priority [p]
    (1, 2 or 3) has yielded at most 32 messages. *)
Theorem scheduler_round_robin_fair ops s acc out s' p :
  wf s -> 0 <= consecutiveP0 s -> 1 <= p <= 3 -> queue s p <> [] ->
  p0_flooded ops s ->
  run ops s = (acc, out, s') -> Forall (fun m => Priority m <> p) out ->
  Z.of_nat (length out) <= 32.
Proof.
  intros Hw Hc Hp Hq Hf Hr Hall.
  assert (Hb : Z.of_nat (length out) <= patience s p); cycle 1.
  { unfold patience, credit in Hb. pose proof (rr_distance_range (lastYield s) p). lia. }
  revert s Hw Hc Hq Hf acc out Hr Hall.
  induction ops as [|[m|] ops IH]; intros s Hw Hc Hq Hf acc out; simpl in *.
  - intros [= _ <- _] _. unfold patience, credit.
    pose proof (rr_distance_range (lastYield s) p). simpl. lia.
  - destruct (Push s m) as [[s1 e] b] eqn:Hpush. simpl in Hf.
    destruct (Push_counters _ _ _ _ _ Hpush) as [Hc1 Hy1].
    pose proof (Push_wf _ _ _ _ _ Hw Hpush) as Hw1.
    pose proof (Push_keeps _ _ _ _ _ p Hw ltac:(unfold valid_priority; lia) Hpush Hq) as Hq1.
    assert (patience s1 p = patience s p) as <-
      by (unfold patience, credit; by rewrite Hc1, Hy1).
    destruct e; [by apply (IH s1 Hw1 ltac:(lia) Hq1 Hf)|].
    destruct (run ops s1) as [[acc1 out1] s2] eqn:Hr. intros [= _ <- <-].
    by apply (IH s1 Hw1 ltac:(lia) Hq1 Hf acc1).
  - destruct Hf as [Hq0 Hf]. destruct (tryDequeue s) as [[m|] s1] eqn:Hd.
    + destruct (run ops s1) as [[acc1 out1] s2] eqn:Hr. intros [= _ <- <-] Hall.
      inversion Hall as [|?? Hm Hall']; subst.
      destruct (dequeue_patience s m s1 p Hw Hc Hp Hq Hq0 Hd Hm) as (Hc1 & Hpat & Hq1).
      pose proof (tryDequeue_wf _ _ _ Hw Hd) as Hw1. simpl in Hf.
      specialize (IH s1 Hw1 Hc1 Hq1 Hf _ _ Hr Hall'). simpl. lia.
    + pose proof (tryDequeue_spec s (wf_length s Hw)) as Hs. rewrite Hd in Hs.
      destruct Hs as (_ & _ & Hall). destruct Hq. apply Hall. unfold valid_priority; lia.
Qed.

Lemma run_wf ops s acc out s' : wf s -> run ops s = (acc, out, s') -> wf s'.
Proof.
  revert s acc out. induction ops as [|[m|] ops IH]; intros s acc out Hw; simpl.
  - by intros [= _ _ <-].
  - destruct (Push s m) as [[s1 e] b] eqn:Hpush.
    pose proof (Push_wf _ _ _ _ _ Hw Hpush) as Hw1. destruct e; [by apply IH|].
    destruct (run ops s1) as [[a o] s2] eqn:Hr. intros [= _ _ <-]. eauto.
  - destruct (tryDequeue s) as [[m|] s1] eqn:Hd;
      pose proof (tryDequeue_wf _ _ _ Hw Hd) as Hw1; [|by apply IH].
    destruct (run ops s1) as [[a o] s2] eqn:Hr. intros [= _ _ <-]. eauto.
Qed.

Lemma run_caps ops s acc out s' :
  wf s -> run ops s = (acc, out, s') ->
  capacity s' = capacity s /\ emergencyCap s' = emergencyCap s.
Proof.
  revert s acc out. induction ops as [|[m|] ops IH]; intros s acc out Hw; simpl.
  - by intros [= _ _ <-].
  - destruct (Push s m) as [[s1 e] b] eqn:Hpush.
    pose proof (Push_wf _ _ _ _ _ Hw Hpush) as Hw1.
    assert (capacity s1 = capacity s /\ emergencyCap s1 = emergencyCap s) as [<- <-].
    { rewrite Push_cases in Hpush. case_decide; [destruct (isFull s (Priority m))|];
        by injection Hpush as <- _ _. }
    destruct e; [by apply IH|].
    destruct (run ops s1) as [[a o] s2] eqn:Hr. intros [= _ _ <-]. eauto.
  - pose proof (tryDequeue_spec s (wf_length s Hw)) as Hs.
    destruct (tryDequeue s) as [[m|] s1] eqn:Hd;
      pose proof (tryDequeue_wf _ _ _ Hw Hd) as Hw1.
    + destruct Hs as (p & He & _). destruct (de_caps _ _ _ _ He) as [<- <-].
      destruct (run ops s1) as [[a o] s2] eqn:Hr. intros [= _ _ <-]. eauto.
    + destruct Hs as ((y & ->) & _). intros Hr.
      apply (IH _ _ _ Hw1 Hr).
Qed.

(** memory bound.  Whatever is pushed and dequeued, a scheduler created
    with [NewPriorityScheduler c e] never holds more than [e] messages of
    priority 0 and [c] of each other priority, [e + 3 c] in all. *)
Theorem scheduler_bounded c e s0 ops acc out s' :
  NewPriorityScheduler c e = Some s0 -> run ops s0 = (acc, out, s') ->
  (forall p, valid_priority p ->
     Z.of_nat (length (queue s' p)) <= (if p =? 0 then e else c)) /\
  Z.of_nat (length (contents s')) <= e + 3 * c.
Proof.
  intros Hnew Hr. pose proof (new_wf _ _ _ Hnew) as Hw.
  pose proof (run_wf _ _ _ _ _ Hw Hr) as Hw'.
  pose proof (run_caps _ _ _ _ _ Hw Hr) as [Hc He].
  unfold NewPriorityScheduler in Hnew. case_match; [done|]. injection Hnew as <-.
  simpl in Hc, He.
  assert (Hb : forall p, valid_priority p ->
     Z.of_nat (length (queue s' p)) <= (if p =? 0 then e else c)).
  { intros p Hp. rewrite <- Hc, <- He. by apply (wf_bounded s' Hw'). }
  split; [done|]. rewrite contents_four by apply Hw'. rewrite !length_app.
  pose proof (Hb 0 ltac:(unfold valid_priority; lia)).
  pose proof (Hb 1 ltac:(unfold valid_priority; lia)).
  pose proof (Hb 2 ltac:(unfold valid_priority; lia)).
  pose proof (Hb 3 ltac:(unfold valid_priority; lia)). simpl in *. lia.
Qed.

(** ** Witnesses *)

Definition demo_msg (p : Z) : OutboundMessage := mkMsg "sess-1" p "x".

(** Twelve responses, then one message of each other priority. *)
Definition demo_pushes : list op :=
  replicate 12 (OpPush (demo_msg 0)) ++ [OpPush (demo_msg 1); OpPush (demo_msg 2); OpPush (demo_msg 3)].

Definition demo_new : t := mk [[]; []; []; []] 8 64 0 0.
Definition demo_state : t := (run demo_pushes demo_new).2.

Lemma demo_new_wf : wf demo_new.
Proof. apply (new_wf 8 64). vm_compute. reflexivity. Qed.

Lemma demo_state_wf : wf demo_state.
Proof.
  unfold demo_state. destruct (run demo_pushes demo_new) as [[a o] s] eqn:H.
  by apply (run_wf _ _ _ _ _ demo_new_wf H).
Qed.

Lemma scheduler_fifo_per_priority_witness :
  queue demo_new 0 ++ of_priority 0 (run (demo_pushes ++ [OpNext; OpNext]) demo_new).1.1 =
  of_priority 0 (run (demo_pushes ++ [OpNext; OpNext]) demo_new).1.2 ++
  queue (run (demo_pushes ++ [OpNext; OpNext]) demo_new).2 0.
Proof.
  apply (scheduler_fifo_per_priority (demo_pushes ++ [OpNext; OpNext]) demo_new);
    [apply demo_new_wf | unfold valid_priority; lia | vm_compute; reflexivity].
Defined.

Lemma scheduler_no_starvation_witness :
  length (run (replicate 10 OpNext) demo_state).1.2 = 10%nat /\
  Z.of_nat (length (run (replicate 10 OpNext) demo_state).1.2) <= 10.
Proof.
  split; [vm_compute; reflexivity|].
  apply (scheduler_no_starvation (replicate 10 OpNext) demo_state
           (run (replicate 10 OpNext) demo_state).1.1
           (run (replicate 10 OpNext) demo_state).1.2
           (run (replicate 10 OpNext) demo_state).2 3);
    [apply demo_state_wf | vm_compute; discriminate | lia | vm_compute; discriminate
    | vm_compute; reflexivity | vm_compute; repeat constructor].
Defined.

(** Priority 0 refilled at every dequeue: 32 messages pass before the first of
    priority 3, so the bound is reached. *)
Definition demo_flood : list op :=
  concat (replicate 32 [OpPush (demo_msg 0); OpNext]).

Lemma scheduler_round_robin_fair_witness :
  length (run demo_flood demo_state).1.2 = 32%nat /\
  Z.of_nat (length (run demo_flood demo_state).1.2) <= 32.
Proof.
  split; [vm_compute; reflexivity|].
  apply (scheduler_round_robin_fair demo_flood demo_state
           (run demo_flood demo_state).1.1 (run demo_flood demo_state).1.2
           (run demo_flood demo_state).2 3);
    [apply demo_state_wf | vm_compute; discriminate | lia | vm_compute; discriminate
    | vm_compute; repeat split; discriminate
    | vm_compute; reflexivity
    | vm_compute; repeat (constructor; [discriminate|]); constructor].
Defined.

Lemma scheduler_bounded_witness :
  Z.of_nat (length (contents demo_state)) <= 64 + 3 * 8.
Proof.
  apply (scheduler_bounded 8 64 demo_new demo_pushes
           (run demo_pushes demo_new).1.1 (run demo_pushes demo_new).1.2 demo_state);
    vm_compute; reflexivity.
Defined.

End PriorityScheduler.
