(* ===== verification/RingBuffer.v ===== *)
(** * The telemetry ring buffer ([pkg/queues/buffer.go])

    A bounded FIFO over a fixed array with head, tail and size indices; a push
    into a full buffer overwrites the oldest entry.  The theorems relate it to
    a plain list that drops its first element when full. *)

From S2P Require Import Prelude.

Module TelemetryRingBuffer.

(** An array slot is a [[]byte], nil ([None]) when it holds no payload. *)
Record t := mk {
  buffer : list (option string);
  capacity : Z;
  head : Z;
  tail : Z;
  size : Z;
}.

(** Panics ([None]) on a non-positive capacity, and in [make] on one that is
    too large. *)
Definition NewTelemetryRingBuffer (capacity : Z) : option t :=
  if capacity <=? 0 then None
  else if negb (make_slice_ok slice_header capacity) then None
  else Some (mk (replicate (Z.to_nat capacity) None) capacity 0 0 0).

Definition Push (b : t) (payload : string) : t * bool :=
  let cloned := payload in
  if size b =? capacity b then
    (mk (<[Z.to_nat (head b) := Some cloned]> (buffer b)) (capacity b)
        ((head b + 1) mod capacity b) ((tail b + 1) mod capacity b) (size b),
     true)
  else
    (mk (<[Z.to_nat (tail b) := Some cloned]> (buffer b)) (capacity b)
        (head b) ((tail b + 1) mod capacity b) (size b + 1),
     false).

(** The payload returned is nil exactly when the boolean is false. *)
Definition Pop (b : t) : t * (option string * bool) :=
  if size b =? 0 then (b, (None, false)) else
  let msg := mjoin (buffer b !! Z.to_nat (head b)) in
  (mk (<[Z.to_nat (head b) := None]> (buffer b)) (capacity b)
      ((head b + 1) mod capacity b) (tail b) (size b - 1),
   (msg, true)).

(** ** Invariant and abstraction *)

(** The array position of the [i]-th oldest entry. *)
Definition slot (b : t) (i : nat) : nat :=
  Z.to_nat ((head b + Z.of_nat i) mod capacity b).

(** The payloads held, oldest first. *)
Definition entries (b : t) : list (option string) :=
  (fun i => mjoin (buffer b !! slot b i)) <$> seq 0 (Z.to_nat (size b)).

Record wf (b : t) (q : list string) : Prop := {
  wf_cap : 0 < capacity b;
  wf_len : length (buffer b) = Z.to_nat (capacity b);
  wf_head : 0 <= head b < capacity b;
  wf_size : 0 <= size b <= capacity b;
  wf_tail : tail b = (head b + size b) mod capacity b;
  wf_entries : entries b = Some <$> q;
}.

Lemma mod_shift_inj c h i j :
  0 < c -> 0 <= i < c -> 0 <= j < c -> (h + i) mod c = (h + j) mod c -> i = j.
Proof.
  intros Hc Hi Hj Heq.
  pose proof (Z.div_mod (h + i) c ltac:(lia)) as Hdi.
  pose proof (Z.div_mod (h + j) c ltac:(lia)) as Hdj. rewrite Heq in Hdi.
  revert Hdi Hdj. generalize ((h + i) / c) ((h + j) / c). intros qi qj Hdi Hdj.
  assert (qi <= qj) by nia. assert (qj <= qi) by nia. assert (qi = qj) as -> by lia. lia.
Qed.

Lemma mod_succ c h i : 0 < c -> ((h + 1) mod c + i) mod c = (h + (i + 1)) mod c.
Proof. intros. rewrite Zplus_mod_idemp_l. f_equal. lia. Qed.

Lemma mod_wrap c h : 0 < c -> 0 <= h < c -> (h + c) mod c = h.
Proof. intros. rewrite <- (Z.mul_1_l c) at 1. rewrite Z.mod_add; [apply Z.mod_small|]; lia. Qed.

Lemma slot_S b i :
  Z.to_nat ((head b + (Z.of_nat i + 1)) mod capacity b) = slot b (S i).
Proof. unfold slot. do 3 f_equal. lia. Qed.

Lemma slot_lt b q i : wf b q -> (slot b i < length (buffer b))%nat.
Proof.
  intros [Hc Hl _ _ _ _]. unfold slot. rewrite Hl.
  pose proof (Z.mod_pos_bound (head b + Z.of_nat i) (capacity b) Hc). lia.
Qed.

Lemma slot_ne b q i j :
  wf b q -> Z.of_nat i < capacity b -> Z.of_nat j < capacity b -> i <> j -> slot b i <> slot b j.
Proof.
  intros [Hc _ _ _ _ _] Hi Hj Hne Heq. unfold slot in Heq. apply Hne.
  pose proof (Z.mod_pos_bound (head b + Z.of_nat i) (capacity b) Hc).
  pose proof (Z.mod_pos_bound (head b + Z.of_nat j) (capacity b) Hc).
  apply Z2Nat.inj in Heq; [|lia|lia].
  apply mod_shift_inj in Heq; lia.
Qed.

Lemma wf_length b q : wf b q -> Z.of_nat (length q) = size b.
Proof.
  intros [_ _ _ Hs _ He].
  assert (length (entries b) = length (Some <$> q)) as Hlen by (by rewrite He).
  unfold entries in Hlen. rewrite !length_fmap, length_seq in Hlen. lia.
Qed.

(** Reading the array through [entries]. *)
Lemma entries_lookup b q i :
  wf b q -> (i < length q)%nat -> mjoin (buffer b !! slot b i) = q !! i.
Proof.
  intros Hw Hi. pose proof (wf_length b q Hw) as Hs.
  assert (entries b !! i = (Some <$> q) !! i) as H by (by rewrite (wf_entries b q Hw)).
  unfold entries in H. rewrite !list_lookup_fmap, lookup_seq_lt in H by lia. simpl in H.
  destruct (lookup_lt_is_Some_2 q i Hi) as [x Hx]. rewrite Hx in H |- *. by injection H.
Qed.

(** To show [entries b = Some <$> q] it is enough to look at every position. *)
Lemma entries_intro b q :
  Z.of_nat (length q) = size b ->
  (forall i, (i < length q)%nat -> mjoin (buffer b !! slot b i) = q !! i) ->
  entries b = Some <$> q.
Proof.
  intros Hs Hall. unfold entries. replace (Z.to_nat (size b)) with (length q) by lia.
  apply list_eq. intros i. rewrite !list_lookup_fmap.
  destruct (decide (i < length q)%nat) as [Hi|Hi].
  - rewrite lookup_seq_lt by done. simpl. rewrite Hall by done.
    destruct (lookup_lt_is_Some_2 q i Hi) as [x ->]. done.
  - rewrite lookup_seq_ge by lia. by rewrite (lookup_ge_None_2 q) by lia.
Qed.

(** ** The specification: a list that drops its oldest element when full *)

Definition spec_push (cap : Z) (q : list string) (x : string) : list string * bool :=
  if Z.of_nat (length q) =? cap then (List.tl q ++ [x], true) else (q ++ [x], false).

Definition spec_pop (q : list string) : list string * (option string * bool) :=
  match q with [] => ([], (None, false)) | x :: q => (q, (Some x, true)) end.

Lemma new_refines c b : NewTelemetryRingBuffer c = Some b -> wf b [] /\ capacity b = c.
Proof.
  unfold NewTelemetryRingBuffer. destruct (Z.leb_spec c 0); [done|]. destruct (negb _); [done|]. intros [= <-].
  split; [|done]. split; simpl; rewrite ?length_replicate; try lia; [|done].
  by rewrite Z.mod_small by lia.
Qed.

(** It panics for no other capacity. *)
Lemma new_panics c : NewTelemetryRingBuffer c = None <-> c <= 0 \/ maxAlloc < c * slice_header.
Proof.
  unfold NewTelemetryRingBuffer, make_slice_ok. destruct (Z.leb_spec c 0); [naive_solver lia|].
  destruct (Z.leb_spec 0 c); [|lia]. cbn [andb].
  destruct (Z.leb_spec (c * slice_header) maxAlloc); cbn [negb]; [split; [done|lia]|naive_solver].
Qed.

Lemma Push_refines b q x :
  wf b q ->
  wf (Push b x).1 (spec_push (capacity b) q x).1 /\
  capacity (Push b x).1 = capacity b /\
  (Push b x).2 = (spec_push (capacity b) q x).2.
Proof.
  intros Hw. pose proof (wf_length b q Hw) as Hlen. pose proof Hw as [Hc Hl Hh Hs Ht _].
  unfold Push, spec_push. rewrite Hlen.
  destruct (Z.eqb_spec (size b) (capacity b)) as [Hfull|Hfull]; simpl; (split; [|done]).
  - assert (Hhead : slot b 0 = Z.to_nat (head b))
      by (unfold slot; rewrite Z.add_0_r, Z.mod_small; done).
    split; simpl; rewrite ?length_insert; try done.
    + by apply Z.mod_pos_bound.
    + rewrite Ht, Zplus_mod_idemp_l, Zplus_mod_idemp_l. f_equal. lia.
    + destruct q as [|q0 q]; simpl in *; [lia|]. apply entries_intro.
      { rewrite length_app; simpl. lia. }
      intros i Hi. rewrite length_app in Hi. simpl in Hi. unfold slot; simpl.
      rewrite mod_succ by done. destruct (decide (i = length q)) as [->|Hne].
      * replace (Z.of_nat (length q) + 1) with (capacity b) by lia.
        rewrite mod_wrap by done. rewrite list_lookup_insert_eq by lia.
        rewrite lookup_app_r, Nat.sub_diag by lia. done.
      * rewrite lookup_app_l, slot_S by lia.
        rewrite <- Hhead, list_lookup_insert_ne by (eapply slot_ne; [done|lia..]).
        apply (entries_lookup b (q0 :: q)); [done | simpl; lia].
  - assert (Htail : slot b (length q) = Z.to_nat (tail b))
      by (unfold slot; by rewrite Hlen, Ht).
    split; simpl; rewrite ?length_insert; try done; [lia|..].
    + rewrite Ht, Zplus_mod_idemp_l. f_equal. lia.
    + apply entries_intro; simpl; [rewrite length_app; simpl; lia|].
      intros i Hi. rewrite length_app in Hi. simpl in Hi.
      change (slot _ i) with (slot b i). rewrite <- Htail.
      destruct (decide (i = length q)) as [->|Hne].
      * rewrite list_lookup_insert_eq by (eapply slot_lt; done).
        rewrite lookup_app_r, Nat.sub_diag by lia. done.
      * rewrite list_lookup_insert_ne by (eapply slot_ne; [done|lia..]).
        rewrite lookup_app_l by lia. apply entries_lookup; [done|lia].
Qed.

Lemma Pop_refines b q :
  wf b q ->
  wf (Pop b).1 (spec_pop q).1 /\ capacity (Pop b).1 = capacity b /\ (Pop b).2 = (spec_pop q).2.
Proof.
  intros Hw. pose proof (wf_length b q Hw) as Hlen. pose proof Hw as [Hc Hl Hh Hs Ht _].
  unfold Pop. destruct q as [|q0 q]; simpl in Hlen.
  - destruct (Z.eqb_spec (size b) 0); [done | lia].
  - destruct (Z.eqb_spec (size b) 0) as [|_]; [lia|]. simpl.
    assert (Hhead : slot b 0 = Z.to_nat (head b))
      by (unfold slot; rewrite Z.add_0_r, Z.mod_small; done).
    split; [|split; [done|]].
    + split; simpl; rewrite ?length_insert; try done; [by apply Z.mod_pos_bound | lia | |].
      * rewrite Ht, Zplus_mod_idemp_l. f_equal. lia.
      * apply entries_intro; simpl; [lia|]. intros i Hi. unfold slot; simpl.
        rewrite mod_succ, slot_S by done.
        rewrite <- Hhead, list_lookup_insert_ne by (eapply slot_ne; [done|lia..]).
        apply (entries_lookup b (q0 :: q)); [done | simpl; lia].
    + rewrite <- Hhead, (entries_lookup b (q0 :: q) 0 Hw) by (simpl; lia). done.
Qed.

(** ** Runs *)

Inductive op := OpPush (x : string) | OpPop.

(** What an operation returns to its caller. *)
Inductive reply := Dropped (dropped : bool) | Popped (payload : option string) (ok : bool).

Fixpoint run (ops : list op) (b : t) : list reply :=
  match ops with
  | [] => []
  | OpPush x :: ops => let '(b, d) := Push b x in Dropped d :: run ops b
  | OpPop :: ops => let '(b, (p, ok)) := Pop b in Popped p ok :: run ops b
  end.

Fixpoint spec_run (cap : Z) (ops : list op) (q : list string) : list reply :=
  match ops with
  | [] => []
  | OpPush x :: ops => let '(q, d) := spec_push cap q x in Dropped d :: spec_run cap ops q
  | OpPop :: ops => let '(q, (p, ok)) := spec_pop q in Popped p ok :: spec_run cap ops q
  end.

(** the ring buffer implements a bounded FIFO that drops its oldest entry
    when full: for every capacity and every sequence of pushes and pops, every
    reply (the dropped flag of [Push], the payload and flag of [Pop]) is that
    of the list specification; in particular the index arithmetic never reads
    a slot that was not written. *)
Theorem ring_buffer_refines_bounded_fifo c b ops :
  NewTelemetryRingBuffer c = Some b -> run ops b = spec_run c ops [].
Proof.
  intros Hnew. destruct (new_refines c b Hnew) as [Hw <-]. clear Hnew.
  generalize (@nil string) Hw. clear Hw. revert b.
  induction ops as [|[x|] ops IH]; intros b q Hw; simpl; [done|..].
  - destruct (Push_refines b q x Hw) as (Hw' & Hcap & Hd).
    destruct (Push b x) as [b' d], (spec_push (capacity b) q x) as [q' d']. simpl in *.
    subst d'. f_equal. rewrite <- Hcap. by apply IH.
  - destruct (Pop_refines b q Hw) as (Hw' & Hcap & Hd).
    destruct (Pop b) as [b' [p ok]], (spec_pop q) as [q' [p' ok']]. simpl in *.
    injection Hd as -> ->. f_equal. rewrite <- Hcap. by apply IH.
Qed.

Definition demo_ops : list op :=
  [OpPush "a"; OpPush "b"; OpPush "c"; OpPop; OpPush "d"; OpPush "e"; OpPop; OpPop; OpPop].

Lemma ring_buffer_refines_bounded_fifo_witness :
  NewTelemetryRingBuffer 2 = Some (mk [None; None] 2 0 0 0) /\
  run demo_ops (mk [None; None] 2 0 0 0) = spec_run 2 demo_ops [].
Proof.
  split; [reflexivity|].
  apply (ring_buffer_refines_bounded_fifo 2 (mk [None; None] 2 0 0 0) demo_ops). reflexivity.
Defined.

End TelemetryRingBuffer.
