(* ===== verification/Coalescer.v ===== *)
(** * The state coalescer ([pkg/queues/coalescer.go])

    Last-write-wins storage with a generation counter: a consumer peeks a
    snapshot, ships it, and commits the generation it saw; the commit clears
    the state only if no newer update arrived meanwhile.  The generation is a
    [uint64] and wraps. *)

From S2P Require Import Prelude.

Module StateCoalescer.

Record StateSnapshot := mkSnapshot {
  Payload : string;
  Generation : Z;
}.

Record t := mk {
  latestState : option string;
  generation : Z;
  hasState : bool;
}.

Definition NewStateCoalescer : t := mk None 0 false.

Definition Update (c : t) (payload : string) : t :=
  let cloned := payload in
  mk (Some cloned) (wrap_uint64 (generation c + 1)) true.

Definition Peek (c : t) : option StateSnapshot :=
  if negb (hasState c) then None else
  let cloned := default "" (latestState c) in
  Some (mkSnapshot cloned (generation c)).

Definition Commit (c : t) (gen : Z) : t * bool :=
  if negb (hasState c) then (c, false) else
  if negb (generation c =? gen) then (c, false) else
  (mk None (generation c) false, true).

(** ** Runs of the operations of several goroutines, in lock order *)

Inductive op := OpUpdate (p : string) | OpPeek | OpCommit (gen : Z).

Definition step (c : t) (o : op) : t :=
  match o with
  | OpUpdate p => Update c p
  | OpPeek => c
  | OpCommit g => (Commit c g).1
  end.

Definition run (ops : list op) (c : t) : t := foldl step c ops.

Definition is_update (o : op) : bool := match o with OpUpdate _ => true | _ => false end.

(** The number of updates in a run, and its last payload. *)
Definition updates (ops : list op) : Z := Z.of_nat (length (List.filter is_update ops)).

Definition wf (c : t) : Prop :=
  0 <= generation c < 2 ^ 64 /\ (hasState c = true -> latestState c <> None).

Lemma new_coalescer_wf : wf NewStateCoalescer.
Proof. split; simpl; [lia | done]. Qed.

Lemma coalescer_step_wf c o : wf c -> wf (step c o).
Proof.
  intros [Hg Hs]. destruct o as [p| |g]; simpl; [|done|].
  - split; [|done]. apply wrap_u_range. lia.
  - unfold Commit. destruct (negb (hasState c)); [by split|].
    destruct (negb (generation c =? g)); by split.
Qed.

Lemma Commit_generation c g : generation (Commit c g).1 = generation c.
Proof. unfold Commit. by destruct (hasState c), (generation c =? g). Qed.

(** The generation counts updates modulo [2^64]; nothing else moves it. *)
Lemma run_generation ops c :
  wf c -> generation (run ops c) = wrap_uint64 (generation c + updates ops).
Proof.
  revert c. induction ops as [|o ops IH]; intros c Hw; simpl.
  - unfold updates; simpl. rewrite Z.add_0_r, wrap_u_small; [done | apply Hw].
  - change (run (o :: ops) c) with (run ops (step c o)).
    rewrite IH by by apply coalescer_step_wf. unfold updates, wrap_u; simpl.
    destruct o as [p| |g]; simpl; [|done|by rewrite Commit_generation].
    unfold wrap_u. rewrite Zplus_mod_idemp_l. f_equal. lia.
Qed.

(** lost-update freedom.  A consumer that peeked a snapshot and commits its
    generation after any interleaved operations clears the state if and only if
    a state is still held and the number of updates in between is a multiple
    of [2^64]: in particular after [1 .. 2^64 - 1] updates the commit is refused
    and the newer state is kept. *)
Theorem coalescer_commit_exact c snap ops :
  wf c -> Peek c = Some snap ->
  (Commit (run ops c) (Generation snap)).2 = true <->
  hasState (run ops c) = true /\ updates ops mod 2 ^ 64 = 0.
Proof.
  intros Hw Hp. unfold Peek in Hp. destruct (hasState c) eqn:Hh; [|done].
  injection Hp as <-. simpl. unfold Commit. rewrite (run_generation ops c Hw).
  destruct (hasState (run ops c)); simpl; [|naive_solver].
  pose proof (proj1 Hw) as Hg. unfold wrap_u.
  assert (Hn : 0 <= updates ops) by (unfold updates; lia).
  set (n := updates ops) in *. clearbody n.
  destruct (Z.eqb_spec ((generation c + n) mod 2 ^ 64) (generation c)) as [Heq|Hne]; simpl.
  - split; [intros _; split; [done|] | done].
    pose proof (Z.div_mod (generation c + n) (2 ^ 64) ltac:(lia)) as Hd. rewrite Heq in Hd.
    replace n with (((generation c + n) / 2 ^ 64) * 2 ^ 64) by lia. apply Z.mod_mul. lia.
  - split; [done|]. intros [_ Hz]. destruct Hne.
    rewrite Zplus_mod, Hz, Z.add_0_r, Zmod_mod. by apply Z.mod_small.
Qed.

Lemma coalescer_commit_exact_witness :
  (Commit (run [OpPeek; OpUpdate "new"] (Update NewStateCoalescer "old")) 1).2 = true <->
  hasState (run [OpPeek; OpUpdate "new"] (Update NewStateCoalescer "old")) = true /\
  updates [OpPeek; OpUpdate "new"] mod 2 ^ 64 = 0.
Proof.
  apply (coalescer_commit_exact (Update NewStateCoalescer "old") (mkSnapshot "old" 1)
           [OpPeek; OpUpdate "new"]); [|reflexivity].
  apply (coalescer_step_wf NewStateCoalescer (OpUpdate "old") new_coalescer_wf).
Defined.

(** A refused commit leaves the latest update in place for the next peek. *)
Lemma refused_commit_keeps c g : (Commit c g).2 = false -> (Commit c g).1 = c.
Proof. unfold Commit. by destruct (hasState c), (generation c =? g). Qed.

Lemma Peek_after_Update c p :
  Peek (Update c p) = Some (mkSnapshot p (wrap_uint64 (generation c + 1))).
Proof. done. Qed.

End StateCoalescer.
