(* ===== verification/Results.v ===== *)
(** * Ingress and dispatch queues ([pkg/queues/results.go])

    [NATSDispatchBuffer], a buffered channel with a non-blocking push, and
    [CommandResultQueue], a bounded slice behind a mutex that reports its
    utilization (the interface [UtilizationProvider] of hysteresis.go).
    Utilizations are IEEE doubles ([Float64]). *)

From Stdlib Require Import Floats.SpecFloat.
From S2P Require Import Prelude Float64 Scheduler.

(** [type UtilizationProvider interface { Utilization() float64 }] *)
Class UtilizationProvider (P : Type) := Utilization : P -> float64.

(** ** The dispatch buffer *)

Module NATSDispatchBuffer.

(** A channel of [[]byte] and its capacity. *)
Record t := mk { ch : list string; cap : Z }.

Definition ErrQueueClosed : error := ESentinel "queue is closed".

Definition NewNATSDispatchBuffer (capacity : Z) : option t :=
  if capacity <=? 0 then None else
  if negb (make_chan_ok slice_header capacity) then None else Some (mk [] capacity).

(** The pre-check, made without any lock: [true] means reject at once. *)
Definition Push_precheck (d : t) : bool := Z.of_nat (length (ch d)) =? cap d.

(** The [select] with a [default] case. *)
Definition Push_select (d : t) (cloned : string) : t * option error :=
  if Z.of_nat (length (ch d)) <? cap d then (mk (ch d ++ [cloned]) (cap d), None)
  else (d, Some ErrQueueFull).

(** [Push] when [interleave] is what other goroutines do to the channel
    between the pre-check and the [select]. *)
Definition Push (interleave : t -> t) (d : t) (payload : string) : t * option error :=
  if Push_precheck d then (d, Some ErrQueueFull) else
  let cloned := payload in
  Push_select (interleave d) cloned.

(** [Pop] under [ctx.Err()]: [None] is the blocked goroutine.  When both a
    payload and the cancellation are ready the runtime picks either; [pick]
    is that choice. *)
Definition Pop (pick : bool) (ctx_err : option error) (d : t) : option (t * result string) :=
  match ch d, ctx_err with
  | p :: rest, None => Some (mk rest (cap d), Ok p)
  | p :: rest, Some e => if pick then Some (mk rest (cap d), Ok p) else Some (d, Err e)
  | [], Some e => Some (d, Err e)
  | [], None => None
  end.

(** A full channel is refused whatever happens meanwhile; otherwise the
    payload is appended or the error is [ErrQueueFull], and the channel never
    exceeds its capacity. *)
Lemma Push_bounded f d x :
  cap (f d) = cap d -> Z.of_nat (length (ch (f d))) <= cap d ->
  Z.of_nat (length (ch d)) <= cap d ->
  Z.of_nat (length (ch (Push f d x).1)) <= cap d /\
  ((Push f d x).2 = None \/ (Push f d x).2 = Some ErrQueueFull).
Proof.
  intros Hc Hf Hd. unfold Push, Push_select.
  destruct (Push_precheck d); [simpl; auto|]. rewrite Hc.
  destruct (Z.ltb_spec (Z.of_nat (length (ch (f d)))) (cap d)); simpl; [|by auto].
  rewrite length_app; simpl. split; [lia | by left].
Qed.

End NATSDispatchBuffer.

(** ** The result queue *)

Module CommandResultQueue.

Record t := mk { items : list string; capacity : Z }.

Definition NewCommandResultQueue (capacity : Z) : option t :=
  if capacity <=? 0 then None else
  if negb (make_slice_ok slice_header capacity) then None else Some (mk [] capacity).

Definition Push (q : t) (payload : string) : t * option error :=
  if capacity q <=? Z.of_nat (length (items q)) then (q, Some ErrQueueFull) else
  let cloned := payload in
  (mk (items q ++ [cloned]) (capacity q), None).

Definition Pop (q : t) : t * option string :=
  match items q with
  | [] => (q, None)
  | payload :: rest => (mk rest (capacity q), Some payload)
  end.

#[global] Instance utilization : UtilizationProvider t := fun q =>
  float64_div (float64_of_int (Z.of_nat (length (items q)))) (float64_of_int (capacity q)).

Inductive op := OpPush (x : string) | OpPop.

(** The payloads accepted, the payloads popped, and the final queue. *)
Fixpoint run (ops : list op) (q : t) : list string * list string * t :=
  match ops with
  | [] => ([], [], q)
  | OpPush x :: ops =>
      match Push q x with
      | (q, None) => let '(acc, out, q) := run ops q in (x :: acc, out, q)
      | (q, Some _) => run ops q
      end
  | OpPop :: ops =>
      match Pop q with
      | (q, Some x) => let '(acc, out, q) := run ops q in (acc, x :: out, q)
      | (q, None) => run ops q
      end
  end.

(** the result queue is a lossless FIFO within its bound: over any run,
    what was queued and accepted equals what was popped followed by what is
    left, in order, and the queue never exceeds its capacity. *)
Theorem result_queue_fifo_bounded ops q acc out q' :
  Z.of_nat (length (items q)) <= capacity q -> run ops q = (acc, out, q') ->
  items q ++ acc = out ++ items q' /\
  Z.of_nat (length (items q')) <= capacity q' /\ capacity q' = capacity q.
Proof.
  revert q acc out. induction ops as [|[x|] ops IH]; intros q acc out Hb; simpl.
  - intros [= <- <- <-]. by rewrite app_nil_r.
  - unfold Push. destruct (Z.leb_spec (capacity q) (Z.of_nat (length (items q)))) as [Hf|Hf].
    + by apply IH.
    + destruct (run ops _) as [[a o] q2] eqn:Hr. intros [= <- <- <-].
      apply IH in Hr as (Heq & Hb2 & Hc); simpl in *; [|rewrite length_app; simpl; lia].
      rewrite <- Heq, <- app_assoc. done.
  - unfold Pop. destruct (items q) as [|p rest] eqn:Hq.
    + intros Hr. apply IH in Hr; rewrite Hq in *; done.
    + destruct (run ops _) as [[a o] q2] eqn:Hr. intros [= <- <- <-].
      apply IH in Hr as (Heq & Hb2 & Hc); simpl in *; [|lia]. by rewrite Heq.
Qed.

Lemma result_queue_fifo_bounded_witness :
  let r := run [OpPush "a"; OpPush "b"; OpPush "c"; OpPop; OpPush "d"] (mk [] 2) in
  r.1.1 = ["a"; "b"; "d"] /\ [] ++ r.1.1 = r.1.2 ++ items r.2 /\
  Z.of_nat (length (items r.2)) <= capacity r.2 /\ capacity r.2 = 2.
Proof.
  split; [reflexivity|].
  apply (result_queue_fifo_bounded
           [OpPush "a"; OpPush "b"; OpPush "c"; OpPop; OpPush "d"] (mk [] 2));
    [vm_compute; discriminate | reflexivity].
Defined.

Example utilization_half :
  Utilization (mk ["a"; "b"] 4) = float64_div (float64_of_int 1) (float64_of_int 2).
Proof. vm_compute. reflexivity. Qed.

End CommandResultQueue.
