(* ===== verification/Hysteresis.v ===== *)
(** * The backpressure monitor ([pkg/queues/hysteresis.go])

    A two-threshold switch over the utilization reported by any
    [UtilizationProvider].  The thresholds and the utilization are doubles;
    the order on them is that of IEEE comparison, in which every comparison
    with NaN is false. *)

From Stdlib Require Import Floats.SpecFloat.
From S2P Require Import Prelude Float64 Scheduler Results.

Module HysteresisMonitor.

Section Monitor.
Context {P : Type} `{UtilizationProvider P}.

Record t := mk {
  isThrottled : bool;
  upperPercent : float64;
  lowerPercent : float64;
}.

Definition is_nan (x : float64) : bool := match x with S754_nan => true | _ => false end.

Definition float_zero : float64 := S754_zero false.
Definition float_one : float64 := float64_of_int 1.

(** The panics of the constructor are [None]; the provider, non-nil by its
    type, is an argument of [IsThrottled]. *)
Definition NewHysteresisMonitor (upper lower : float64) : option t :=
  if is_nan upper || is_nan lower then None else
  if SFleb upper lower then None else
  if SFltb lower float_zero || SFltb float_one upper then None else
  Some (mk false upper lower).

Definition IsThrottled (m : t) (provider : P) : t * bool :=
  let util := Utilization provider in
  let throttled :=
    if isThrottled m
    then (if SFleb util (lowerPercent m) then false else isThrottled m)
    else (if SFleb (upperPercent m) util then true else isThrottled m) in
  (mk throttled (upperPercent m) (lowerPercent m), throttled).

(** ** The order of doubles *)

Lemma SFleb_trans a b c : SFleb a b = true -> SFleb b c = true -> SFleb a c = true.
Proof.
  unfold SFleb.
  destruct a as [sa|sa| |sa ma ea], b as [sb|sb| |sb mb eb], c as [sc|sc| |sc mc ec];
    try destruct sa; try destruct sb; try destruct sc; simpl; try done;
    change (PosDef.Pos.compare_cont Eq) with Pos.compare;
    destruct (Z.compare_spec ea eb); try done;
    destruct (Z.compare_spec eb ec); try done;
    destruct (Z.compare_spec ea ec); try done; try lia;
    destruct (Pos.compare_spec ma mb); try done;
    destruct (Pos.compare_spec mb mc); try done;
    destruct (Pos.compare_spec ma mc); try done; lia.
Qed.

(** ** Behaviour over a sequence of samples *)

(** The states reported for successive samples. *)
Fixpoint samples (m : t) (ps : list P) : t * list bool :=
  match ps with
  | [] => (m, [])
  | p :: ps => let '(m, r) := IsThrottled m p in
               let '(m, rs) := samples m ps in (m, r :: rs)
  end.

Lemma samples_cons m p ps :
  (samples m (p :: ps)).1 = (samples (IsThrottled m p).1 ps).1.
Proof. simpl. by destruct (samples _ ps). Qed.

(** The level a sample crosses, if it is outside the band. *)
Definition crossing (m : t) (p : P) : option bool :=
  if SFleb (upperPercent m) (Utilization p) then Some true else
  if SFleb (Utilization p) (lowerPercent m) then Some false else None.

(** The last crossing of a sequence, [init] if there is none. *)
Definition last_crossing (m : t) (init : bool) (ps : list P) : bool :=
  foldl (fun s p => default s (crossing m p)) init ps.

Definition separated (m : t) : Prop := SFleb (upperPercent m) (lowerPercent m) = false.

Lemma IsThrottled_crossing m p :
  separated m -> (IsThrottled m p).2 = default (isThrottled m) (crossing m p).
Proof.
  intros Hs. unfold IsThrottled, crossing. simpl.
  destruct (SFleb (upperPercent m) (Utilization p)) eqn:Hu,
           (SFleb (Utilization p) (lowerPercent m)) eqn:Hl;
    destruct (isThrottled m); simpl; try done.
  pose proof (SFleb_trans _ _ _ Hu Hl). unfold separated in Hs. congruence.
Qed.

(** hysteresis.  For a monitor accepted by the constructor the reported
    state after any sequence of utilization samples is the last threshold
    crossing: throttled from a sample at or above the upper mark until one at
    or below the lower mark, unchanged by samples strictly in the band (and by
    NaN samples), never throttled before the first upper crossing. *)
Theorem hysteresis_last_crossing upper lower m ps :
  NewHysteresisMonitor upper lower = Some m ->
  isThrottled (samples m ps).1 = last_crossing m false ps.
Proof.
  intros Hnew.
  assert (Hs : separated m /\ isThrottled m = false).
  { unfold NewHysteresisMonitor in Hnew. destruct (is_nan upper || is_nan lower); [done|].
    destruct (SFleb upper lower) eqn:Hul; [done|]. case_match; [done|].
    injection Hnew as <-. done. }
  destruct Hs as [Hs <-]. clear Hnew. revert m Hs.
  induction ps as [|p ps IH]; intros m Hs; [done|].
  rewrite samples_cons, IH by done.
  change (isThrottled (IsThrottled m p).1) with (IsThrottled m p).2.
  by rewrite IsThrottled_crossing.
Qed.

End Monitor.

Definition demo_monitor : t := mk false
  (float64_div (float64_of_int 4) (float64_of_int 5))
  (float64_div (float64_of_int 1) (float64_of_int 2)).

(** A queue of capacity 10 holding [n] results. *)
Definition demo_queue (n : nat) : CommandResultQueue.t :=
  CommandResultQueue.mk (replicate n "r") 10.

Lemma hysteresis_last_crossing_witness :
  (samples demo_monitor (demo_queue <$> [7; 8; 6; 5; 7]%nat)).2 = [false; true; true; false; false] /\
  isThrottled (samples demo_monitor (demo_queue <$> [7; 8; 6; 5; 7]%nat)).1 =
  last_crossing demo_monitor false (demo_queue <$> [7; 8; 6; 5; 7]%nat).
Proof.
  split; [vm_compute; reflexivity|].
  apply (hysteresis_last_crossing
           (float64_div (float64_of_int 4) (float64_of_int 5))
           (float64_div (float64_of_int 1) (float64_of_int 2)) demo_monitor).
  vm_compute. reflexivity.
Defined.

End HysteresisMonitor.
