(* ===== verification/GoTime.v ===== *)
(** * Instants, durations and RFC 3339 timestamps

    What the source uses of Go's [time] package: an instant is the number of
    nanoseconds since the Unix epoch (UTC), a [time.Duration] a signed 64-bit
    number of nanoseconds.  [Format] and [Parse] are those of the layout
    [time.RFC3339], over the proleptic Gregorian calendar; the theorem of the
    file is their round trip, used for the timestamps of the persistent
    operation records. *)

From S2P Require Import Prelude.

(** ** Durations and instants *)

Definition Nanosecond : Z := 1.
Definition Millisecond : Z := 1000000.
Definition Second : Z := 1000000000.
Definition Minute : Z := 60 * Second.

(** A Go duration result that saturates ([time.Time.Sub], [time.Until]). *)
Definition sat_duration (d : Z) : Z := Z.max min_int64 (Z.min max_int64 d).

(** [t.Sub(u)]. *)
Definition time_Sub (t u : Z) : Z := sat_duration (t - u).

(** [t.UnixNano()], an [int64]. *)
Definition UnixNano (t : Z) : Z := wrap_int t.

(** The zero [time.Time], January 1, year 1. *)
Definition zero_time : Z := -62135596800 * Second.

Lemma sat_duration_id d : min_int64 <= d <= max_int64 -> sat_duration d = d.
Proof. unfold sat_duration. lia. Qed.

Lemma sat_duration_pos d : 0 < sat_duration d <-> 0 < d.
Proof. unfold sat_duration, min_int64, max_int64. lia. Qed.

(** ** The calendar *)

Definition is_leap (y : Z) : bool :=
  (y mod 4 =? 0) && (negb (y mod 100 =? 0) || (y mod 400 =? 0)).

Definition days_in (m y : Z) : Z :=
  if m =? 2 then (if is_leap y then 29 else 28)
  else if (m =? 4) || (m =? 6) || (m =? 9) || (m =? 11) then 30 else 31.

(** Days from the Unix epoch to a civil date, counting years from March. *)
Definition days_from_civil (y m d : Z) : Z :=
  let y' := if m <=? 2 then y - 1 else y in
  let mp := if m <=? 2 then m + 9 else m - 3 in
  let yoe := y' mod 400 in
  let doy := (153 * mp + 2) / 5 + d - 1 in
  y' / 400 * 146097 + (yoe * 365 + yoe / 4 - yoe / 100 + doy) - 719468.

Definition year_of_era (doe : Z) : Z :=
  (doe - doe / 1460 + doe / 36524 - doe / 146096) / 365.

Definition day_of_year (doe : Z) : Z :=
  let yoe := year_of_era doe in doe - (365 * yoe + yoe / 4 - yoe / 100).

(** The civil date of a day number: [(year, month, day)]. *)
Definition civil_from_days (z : Z) : Z * Z * Z :=
  let doe := (z + 719468) mod 146097 in
  let era := (z + 719468) / 146097 in
  let doy := day_of_year doe in
  let mp := (5 * doy + 2) / 153 in
  let d := doy - (153 * mp + 2) / 5 + 1 in
  let m := if mp <? 10 then mp + 3 else mp - 9 in
  let y := year_of_era doe + era * 400 in
  (if m <=? 2 then y + 1 else y, m, d).

(** The arithmetic of a 400-year era: every day has a year in it, lies within
    that year, and is a 366th day only at the end of a leap February. *)
Section Era.
#[local] Ltac Zify.zify_post_hook ::= Z.div_mod_to_equations.

Lemma year_of_era_range doe : 0 <= doe < 146097 -> 0 <= year_of_era doe < 400.
Proof. unfold year_of_era. intros. lia. Qed.

Lemma day_of_year_range doe : 0 <= doe < 146097 -> 0 <= day_of_year doe <= 365.
Proof. unfold day_of_year, year_of_era. intros. cbv zeta. lia. Qed.

Lemma leap_day_year doe :
  0 <= doe < 146097 -> day_of_year doe = 365 -> is_leap (year_of_era doe + 1) = true.
Proof.
  intros Hd H.
  assert ((year_of_era doe + 1) mod 4 = 0 /\
          ((year_of_era doe + 1) mod 100 <> 0 \/ (year_of_era doe + 1) mod 400 = 0))
    as [H4 H100]
    by (unfold day_of_year, year_of_era in *; cbv zeta in *; split; lia).
  unfold is_leap. rewrite H4. simpl. destruct H100 as [H100| ->].
  - apply Z.eqb_neq in H100. by rewrite H100.
  - by rewrite orb_true_r.
Qed.
End Era.

(** Month and day of the day [doy] of a year that starts in March. *)
Definition month_index (doy : Z) : Z := (5 * doy + 2) / 153.
Definition day_of_month (doy : Z) : Z := doy - (153 * month_index doy + 2) / 5 + 1.

Definition march_day_ok (doy : Z) : bool :=
  let mp := month_index doy in
  let m := if mp <? 10 then mp + 3 else mp - 9 in
  (0 <=? mp) && (mp <? 12) && (1 <=? day_of_month doy) &&
  (day_of_month doy <=?
     if m =? 2 then (if doy =? 365 then 29 else 28)
     else if (m =? 4) || (m =? 6) || (m =? 9) || (m =? 11) then 30 else 31).

Lemma march_days_checked :
  forallb march_day_ok (Z.of_nat <$> seq 0 366) = true.
Proof. vm_compute. reflexivity. Qed.

Lemma march_day_spec doy : 0 <= doy <= 365 -> march_day_ok doy = true.
Proof.
  intros H. pose proof march_days_checked as Hall. rewrite forallb_forall in Hall.
  apply Hall, list_elem_of_In, list_elem_of_fmap. exists (Z.to_nat doy).
  split; [lia|]. apply elem_of_seq. lia.
Qed.

Lemma is_leap_era y k : is_leap (y + k * 400) = is_leap y.
Proof.
  unfold is_leap. rewrite Z.mod_add by lia.
  replace (y + k * 400) with (y + (k * 100) * 4) at 1 by lia. rewrite Z.mod_add by lia.
  replace (y + k * 400) with (y + (k * 4) * 100) by lia. by rewrite Z.mod_add by lia.
Qed.

(** The civil date of a day is a valid date, and maps back to the day. *)
Lemma civil_from_days_spec z :
  let '(y, m, d) := civil_from_days z in
  1 <= m <= 12 /\ 1 <= d <= days_in m y /\ days_from_civil y m d = z.
Proof.
  unfold civil_from_days.
  pose proof (Z.mod_pos_bound (z + 719468) 146097 ltac:(lia)) as Hdoe.
  pose proof (Z.div_mod (z + 719468) 146097 ltac:(lia)) as Hdm.
  set (doe := (z + 719468) mod 146097) in *. set (era := (z + 719468) / 146097) in *.
  clearbody doe era.
  pose proof (year_of_era_range doe Hdoe) as Hyoe. pose proof (day_of_year_range doe Hdoe) as Hdoy.
  pose proof (leap_day_year doe Hdoe) as Hleap. pose proof (march_day_spec _ Hdoy) as Hok.
  assert (Heq : doe = 365 * year_of_era doe + year_of_era doe / 4 - year_of_era doe / 100
                      + day_of_year doe) by (unfold day_of_year; lia).
  unfold march_day_ok in Hok. bool_to_prop.
  fold (month_index (day_of_year doe)). fold (day_of_month (day_of_year doe)).
  set (yoe := year_of_era doe) in *. set (doy := day_of_year doe) in *. clearbody yoe doy.
  set (mp := month_index doy) in *.
  assert (Hd : doy = (153 * mp + 2) / 5 + day_of_month doy - 1) by (unfold day_of_month; fold mp; lia).
  set (d := day_of_month doy) in *. clearbody mp d. unfold days_from_civil, days_in.
  destruct (Z.ltb_spec mp 10).
  - destruct (Z.leb_spec (mp + 3) 2); [lia|].
    assert ((mp + 3 =? 2) = false) as Hm by lia. rewrite Hm in *.
    split; [lia|]. split; [lia|].
    rewrite Z.mod_add, Z.div_add, Z.mod_small, (Z.div_small yoe 400) by lia.
    replace (mp + 3 - 3) with mp by lia. lia.
  - destruct (Z.leb_spec (mp - 9) 2); [|lia]. split; [lia|].
    replace (yoe + era * 400 + 1 - 1) with (yoe + era * 400) by lia.
    rewrite Z.mod_add, Z.div_add, Z.mod_small, (Z.div_small yoe 400) by lia.
    replace (mp - 9 + 9) with mp by lia. split; [|lia].
    destruct (mp - 9 =? 2); [|lia].
    replace (yoe + era * 400 + 1) with ((yoe + 1) + era * 400) by lia. rewrite is_leap_era.
    destruct (Z.eqb_spec doy 365) as [H365|]; [rewrite Hleap by done; lia|].
    destruct (is_leap (yoe + 1)); lia.
Qed.

(** ** Formatting *)

Definition digit_char (d : Z) : ascii := byte (48 + d).

Definition pad2 (n : Z) : string := String (digit_char (n / 10)) (String (digit_char (n mod 10)) "").
Definition pad4 (n : Z) : string := pad2 (n / 100) +:+ pad2 (n mod 100).

(** [appendInt(b, year, 4)]. *)
Definition append_year (y : Z) : string :=
  (if y <? 0 then "-" else "") +:+
  (if Z.abs y <? 10000 then pad4 (Z.abs y) else pretty (Z.abs y)).

(** [t.UTC().Format(time.RFC3339)]. *)
Definition Format_RFC3339 (t : Z) : string :=
  let sec := t / Second in
  let '(y, m, d) := civil_from_days (sec / 86400) in
  let sod := sec mod 86400 in
  append_year y +:+ "-" +:+ pad2 m +:+ "-" +:+ pad2 d +:+ "T" +:+
  pad2 (sod / 3600) +:+ ":" +:+ pad2 (sod / 60 mod 60) +:+ ":" +:+ pad2 (sod mod 60) +:+ "Z".

(** ** Parsing

    The general parser of the [time] package specialised to the layout
    [2006-01-02T15:04:05Z07:00].  ([time.Parse] first tries a stricter fast
    path, whose strings the general parser accepts with the same result.)
    Every step returns the value read and the rest of the input. *)

Definition p_char (c : ascii) (s : string) : option string :=
  match s with
  | String a r => if Ascii.eqb a c then Some r else None
  | EmptyString => None
  end.

Definition p_getnum (fixed : bool) (s : string) : option (Z * string) :=
  match s with
  | String a r =>
      if is_digit a then
        match r with
        | String b r' =>
            if is_digit b then Some (10 * digit_val a + digit_val b, r')
            else if fixed then None else Some (digit_val a, r)
        | EmptyString => if fixed then None else Some (digit_val a, r)
        end
      else None
  | EmptyString => None
  end.

Definition p_year (s : string) : option (Z * string) :=
  '(hi, r) ← p_getnum true s; '(lo, r) ← p_getnum true r; Some (100 * hi + lo, r).

Definition in_range (lo hi x : Z) : option unit :=
  if (lo <=? x) && (x <=? hi) then Some tt else None.

Fixpoint take_digits (s : string) : string * string :=
  match s with
  | String a r =>
      if is_digit a then let '(ds, r) := take_digits r in (String a ds, r) else (EmptyString, s)
  | EmptyString => (EmptyString, EmptyString)
  end.

(** Nine digits of a fraction, the missing ones being zeros. *)
Fixpoint frac_nanos (w : nat) (acc : Z) (ds : string) : Z :=
  match w with
  | O => acc
  | S w =>
      match ds with
      | EmptyString => frac_nanos w (10 * acc) EmptyString
      | String a ds => frac_nanos w (10 * acc + digit_val a) ds
      end
  end.

Definition p_fraction (s : string) : Z * string :=
  match s with
  | String a (String b _ as r) =>
      if (Ascii.eqb a "." || Ascii.eqb a ",") && is_digit b
      then let '(ds, r) := take_digits r in (frac_nanos 9 0 ds, r)
      else (0, s)
  | _ => (0, s)
  end.

(** The zone offset in seconds. *)
Definition p_zone (s : string) : option (Z * string) :=
  match s with
  | String a r =>
      if Ascii.eqb a "Z" then Some (0, r) else
      '(hh, r) ← p_getnum true r; r ← p_char ":" r; '(mm, r) ← p_getnum true r;
      if (24 <? hh) || (60 <? mm) then None else
      if Ascii.eqb a "+" then Some ((hh * 60 + mm) * 60, r) else
      if Ascii.eqb a "-" then Some (- ((hh * 60 + mm) * 60), r) else None
  | EmptyString => None
  end.

(** [time.Parse(time.RFC3339, s)]. *)
Definition Parse_RFC3339 (s : string) : option Z :=
  '(y, r) ← p_year s; r ← p_char "-" r;
  '(mo, r) ← p_getnum true r; _ ← in_range 1 12 mo; r ← p_char "-" r;
  '(d, r) ← p_getnum true r; r ← p_char "T" r;
  '(h, r) ← p_getnum false r; _ ← in_range 0 23 h; r ← p_char ":" r;
  '(mi, r) ← p_getnum true r; _ ← in_range 0 59 mi; r ← p_char ":" r;
  '(sec, r) ← p_getnum true r; _ ← in_range 0 59 sec;
  let '(nsec, r) := p_fraction r in
  '(zone, r) ← p_zone r;
  if negb (String.eqb r "") then None else
  _ ← in_range 1 (days_in mo y) d;
  Some ((days_from_civil y mo d * 86400 + h * 3600 + mi * 60 + sec - zone) * Second + nsec).

Example format_epoch : Format_RFC3339 0 = "1970-01-01T00:00:00Z".
Proof. vm_compute. reflexivity. Qed.

Example format_2026 : Format_RFC3339 (1787994000 * Second + 5) = "2026-08-29T09:00:00Z".
Proof. vm_compute. reflexivity. Qed.

Example parse_offset :
  Parse_RFC3339 "2026-08-29T11:30:00.25+02:30" = Some (1787994000 * Second + 250 * Millisecond).
Proof. vm_compute. reflexivity. Qed.

Example parse_bad_day : Parse_RFC3339 "2026-02-29T00:00:00Z" = None.
Proof. vm_compute. reflexivity. Qed.

(** ** Round trip *)

Lemma byte_val_byte z : 0 <= z < 256 -> byte_val (byte z) = z.
Proof. intros. unfold byte_val, byte. rewrite N_ascii_embedding; lia. Qed.

Lemma digit_char_spec d :
  0 <= d < 10 -> is_digit (digit_char d) = true /\ digit_val (digit_char d) = d.
Proof.
  intros. unfold is_digit, digit_val, digit_char. rewrite byte_val_byte by lia. lia.
Qed.

Lemma p_getnum_pad2 fixed n r :
  0 <= n < 100 -> p_getnum fixed (pad2 n +:+ r) = Some (n, r).
Proof.
  intros Hn.
  assert (0 <= n / 10 < 10) as Ha by (split; [apply Z.div_pos | apply Z.div_lt_upper_bound]; lia).
  pose proof (Z.mod_pos_bound n 10 ltac:(lia)) as Hb.
  destruct (digit_char_spec _ Ha) as [Ha1 Ha2]. destruct (digit_char_spec _ Hb) as [Hb1 Hb2].
  unfold pad2, p_getnum. simpl. rewrite Ha1, Hb1, Ha2, Hb2.
  do 2 f_equal. pose proof (Z.div_mod n 10 ltac:(lia)). lia.
Qed.

Lemma p_year_pad4 n r : 0 <= n < 10000 -> p_year (pad4 n +:+ r) = Some (n, r).
Proof.
  intros Hn. unfold p_year, pad4. rewrite string_app_assoc.
  rewrite p_getnum_pad2 by (split; [apply Z.div_pos | apply Z.div_lt_upper_bound]; lia).
  cbn [mbind option_bind]. rewrite p_getnum_pad2 by (apply Z.mod_pos_bound; lia).
  cbn [mbind option_bind].
  do 2 f_equal. pose proof (Z.div_mod n 100 ltac:(lia)). lia.
Qed.

Lemma p_char_app c r : p_char c (String c "" +:+ r) = Some r.
Proof. simpl. by rewrite Ascii.eqb_refl. Qed.

Lemma in_range_ok lo hi x : lo <= x <= hi -> in_range lo hi x = Some tt.
Proof.
  intros. unfold in_range. by destruct (Z.leb_spec lo x), (Z.leb_spec x hi); try lia.
Qed.

(** The year of an instant. *)
Definition year_of (t : Z) : Z := (civil_from_days (t / Second / 86400)).1.1.

Lemma days_in_bound m y : 28 <= days_in m y <= 31.
Proof. unfold days_in. repeat case_match; lia. Qed.

(** An instant of a four-digit year survives [Format] and [Parse] up to the
    fraction of a second that RFC 3339 without fraction drops. *)
Lemma parse_format t :
  0 <= year_of t <= 9999 -> Parse_RFC3339 (Format_RFC3339 t) = Some (t / Second * Second).
Proof.
  unfold year_of, Format_RFC3339. intros Hy.
  pose proof (civil_from_days_spec (t / Second / 86400)) as Hc.
  pose proof (Z.div_mod (t / Second) 86400 ltac:(lia)) as Hsod.
  pose proof (Z.mod_pos_bound (t / Second) 86400 ltac:(lia)) as Hb.
  destruct (civil_from_days _) as [[y m] d]. simpl in Hy. destruct Hc as (Hm & Hd & Hdays).
  set (sod := t / Second mod 86400) in *. clearbody sod.
  pose proof (days_in_bound m y).
  assert (0 <= sod / 3600 <= 23) as Hh
    by (split; [apply Z.div_pos | apply Z.lt_succ_r, Z.div_lt_upper_bound]; lia).
  pose proof (Z.mod_pos_bound (sod / 60) 60 ltac:(lia)) as Hmi.
  pose proof (Z.mod_pos_bound sod 60 ltac:(lia)) as Hse.
  unfold append_year. destruct (Z.ltb_spec y 0); [lia|].
  destruct (Z.ltb_spec (Z.abs y) 10000); [|lia]. rewrite Z.abs_eq by lia.
  change ("" +:+ pad4 y) with (pad4 y). unfold Parse_RFC3339.
  rewrite p_year_pad4 by lia.
  repeat (cbn [mbind option_bind];
          first [rewrite p_char_app | rewrite p_getnum_pad2 by lia | rewrite in_range_ok by lia]).
  simpl. rewrite Hdays. do 2 f_equal.
  pose proof (Z.div_mod sod 3600 ltac:(lia)). pose proof (Z.div_mod (sod / 60) 60 ltac:(lia)).
  pose proof (Z.div_mod sod 60 ltac:(lia)). rewrite Z.div_div in * by lia.
  change (60 * 60) with 3600 in *. lia.
Qed.
