(* ===== verification/Json.v ===== *)
(** * JSON as [encoding/json] reads and writes it

    What the source uses of Go's [encoding/json]: the grammar of
    [json.Valid] (nesting bounded by 10000), the decoded values with the raw
    text of object members ([json.RawMessage]), the struct decoder's matching
    of member names to fields, and on the way out string escaping and
    [json.Compact] of raw messages with HTML escaping.

    The parser has fuel; [parse_fuel_enough] shows that [parse_fuel] is always
    enough.  The texts of [encoding/json]'s own error values are not modelled:
    [json_error] stands for all of them. *)

From S2P Require Import Prelude.

Definition json_error : error := ENew "json: cannot decode value".

(** ** Values

    An object member carries, beside its value, the raw text of the value. *)
Unset Elimination Schemes.
Inductive jval :=
| JNull
| JBool (b : bool)
| JNum (lit : string)
| JStr (s : string)
| JArr (l : list jval)
| JObj (l : list (string * (string * jval))).
Set Elimination Schemes.

Section jval_ind.
Context (P : jval -> Prop).
Context (Hnull : P JNull) (Hbool : forall b, P (JBool b)) (Hnum : forall l, P (JNum l))
        (Hstr : forall s, P (JStr s))
        (Harr : forall l, Forall P l -> P (JArr l))
        (Hobj : forall l, Forall (fun m => P m.2.2) l -> P (JObj l)).

Fixpoint jval_ind (v : jval) : P v :=
  match v with
  | JNull => Hnull
  | JBool b => Hbool b
  | JNum l => Hnum l
  | JStr s => Hstr s
  | JArr l => Harr l
      ((fix go l : Forall P l :=
          match l with [] => List.Forall_nil _ | v :: l => List.Forall_cons _ v l (jval_ind v) (go l) end) l)
  | JObj l => Hobj l
      ((fix go l : Forall (fun m => P m.2.2) l :=
          match l with
          | [] => List.Forall_nil _
          | m :: l => List.Forall_cons _ m l (jval_ind m.2.2) (go l)
          end) l)
  end.
End jval_ind.

(** ** Characters *)

Definition quote : ascii := byte 34.
Definition backslash : ascii := byte 92.

Definition is_ws (a : ascii) : bool :=
  let c := byte_val a in (c =? 32) || (c =? 9) || (c =? 13) || (c =? 10).

Fixpoint skip_ws (s : string) : string :=
  match s with
  | String a r => if is_ws a then skip_ws r else s
  | EmptyString => EmptyString
  end.

Definition hex_val (a : ascii) : option Z :=
  let c := byte_val a in
  if (48 <=? c) && (c <=? 57) then Some (c - 48) else
  if (97 <=? c) && (c <=? 102) then Some (c - 87) else
  if (65 <=? c) && (c <=? 70) then Some (c - 55) else None.

(** [utf8.EncodeRune] for a rune of the Unicode range; surrogates and
    out-of-range values are coerced to U+FFFD. *)
Definition replacement : string := b3 239 191 189.

Definition encode_rune (r : Z) : string :=
  if r <? 128 then b1 r else
  if r <? 2048 then b2 (192 + r / 64) (128 + r mod 64) else
  if (1114111 <? r) || ((55296 <=? r) && (r <=? 57343)) then replacement else
  if r <? 65536 then b3 (224 + r / 4096) (128 + r / 64 mod 64) (128 + r mod 64) else
  String (byte (240 + r / 262144)) (b3 (128 + r / 4096 mod 64) (128 + r / 64 mod 64) (128 + r mod 64)).

Definition in_byte_range (lo hi : Z) (a : ascii) : bool :=
  (lo <=? byte_val a) && (byte_val a <=? hi).
Definition is_cont (a : ascii) : bool := in_byte_range 128 191 a.

(** The width of the UTF-8 encoding that starts the string, 0 when the first
    byte does not start a valid one. *)
Definition rune_width (s : string) : nat :=
  match s with
  | EmptyString => 0
  | String a r =>
      let c := byte_val a in
      if c <? 128 then 1%nat else
      match r with
      | EmptyString => 0%nat
      | String b r =>
          if in_byte_range 194 223 a && is_cont b then 2%nat else
          match r with
          | EmptyString => 0%nat
          | String x r =>
              let ok3 := is_cont x &&
                (if c =? 224 then in_byte_range 160 191 b
                 else if c =? 237 then in_byte_range 128 159 b
                 else in_byte_range 225 239 a && is_cont b) in
              if ok3 then 3%nat else
              match r with
              | EmptyString => 0%nat
              | String y _ =>
                  let ok4 := is_cont x && is_cont y &&
                    (if c =? 240 then in_byte_range 144 191 b
                     else if c =? 244 then in_byte_range 128 143 b
                     else in_byte_range 241 243 a && is_cont b) in
                  if ok4 then 4%nat else 0%nat
              end
          end
      end
  end.

(** ** Strings *)

Definition hex4 (s : string) : option (Z * string) :=
  match s with
  | String a (String b (String c (String d r))) =>
      a ← hex_val a; b ← hex_val b; c ← hex_val c; d ← hex_val d;
      Some (((a * 16 + b) * 16 + c) * 16 + d, r)
  | _ => None
  end.

Definition is_surrogate (r : Z) : bool := (55296 <=? r) && (r <? 57344).

(** A second [\uXXXX] that completes a surrogate pair. *)
Definition low_surrogate (hi : Z) (s : string) : option (Z * string) :=
  r ← strip_prefix (String backslash "u") s;
  '(lo, r) ← hex4 r;
  if (55296 <=? hi) && (hi <? 56320) && (56320 <=? lo) && (lo <? 57344)
  then Some ((hi - 55296) * 1024 + (lo - 56320) + 65536, r) else None.

Definition simple_escape (a : ascii) : option ascii :=
  let c := byte_val a in
  if (c =? 34) || (c =? 92) || (c =? 47) then Some a else
  if c =? 98 then Some (byte 8) else if c =? 102 then Some (byte 12) else
  if c =? 110 then Some (byte 10) else if c =? 114 then Some (byte 13) else
  if c =? 116 then Some (byte 9) else None.

(** The decoded contents of a string literal whose opening quote has been
    read, and the input after its closing quote. *)
Fixpoint parse_string (fuel : nat) (s : string) : option (string * string) :=
  match fuel with
  | O => None
  | S fuel =>
      match s with
      | EmptyString => None
      | String a r =>
          if Ascii.eqb a quote then Some (EmptyString, r) else
          if Ascii.eqb a backslash then
            match r with
            | EmptyString => None
            | String e r =>
                if Ascii.eqb e "u" then
                  '(u, r) ← hex4 r;
                  if is_surrogate u then
                    match low_surrogate u r with
                    | Some (u, r) => '(t, r) ← parse_string fuel r; Some (encode_rune u +:+ t, r)
                    | None => '(t, r) ← parse_string fuel r; Some (replacement +:+ t, r)
                    end
                  else '(t, r) ← parse_string fuel r; Some (encode_rune u +:+ t, r)
                else
                  e ← simple_escape e; '(t, r) ← parse_string fuel r; Some (String e t, r)
            end
          else if byte_val a <? 32 then None else
          match rune_width s, s with
          | 2%nat, String b1 (String b2 r) =>
              '(t, r) ← parse_string fuel r; Some (String b1 (String b2 t), r)
          | 3%nat, String b1 (String b2 (String b3 r)) =>
              '(t, r) ← parse_string fuel r; Some (String b1 (String b2 (String b3 t)), r)
          | 4%nat, String b1 (String b2 (String b3 (String b4 r))) =>
              '(t, r) ← parse_string fuel r;
              Some (String b1 (String b2 (String b3 (String b4 t))), r)
          | 1%nat, String b1 r => '(t, r) ← parse_string fuel r; Some (String b1 t, r)
          | _, _ => '(t, r) ← parse_string fuel r; Some (replacement +:+ t, r)
          end
      end
  end.

(** ** Numbers *)

Fixpoint span_digits (s : string) : string * string :=
  match s with
  | String a r =>
      if is_digit a then let '(ds, r) := span_digits r in (String a ds, r) else (EmptyString, s)
  | EmptyString => (EmptyString, EmptyString)
  end.

(** A non-empty run of digits. *)
Definition digits1 (s : string) : option (string * string) :=
  match span_digits s with
  | (EmptyString, _) => None
  | (ds, r) => Some (ds, r)
  end.

Definition num_int (s : string) : option (string * string) :=
  match s with
  | String a r =>
      if Ascii.eqb a "0" then Some ("0", r) else digits1 s
  | EmptyString => None
  end.

Definition num_frac (s : string) : option (string * string) :=
  match s with
  | String a r =>
      if Ascii.eqb a "." then '(ds, r) ← digits1 r; Some (String "." ds, r) else Some (EmptyString, s)
  | EmptyString => Some (EmptyString, s)
  end.

Definition num_exp (s : string) : option (string * string) :=
  match s with
  | String e r =>
      if Ascii.eqb e "e" || Ascii.eqb e "E" then
        match r with
        | String g r' =>
            if Ascii.eqb g "+" || Ascii.eqb g "-"
            then '(ds, r) ← digits1 r'; Some (String e (String g ds), r)
            else '(ds, r) ← digits1 r; Some (String e ds, r)
        | EmptyString => None
        end
      else Some (EmptyString, s)
  | EmptyString => Some (EmptyString, s)
  end.

(** The literal and the rest of the input. *)
Definition parse_number (s : string) : option (string * string) :=
  let '(sign, r) := match s with
                    | String a r => if Ascii.eqb a "-" then ("-", r) else ("", s)
                    | EmptyString => ("", s) end in
  '(i, r) ← num_int r; '(f, r) ← num_frac r; '(e, r) ← num_exp r;
  Some (sign +:+ i +:+ f +:+ e, r).

(** ** The parser *)

Definition maxNestingDepth : Z := 10000.

(** The text consumed between a position and a later one. *)
Definition raw_between (s rest : string) : string :=
  String.substring 0 (String.length s - String.length rest) s.

Definition str_fuel (s : string) : nat := S (String.length s).

(** [parse_value fuel d s] reads one value from [s], which starts with it, at
    nesting depth [d].  [parse_elems] and [parse_members] read the rest of an
    array after [\[] and of an object after [{], not empty. *)
Fixpoint parse_value (fuel : nat) (d : Z) (s : string) {struct fuel} : option (jval * string) :=
  match fuel with
  | O => None
  | S fuel =>
      match s with
      | EmptyString => None
      | String a r =>
          if Ascii.eqb a "{" then
            if maxNestingDepth <=? d then None else
            match skip_ws r with
            | String b r' =>
                if Ascii.eqb b "}" then Some (JObj [], r') else
                '(ms, r) ← parse_members fuel (d + 1) (String b r'); Some (JObj ms, r)
            | EmptyString => None
            end
          else if Ascii.eqb a "[" then
            if maxNestingDepth <=? d then None else
            match skip_ws r with
            | String b r' =>
                if Ascii.eqb b "]" then Some (JArr [], r') else
                '(vs, r) ← parse_elems fuel (d + 1) (String b r'); Some (JArr vs, r)
            | EmptyString => None
            end
          else if Ascii.eqb a quote then
            '(t, r) ← parse_string (str_fuel r) r; Some (JStr t, r)
          else if Ascii.eqb a "t" then r ← strip_prefix "rue" r; Some (JBool true, r)
          else if Ascii.eqb a "f" then r ← strip_prefix "alse" r; Some (JBool false, r)
          else if Ascii.eqb a "n" then r ← strip_prefix "ull" r; Some (JNull, r)
          else '(lit, r) ← parse_number s; Some (JNum lit, r)
      end
  end
with parse_elems (fuel : nat) (d : Z) (s : string) {struct fuel} : option (list jval * string) :=
  match fuel with
  | O => None
  | S fuel =>
      '(v, r) ← parse_value fuel d s;
      match skip_ws r with
      | String b r =>
          if Ascii.eqb b "]" then Some ([v], r) else
          if Ascii.eqb b "," then
            '(vs, r) ← parse_elems fuel d (skip_ws r); Some (v :: vs, r)
          else None
      | EmptyString => None
      end
  end
with parse_members (fuel : nat) (d : Z) (s : string) {struct fuel}
    : option (list (string * (string * jval)) * string) :=
  match fuel with
  | O => None
  | S fuel =>
      match s with
      | String q r =>
          if Ascii.eqb q quote then
            '(key, r) ← parse_string (str_fuel r) r;
            match skip_ws r with
            | String c r =>
                if Ascii.eqb c ":" then
                  let sv := skip_ws r in
                  '(v, r) ← parse_value fuel d sv;
                  let m := (key, (raw_between sv r, v)) in
                  match skip_ws r with
                  | String b r =>
                      if Ascii.eqb b "}" then Some ([m], r) else
                      if Ascii.eqb b "," then
                        '(ms, r) ← parse_members fuel d (skip_ws r); Some (m :: ms, r)
                      else None
                  | EmptyString => None
                  end
                else None
            | EmptyString => None
            end
          else None
      | EmptyString => None
      end
  end.

Definition parse_fuel (s : string) : nat := 2 * String.length s + 2.

(** One value with white space around it and nothing else: what
    [json.Unmarshal] accepts, and a [Decoder] whose second [Decode] returns
    [io.EOF]. *)
Definition parse_json (s : string) : option jval :=
  let s := skip_ws s in
  match parse_value (parse_fuel s) 0 s with
  | Some (v, r) => match skip_ws r with EmptyString => Some v | _ => None end
  | None => None
  end.

(** [json.Valid]. *)
Definition json_Valid (s : string) : bool :=
  match parse_json s with Some _ => true | None => false end.

(** ** Decoding into structs

    [json.Unmarshal] into a struct assigns each member, in order, to the field
    whose name equals the member's key, or else to the first field whose name
    matches it case-insensitively.  A [null] leaves a plain field alone; a
    member of the wrong kind is recorded as the error and skipped. *)

Definition upper_ascii (a : ascii) : ascii :=
  if (97 <=? byte_val a) && (byte_val a <=? 122) then byte (byte_val a - 32) else a.

(** Unicode folding of a key as far as it can meet an ASCII name: letters to
    upper case, U+017F to S and U+212A to K. *)
Fixpoint fold_key (s : string) : string :=
  match s with
  | EmptyString => EmptyString
  | String a r =>
      match byte_val a, r with
      | 197, String b r' =>
          if byte_val b =? 191 then String "S" (fold_key r') else String a (fold_key r)
      | 226, String b (String c r') =>
          if (byte_val b =? 132) && (byte_val c =? 170) then String "K" (fold_key r')
          else String a (fold_key r)
      | _, _ => String (upper_ascii a) (fold_key r)
      end
  end.

Definition resolve (names : list string) (key : string) : option string :=
  if existsb (String.eqb key) names then Some key
  else List.find (fun n => String.eqb (fold_key n) (fold_key key)) names.

(** The values assigned to the field [name], in order, with their raw text. *)
Definition assigned (names : list string) (name : string)
    (ms : list (string * (string * jval))) : list (string * jval) :=
  omap (fun m => match resolve names m.1 with
                 | Some n => if String.eqb n name then Some m.2 else None
                 | None => None end) ms.

(** The state of a field being decoded: its value and whether a member of the
    wrong kind was met. *)
Definition field (A : Type) := (A * bool)%type.

Definition decode_field {A} (f : field A -> string * jval -> field A) (zero : A)
    (vs : list (string * jval)) : field A := foldl f (zero, false) vs.

Definition dec_raw (st : field string) (rv : string * jval) : field string := (rv.1, st.2).

Definition dec_string (st : field string) (rv : string * jval) : field string :=
  match rv.2 with
  | JNull => st
  | JStr s => (s, st.2)
  | _ => (st.1, true)
  end.

Definition dec_bool (st : field bool) (rv : string * jval) : field bool :=
  match rv.2 with
  | JNull => st
  | JBool b => (b, st.2)
  | _ => (st.1, true)
  end.

(** [strconv.ParseInt(lit, 10, 64)] restricted to JSON number literals. *)
Definition parse_int_lit (lit : string) : option Z :=
  let '(neg, ds) := match lit with
                    | String a r => if Ascii.eqb a "-" then (true, r) else (false, lit)
                    | EmptyString => (false, lit) end in
  match ds with
  | EmptyString => None
  | _ => if string_forallb is_digit ds
         then Some (if neg then - digits_val 0 ds else digits_val 0 ds) else None
  end.

(** A number into a Go integer of range [lo, hi]. *)
Definition int_of_jval (lo hi : Z) (v : jval) : option Z :=
  match v with
  | JNum lit =>
      z ← parse_int_lit lit;
      if (lo <=? z) && (z <=? hi) then Some z else None
  | _ => None
  end.

Definition dec_int (lo hi : Z) (st : field Z) (rv : string * jval) : field Z :=
  match rv.2 with
  | JNull => st
  | v => match int_of_jval lo hi v with Some z => (z, st.2) | None => (st.1, true) end
  end.

Definition dec_int64 := dec_int min_int64 max_int64.
Definition dec_uint32 := dec_int 0 (2 ^ 32 - 1).

(** A [*int] field: [null] resets it, a bad value leaves a pointer to zero or
    to the earlier value. *)
Definition dec_ptr_int (st : field (option Z)) (rv : string * jval) : field (option Z) :=
  match rv.2 with
  | JNull => (None, st.2)
  | v => match int_of_jval min_int64 max_int64 v with
         | Some z => (Some z, st.2)
         | None => (Some (default 0 st.1), true)
         end
  end.

(** A [[]string] field. *)
Definition dec_strings (st : field (list string)) (rv : string * jval) : field (list string) :=
  match rv.2 with
  | JNull => ([], st.2)
  | JArr vs =>
      foldl (fun acc v =>
               match v with
               | JStr s => (acc.1 ++ [s], acc.2)
               | JNull => (acc.1 ++ [""], acc.2)
               | _ => (acc.1 ++ [""], true)
               end) ([], st.2) vs
  | _ => (st.1, true)
  end.

(** The members a struct is decoded from: those of an object, none for [null];
    any other value is an error. *)
Definition struct_members (v : jval) : option (list (string * (string * jval))) :=
  match v with JObj ms => Some ms | JNull => Some [] | _ => None end.

(** ** Encoding *)

Definition hex_digit (n : Z) : ascii := if n <? 10 then byte (48 + n) else byte (87 + n).

(** [\u00XX] for a byte. *)
Definition u_escape (c : Z) : string :=
  String backslash ("u00" +:+ String (hex_digit (c / 16)) (String (hex_digit (c mod 16)) "")).

(** The escape of an ASCII byte, empty when it is written as it is. *)
Definition ascii_escape (c : Z) : string :=
  if (c =? 34) || (c =? 92) then String backslash (b1 c) else
  if c =? 8 then String backslash "b" else if c =? 12 then String backslash "f" else
  if c =? 10 then String backslash "n" else if c =? 13 then String backslash "r" else
  if c =? 9 then String backslash "t" else
  if (c <? 32) || (c =? 60) || (c =? 62) || (c =? 38) then u_escape c else "".

Definition is_line_sep (b1 b2 b3 : ascii) : bool :=
  (byte_val b1 =? 226) && (byte_val b2 =? 128) && ((byte_val b3 =? 168) || (byte_val b3 =? 169)).

Definition line_sep_escape (b3 : ascii) : string :=
  String backslash ("u202" +:+ String (hex_digit (byte_val b3 mod 16)) "").

(** The body of a string literal ([appendString] with HTML escaping). *)
Fixpoint escape_string (fuel : nat) (s : string) : string :=
  match fuel with
  | O => EmptyString
  | S fuel =>
      match s with
      | EmptyString => EmptyString
      | String a r =>
          match rune_width s, s with
          | 1%nat, _ =>
              let e := ascii_escape (byte_val a) in
              if String.eqb e "" then String a (escape_string fuel r) else e +:+ escape_string fuel r
          | 2%nat, String b1 (String b2 r) => String b1 (String b2 (escape_string fuel r))
          | 3%nat, String b1 (String b2 (String b3 r)) =>
              if is_line_sep b1 b2 b3 then line_sep_escape b3 +:+ escape_string fuel r
              else String b1 (String b2 (String b3 (escape_string fuel r)))
          | 4%nat, String b1 (String b2 (String b3 (String b4 r))) =>
              String b1 (String b2 (String b3 (String b4 (escape_string fuel r))))
          | _, _ => String backslash "ufffd" +:+ escape_string fuel r
          end
      end
  end.

Definition json_string (s : string) : string :=
  String quote (escape_string (String.length s) s +:+ String quote "").

(** [json.Compact] with HTML escaping, on a text known to be valid: white
    space outside strings is dropped, <, >, & and U+2028/9 are escaped.
    [in_str] tells whether the position is inside a string literal, [esc]
    whether the previous byte was its backslash. *)
Fixpoint compact_bytes (in_str esc : bool) (s : string) : string :=
  match s with
  | EmptyString => EmptyString
  | String a r =>
      let c := byte_val a in
      if (c =? 60) || (c =? 62) || (c =? 38) then u_escape c +:+ compact_bytes in_str false r else
      match r with
      | String b (String x r') =>
          if is_line_sep a b x then line_sep_escape x +:+ compact_bytes in_str false r'
          else if negb in_str && is_ws a then compact_bytes in_str esc r
          else String a (compact_bytes
                 (if in_str then (if esc then true else negb (Ascii.eqb a quote)) else Ascii.eqb a quote)
                 (in_str && negb esc && Ascii.eqb a backslash) r)
      | _ =>
          if negb in_str && is_ws a then compact_bytes in_str esc r
          else String a (compact_bytes
                 (if in_str then (if esc then true else negb (Ascii.eqb a quote)) else Ascii.eqb a quote)
                 (in_str && negb esc && Ascii.eqb a backslash) r)
      end
  end.

(** Marshalling a non-nil [json.RawMessage]: an invalid text is an error. *)
Definition json_compact (raw : string) : option string :=
  if json_Valid raw then Some (compact_bytes false false raw) else None.

(** An object from the encodings of its fields, in order; [None] is a field
    left out by [omitempty]. *)
Definition json_object (fields : list (option (string * string))) : string :=
  "{" +:+ String.concat "," (omap (fun f => '(k, v) ← f; Some (json_string k +:+ ":" +:+ v)) fields)
  +:+ "}".

Definition json_int (n : Z) : string := pretty n.

Example parse_ex :
  parse_json (dq " {'a' : [1, 2.5e3, 'x\u00e9'], 'b':null}")
  = Some (JObj [("a", (dq "[1, 2.5e3, 'x\u00e9']",
                       JArr [JNum "1"; JNum "2.5e3"; JStr ("x" +:+ b2 195 169)]));
                ("b", ("null", JNull))]).
Proof. vm_compute. reflexivity. Qed.

Example compact_ex :
  json_compact (dq "{ 'a' : '<\' b>' , 'c' : [ 1 ] }") =
  Some (dq "{'a':'\u003c\' b\u003e','c':[1]}").
Proof. vm_compute. reflexivity. Qed.

(** ** Number literals *)

(** The parts of a JSON number literal: sign, integer digits, fraction digits
    and the literal exponent's sign and digits. *)
Record num_parts := mkParts {
  np_neg : bool;
  np_int : string;
  np_frac : string;
  np_exp : option (bool * string)
}.

Definition split_number (lit : string) : num_parts :=
  let '(neg, r) := match lit with
                   | String a r => if Ascii.eqb a "-" then (true, r) else (false, lit)
                   | EmptyString => (false, lit) end in
  let '(i, r) := span_digits r in
  let '(f, r) := match r with
                 | String a r' => if Ascii.eqb a "." then span_digits r' else (EmptyString, r)
                 | EmptyString => (EmptyString, r) end in
  let e := match r with
           | String a (String g r') =>
               if Ascii.eqb a "e" || Ascii.eqb a "E" then
                 if Ascii.eqb g "-" then Some (true, r')
                 else if Ascii.eqb g "+" then Some (false, r')
                 else Some (false, String g r')
               else None
           | _ => None end in
  mkParts neg i f e.

Definition np_mantissa (n : num_parts) : Z :=
  let m := digits_val 0 (np_int n +:+ np_frac n) in if np_neg n then - m else m.

(** The exponent as [strconv.ParseFloat] accumulates it: no digit is added
    once it has reached 10000. *)
Fixpoint capped_exp (e : Z) (ds : string) : Z :=
  match ds with
  | EmptyString => e
  | String a ds => capped_exp (if e <? 10000 then 10 * e + digit_val a else e) ds
  end.

Definition np_float_exp (n : num_parts) : Z :=
  match np_exp n with
  | None => 0
  | Some (neg, ds) => if neg : bool then - capped_exp 0 ds else capped_exp 0 ds
  end - len (np_frac n).

(** The first magnitude that rounds to infinity: halfway between the largest
    finite double and 2^1024. *)
Definition float64_bound : Z := 2 ^ 1024 - 2 ^ 970.

(** [strconv.ParseFloat(lit, 64)] does not fail with [ErrRange]; the decimal
    point positions 310 and -330 are the ones at which it stops computing. *)
Definition float64_in_range (lit : string) : bool :=
  let n := split_number lit in
  let m := Z.abs (np_mantissa n) in
  if m =? 0 then true else
  let e := np_float_exp n in
  let dp := len (pretty m) + e in
  if 310 <? dp then false else
  if dp <? -330 then true else
  if 0 <=? e then m * 10 ^ e <? float64_bound else m <? float64_bound * 10 ^ (- e).

Example float64_ranges :
  map float64_in_range ["1"; "1.7976931348623157e308"; "1.7976931348623158e308"; "1.7976931348623159e308";
                        "1e309"; "-1e400"; "0e999"; "1e-999999"; "0.0001e312"]
  = [true; true; true; false; false; false; true; true; true].
Proof. vm_compute. reflexivity. Qed.

(** ** The parser consumes its input and its fuel is enough *)

Lemma skip_ws_length s : (String.length (skip_ws s) <= String.length s)%nat.
Proof. induction s as [|a s IH]; simpl; [done|]. case_match; simpl; lia. Qed.

Lemma hex4_length s z r : hex4 s = Some (z, r) -> (String.length r < String.length s)%nat.
Proof.
  unfold hex4. destruct s as [|a [|b [|c [|d s]]]]; try done.
  destruct (hex_val a), (hex_val b), (hex_val c), (hex_val d); simpl; try done.
  intros [= _ <-]. lia.
Qed.

Lemma strip_prefix_length p s r : strip_prefix p s = Some r -> (String.length r <= String.length s)%nat.
Proof. intros ->%strip_prefix_Some. rewrite length_append. lia. Qed.

Lemma low_surrogate_length h s z r :
  low_surrogate h s = Some (z, r) -> (String.length r < String.length s)%nat.
Proof.
  unfold low_surrogate. destruct (strip_prefix _ s) as [s'|] eqn:Hp; simpl; [|done].
  apply strip_prefix_length in Hp. destruct (hex4 s') as [[lo r']|] eqn:Hh; simpl; [|done].
  apply hex4_length in Hh. case_match; [|done]. intros [= _ <-]. lia.
Qed.

Lemma parse_string_length fuel s t r :
  parse_string fuel s = Some (t, r) -> (String.length r < String.length s)%nat.
Proof.
  revert s t r. induction fuel as [|fuel IH]; intros s t r; [done|].
  destruct s as [|a s]; [done|]. cbn [parse_string].
  assert (Hrec : forall (u : string) (f : string -> string), (String.length u <= String.length s)%nat ->
     ('(t, r) ← parse_string fuel u; Some (f t, r)) = Some (t, r) ->
     (String.length r < String.length (String a s))%nat).
  { intros u f Hu. destruct (parse_string fuel u) as [[t' r']|] eqn:Hr; simpl; [|done].
    intros [= _ <-]. apply IH in Hr. simpl. lia. }
  destruct (Ascii.eqb a quote); [intros [= _ <-]; simpl; lia|].
  destruct (Ascii.eqb a backslash).
  { destruct s as [|e s]; [done|]. destruct (Ascii.eqb e "u").
    - destruct (hex4 s) as [[u s']|] eqn:Hh; simpl; [|done]. apply hex4_length in Hh.
      destruct (is_surrogate u); [destruct (low_surrogate u s') as [[u' s'']|] eqn:Hl|].
      + apply low_surrogate_length in Hl. apply Hrec. simpl in *. lia.
      + apply (Hrec _ (fun t => replacement +:+ t)). simpl in *. lia.
      + apply (Hrec _ (fun t => encode_rune u +:+ t)). simpl in *. lia.
    - destruct (simple_escape e); simpl; [|done]. apply (Hrec _ (String a0)). simpl; lia. }
  destruct (byte_val a <? 32); [done|].
  assert (Hrepl : parse_string fuel s ≫= (λ '(t, r), Some (replacement +:+ t, r)) = Some (t, r) ->
     (String.length r < String.length (String a s))%nat) by by apply Hrec.
  destruct (rune_width (String a s)) as [|[|[|[|[|]]]]]; try done.
  - by apply (Hrec s (String a)).
  - destruct s as [|b s]; [done|].
    apply (Hrec s (fun t => String a (String b t))). simpl; lia.
  - destruct s as [|b [|c s]]; [done..|].
    apply (Hrec s (fun t => String a (String b (String c t)))). simpl; lia.
  - destruct s as [|b [|c [|d s]]]; [done..|].
    apply (Hrec s (fun t => String a (String b (String c (String d t))))). simpl; lia.
Qed.

Lemma span_digits_length s : (String.length (span_digits s).2 <= String.length s)%nat.
Proof.
  induction s as [|a s IH]; simpl; [done|]. destruct (is_digit a); [|done].
  destruct (span_digits s). simpl in *. lia.
Qed.

Lemma digits1_length s ds r : digits1 s = Some (ds, r) -> (String.length r < String.length s)%nat.
Proof.
  unfold digits1. destruct s as [|a s]; [done|]. simpl. pose proof (span_digits_length s).
  destruct (is_digit a); [|done]. destruct (span_digits s). intros [= _ <-]. simpl in *. lia.
Qed.

Lemma num_frac_length s f r : num_frac s = Some (f, r) -> (String.length r <= String.length s)%nat.
Proof.
  unfold num_frac. destruct s as [|a s]; [by intros [= _ <-]|].
  destruct (Ascii.eqb a "."); [|by intros [= _ <-]].
  destruct (digits1 s) as [[ds r']|] eqn:Hd; simpl; [|done]. intros [= _ <-].
  apply digits1_length in Hd. lia.
Qed.

Lemma num_exp_length s f r : num_exp s = Some (f, r) -> (String.length r <= String.length s)%nat.
Proof.
  unfold num_exp. destruct s as [|a s]; [by intros [= _ <-]|].
  destruct (Ascii.eqb a "e" || Ascii.eqb a "E"); [|by intros [= _ <-]].
  destruct s as [|g s]; [done|]. destruct (Ascii.eqb g "+" || Ascii.eqb g "-").
  - destruct (digits1 s) as [[ds r']|] eqn:Hd; simpl; [|done]. intros [= _ <-].
    apply digits1_length in Hd. lia.
  - destruct (digits1 (String g s)) as [[ds r']|] eqn:Hd; simpl; [|done]. intros [= _ <-].
    apply digits1_length in Hd. simpl in *. lia.
Qed.

Lemma num_int_length s i r : num_int s = Some (i, r) -> (String.length r < String.length s)%nat.
Proof.
  unfold num_int. destruct s as [|a s]; [done|].
  destruct (Ascii.eqb a "0"); [intros [= _ <-]; simpl; lia | apply digits1_length].
Qed.

Lemma parse_number_length s l r :
  parse_number s = Some (l, r) -> (String.length r < String.length s)%nat.
Proof.
  unfold parse_number.
  assert (Hs : exists sign s', match s with
     | String a r => if Ascii.eqb a "-" then ("-", r) else ("", s)
     | EmptyString => ("", s) end = (sign, s') /\ (String.length s' <= String.length s)%nat).
  { destruct s as [|a s]; [by eexists _, _|].
    destruct (Ascii.eqb a "-"); eexists _, _; (split; [done|simpl; lia]). }
  destruct Hs as (sign & s' & -> & Hle).
  destruct (num_int s') as [[i r1]|] eqn:H1; simpl; [|done].
  destruct (num_frac r1) as [[f r2]|] eqn:H2; simpl; [|done].
  destruct (num_exp r2) as [[e r3]|] eqn:H3; simpl; [|done]. intros [= _ <-].
  apply num_int_length in H1. apply num_frac_length in H2. apply num_exp_length in H3. lia.
Qed.

(** Look at the next byte after white space. *)
Lemma skip_ws_cons s b r :
  skip_ws s = String b r -> (String.length r < String.length s)%nat.
Proof. intros H. pose proof (skip_ws_length s) as Hl. rewrite H in Hl. simpl in Hl. lia. Qed.

Lemma parse_lengths fuel :
  (forall d s v r, parse_value fuel d s = Some (v, r) -> (String.length r < String.length s)%nat) /\
  (forall d s v r, parse_elems fuel d s = Some (v, r) -> (String.length r < String.length s)%nat) /\
  (forall d s v r, parse_members fuel d s = Some (v, r) -> (String.length r < String.length s)%nat).
Proof.
  induction fuel as [|fuel (IHv & IHe & IHm)]; [done|]. split_and!; intros d s v r; cbn [parse_value parse_elems parse_members].
  - destruct s as [|a s]; [done|].
    destruct (Ascii.eqb a "{"); [|destruct (Ascii.eqb a "[")].
    + destruct (maxNestingDepth <=? d); [done|].
      destruct (skip_ws s) as [|b s'] eqn:Hw; [done|]. apply skip_ws_cons in Hw.
      destruct (Ascii.eqb b "}"); [intros [= _ <-]; simpl; lia|].
      destruct (parse_members fuel (d + 1) (String b s')) as [[ms r']|] eqn:Hm; simpl; [|done].
      intros [= _ <-]. apply IHm in Hm. simpl in Hm. lia.
    + destruct (maxNestingDepth <=? d); [done|].
      destruct (skip_ws s) as [|b s'] eqn:Hw; [done|]. apply skip_ws_cons in Hw.
      destruct (Ascii.eqb b "]"); [intros [= _ <-]; simpl; lia|].
      destruct (parse_elems fuel (d + 1) (String b s')) as [[ms r']|] eqn:Hm; simpl; [|done].
      intros [= _ <-]. apply IHe in Hm. simpl in Hm. lia.
    + destruct (Ascii.eqb a quote).
      { destruct (parse_string (str_fuel s) s) as [[t r']|] eqn:Hp; simpl; [|done].
        intros [= _ <-]. apply parse_string_length in Hp. lia. }
      assert (Hlit : forall p w, (r ← strip_prefix p s; Some (w, r)) = Some (v, r) ->
                (String.length r < S (String.length s))%nat).
      { intros p w. destruct (strip_prefix p s) as [r'|] eqn:Hp; simpl; [|done].
        intros [= _ <-]. apply strip_prefix_length in Hp. lia. }
      repeat match goal with |- context [if Ascii.eqb a ?c then _ else _] =>
        destruct (Ascii.eqb a c); [by apply Hlit|] end.
      destruct (parse_number (String a s)) as [[l r']|] eqn:Hn; simpl; [|done].
      intros [= _ <-]. by apply parse_number_length in Hn.
  - destruct (parse_value fuel d s) as [[v0 r0]|] eqn:Hv; simpl; [|done]. apply IHv in Hv.
    destruct (skip_ws r0) as [|b r1] eqn:Hw; [done|]. apply skip_ws_cons in Hw.
    destruct (Ascii.eqb b "]"); [intros [= _ <-]; lia|]. destruct (Ascii.eqb b ","); [|done].
    destruct (parse_elems fuel d (skip_ws r1)) as [[vs r2]|] eqn:He; simpl; [|done].
    intros [= _ <-]. apply IHe in He. pose proof (skip_ws_length r1). lia.
  - destruct s as [|q s]; [done|]. destruct (Ascii.eqb q quote); [|done].
    destruct (parse_string (str_fuel s) s) as [[key r0]|] eqn:Hk; simpl; [|done].
    apply parse_string_length in Hk.
    destruct (skip_ws r0) as [|c r1] eqn:Hw; [done|]. apply skip_ws_cons in Hw.
    destruct (Ascii.eqb c ":"); [|done]. pose proof (skip_ws_length r1).
    destruct (parse_value fuel d (skip_ws r1)) as [[v0 r2]|] eqn:Hv; simpl; [|done]. apply IHv in Hv.
    destruct (skip_ws r2) as [|b r3] eqn:Hw2; [done|]. apply skip_ws_cons in Hw2.
    destruct (Ascii.eqb b "}"); [intros [= _ <-]; lia|]. destruct (Ascii.eqb b ","); [|done].
    destruct (parse_members fuel d (skip_ws r3)) as [[ms r4]|] eqn:He; simpl; [|done].
    intros [= _ <-]. apply IHm in He. pose proof (skip_ws_length r3). lia.
Qed.

(** Two amounts of fuel above twice the length give the same result: the
    recursion never stops for lack of fuel. *)
Lemma parse_fuel_enough f1 :
  (forall f2 d s, (2 * String.length s + 1 <= f1)%nat -> (2 * String.length s + 1 <= f2)%nat ->
     parse_value f1 d s = parse_value f2 d s) /\
  (forall f2 d s, (2 * String.length s + 2 <= f1)%nat -> (2 * String.length s + 2 <= f2)%nat ->
     parse_elems f1 d s = parse_elems f2 d s) /\
  (forall f2 d s, (2 * String.length s + 2 <= f1)%nat -> (2 * String.length s + 2 <= f2)%nat ->
     parse_members f1 d s = parse_members f2 d s).
Proof.
  induction f1 as [|f1 (IHv & IHe & IHm)]; [split_and!; intros; lia|].
  split_and!; intros [|f2] d s H1 H2; try lia; cbn [parse_value parse_elems parse_members].
  - destruct s as [|a s]; [done|]. simpl in H1, H2.
    destruct (Ascii.eqb a "{"); [|destruct (Ascii.eqb a "["); [|done]].
    + destruct (skip_ws s) as [|b s'] eqn:Hw; [done|]. apply skip_ws_cons in Hw.
      by rewrite (IHm f2) by (simpl; lia).
    + destruct (skip_ws s) as [|b s'] eqn:Hw; [done|]. apply skip_ws_cons in Hw.
      by rewrite (IHe f2) by (simpl; lia).
  - rewrite (IHv f2) by lia. destruct (parse_value f2 d s) as [[v0 r0]|] eqn:Hv; simpl; [|done].
    apply (proj1 (parse_lengths f2)) in Hv.
    destruct (skip_ws r0) as [|b r1] eqn:Hw; [done|]. apply skip_ws_cons in Hw.
    pose proof (skip_ws_length r1). by rewrite (IHe f2) by lia.
  - destruct s as [|q s]; [done|]. simpl in H1, H2. destruct (Ascii.eqb q quote); [|done].
    destruct (parse_string (str_fuel s) s) as [[key r0]|] eqn:Hk; simpl; [|done].
    apply parse_string_length in Hk.
    destruct (skip_ws r0) as [|c r1] eqn:Hw; [done|]. apply skip_ws_cons in Hw.
    destruct (Ascii.eqb c ":"); [|done]. pose proof (skip_ws_length r1).
    rewrite (IHv f2) by lia.
    destruct (parse_value f2 d (skip_ws r1)) as [[v0 r2]|] eqn:Hv; simpl; [|done].
    apply (proj1 (parse_lengths f2)) in Hv.
    destruct (skip_ws r2) as [|b r3] eqn:Hw2; [done|]. apply skip_ws_cons in Hw2.
    pose proof (skip_ws_length r3). by rewrite (IHm f2) by lia.
Qed.
