(* ===== verification/GoDuration.v ===== *)
(** * Durations as text

    [time.ParseDuration] and [Duration.Seconds], with their limits and their
    floating-point arithmetic, and [strconv.Atoi]: what pkg/config/config.go and
    cmd/ucentral-client/main.go read from the environment. *)

From S2P Require Import Prelude GoTime Float64 Json.

(** ** [time.ParseDuration] *)

Definition two63 : Z := 2 ^ 63.

(** [leadingInt]: [None] when the number overflows. *)
Fixpoint leadingInt (x : Z) (s : string) : option (Z * string) :=
  match s with
  | String c r =>
      if is_digit c then
        if two63 / 10 <? x then None else
        let x := x * 10 + digit_val c in
        if two63 <? x then None else leadingInt x r
      else Some (x, s)
  | EmptyString => Some (x, "")
  end.

(** [leadingFraction]: the digits that fit and their scale. *)
Fixpoint leadingFraction (overflow : bool) (x : Z) (scale : float64) (s : string)
    : Z * float64 * string :=
  match s with
  | String c r =>
      if is_digit c then
        if overflow || ((two63 - 1) / 10 <? x) then leadingFraction true x scale r else
        let y := x * 10 + digit_val c in
        if two63 <? y then leadingFraction true x scale r
        else leadingFraction false y (float64_mul scale (float64_of_int 10)) r
      else (x, scale, s)
  | EmptyString => (x, scale, "")
  end.

Fixpoint take_unit (s : string) : string * string :=
  match s with
  | String c r =>
      if Ascii.eqb c "." || is_digit c then ("", s)
      else let '(u, rest) := take_unit r in (String c u, rest)
  | EmptyString => ("", "")
  end.

Definition unit_of (u : string) : option Z :=
  if String.eqb u "ns" then Some Nanosecond else
  if String.eqb u "us" || String.eqb u (b2 194 181 +:+ "s") || String.eqb u (b2 206 188 +:+ "s")
  then Some 1000 else
  if String.eqb u "ms" then Some Millisecond else
  if String.eqb u "s" then Some Second else
  if String.eqb u "m" then Some Minute else
  if String.eqb u "h" then Some (60 * Minute) else None.

(** One number and its unit. *)
Definition duration_part (s : string) : option (Z * string) :=
  match s with
  | EmptyString => None
  | String c _ =>
      if negb (Ascii.eqb c "." || is_digit c) then None else
      '(v, s1) ← leadingInt 0 s;
      let pre := negb (Nat.eqb (String.length s1) (String.length s)) in
      let '(f, scale, s2, post) :=
        match s1 with
        | String d r =>
            if Ascii.eqb d "." then
              let '(f, scale, rest) := leadingFraction false 0 (float64_of_int 1) r in
              (f, scale, rest, negb (Nat.eqb (String.length rest) (String.length r)))
            else (0, float64_of_int 1, s1, false)
        | EmptyString => (0, float64_of_int 1, s1, false)
        end in
      if negb pre && negb post then None else
      let '(u, rest) := take_unit s2 in
      if String.eqb u "" then None else
      unit ← unit_of u;
      if two63 / unit <? v then None else
      let v := v * unit in
      if 0 <? f then
        let v := v + float64_trunc (float64_mul (float64_of_int f)
                                      (float64_div (float64_of_int unit) scale)) in
        if two63 <? v then None else Some (v, rest)
      else Some (v, rest)
  end.

(** The loop: each part consumes at least one byte. *)
Fixpoint duration_parts (fuel : nat) (d : Z) (s : string) : option Z :=
  match fuel with
  | O => None
  | S fuel =>
      match s with
      | EmptyString => Some d
      | _ =>
          '(v, rest) ← duration_part s;
          let d := d + v in
          if two63 <? d then None else duration_parts fuel d rest
      end
  end.

Definition ParseDuration (orig : string) : option Z :=
  let '(neg, s) := match orig with
                   | String c r => if Ascii.eqb c "-" then (true, r)
                                   else if Ascii.eqb c "+" then (false, r) else (false, orig)
                   | EmptyString => (false, orig) end in
  if String.eqb s "0" then Some 0 else
  if String.eqb s "" then None else
  d ← duration_parts (S (String.length s)) 0 s;
  if neg then Some (wrap_int (- d)) else
  if two63 - 1 <? d then None else Some d.

(** [d.Seconds()], converted to an integer. *)
Definition Seconds_int (d : Z) : Z :=
  float64_trunc (float64_add (float64_of_int (Z.quot d Second))
                   (float64_div (float64_of_int (Z.rem d Second)) (float64_of_int 1000000000))).

(** ** [strconv.Atoi] *)

Definition Atoi (s : string) : option Z :=
  let '(neg, ds) := match s with
                    | String c r => if Ascii.eqb c "-" then (true, r)
                                    else if Ascii.eqb c "+" then (false, r) else (false, s)
                    | EmptyString => (false, s) end in
  match ds with
  | EmptyString => None
  | _ =>
      if string_forallb is_digit ds then
        let z := if neg then - digits_val 0 ds else digits_val 0 ds in
        if (min_int64 <=? z) && (z <=? max_int64) then Some z else None
      else None
  end.

Example durations :
  map ParseDuration ["90s"; "1.5h"; "-2m30.25s"; "0"; "10"; ".s"; "1d"; "9223372036854775807ns";
                     "9223372036854775808ns"; "-9223372036854775808ns"; "+.5us"]
  = [Some (90 * Second); Some (90 * Minute); Some (- 150250 * Millisecond); Some 0; None; None; None;
     Some max_int64; None; Some min_int64; Some 500].
Proof. vm_compute. reflexivity. Qed.

Example seconds : map Seconds_int [1500000000; 999999999; 300 * Second] = [1; 0; 300].
Proof. vm_compute. reflexivity. Qed.

(** ** The fuel *)

Lemma leadingInt_rest s : forall x v r,
  leadingInt x s = Some (v, r) -> (String.length r <= String.length s)%nat.
Proof.
  induction s as [|c s IH]; intros x v r; simpl; [by intros [= <- <-]|].
  destruct (is_digit c); [|by intros [= <- <-]]. destruct (_ <? x); [done|]. destruct (two63 <? _); [done|].
  intros E%IH. lia.
Qed.

Lemma leadingFraction_rest s : forall o x sc f sc' r,
  leadingFraction o x sc s = (f, sc', r) -> (String.length r <= String.length s)%nat.
Proof.
  induction s as [|c s IH]; intros o x sc f sc' r; simpl; [by intros [= <- <- <-]|].
  destruct (is_digit c); [|by intros [= <- <- <-]].
  destruct (o || _); [intros E%IH; lia|]. destruct (two63 <? _); intros E%IH; lia.
Qed.

Lemma take_unit_rest s u r : take_unit s = (u, r) -> u <> "" -> (String.length r < String.length s)%nat.
Proof.
  revert u. induction s as [|c s IH]; intros u; simpl; [by intros [= <- <-]|].
  destruct (_ || _); [by intros [= <- <-]|]. destruct (take_unit s) as [u' r'] eqn:E. intros [= <- <-] _.
  destruct (decide (u' = "")) as [->|Hne]; [|specialize (IH u' eq_refl Hne); lia].
  destruct s as [|d s]; simpl in E; [injection E as <-; simpl; lia|].
  destruct (_ || _); [by injection E as <-; simpl; lia|]. by destruct (take_unit s).
Qed.

(** Every part consumes something, so the fuel of [ParseDuration] is enough:
    more of it changes nothing. *)
Lemma duration_part_rest s v r : duration_part s = Some (v, r) -> (String.length r < String.length s)%nat.
Proof.
  unfold duration_part. destruct s as [|c s0]; [done|]. set (s := String c s0).
  destruct (negb _); [done|]. destruct (leadingInt 0 s) as [[v1 s1]|] eqn:E1; [|done].
  apply leadingInt_rest in E1. cbn [mbind option_bind].
  set (q := match s1 with EmptyString => _ | _ => _ end).
  assert (Hq : (String.length q.1.2 <= String.length s1)%nat).
  { unfold q. destruct s1 as [|d s1]; [simpl; lia|]. destruct (Ascii.eqb d "."); [|simpl; lia].
    destruct (leadingFraction _ _ _ s1) as [[f sc] rest] eqn:E2. apply leadingFraction_rest in E2. simpl. lia. }
  destruct q as [[[f sc] s2] post]. simpl in Hq. destruct (negb _ && negb _); [done|].
  destruct (take_unit s2) as [u rest] eqn:E3. destruct (String.eqb_spec u ""); [done|].
  apply take_unit_rest in E3; [|done]. destruct (unit_of u) as [unit|]; [|done]. cbn [mbind option_bind].
  destruct (_ <? v1); [done|]. destruct (0 <? f); [|intros [= <- <-]; lia].
  destruct (two63 <? _); [done|]. intros [= <- <-]. lia.
Qed.

Lemma duration_parts_fuel n : forall s d k,
  (String.length s < n)%nat -> (n <= k)%nat -> duration_parts k d s = duration_parts n d s.
Proof.
  induction n as [|n IH]; intros s d k Hs Hk; [lia|]. destruct k as [|k]; [lia|].
  cbn [duration_parts]. destruct s as [|c s0]; [done|]. set (s := String c s0) in *.
  destruct (duration_part s) as [[v rest]|] eqn:E; [|done]. apply duration_part_rest in E.
  cbn [mbind option_bind]. destruct (two63 <? d + v); [done|]. apply IH; lia.
Qed.
