(* ===== verification/JsonRaw.v ===== *)
(** * Raw messages are valid JSON

    A [json.RawMessage] field of a decoded struct holds the text of one value.
    The parser of [Json] reads that text alone as it did inside the document:
    cutting a document after a value does not change the value
    ([parse_trunc]).  So a raw field that is present can be marshalled
    again. *)

From S2P Require Import Prelude Json.

(** A text without its last [n] bytes. *)
Definition trunc (n : nat) (s : string) : string := String.substring 0 (String.length s - n) s.

Lemma trunc_cons n a s : (n <= String.length s)%nat -> trunc n (String a s) = String a (trunc n s).
Proof.
  intros Hn. unfold trunc. simpl. destruct (String.length s - n)%nat eqn:E;
    (replace (S (String.length s) - n)%nat with (S (String.length s - n)) by lia); by rewrite E.
Qed.

Lemma trunc_all s : trunc (String.length s) s = "".
Proof. unfold trunc. rewrite Nat.sub_diag. by destruct s. Qed.

Lemma trunc_all_cons a s : trunc (S (String.length s)) (String a s) = "".
Proof. exact (trunc_all (String a s)). Qed.

Lemma trunc_prefix n s : (n <= String.length s)%nat -> exists t, s = trunc n s +:+ t /\ String.length t = n.
Proof.
  induction s as [|a s IH]; simpl; intros Hn; [exists ""; split; [done|simpl; lia]|].
  destruct (decide (n = S (String.length s))) as [->|].
  { exists (String a s). split; [|done]. by rewrite trunc_all_cons. }
  destruct IH as (t & Hs & Ht); [lia|]. exists t. split; [|done].
  rewrite trunc_cons by lia. simpl. by rewrite <- Hs.
Qed.

Lemma trunc_length n s : String.length (trunc n s) = (String.length s - n)%nat.
Proof.
  destruct (decide (n <= String.length s)%nat) as [Hn|].
  - destruct (trunc_prefix n s Hn) as (t & Hs & Ht). rewrite Hs at 2. rewrite length_append. lia.
  - unfold trunc. replace (String.length s - n)%nat with 0%nat by lia. by destruct s.
Qed.

Lemma raw_between_trunc s r : raw_between s r = trunc (String.length r) s.
Proof. done. Qed.

Ltac cut := rewrite ?trunc_cons by (simpl in *; lia).

(** ** The scanners *)

Lemma skip_ws_trunc n s : (n <= String.length (skip_ws s))%nat -> skip_ws (trunc n s) = trunc n (skip_ws s).
Proof.
  induction s as [|a s IH]; simpl; [done|]. destruct (is_ws a) eqn:Hw; intros Hn.
  - pose proof (skip_ws_length s). cut. simpl. rewrite Hw. by apply IH.
  - simpl in Hn. destruct (decide (n = S (String.length s))) as [->|].
    { by rewrite trunc_all_cons. }
    cut. simpl. by rewrite Hw.
Qed.

Lemma skip_ws_trunc_cons n s b r :
  skip_ws s = String b r -> (n <= String.length r)%nat -> skip_ws (trunc n s) = String b (trunc n r).
Proof. intros Hs Hn. rewrite skip_ws_trunc by (rewrite Hs; simpl; lia). rewrite Hs. by cut. Qed.

Lemma hex4_trunc n s z r :
  hex4 s = Some (z, r) -> (n <= String.length r)%nat -> hex4 (trunc n s) = Some (z, trunc n r).
Proof.
  unfold hex4 at 1. destruct s as [|a [|b [|c [|d s]]]]; try done. intros Hh Hn.
  assert (s = r) as <-.
  { destruct (hex_val a), (hex_val b), (hex_val c), (hex_val d); simpl in Hh; try done. by simplify_eq. }
  cut. cbn [hex4]. destruct (hex_val a), (hex_val b), (hex_val c), (hex_val d); simpl in *; by simplify_eq.
Qed.

Lemma strip_prefix_trunc n p s r :
  strip_prefix p s = Some r -> (n <= String.length r)%nat ->
  strip_prefix p (trunc n s) = Some (trunc n r).
Proof.
  revert s. induction p as [|a p IH]; intros s; simpl; [by intros [= ->]|].
  destruct s as [|b s]; [done|]. destruct (Ascii.eqb a b) eqn:Hab; [|done]. intros Hs Hn.
  pose proof (strip_prefix_length _ _ _ Hs). cut. rewrite Hab. by apply IH.
Qed.

Lemma low_surrogate_trunc n h s z r :
  low_surrogate h s = Some (z, r) -> (n <= String.length r)%nat ->
  low_surrogate h (trunc n s) = Some (z, trunc n r).
Proof.
  unfold low_surrogate at 1. destruct (strip_prefix _ s) as [s'|] eqn:Hp; simpl; [|done].
  destruct (hex4 s') as [[lo r']|] eqn:Hh; simpl; [|done].
  destruct (_ && _) eqn:Hb; [|done]. intros [= <- <-] Hn.
  pose proof (hex4_length _ _ _ Hh).
  unfold low_surrogate. rewrite (strip_prefix_trunc n _ _ _ Hp) by lia. simpl.
  rewrite (hex4_trunc n _ _ _ Hh) by lia. simpl. by rewrite Hb.
Qed.

Lemma rune_width_prefix p t :
  p <> "" -> (rune_width (p +:+ t) <= String.length p)%nat -> rune_width p = rune_width (p +:+ t).
Proof.
  destruct p as [|a [|b [|c [|d p]]]]; simpl; try done; intros _.
  - destruct (byte_val a <? 128); [done|]. destruct t as [|b [|c [|d t]]]; [done| | |];
      repeat case_match; lia.
  - destruct (byte_val a <? 128); [done|]. destruct (_ && _); [done|].
    destruct t as [|c [|d t]]; [done| |]; repeat case_match; lia.
  - destruct (byte_val a <? 128); [done|]. destruct (in_byte_range 194 223 a && is_cont b); [done|].
    destruct t as [|d t]; [done|]. repeat case_match; try done; lia.
Qed.

Lemma rune_width_trunc n s :
  (n < String.length s)%nat -> (n + rune_width s <= String.length s)%nat ->
  rune_width (trunc n s) = rune_width s.
Proof.
  intros Hn Hw. destruct (trunc_prefix n s) as (t & Hs & Ht); [lia|].
  assert (Hl : String.length (trunc n s) = (String.length s - n)%nat) by apply trunc_length.
  rewrite Hs at 2. apply rune_width_prefix.
  - intros E. rewrite E in Hl. simpl in Hl. lia.
  - rewrite <- Hs. lia.
Qed.

Lemma hex4_extend s z r t : hex4 s = Some (z, r) -> hex4 (s +:+ t) = Some (z, r +:+ t).
Proof.
  unfold hex4 at 1. destruct s as [|a [|b [|c [|d s]]]]; try done. simpl.
  destruct (hex_val a), (hex_val b), (hex_val c), (hex_val d); simpl; try done. by intros [= <- <-].
Qed.

Lemma low_surrogate_extend h s z r t :
  low_surrogate h s = Some (z, r) -> low_surrogate h (s +:+ t) = Some (z, r +:+ t).
Proof.
  unfold low_surrogate. destruct (strip_prefix _ s) as [s'|] eqn:Hp; [|done]. cbn [mbind option_bind].
  apply strip_prefix_Some in Hp as ->. rewrite string_app_assoc, strip_prefix_app. cbn [mbind option_bind].
  destruct (hex4 s') as [[lo r']|] eqn:Hh; [|done]. rewrite (hex4_extend _ _ _ t Hh). cbn [mbind option_bind].
  destruct (_ && _); [|done]. by intros [= <- <-].
Qed.

Lemma low_surrogate_trunc_None n h s :
  low_surrogate h s = None -> (n <= String.length s)%nat -> low_surrogate h (trunc n s) = None.
Proof.
  intros H Hn. destruct (low_surrogate h (trunc n s)) as [[z r]|] eqn:Ht; [|done].
  destruct (trunc_prefix n s Hn) as (t & Hs & _). apply (low_surrogate_extend _ _ _ _ t) in Ht.
  rewrite <- Hs in Ht. congruence.
Qed.

Lemma rune_width_le s : (rune_width s <= 4 /\ rune_width s <= String.length s)%nat.
Proof.
  destruct s as [|a [|b [|c [|d s]]]]; simpl; repeat case_match; lia.
Qed.

(** What the scanner of a string does after its first byte: read on from [u],
    and put a text before the rest. *)
Definition reads_on (n fuel f' : nat) (s : string) (t r : string) : Prop :=
  forall (u : string) (g : string -> string),
    (String.length u <= String.length s)%nat ->
    parse_string fuel u ≫= (λ '(t, r), Some (g t, r)) = Some (t, r) ->
    parse_string f' (trunc n u) ≫= (λ '(t, r), Some (g t, r)) = Some (t, trunc n r) /\
    (n < String.length u)%nat.

Lemma parse_escape_trunc n fuel f' s t r :
  reads_on n fuel f' s t r ->
  parse_string (S fuel) (String backslash s) = Some (t, r) ->
  (n <= String.length s)%nat -> parse_string (S f') (String backslash (trunc n s)) = Some (t, trunc n r).
Proof.
  intros Hrec H Hn0. cbn [parse_string] in H |- *.
  change (Ascii.eqb backslash quote) with false in *.
  change (Ascii.eqb backslash backslash) with true in *. cbv iota in *.
  destruct s as [|e s]; [done|]. assert (Hrec' := fun u g => Hrec u g). simpl in Hrec'.
  destruct (Ascii.eqb e "u") eqn:He.
  - destruct (hex4 s) as [[u s']|] eqn:Hh; simpl in H; [|done].
    pose proof (hex4_length _ _ _ Hh) as Hl.
    destruct (is_surrogate u) eqn:Hsu; [destruct (low_surrogate u s') as [[u' s'']|] eqn:Hls|].
    + pose proof (low_surrogate_length _ _ _ _ Hls) as Hl'.
      apply (Hrec' _ (fun t => encode_rune u' +:+ t)) in H as [H Hn']; [|lia].
      cut. rewrite He, (hex4_trunc n _ _ _ Hh) by lia. cbn [mbind option_bind].
      by rewrite Hsu, (low_surrogate_trunc n _ _ _ _ Hls) by lia.
    + apply (Hrec' _ (fun t => replacement +:+ t)) in H as [H Hn']; [|lia].
      cut. rewrite He, (hex4_trunc n _ _ _ Hh) by lia. cbn [mbind option_bind].
      by rewrite Hsu, low_surrogate_trunc_None by (done || lia).
    + apply (Hrec' _ (fun t => encode_rune u +:+ t)) in H as [H Hn']; [|lia].
      cut. rewrite He, (hex4_trunc n _ _ _ Hh) by lia. cbn [mbind option_bind]. by rewrite Hsu.
  - destruct (simple_escape e) as [x|] eqn:Hse; [|done].
    apply (Hrec' s (String x)) in H as [H Hn']; [|lia]. cut. by rewrite He, Hse.
Qed.

Lemma parse_string_trunc n fuel f' s t r :
  parse_string fuel s = Some (t, r) -> (n <= String.length r)%nat -> (String.length s < f' + n)%nat ->
  parse_string f' (trunc n s) = Some (t, trunc n r).
Proof.
  revert f' s t r. induction fuel as [|fuel IH]; intros f' s t r; [done|].
  intros H Hn Hf. pose proof (parse_string_length _ _ _ _ H) as Hlen.
  destruct s as [|a s]; [done|]. simpl in Hlen, Hf. destruct f' as [|f']; [lia|].
  assert (Hrec : reads_on n fuel f' s t r).
  { intros u g Hu. destruct (parse_string fuel u) as [[t' r']|] eqn:Hr; simpl; [|done].
    intros [= <- <-]. rewrite (IH f' _ _ _ Hr) by lia.
    apply parse_string_length in Hr. split; [done|lia]. }
  cut. destruct (Ascii.eqb_spec a backslash) as [->|Ha].
  { apply (parse_escape_trunc n fuel f' s); [done|done|lia]. }
  cbn [parse_string] in H |- *. destruct (Ascii.eqb a quote); [by injection H as <- <-|].
  rewrite (proj2 (Ascii.eqb_neq _ _) Ha) in *.
  destruct (byte_val a <? 32); [done|].
  destruct (rune_width_le (String a s)) as [Hw4 Hwl].
  assert (Hgo : (n + rune_width (String a s) <= String.length (String a s))%nat ->
            rune_width (String a (trunc n s)) = rune_width (String a s)).
  { intros Hw. rewrite <- trunc_cons by (simpl in *; lia). apply rune_width_trunc; simpl in *; lia. }
  unfold reads_on in Hrec.
  destruct (rune_width (String a s)) as [|[|[|[|[|k]]]]] eqn:Hrw; [| | | | |lia].
  - apply (Hrec s (fun t => replacement +:+ t)) in H as [H Hn']; [|lia]. rewrite Hgo by (simpl; lia). done.
  - apply (Hrec s (String a)) in H as [H Hn']; [|lia]. rewrite Hgo by (simpl; lia). done.
  - destruct s as [|b s]; [simpl in Hwl; lia|]. simpl in Hrec.
    apply (Hrec s (fun t => String a (String b t))) in H as [H Hn']; [|lia].
    rewrite Hgo by (simpl; lia). by cut.
  - destruct s as [|b [|c s]]; [simpl in Hwl; lia..|]. simpl in Hrec.
    apply (Hrec s (fun t => String a (String b (String c t)))) in H as [H Hn']; [|lia].
    rewrite Hgo by (simpl; lia). by cut.
  - destruct s as [|b [|c [|d s]]]; [simpl in Hwl; lia..|]. simpl in Hrec.
    apply (Hrec s (fun t => String a (String b (String c (String d t))))) in H as [H Hn']; [|lia].
    rewrite Hgo by (simpl; lia). by cut.
Qed.

Lemma span_digits_trunc n s ds r :
  span_digits s = (ds, r) -> (n <= String.length r)%nat -> span_digits (trunc n s) = (ds, trunc n r).
Proof.
  revert ds. induction s as [|a s IH]; intros ds; cbn [span_digits]; [by intros [= <- <-]|].
  destruct (is_digit a) eqn:Hd.
  - destruct (span_digits s) as [ds' r'] eqn:Hs. intros [= <- <-] Hn.
    pose proof (span_digits_length s) as Hl. rewrite Hs in Hl. simpl in Hl. cut.
    cbn [span_digits]. by rewrite Hd, (IH _ eq_refl).
  - intros [= <- <-] Hn. simpl in Hn. destruct (decide (n = S (String.length s))) as [->|].
    { by rewrite trunc_all_cons. }
    cut. cbn [span_digits]. by rewrite Hd.
Qed.

Lemma digits1_trunc n s ds r :
  digits1 s = Some (ds, r) -> (n <= String.length r)%nat -> digits1 (trunc n s) = Some (ds, trunc n r).
Proof.
  unfold digits1. destruct (span_digits s) as [ds' r'] eqn:Hs. intros H Hn.
  assert (r' = r /\ ds' = ds) as [-> ->] by (destruct ds'; by simplify_eq).
  rewrite (span_digits_trunc n _ _ _ Hs) by done. destruct ds; [done|]. done.
Qed.

Lemma num_int_trunc n s i r :
  num_int s = Some (i, r) -> (n <= String.length r)%nat -> num_int (trunc n s) = Some (i, trunc n r).
Proof.
  intros H Hn. pose proof (num_int_length _ _ _ H) as Hl. destruct s as [|a s]; [done|].
  unfold num_int in *. destruct (Ascii.eqb a "0") eqn:Ha.
  - injection H as <- <-. cut. by rewrite Ha.
  - apply (digits1_trunc n) in H; [|done]. simpl in Hl. revert H. cut. by rewrite Ha.
Qed.

(** A scanner of an optional part that starts with one of some bytes. *)
Lemma optional_trunc n (p : ascii -> bool) (go : string -> option (string * string))
    (scan : string -> option (string * string)) s x r :
  (forall s, scan s = match s with
                      | String a r' => if p a then go s else Some ("", s)
                      | EmptyString => Some ("", s) end) ->
  (forall x r, go s = Some (x, r) -> (n <= String.length r)%nat ->
     (n < String.length s)%nat /\ go (trunc n s) = Some (x, trunc n r)) ->
  scan s = Some (x, r) -> (n <= String.length r)%nat -> scan (trunc n s) = Some (x, trunc n r).
Proof.
  intros Heq Hgo. rewrite !Heq. destruct s as [|a s]; [by intros [= <- <-]|].
  destruct (p a) eqn:Hp.
  - intros H Hn. destruct (Hgo _ _ H Hn) as [Hl H']. simpl in Hl. revert H'. cut. by rewrite Hp.
  - intros [= <- <-] Hn. simpl in Hn. destruct (decide (n = S (String.length s))) as [->|].
    { by rewrite trunc_all_cons. }
    cut. by rewrite Hp.
Qed.

Lemma num_frac_trunc n s f r :
  num_frac s = Some (f, r) -> (n <= String.length r)%nat -> num_frac (trunc n s) = Some (f, trunc n r).
Proof.
  apply (optional_trunc n (fun a => Ascii.eqb a ".")
    (fun s => match s with String _ r => '(ds, r) ← digits1 r; Some (String "." ds, r) | _ => None end)).
  { by intros []. }
  destruct s as [|a s]; [done|]. intros x r'. destruct (digits1 s) as [[ds r1]|] eqn:Hd; simpl; [|done].
  intros [= <- <-] Hn. pose proof (digits1_length _ _ _ Hd). split; [lia|]. cut.
  by rewrite (digits1_trunc n _ _ _ Hd).
Qed.

Lemma num_exp_trunc n s f r :
  num_exp s = Some (f, r) -> (n <= String.length r)%nat -> num_exp (trunc n s) = Some (f, trunc n r).
Proof.
  apply (optional_trunc n (fun a => Ascii.eqb a "e" || Ascii.eqb a "E")
    (fun s => match s with
     | String e r =>
        match r with
        | String g r' =>
            if Ascii.eqb g "+" || Ascii.eqb g "-"
            then '(ds, r) ← digits1 r'; Some (String e (String g ds), r)
            else '(ds, r) ← digits1 r; Some (String e ds, r)
        | EmptyString => None
        end
     | EmptyString => None end)).
  { by intros [|? []]. }
  destruct s as [|e [|g s]]; [done..|]. intros x r'. destruct (_ || _) eqn:Hg.
  - destruct (digits1 s) as [[ds r1]|] eqn:Hd; simpl; [|done]. intros [= <- <-] Hn.
    pose proof (digits1_length _ _ _ Hd). split; [lia|]. cut. rewrite Hg.
    by rewrite (digits1_trunc n _ _ _ Hd).
  - destruct (digits1 (String g s)) as [[ds r1]|] eqn:Hd; simpl; [|done]. intros [= <- <-] Hn.
    pose proof (digits1_length _ _ _ Hd). simpl in *. split; [lia|]. cut. rewrite Hg.
    apply (digits1_trunc n) in Hd; [|done]. revert Hd. cut. by intros ->.
Qed.

Lemma parse_number_trunc n s l r :
  parse_number s = Some (l, r) -> (n <= String.length r)%nat ->
  parse_number (trunc n s) = Some (l, trunc n r).
Proof.
  assert (Hgo : forall sign u l r,
    ('(i, r) ← num_int u; '(f, r) ← num_frac r; '(e, r) ← num_exp r; Some (sign +:+ i +:+ f +:+ e, r))
      = Some (l, r) -> (n <= String.length r)%nat ->
    (n < String.length u)%nat /\
    ('(i, r) ← num_int (trunc n u); '(f, r) ← num_frac r; '(e, r) ← num_exp r;
       Some (sign +:+ i +:+ f +:+ e, r)) = Some (l, trunc n r)).
  { intros sign u l' r'. destruct (num_int u) as [[i r1]|] eqn:H1; simpl; [|done].
    destruct (num_frac r1) as [[f r2]|] eqn:H2; simpl; [|done].
    destruct (num_exp r2) as [[e r3]|] eqn:H3; simpl; [|done]. intros [= <- <-] Hn.
    pose proof (num_int_length _ _ _ H1). pose proof (num_frac_length _ _ _ H2).
    pose proof (num_exp_length _ _ _ H3).
    rewrite (num_int_trunc n _ _ _ H1) by lia. simpl. rewrite (num_frac_trunc n _ _ _ H2) by lia. simpl.
    rewrite (num_exp_trunc n _ _ _ H3) by lia. split; [lia|done]. }
  unfold parse_number. intros H Hn. destruct s as [|a s]; [done|]. destruct (Ascii.eqb a "-") eqn:Ha.
  - destruct (Hgo _ _ _ _ H Hn) as [Hl Hg]. cut. by rewrite Ha.
  - destruct (Hgo _ _ _ _ H Hn) as [Hl Hg]. simpl in Hl. revert Hg. cut. by rewrite Ha.
Qed.

(** ** The parser *)

Lemma trunc_trunc n k s : (n + k <= String.length s)%nat -> trunc k (trunc n s) = trunc (n + k) s.
Proof.
  revert n k. induction s as [|a s IH]; intros n k Hn; [by destruct n, k|]. simpl in Hn.
  destruct (decide (n = S (String.length s))) as [->|].
  { replace k with 0%nat by lia. rewrite Nat.add_0_r. by rewrite trunc_all_cons. }
  rewrite (trunc_cons n) by lia.
  destruct (decide (n + k = S (String.length s))%nat) as [E|].
  { rewrite E, trunc_all_cons. replace k with (String.length (String a (trunc n s))); [apply trunc_all|].
    simpl. rewrite trunc_length. lia. }
  rewrite !trunc_cons by (rewrite ?trunc_length; lia). by rewrite IH by lia.
Qed.

Lemma raw_between_cut n s r :
  (n <= String.length r)%nat -> (String.length r <= String.length s)%nat ->
  raw_between (trunc n s) (trunc n r) = raw_between s r.
Proof.
  intros Hn Hl. rewrite !raw_between_trunc, trunc_length, trunc_trunc by lia. f_equal. lia.
Qed.

(** [parse f d] reads [s] up to [r] with fuel [f] at depth [d]: then it reads
    the cut text, too, with the fuel of the cut text and at any lower depth. *)
Definition cuts {A} (parse : nat -> Z -> string -> option (A * string)) (n k f : nat) : Prop :=
  forall f' d d' s v r, parse f d s = Some (v, r) -> (n <= String.length r)%nat ->
    (2 * String.length s + k <= f' + 2 * n)%nat -> d' <= d ->
    parse f' d' (trunc n s) = Some (v, trunc n r).

(** An object or an array after its opening bracket. *)
Lemma cuts_container {A} (parse : nat -> Z -> string -> option (A * string)) (wrap : A -> jval)
    (empty : jval) close n f f' d d' s v r :
  cuts parse n 2 f ->
  (forall d s v r, parse f d s = Some (v, r) -> (String.length r < String.length s)%nat) ->
  (if maxNestingDepth <=? d then None else
   match skip_ws s with
   | String b r' => if Ascii.eqb b close then Some (empty, r') else
                    '(x, r) ← parse f (d + 1) (String b r'); Some (wrap x, r)
   | EmptyString => None
   end) = Some (v, r) ->
  (n <= String.length r)%nat -> (2 * S (String.length s) + 1 <= S f' + 2 * n)%nat -> d' <= d ->
  (if maxNestingDepth <=? d' then None else
   match skip_ws (trunc n s) with
   | String b r' => if Ascii.eqb b close then Some (empty, r') else
                    '(x, r) ← parse f' (d' + 1) (String b r'); Some (wrap x, r)
   | EmptyString => None
   end) = Some (v, trunc n r).
Proof.
  intros IH Hlen H Hn Hf Hd.
  destruct (Z.leb_spec maxNestingDepth d); [done|]. destruct (Z.leb_spec maxNestingDepth d'); [lia|].
  destruct (skip_ws s) as [|b s'] eqn:Hw; [done|]. pose proof (skip_ws_cons _ _ _ Hw).
  destruct (Ascii.eqb b close) eqn:Hb.
  { injection H as <- <-. rewrite (skip_ws_trunc_cons n _ _ _ Hw) by lia. by rewrite Hb. }
  destruct (parse f (d + 1) (String b s')) as [[x r']|] eqn:Hm; simpl in H; [|done].
  injection H as <- <-. pose proof (Hlen _ _ _ _ Hm) as Hlm. simpl in Hlm.
  rewrite (skip_ws_trunc_cons n _ _ _ Hw) by lia. rewrite Hb.
  apply (IH f' _ (d' + 1)) in Hm; [|lia|simpl; lia|lia]. revert Hm. cut. by intros ->.
Qed.

Lemma cuts_value n f :
  cuts parse_elems n 2 f -> cuts parse_members n 2 f -> cuts parse_value n 1 (S f).
Proof.
  intros IHe IHm f' d d' s v r H Hn Hf Hd. destruct (parse_lengths f) as (_ & Le & Lm).
  pose proof (proj1 (parse_lengths (S f)) _ _ _ _ H) as Hl.
  destruct f' as [|f']; [lia|]. cbn [parse_value] in H.
  destruct s as [|a s]; [done|]. simpl in Hl, Hf. cut. cbn [parse_value].
  destruct (Ascii.eqb a "{"); [by eapply (cuts_container parse_members JObj)|].
  destruct (Ascii.eqb a "["); [by eapply (cuts_container parse_elems JArr)|].
  destruct (Ascii.eqb a quote).
  { destruct (parse_string (str_fuel s) s) as [[t r']|] eqn:Hp; simpl in H; [|done].
    injection H as <- <-. erewrite (parse_string_trunc n); [done|exact Hp|done|].
    unfold str_fuel. rewrite trunc_length. lia. }
  assert (Hlit : forall p w, (r ← strip_prefix p s; Some (w, r)) = Some (v, r) ->
            (r ← strip_prefix p (trunc n s); Some (w, r)) = Some (v, trunc n r)).
  { intros p w. destruct (strip_prefix p s) as [r'|] eqn:Hp; simpl; [|done]. intros [= <- <-].
    by rewrite (strip_prefix_trunc n _ _ _ Hp). }
  repeat match goal with |- context [if Ascii.eqb a ?c then _ else _] =>
    destruct (Ascii.eqb a c); [by apply Hlit|] end.
  destruct (parse_number (String a s)) as [[l r']|] eqn:Hnum; simpl in H; [|done].
  injection H as <- <-. apply (parse_number_trunc n) in Hnum; [|done]. revert Hnum. cut. by intros ->.
Qed.

(** What follows an element: the end, or a comma and the others. *)
Lemma cuts_rest {A} (parse : nat -> Z -> string -> option (list A * string)) close (x : A) n f f' d d' r0 v r :
  cuts parse n 2 f ->
  (forall d s v r, parse f d s = Some (v, r) -> (String.length r < String.length s)%nat) ->
  match skip_ws r0 with
  | String b r => if Ascii.eqb b close then Some ([x], r) else
                  if Ascii.eqb b "," then '(xs, r) ← parse f d (skip_ws r); Some (x :: xs, r) else None
  | EmptyString => None
  end = Some (v, r) ->
  (n <= String.length r)%nat -> (2 * String.length r0 <= f' + 2 * n)%nat -> d' <= d ->
  (n < String.length r0)%nat /\
  match skip_ws (trunc n r0) with
  | String b r => if Ascii.eqb b close then Some ([x], r) else
                  if Ascii.eqb b "," then '(xs, r) ← parse f' d' (skip_ws r); Some (x :: xs, r) else None
  | EmptyString => None
  end = Some (v, trunc n r).
Proof.
  intros IH Hlen H Hn Hf Hd.
  destruct (skip_ws r0) as [|b r1] eqn:Hw; [done|]. pose proof (skip_ws_cons _ _ _ Hw).
  destruct (Ascii.eqb b close) eqn:Hb.
  { injection H as <- <-. split; [lia|]. rewrite (skip_ws_trunc_cons n _ _ _ Hw) by lia. by rewrite Hb. }
  destruct (Ascii.eqb b ",") eqn:Hc; [|done].
  destruct (parse f d (skip_ws r1)) as [[vs r2]|] eqn:He; simpl in H; [|done].
  injection H as <- <-. pose proof (Hlen _ _ _ _ He). pose proof (skip_ws_length r1). split; [lia|].
  rewrite (skip_ws_trunc_cons n _ _ _ Hw) by lia. rewrite Hb, Hc.
  rewrite skip_ws_trunc by lia. by rewrite (IH f' _ d' _ _ _ He) by lia.
Qed.

Lemma cuts_elems n f :
  cuts parse_value n 1 f -> cuts parse_elems n 2 f -> cuts parse_elems n 2 (S f).
Proof.
  intros IHv IHe f' d d' s v r H Hn Hf Hd. destruct (parse_lengths f) as (Lv & Le & _).
  pose proof (proj1 (proj2 (parse_lengths (S f))) _ _ _ _ H) as Hl.
  destruct f' as [|f']; [lia|]. cbn [parse_elems] in H |- *.
  destruct (parse_value f d s) as [[v0 r0]|] eqn:Hv; simpl in H; [|done]. pose proof (Lv _ _ _ _ Hv).
  eapply (cuts_rest parse_elems _ v0 n f f' d d') in H as [Hr0 H]; [|done|done|done|lia|done].
  rewrite (IHv f' _ d' _ _ _ Hv) by lia. exact H.
Qed.

Lemma cuts_members n f :
  cuts parse_value n 1 f -> cuts parse_members n 2 f -> cuts parse_members n 2 (S f).
Proof.
  intros IHv IHm f' d d' s v r H Hn Hf Hd. destruct (parse_lengths f) as (Lv & _ & Lm).
  pose proof (proj2 (proj2 (parse_lengths (S f))) _ _ _ _ H) as Hl.
  destruct f' as [|f']; [lia|]. cbn [parse_members] in H.
  destruct s as [|q s]; [done|]. simpl in Hl, Hf. cut. cbn [parse_members].
  destruct (Ascii.eqb q quote); [|done].
  destruct (parse_string (str_fuel s) s) as [[key r0]|] eqn:Hk; simpl in H; [|done].
  pose proof (parse_string_length _ _ _ _ Hk).
  destruct (skip_ws r0) as [|c r1] eqn:Hw; [done|]. pose proof (skip_ws_cons _ _ _ Hw).
  destruct (Ascii.eqb c ":") eqn:Hc; [|done]. pose proof (skip_ws_length r1).
  destruct (parse_value f d (skip_ws r1)) as [[v0 r2]|] eqn:Hv; simpl in H; [|done].
  pose proof (Lv _ _ _ _ Hv).
  eapply (cuts_rest parse_members _ _ n f f' d d') in H as [Hr2 H]; [|done|done|done|lia|done].
  erewrite (parse_string_trunc n); [|exact Hk|lia|unfold str_fuel; rewrite trunc_length; lia].
  cbn [mbind option_bind]. rewrite (skip_ws_trunc_cons n _ _ _ Hw) by lia. rewrite Hc.
  rewrite skip_ws_trunc by lia. rewrite (IHv f' _ d' _ _ _ Hv) by lia. cbn [mbind option_bind].
  rewrite raw_between_cut by lia. exact H.
Qed.

Lemma parse_trunc n f : cuts parse_value n 1 f /\ cuts parse_elems n 2 f /\ cuts parse_members n 2 f.
Proof.
  induction f as [|f (IHv & IHe & IHm)]; [done|].
  split_and!; [by apply cuts_value|by apply cuts_elems|by apply cuts_members].
Qed.

(** ** Raw members *)

Lemma skip_ws_idem s : skip_ws (skip_ws s) = skip_ws s.
Proof. induction s as [|a s IH]; simpl; [done|]. destruct (is_ws a) eqn:Hw; [done|]. simpl. by rewrite Hw. Qed.

(** The text of a value inside a document, read on its own. *)
Lemma parse_json_raw f d sv v rest :
  parse_value f d sv = Some (v, rest) -> skip_ws sv = sv -> 0 <= d ->
  parse_json (raw_between sv rest) = Some v.
Proof.
  intros Hv Hs Hd. pose proof (proj1 (parse_lengths f) _ _ _ _ Hv) as Hl.
  rewrite raw_between_trunc. unfold parse_json.
  rewrite skip_ws_trunc by (rewrite Hs; lia). rewrite Hs.
  rewrite (proj1 (parse_trunc (String.length rest) f) (parse_fuel (trunc (String.length rest) sv)) d 0 _ _ _ Hv);
    [by rewrite trunc_all| | |]; rewrite ?trunc_length; unfold parse_fuel; rewrite ?trunc_length; lia.
Qed.

Definition raw_ok (m : string * (string * jval)) : Prop := parse_json m.2.1 = Some m.2.2.

Lemma parse_members_raw f d s ms r :
  parse_members f d s = Some (ms, r) -> 0 <= d -> Forall raw_ok ms.
Proof.
  revert s ms r. induction f as [|f IH]; intros s ms r H Hd; [done|]. cbn [parse_members] in H.
  destruct s as [|q s]; [done|]. destruct (Ascii.eqb q quote); [|done].
  destruct (parse_string (str_fuel s) s) as [[key r0]|]; simpl in H; [|done].
  destruct (skip_ws r0) as [|c r1]; [done|]. destruct (Ascii.eqb c ":"); [|done].
  destruct (parse_value f d (skip_ws r1)) as [[v0 r2]|] eqn:Hv; simpl in H; [|done].
  assert (Hm : raw_ok (key, (raw_between (skip_ws r1) r2, v0))).
  { unfold raw_ok. simpl. eapply parse_json_raw; [exact Hv|apply skip_ws_idem|done]. }
  destruct (skip_ws r2) as [|b r3]; [done|].
  destruct (Ascii.eqb b "}"); [injection H as <- _; by constructor|].
  destruct (Ascii.eqb b ","); [|done].
  destruct (parse_members f d (skip_ws r3)) as [[ms' r4]|] eqn:He; simpl in H; [|done].
  injection H as <- _. constructor; [done|]. by eapply IH.
Qed.

(** The raw text kept for a member of a JSON object is itself a JSON text,
    and it denotes the member's value. *)
Theorem member_raw_parses s ms m :
  parse_json s = Some (JObj ms) -> m ∈ ms -> parse_json m.2.1 = Some m.2.2.
Proof.
  unfold parse_json at 1. destruct (parse_value _ _ _) as [[v r]|] eqn:Hv; [|done].
  destruct (skip_ws r); [|done]. intros [= ->] Hin.
  assert (HF : Forall raw_ok ms).
  { unfold parse_fuel in Hv. rewrite Nat.add_comm in Hv. cbn [Nat.add parse_value] in Hv.
    destruct (skip_ws s) as [|a s']; [done|]. destruct (Ascii.eqb a "{").
    - destruct (maxNestingDepth <=? 0); [done|]. destruct (skip_ws s') as [|b s'']; [done|].
      destruct (Ascii.eqb b "}"); [by injection Hv as <- _|].
      destruct (parse_members _ _ _) as [[ms' r']|] eqn:Hm; simpl in Hv; [|done].
      injection Hv as <- _. eapply parse_members_raw; [exact Hm|lia].
    - destruct (Ascii.eqb a "[").
      { destruct (maxNestingDepth <=? 0); [done|]. destruct (skip_ws s') as [|b s'']; [done|].
        destruct (Ascii.eqb b "]"); [done|]. by destruct (parse_elems _ _ _) as [[? ?]|]. }
      destruct (Ascii.eqb a quote); [by destruct (parse_string _ _) as [[? ?]|]|].
      repeat match type of Hv with (if ?b then _ else _) = _ => destruct b end;
        try by destruct (strip_prefix _ _).
      by destruct (parse_number _) as [[? ?]|]. }
  rewrite Forall_forall in HF. exact (HF m Hin).
Qed.

Example member_raw_ex :
  match parse_json (dq "{'id' : [1,  2.5e3] , 'b':null}") with
  | Some (JObj ms) => map (fun m => m.2.1) ms
  | _ => []
  end = ["[1,  2.5e3]"; "null"].
Proof. vm_compute. reflexivity. Qed.
