(* ===== verification/JsonRoundTrip.v ===== *)
(** * What is encoded is decoded again

    The encoder of [Json] followed by its parser: a string comes back as valid
    UTF-8, unchanged if it was ([escape_valid], [escape_utf8]), and arrays and
    objects written from the texts of their parts are read with these parts
    ([reads_array], [reads_object], [parse_json_object]). *)

From S2P Require Import Prelude Json JsonRaw.

(** ** UTF-8 *)

Fixpoint utf8_go (fuel : nat) (s : string) : bool :=
  match fuel with
  | O => true
  | S fuel =>
      match s with
      | EmptyString => true
      | String a r =>
          match rune_width s, s with
          | 1%nat, _ => utf8_go fuel r
          | 2%nat, String _ (String _ r) => utf8_go fuel r
          | 3%nat, String _ (String _ (String _ r)) => utf8_go fuel r
          | 4%nat, String _ (String _ (String _ (String _ r))) => utf8_go fuel r
          | _, _ => false
          end
      end
  end.

(** [utf8.ValidString]. *)
Definition utf8 (s : string) : bool := utf8_go (String.length s) s.

(** Every byte that starts no rune replaced by U+FFFD. *)
Fixpoint to_valid_go (fuel : nat) (s : string) : string :=
  match fuel with
  | O => EmptyString
  | S fuel =>
      match s with
      | EmptyString => EmptyString
      | String a r =>
          match rune_width s, s with
          | 1%nat, _ => String a (to_valid_go fuel r)
          | 2%nat, String a (String b r) => String a (String b (to_valid_go fuel r))
          | 3%nat, String a (String b (String c r)) => String a (String b (String c (to_valid_go fuel r)))
          | 4%nat, String a (String b (String c (String d r))) =>
              String a (String b (String c (String d (to_valid_go fuel r))))
          | _, _ => replacement +:+ to_valid_go fuel r
          end
      end
  end.

Definition to_valid (s : string) : string := to_valid_go (String.length s) s.

Lemma utf8_to_valid_go n : forall s, (String.length s <= n)%nat -> utf8_go n s = true -> to_valid_go n s = s.
Proof.
  induction n as [|n IH]; intros s Hl Hu; [destruct s; [done|simpl in Hl; lia]|].
  destruct s as [|a s]; [done|]. simpl in Hl. cbn [utf8_go to_valid_go] in Hu |- *.
  destruct (rune_width (String a s)) as [|[|[|[|[|k]]]]]; try done.
  - by rewrite IH by (done || lia).
  - destruct s as [|b s]; [done|]. simpl in Hl. by rewrite IH by (done || lia).
  - destruct s as [|b [|c s]]; [done|done|]. simpl in Hl. by rewrite IH by (done || lia).
  - destruct s as [|b [|c [|d s]]]; [done|done|done|]. simpl in Hl. by rewrite IH by (done || lia).
Qed.

Lemma to_valid_utf8 s : utf8 s = true -> to_valid s = s.
Proof. by apply utf8_to_valid_go. Qed.

Lemma rune_width_extend p t : (2 <= rune_width p)%nat -> rune_width (p +:+ t) = rune_width p.
Proof.
  destruct p as [|a [|b [|c [|d p]]]]; simpl; try lia.
  - destruct (byte_val a <? 128); lia.
  - destruct (byte_val a <? 128); [lia|]. destruct (in_byte_range 194 223 a && is_cont b); [done|lia].
  - destruct (byte_val a <? 128); [lia|]. destruct (in_byte_range 194 223 a && is_cont b); [done|].
    case_match; [done|lia].
Qed.

Lemma rune_width_swap p r t k :
  (2 <= k)%nat -> String.length p = k -> rune_width (p +:+ r) = k -> rune_width (p +:+ t) = k.
Proof.
  intros Hk Hl Hr. assert (Hp : rune_width p = k).
  { rewrite <- Hr. apply rune_width_prefix; [|lia]. intros ->. simpl in Hl. lia. }
  rewrite rune_width_extend; lia.
Qed.

Lemma rune_width_wide a r : (2 <= rune_width (String a r))%nat -> 128 <= byte_val a.
Proof. simpl. destruct (Z.ltb_spec (byte_val a) 128); lia. Qed.

Lemma rune_width_one a r : rune_width (String a r) = 1%nat -> byte_val a < 128.
Proof.
  simpl. destruct (Z.ltb_spec (byte_val a) 128); [done|]. intros Hr. exfalso. revert Hr.
  repeat case_match; done.
Qed.

(** ** Strings

    One lemma per way a rune is written. *)
Definition then_ (chunk : string) (x : option (string * string)) : option (string * string) :=
  '(t, r) ← x; Some (chunk +:+ t, r).

Lemma parse_plain a f tail :
  byte_val a < 128 -> ascii_escape (byte_val a) = "" ->
  parse_string (S f) (String a tail) = then_ (String a "") (parse_string f tail).
Proof.
  intros Ha He. cbn [parse_string].
  assert (Ascii.eqb a quote = false /\ Ascii.eqb a backslash = false /\ (byte_val a <? 32) = false)
    as (-> & -> & ->).
  { destruct a as [[] [] [] [] [] [] [] []]; vm_compute in He; try discriminate He;
      (split_and!; vm_compute; reflexivity). }
  assert (rune_width (String a tail) = 1%nat) as ->.
  { simpl. by destruct (Z.ltb_spec (byte_val a) 128); [|lia]. }
  done.
Qed.

Lemma parse_escape a f tail :
  byte_val a < 128 -> ascii_escape (byte_val a) <> "" ->
  parse_string (S f) (ascii_escape (byte_val a) +:+ tail) = then_ (String a "") (parse_string f tail).
Proof.
  intros Ha He.
  destruct a as [[] [] [] [] [] [] [] []]; try (exfalso; vm_compute in Ha; discriminate Ha);
    try (exfalso; apply He; vm_compute; reflexivity); reflexivity.
Qed.

Lemma wide_byte a :
  128 <= byte_val a ->
  Ascii.eqb a quote = false /\ Ascii.eqb a backslash = false /\ (byte_val a <? 32) = false.
Proof.
  intros Ha. split_and!.
  - apply Ascii.eqb_neq. intros ->. by vm_compute in Ha.
  - apply Ascii.eqb_neq. intros ->. by vm_compute in Ha.
  - apply Z.ltb_ge. lia.
Qed.

Lemma parse_wide p r f tail :
  let k := rune_width (p +:+ r) in
  (2 <= k <= 4)%nat -> String.length p = k ->
  parse_string (S f) (p +:+ tail) = then_ p (parse_string f tail).
Proof.
  intros k Hk Hl.
  assert (Hw : rune_width (p +:+ tail) = k) by (by eapply rune_width_swap; [lia| |]).
  destruct p as [|a p]; [simpl in Hl; lia|]. simpl in Hl, Hw.
  destruct (wide_byte a) as (Hq & Hb & H32); [apply (rune_width_wide a (p +:+ r)); exact (proj1 Hk)|].
  cbn [String.append parse_string]. rewrite Hq, Hb, H32.
  change (rune_width (String a (p +:+ tail))) with (rune_width (String a p +:+ tail)).
  assert (rune_width (String a p +:+ tail) = k) as -> by done.
  destruct k as [|[|[|[|[|k']]]]]; try lia.
  - by destruct p as [|b [|? ?]].
  - by destruct p as [|b [|c [|? ?]]].
  - by destruct p as [|b [|c [|d [|? ?]]]].
Qed.

Lemma line_sep_bytes a b c :
  is_line_sep a b c = true ->
  a = byte 226 /\ b = byte 128 /\ (c = byte 168 \/ c = byte 169).
Proof.
  unfold is_line_sep. intros Hs. bool_to_prop.
  assert (Hinj : forall x z, byte_val x = z -> x = byte z).
  { intros x z <-. unfold byte, byte_val. by rewrite N2Z.id, ascii_N_embedding. }
  split_and!; [by apply Hinj..|]. destruct H0 as [Hz|Hz]; apply Z.eqb_eq in Hz; [left|right]; by apply Hinj.
Qed.

Lemma parse_line_sep a b c f tail :
  is_line_sep a b c = true ->
  parse_string (S f) (line_sep_escape c +:+ tail) = then_ (String a (String b (String c ""))) (parse_string f tail).
Proof. intros (-> & -> & [-> | ->])%line_sep_bytes; reflexivity. Qed.

Lemma then_assoc a b x : then_ a (then_ b x) = then_ (a +:+ b) x.
Proof. destruct x as [[t r]|]; [|done]. simpl. by rewrite string_app_assoc. Qed.

Lemma parse_invalid f tail :
  parse_string (S f) (String backslash "ufffd" +:+ tail) = then_ replacement (parse_string f tail).
Proof. reflexivity. Qed.

Lemma parse_escaped n : forall s f rest,
  (String.length s <= n)%nat -> (String.length (escape_string n s) < f)%nat ->
  parse_string f (escape_string n s +:+ String quote rest) = Some (to_valid_go n s, rest).
Proof.
  induction n as [|n IH]; intros s f rest Hl Hf.
  { destruct s; [|simpl in Hl; lia]. destruct f; [lia|]. done. }
  destruct s as [|a s]; [destruct f; [lia|done]|]. destruct f as [|f]; [lia|].
  assert (Hgo : forall chunk esc s' t, (String.length s' < String.length (String a s))%nat ->
     t = chunk +:+ to_valid_go n s' -> (String.length (esc +:+ escape_string n s') < S f)%nat -> esc <> "" ->
     (forall tail, parse_string (S f) (esc +:+ tail) = then_ chunk (parse_string f tail)) ->
     parse_string (S f) ((esc +:+ escape_string n s') +:+ String quote rest) = Some (t, rest)).
  { intros chunk esc s' t Hs -> Hlen He Hp. rewrite string_app_assoc, Hp.
    rewrite length_append in Hlen. assert (0 < String.length esc)%nat by (destruct esc; [done|simpl; lia]).
    simpl in Hs, Hl. by rewrite (IH s') by lia. }
  cbn [escape_string to_valid_go] in Hf |- *.
  destruct (rune_width_le (String a s)) as [Hw4 Hwl].
  destruct (rune_width (String a s)) as [|[|[|[|[|k]]]]] eqn:Hrw; [| | | | |lia].
  - apply (Hgo replacement (String backslash "ufffd") s); [simpl; lia|done|done|done|].
    intros tail. apply parse_invalid.
  - apply rune_width_one in Hrw. destruct (String.eqb_spec (ascii_escape (byte_val a)) "") as [He|He].
    + apply (Hgo (String a "") (String a "") s); [simpl; lia|done|done|done|]. intros tail. by apply parse_plain.
    + apply (Hgo (String a "") (ascii_escape (byte_val a)) s); [simpl; lia|done|done|done|].
      intros tail. by apply parse_escape.
  - destruct s as [|b s]; [simpl in Hwl; lia|].
    apply (Hgo (String a (String b "")) (String a (String b "")) s); [simpl; lia|done|done|done|]. intros tail.
    apply (parse_wide (String a (String b "")) s); simpl String.append; rewrite Hrw; simpl; lia.
  - destruct s as [|b [|c s]]; [simpl in Hwl; lia..|]. destruct (is_line_sep a b c) eqn:Hls.
    + apply (Hgo (String a (String b (String c ""))) (line_sep_escape c) s); [simpl; lia|done|done|done|]. intros tail.
      by apply parse_line_sep.
    + apply (Hgo (String a (String b (String c ""))) (String a (String b (String c ""))) s); [simpl; lia|done|done|done|].
      intros tail. apply (parse_wide (String a (String b (String c ""))) s); simpl String.append;
        rewrite Hrw; simpl; lia.
  - destruct s as [|b [|c [|d s]]]; [simpl in Hwl; lia..|].
    apply (Hgo (String a (String b (String c (String d "")))) (String a (String b (String c (String d "")))) s);
      [simpl; lia|done|done|done|]. intros tail.
    apply (parse_wide (String a (String b (String c (String d "")))) s); simpl String.append;
      rewrite Hrw; simpl; lia.
Qed.

Lemma escape_valid s f rest :
  (String.length (escape_string (String.length s) s) < f)%nat ->
  parse_string f (escape_string (String.length s) s +:+ String quote rest) = Some (to_valid s, rest).
Proof. intros. by apply parse_escaped. Qed.

Lemma escape_utf8 s f rest :
  utf8 s = true -> (String.length (escape_string (String.length s) s) < f)%nat ->
  parse_string f (escape_string (String.length s) s +:+ String quote rest) = Some (s, rest).
Proof. intros Hu Hf. rewrite escape_valid by done. by rewrite to_valid_utf8. Qed.

(** ** Values in a document

    [reads d t v]: wherever the text [t] stands at nesting depth [d] before a
    comma, a closing bracket or the end, the parser reads [v] from it. *)
Definition ends_value (rest : string) : Prop :=
  match rest with
  | String a _ => a = (","%char : ascii) \/ a = ("}"%char : ascii) \/ a = ("]"%char : ascii)
  | EmptyString => True
  end.

Definition reads (d : Z) (t : string) (v : jval) : Prop :=
  skip_ws t = t /\ t <> "" /\
  forall f rest, (2 * String.length (t +:+ rest) < f)%nat -> ends_value rest ->
    parse_value f d (t +:+ rest) = Some (v, rest).

(** [reads_key t k]: the text [t] is a literal of the string [k]. *)
Definition reads_key (t k : string) : Prop :=
  exists p, t = String quote p /\
    forall f rest, (String.length p < f)%nat -> parse_string f (p +:+ rest) = Some (k, rest).

Lemma reads_key_value d t k : reads_key t k -> reads d t (JStr k).
Proof.
  intros (p & -> & Hp). split_and!; [done|done|]. intros [|f] rest Hf _; [lia|].
  cbn [String.append parse_value].
  destruct (Ascii.eqb_spec quote "{") as [E|_]; [by vm_compute in E|].
  destruct (Ascii.eqb_spec quote "[") as [E|_]; [by vm_compute in E|].
  rewrite Ascii.eqb_refl, Hp; [done|]. unfold str_fuel. rewrite length_append. lia.
Qed.

Lemma json_string_key s : reads_key (json_string s) (to_valid s).
Proof.
  eexists. split; [reflexivity|]. intros f rest Hf. rewrite string_app_assoc. cbn [String.append].
  apply escape_valid. rewrite length_append in Hf. simpl in Hf. lia.
Qed.

Lemma reads_json_string d s : reads d (json_string s) (JStr (to_valid s)).
Proof. apply reads_key_value, json_string_key. Qed.

Lemma reads_string d s : utf8 s = true -> reads d (json_string s) (JStr s).
Proof. intros Hu. rewrite <- (to_valid_utf8 s Hu) at 2. apply reads_json_string. Qed.

Lemma reads_bool d (b : bool) : reads d (if b then "true" else "false") (JBool b).
Proof.
  split_and!; [by destruct b|by destruct b|]. intros [|f] rest Hf _; [lia|]. destruct b; simpl; done.
Qed.

Lemma reads_null d : reads d "null" JNull.
Proof. split_and!; [done|done|]. intros [|f] rest Hf _; [lia|done]. Qed.

(** What is read is not the end of an array. *)
Lemma reads_head d t v : reads d t v -> exists a t', t = String a t' /\ Ascii.eqb a "]" = false.
Proof.
  intros (_ & Hne & Hr). destruct t as [|a t]; [done|]. exists a, t. split; [done|].
  apply Ascii.eqb_neq. intros ->. specialize (Hr (S (2 * String.length (String "]" t +:+ "")))%nat "" ltac:(lia) I).
  discriminate Hr.
Qed.

Lemma skip_ws_app t rest : skip_ws t = t -> t <> "" -> skip_ws (t +:+ rest) = t +:+ rest.
Proof. destruct t as [|a t]; [done|]. simpl. destruct (is_ws a) eqn:Hw; [|done].
  intros Hs. pose proof (skip_ws_length t). rewrite Hs in *. simpl in *. lia. Qed.

Lemma concat_cons sep a b l :
  String.concat sep (a :: b :: l) = a +:+ sep +:+ String.concat sep (b :: l).
Proof. done. Qed.

(** ** Arrays *)

Lemma parse_elems_array d (es : list (string * jval)) : forall f rest,
  es <> [] -> Forall (fun e => reads d e.1 e.2) es ->
  (2 * String.length (String.concat "," es.*1 +:+ String "]" rest) + 1 < f)%nat ->
  parse_elems f d (String.concat "," es.*1 +:+ String "]" rest) = Some (es.*2, rest).
Proof.
  induction es as [|[t v] es IH]; [done|]. intros f rest _ HF Hf. destruct f as [|f]; [lia|].
  apply Forall_cons in HF as [(Hs & Hne & Hr) HF]. simpl in Hs, Hne, Hr. destruct es as [|e2 es].
  - cbn [fmap list_fmap fst snd String.concat parse_elems] in *. rewrite Hr; [done|lia|by right; right].
  - set (tl := e2 :: es) in *. change (String.concat "," ((t, v) :: tl).*1) with (t +:+ "," +:+ String.concat "," tl.*1) in *.
    rewrite !string_app_assoc in *. cbn [String.append parse_elems] in *.
    rewrite Hr; [|lia|by left]. cbn [mbind option_bind skip_ws]. change (is_ws ",") with false. cbv iota.
    cbn [Ascii.eqb Bool.eqb].
    assert (Hb : skip_ws (String.concat "," tl.*1 +:+ String "]" rest) = String.concat "," tl.*1 +:+ String "]" rest).
    { pose proof HF as HF2. unfold tl in HF2 |- *. apply Forall_cons in HF2 as [(Hs2 & Hne2 & _) _].
      destruct es as [|e3 es]; [by apply skip_ws_app|]. cbn [fmap list_fmap]. rewrite concat_cons, string_app_assoc.
      by apply skip_ws_app. }
    rewrite Hb, IH; [done|done|done|].
    rewrite !length_append in Hf |- *. cbn [String.length] in Hf |- *. rewrite !length_append in Hf. simpl in Hf |- *. lia.
Qed.

(** ** Objects *)

(** A member: the texts of key and value, the key and the value. *)
Definition member_text : Type := (string * string) * (string * jval).
Definition key_text (m : member_text) : string := m.1.1 +:+ ":" +:+ m.2.1.
Definition read_member (m : member_text) : string * (string * jval) := (m.1.2, m.2).
Definition member_reads (d : Z) (m : member_text) : Prop :=
  reads_key m.1.1 m.1.2 /\ reads d m.2.1 m.2.2.

Lemma raw_between_app t rest : raw_between (t +:+ rest) rest = t.
Proof.
  unfold raw_between. rewrite length_append.
  replace (String.length t + String.length rest - String.length rest)%nat with (String.length t) by lia.
  induction t as [|a t IH]; simpl; [by destruct rest|]. by rewrite IH.
Qed.

(** One member and what follows it. *)
Lemma parse_member f d m rest b tail :
  member_reads d m -> rest = String b tail -> ends_value rest ->
  (2 * String.length (key_text m +:+ rest) < f)%nat ->
  parse_members (S f) d (key_text m +:+ rest) =
    if Ascii.eqb b "}" then Some ([read_member m], tail) else
    if Ascii.eqb b "," then '(ms, r) ← parse_members f d (skip_ws tail); Some (read_member m :: ms, r) else None.
Proof.
  destruct m as [[kt k] [t v]]. intros [(p & E & Hk) (Hs & Hne & Hr)] -> He Hf. unfold key_text, read_member in *.
  simpl fst in *. simpl snd in *. subst kt. rewrite !string_app_assoc in *. cbn [String.append] in *.
  cbn [parse_members]. rewrite Ascii.eqb_refl.
  rewrite Hk by (unfold str_fuel; rewrite length_append; lia).
  cbn [mbind option_bind skip_ws]. change (is_ws ":") with false. cbv iota.
  rewrite Ascii.eqb_refl, skip_ws_app by done.
  rewrite Hr; [| |done].
  2:{ cbn [String.length] in Hf. rewrite !length_append in Hf |- *. cbn [String.length] in Hf.
      rewrite length_append in Hf. simpl in Hf |- *. lia. }
  cbn [mbind option_bind]. rewrite raw_between_app.
  assert (skip_ws (String b tail) = String b tail) as -> by (by destruct He as [-> | [-> | ->]]).
  done.
Qed.

Lemma parse_members_texts d (ms : list member_text) : forall f rest,
  ms <> [] -> Forall (member_reads d) ms ->
  (2 * String.length (String.concat "," (map key_text ms) +:+ String "}" rest) + 1 < f)%nat ->
  parse_members f d (String.concat "," (map key_text ms) +:+ String "}" rest)
    = Some (map read_member ms, rest).
Proof.
  induction ms as [|m ms IH]; [done|]. intros f rest _ HF Hf. destruct f as [|f]; [lia|].
  apply Forall_cons in HF as [Hm HF]. destruct ms as [|m2 ms].
  - simpl map in *. simpl String.concat in *.
    rewrite (parse_member f d m (String "}" rest) "}"%char rest); [done|done|done|by right; left|lia].
  - change (String.concat "," (map key_text (m :: m2 :: ms)))
      with (key_text m +:+ "," +:+ String.concat "," (map key_text (m2 :: ms))) in *.
    set (body := String.concat "," (map key_text (m2 :: ms))) in *.
    rewrite !string_app_assoc in *. cbn [String.append] in *.
    assert (Hb : skip_ws (body +:+ String "}" rest) = body +:+ String "}" rest).
    { apply Forall_cons in HF as [[(p & E & _) _] _]. unfold body.
      destruct ms; simpl map; simpl String.concat; unfold key_text; by rewrite E. }
    rewrite (parse_member f d m (String "," (body +:+ String "}" rest)) ","%char (body +:+ String "}" rest));
      [|done|done|by left|lia].
    cbn [Ascii.eqb Bool.eqb]. rewrite Hb, IH; [done|done|done|].
    rewrite !length_append in Hf |- *. simpl in Hf. rewrite !length_append in Hf. simpl in Hf |- *. lia.
Qed.

(** ** Arrays and objects as values *)

Lemma reads_array d es :
  d < maxNestingDepth -> Forall (fun e => reads (d + 1) e.1 e.2) es ->
  reads d ("[" +:+ String.concat "," es.*1 +:+ "]") (JArr es.*2).
Proof.
  intros Hd HF. split_and!; [done|done|]. intros [|f] rest Hf He; [lia|].
  rewrite !string_app_assoc in *. cbn [String.append parse_value] in *. cbn [Ascii.eqb Bool.eqb].
  destruct (Z.leb_spec maxNestingDepth d); [lia|].
  destruct es as [|e es]; [done|]. set (body := String.concat "," (e :: es).*1) in *.
  assert (exists a t, body = String a t /\ skip_ws body = body /\ Ascii.eqb a "]" = false) as (a & t & Hb & Hws & Ha).
  { apply Forall_cons in HF as [He' _]. destruct (reads_head _ _ _ He') as (a & t & E & Ha). destruct He' as (Hs & Hne & _).
    unfold body. cbn [fmap list_fmap]. destruct es as [|e2 es]; [exists a, t; by split_and!|].
    exists a, (t +:+ "," +:+ String.concat "," ((e2 :: es).*1)). cbn [fmap list_fmap]. rewrite concat_cons.
    split_and!; [by rewrite E|by apply skip_ws_app|done]. }
  rewrite skip_ws_app by (done || by rewrite Hb). rewrite Hb. cbn [String.append]. rewrite Ha.
  change (String a (t +:+ String "]" rest)) with (String a t +:+ String "]" rest). rewrite <- Hb.
  unfold body. rewrite parse_elems_array; [done|done|done|]. fold body. simpl in Hf. lia.
Qed.

Lemma reads_object d (ms : list member_text) :
  d < maxNestingDepth -> Forall (member_reads (d + 1)) ms ->
  reads d ("{" +:+ String.concat "," (map key_text ms) +:+ "}") (JObj (map read_member ms)).
Proof.
  intros Hd HF. split_and!; [done|done|]. intros [|f] rest Hf He; [lia|].
  rewrite !string_app_assoc in *. cbn [String.append parse_value] in *. cbn [Ascii.eqb Bool.eqb].
  destruct (Z.leb_spec maxNestingDepth d); [lia|].
  destruct ms as [|m ms]; [done|]. set (body := String.concat "," (map key_text (m :: ms))) in *.
  assert (exists t, body = String quote t) as (t & Hb).
  { apply Forall_cons in HF as [[(p & E & _) _] _]. unfold body.
    destruct ms; simpl map; simpl String.concat; unfold key_text; rewrite E; by eexists. }
  assert (skip_ws (body +:+ String "}" rest) = body +:+ String "}" rest) as -> by (by rewrite Hb).
  rewrite Hb at 1. cbn [String.append]. destruct (Ascii.eqb_spec quote "}") as [E|_]; [by vm_compute in E|].
  change (String quote (t +:+ String "}" rest)) with (String quote t +:+ String "}" rest). rewrite <- Hb.
  unfold body. rewrite parse_members_texts; [done|done|done|]. fold body. simpl in Hf. lia.
Qed.

(** A whole document. *)
Lemma parse_json_reads t v : reads 0 t v -> parse_json t = Some v.
Proof.
  intros (Hs & Hne & Hr). unfold parse_json. rewrite Hs. specialize (Hr (parse_fuel t) "").
  rewrite string_app_nil_r in Hr. rewrite Hr; [done|unfold parse_fuel; lia|done].
Qed.

(** ** Objects with names written by the encoder *)

Definition field_text (m : string * string) : string := json_string m.1 +:+ ":" +:+ m.2.
Definition member_of (m : string * (string * jval)) : string * string := (m.1, m.2.1).
Definition member_ok (d : Z) (m : string * (string * jval)) : Prop :=
  utf8 m.1 = true /\ reads d m.2.1 m.2.2.

Lemma json_object_fields (ms : list (string * (string * jval))) :
  json_object (map (fun m => Some (member_of m)) ms)
    = "{" +:+ String.concat "," (map field_text (map member_of ms)) +:+ "}".
Proof.
  unfold json_object. do 3 f_equal.
  induction ms as [|[k [t v]] ms IH]; [done|]. simpl. f_equal. exact IH.
Qed.

(** An object written from the texts of its members is read back. *)
Lemma reads_json_object d ms :
  d < maxNestingDepth -> Forall (member_ok (d + 1)) ms ->
  reads d (json_object (map (fun m => Some (member_of m)) ms)) (JObj ms).
Proof.
  intros Hd HF. set (texts := map (fun m : string * (string * jval) => ((json_string m.1, m.1), m.2) : member_text) ms).
  assert (json_object (map (fun m => Some (member_of m)) ms) = "{" +:+ String.concat "," (map key_text texts) +:+ "}") as ->.
  { rewrite json_object_fields. unfold texts. by rewrite !map_map. }
  assert (ms = map read_member texts) as E.
  { unfold texts. rewrite map_map. clear. induction ms as [|[k v] ms IH]; [done|]. simpl. by rewrite <- IH. }
  rewrite E at 1. apply reads_object; [done|]. unfold texts. apply Forall_map. eapply Forall_impl; [exact HF|].
  intros [k [t v]] [Hk Hv]. split; [|done]. cbn in *. rewrite <- (to_valid_utf8 k Hk) at 2. apply json_string_key.
Qed.

Lemma parse_json_object ms :
  Forall (member_ok 1) ms ->
  parse_json (json_object (map (fun m => Some (member_of m)) ms)) = Some (JObj ms).
Proof. intros HF. by apply parse_json_reads, reads_json_object. Qed.
