(* ===== verification/JsonIds.v ===== *)
(** * Request ids in a document

    A JSON-RPC id is kept raw and written again, compacted, into documents.
    [readable_scalar]: the compact form of any string or number is read back
    wherever it stands. *)

From S2P Require Import Prelude Json JsonRaw JsonRoundTrip.

Definition head_is (p : ascii -> bool) (s : string) : bool :=
  match s with String a _ => p a | EmptyString => false end.

(** ** Numbers *)

Definition num_byte (a : ascii) : bool :=
  is_digit a || existsb (Ascii.eqb a) ["."; "-"; "+"; "e"; "E"]%char.

Lemma span_digits_spec s ds r :
  span_digits s = (ds, r) -> s = ds +:+ r /\ string_forallb is_digit ds = true.
Proof.
  revert ds. induction s as [|a s IH]; intros ds; simpl; [by intros [= <- <-]|].
  destruct (is_digit a) eqn:Ha; [|by intros [= <- <-]].
  destruct (span_digits s) as [ds' r']. intros [= <- <-]. destruct (IH _ eq_refl) as [-> Hd].
  simpl. by rewrite Ha.
Qed.

Lemma span_digits_app ds rest :
  string_forallb is_digit ds = true -> head_is is_digit rest = false ->
  span_digits (ds +:+ rest) = (ds, rest).
Proof.
  induction ds as [|a ds IH]; simpl; intros Hd Hr.
  - destruct rest as [|b rest]; [done|]. simpl in *. by rewrite Hr.
  - apply andb_true_iff in Hd as [Ha Hd]. by rewrite Ha, IH.
Qed.

(** A scanner that takes a text from the front of its input: it takes the same
    text from any input that goes on differently, if what follows does not
    start with one of the bytes [p]. *)
Definition scans (scan : string -> option (string * string)) (p : ascii -> bool) (l s r : string) : Prop :=
  s = l +:+ r /\ string_forallb num_byte l = true /\
  forall rest, head_is p rest = false -> scan (l +:+ rest) = Some (l, rest).

Lemma digits_num ds : string_forallb is_digit ds = true -> string_forallb num_byte ds = true.
Proof.
  induction ds as [|a ds IH]; [done|]. simpl. intros [Ha Hd]%andb_true_iff.
  unfold num_byte at 1. by rewrite Ha, IH.
Qed.

Lemma digits1_scans s ds r : digits1 s = Some (ds, r) -> scans digits1 is_digit ds s r.
Proof.
  unfold digits1. destruct (span_digits s) as [ds' r'] eqn:Hs. apply span_digits_spec in Hs as [-> Hd].
  intros E. assert (ds' = ds /\ r' = r /\ ds <> "") as (-> & -> & Hne) by (destruct ds'; by simplify_eq).
  split_and!; [done|by apply digits_num|]. intros rest Hr. rewrite span_digits_app by done. by destruct ds.
Qed.

Lemma num_int_scans s i r : num_int s = Some (i, r) -> scans num_int is_digit i s r.
Proof.
  unfold num_int. destruct s as [|a s]; [done|]. destruct (Ascii.eqb_spec a "0") as [->|Ha].
  - intros [= <- <-]. by split_and!.
  - intros (Hs & Hb & Hr)%digits1_scans. split_and!; [done|done|]. intros rest Hrest.
    destruct i as [|b i]; [by specialize (Hr "" eq_refl)|]. specialize (Hr rest Hrest). simpl in Hs. injection Hs as -> ->.
    simpl. destruct (Ascii.eqb_spec b "0"); [done|]. exact Hr.
Qed.

Lemma num_frac_scans s f r :
  num_frac s = Some (f, r) -> scans num_frac (fun a => is_digit a || Ascii.eqb a ".") f s r.
Proof.
  assert (Hnil : forall rest, head_is (fun a => is_digit a || Ascii.eqb a ".") rest = false ->
            num_frac ("" +:+ rest) = Some ("", rest)).
  { intros [|a rest]; [done|]. simpl. by intros [_ ->]%orb_false_iff. }
  unfold num_frac at 1. destruct s as [|a s]; [by intros [= <- <-]|].
  destruct (Ascii.eqb_spec a ".") as [->|Ha].
  - destruct (digits1 s) as [[ds r']|] eqn:Hd; simpl; [|done]. intros [= <- <-].
    apply digits1_scans in Hd as (-> & Hb & Hr). split_and!; [done|done|]. intros rest Hrest.
    simpl. rewrite Hr; [done|]. destruct rest; [done|]. simpl in *. by apply orb_false_iff in Hrest as [? _].
  - by intros [= <- <-].
Qed.

Lemma num_exp_scans s e r :
  num_exp s = Some (e, r) ->
  scans num_exp (fun a => is_digit a || Ascii.eqb a "e" || Ascii.eqb a "E") e s r.
Proof.
  set (p := fun a => is_digit a || Ascii.eqb a "e" || Ascii.eqb a "E").
  assert (Hnil : forall rest, head_is p rest = false -> num_exp ("" +:+ rest) = Some ("", rest)).
  { intros [|a rest]; [done|]. simpl. unfold p. intros [[_ H1]%orb_false_iff H2]%orb_false_iff. by rewrite H1, H2. }
  assert (Hdig : forall rest, head_is p rest = false -> head_is is_digit rest = false).
  { intros [|a rest]; [done|]. simpl. unfold p. by intros [[H1 _]%orb_false_iff _]%orb_false_iff. }
  unfold num_exp at 1. destruct s as [|c s]; [by intros [= <- <-]|].
  destruct (Ascii.eqb c "e" || Ascii.eqb c "E") eqn:Hc; [|by intros [= <- <-]].
  assert (Hcb : num_byte c = true).
  { apply orb_true_iff in Hc as [H|H]; apply Ascii.eqb_eq in H as ->; done. }
  destruct s as [|g s]; [done|]. destruct (Ascii.eqb g "+" || Ascii.eqb g "-") eqn:Hg.
  - assert (Hgb : num_byte g = true).
    { apply orb_true_iff in Hg as [H|H]; apply Ascii.eqb_eq in H as ->; done. }
    destruct (digits1 s) as [[ds r']|] eqn:Hd; simpl; [|done]. intros [= <- <-].
    apply digits1_scans in Hd as (-> & Hb & Hr). split_and!; [done|simpl; by rewrite Hcb, Hgb, Hb|].
    intros rest Hrest. simpl. rewrite Hc, Hg, Hr by auto. done.
  - destruct (digits1 (String g s)) as [[ds r']|] eqn:Hd; simpl; [|done]. intros [= <- <-].
    apply digits1_scans in Hd as (Hs & Hb & Hr). split_and!; [by rewrite Hs|simpl; by rewrite Hcb, Hb|].
    intros rest Hrest. destruct ds as [|d ds]; [by specialize (Hr "" eq_refl)|].
    specialize (Hr rest (Hdig _ Hrest)).
    simpl in Hs. injection Hs as -> ->. simpl in Hr |- *. rewrite Hc, Hg, Hr. done.
Qed.

Lemma head_is_app p q s t :
  (forall a, q a = true -> p a = false) -> (s = "" \/ head_is q s = true) ->
  head_is p t = false -> head_is p (s +:+ t) = false.
Proof. intros Hq [->|Hs] Ht; [done|]. destruct s as [|a s]; [done|]. simpl in *. by apply Hq. Qed.

Lemma num_frac_head s f r : num_frac s = Some (f, r) -> f = "" \/ head_is (fun a => Ascii.eqb a ".") f = true.
Proof.
  unfold num_frac. destruct s as [|a s]; [intros [= <- _]; by left|].
  destruct (Ascii.eqb a "."); [|intros [= <- _]; by left].
  destruct (digits1 s) as [[ds r']|]; simpl; [|done]. intros [= <- _]. by right.
Qed.

Lemma num_exp_head s e r :
  num_exp s = Some (e, r) -> e = "" \/ head_is (fun a => Ascii.eqb a "e" || Ascii.eqb a "E") e = true.
Proof.
  unfold num_exp. destruct s as [|a s]; [intros [= <- _]; by left|].
  destruct (Ascii.eqb a "e" || Ascii.eqb a "E") eqn:Ha; [|intros [= <- _]; by left].
  destruct s as [|g s]; [done|]. destruct (Ascii.eqb g "+" || Ascii.eqb g "-").
  - destruct (digits1 s) as [[ds r']|]; simpl; [|done]. intros [= <- _]. right. exact Ha.
  - destruct (digits1 (String g s)) as [[ds r']|]; simpl; [|done]. intros [= <- _]. right. exact Ha.
Qed.

Definition not_num (s : string) : bool := negb (head_is num_byte s).

Lemma not_num_head p s : (forall a, p a = true -> num_byte a = true) -> not_num s = true -> head_is p s = false.
Proof.
  unfold not_num. destruct s as [|a s]; [done|]. simpl. intros Hp Hn. apply negb_true_iff in Hn.
  destruct (p a) eqn:Ha; [|done]. by rewrite (Hp a Ha) in Hn.
Qed.

Lemma num_int_head s i r : num_int s = Some (i, r) -> head_is is_digit i = true.
Proof.
  unfold num_int, digits1. destruct s as [|a s]; [done|]. destruct (Ascii.eqb_spec a "0") as [->|_].
  - by intros [= <- _].
  - destruct (span_digits (String a s)) as [[|b ds] r'] eqn:Hs; [done|]. intros [= <- _].
    apply span_digits_spec in Hs as [_ Hd]. simpl in *. by apply andb_true_iff in Hd as [-> _].
Qed.

(** The unsigned part of a number. *)
Definition unsigned (sign u : string) : option (string * string) :=
  '(i, r) ← num_int u; '(f, r) ← num_frac r; '(e, r) ← num_exp r; Some (sign +:+ i +:+ f +:+ e, r).

Lemma digit_not a b : is_digit a = true -> is_digit b = false -> Ascii.eqb a b = false.
Proof. intros Ha Hb. apply Ascii.eqb_neq. intros ->. by rewrite Ha in Hb. Qed.

Lemma unsigned_scans sign u l r :
  unsigned sign u = Some (l, r) -> exists b,
    l = sign +:+ b /\ u = b +:+ r /\ string_forallb num_byte b = true /\ head_is is_digit b = true /\
    forall rest, not_num rest = true -> unsigned sign (b +:+ rest) = Some (l, rest).
Proof.
  unfold unsigned at 1. destruct (num_int u) as [[i r1]|] eqn:H1; simpl; [|done].
  destruct (num_frac r1) as [[f r2]|] eqn:H2; simpl; [|done].
  destruct (num_exp r2) as [[e r3]|] eqn:H3; simpl; [|done]. intros [= <- <-].
  pose proof (num_frac_head _ _ _ H2) as Hf. pose proof (num_exp_head _ _ _ H3) as He.
  pose proof (num_int_head _ _ _ H1) as Hi.
  apply num_int_scans in H1 as (-> & B1 & S1). apply num_frac_scans in H2 as (-> & B2 & S2).
  apply num_exp_scans in H3 as (-> & B3 & S3).
  exists (i +:+ f +:+ e). rewrite !string_app_assoc. split_and!; [done|done| | |].
  - by rewrite !string_forallb_app, B1, B2, B3.
  - by destruct i.
  - intros rest Hrest.
    assert (Hexp : forall p, (forall a, p a = true -> num_byte a = true) ->
              (forall a, Ascii.eqb a "e" || Ascii.eqb a "E" = true -> p a = false) ->
              head_is p (e +:+ rest) = false).
    { intros p Hp Hpe. eapply head_is_app; [exact Hpe|done|by eapply not_num_head]. }
    unfold unsigned. rewrite !string_app_assoc.
    rewrite S1; [simpl|].
    2:{ eapply head_is_app; [|exact Hf|apply Hexp].
        - intros a E. by apply Ascii.eqb_eq in E as ->.
        - unfold num_byte. by intros a ->.
        - by intros a [E|E]%orb_true_iff; apply Ascii.eqb_eq in E as ->. }
    rewrite S2; [simpl|].
    2:{ apply Hexp.
        - unfold num_byte. intros a [-> |E]%orb_true_iff; [done|]. apply Ascii.eqb_eq in E as ->. done.
        - by intros a [E|E]%orb_true_iff; apply Ascii.eqb_eq in E as ->. }
    rewrite S3; [done|]. eapply not_num_head; [|done].
    unfold num_byte. intros a [[-> |E]%orb_true_iff|E]%orb_true_iff; [done| |];
      apply Ascii.eqb_eq in E as ->; done.
Qed.

Lemma parse_number_scans s l r :
  parse_number s = Some (l, r) ->
  s = l +:+ r /\ string_forallb num_byte l = true /\ head_is num_byte l = true /\
  forall rest, not_num rest = true -> parse_number (l +:+ rest) = Some (l, rest).
Proof.
  assert (Hd : forall b, head_is is_digit b = true -> head_is num_byte b = true).
  { intros [|a b]; [done|]. simpl. unfold num_byte. by intros ->. }
  unfold parse_number at 1. destruct s as [|a s]; [done|]. destruct (Ascii.eqb_spec a "-") as [->|Ha].
  - intros (b & -> & -> & Hb & Hh & Hr)%unsigned_scans. split_and!; [done|exact Hb|done|].
    intros rest Hrest. exact (Hr rest Hrest).
  - intros (b & -> & E & Hb & Hh & Hr)%unsigned_scans. split_and!; [exact E|exact Hb|by apply Hd|].
    intros rest Hrest. specialize (Hr rest Hrest). destruct b as [|c b]; [done|].
    simpl in E. injection E as <- _. unfold parse_number. simpl.
    rewrite (proj2 (Ascii.eqb_neq a "-") Ha). exact Hr.
Qed.

(** ** Compaction *)

(** The string starts with U+2028 or U+2029. *)
Definition sep_at (s : string) : bool :=
  match s with String a (String b (String x _)) => is_line_sep a b x | _ => false end.

Definition html_byte (a : ascii) : bool :=
  (byte_val a =? 60) || (byte_val a =? 62) || (byte_val a =? 38).

Lemma compact_keep in_str esc a r :
  html_byte a = false -> sep_at (String a r) = false -> in_str || negb (is_ws a) = true ->
  compact_bytes in_str esc (String a r) =
    String a (compact_bytes
      (if in_str then (if esc then true else negb (Ascii.eqb a quote)) else Ascii.eqb a quote)
      (in_str && negb esc && Ascii.eqb a backslash) r).
Proof.
  unfold html_byte. intros Hh Hs Hw. cbn [compact_bytes]. rewrite Hh.
  assert (negb in_str && is_ws a = false) as -> by (destruct in_str, (is_ws a); done).
  destruct r as [|b [|x r]]; [done|done|]. unfold sep_at in Hs. by rewrite Hs.
Qed.

Lemma compact_html in_str esc a r :
  html_byte a = true ->
  compact_bytes in_str esc (String a r) = u_escape (byte_val a) +:+ compact_bytes in_str false r.
Proof. unfold html_byte. intros Hh. cbn [compact_bytes]. by rewrite Hh. Qed.

Lemma sep_at_small a r : byte_val a < 128 -> sep_at (String a r) = false.
Proof.
  intros Ha. destruct r as [|b [|x r]]; [done|done|]. simpl. destruct (is_line_sep a b x) eqn:E; [|done].
  apply line_sep_bytes in E as (-> & _). by vm_compute in Ha.
Qed.

Lemma sep_at_cont a r : is_cont a = true -> sep_at (String a r) = false.
Proof.
  intros Ha. destruct r as [|b [|x r]]; [done|done|]. simpl. destruct (is_line_sep a b x) eqn:E; [|done].
  apply line_sep_bytes in E as (-> & _). by vm_compute in Ha.
Qed.

Lemma html_small a : html_byte a = true -> byte_val a < 128.
Proof. unfold html_byte. intros H. bool_to_prop. destruct H as [[H|H]%orb_true_iff|H]; apply Z.eqb_eq in H; lia. Qed.

(** A text of ASCII bytes with nothing to escape. *)
Definition plain (a : ascii) : bool := (byte_val a <? 128) && negb (html_byte a) && negb (is_ws a).

Lemma compact_plain s r :
  string_forallb (fun a => plain a && negb (Ascii.eqb a quote)) s = true ->
  compact_bytes false false (s +:+ r) = s +:+ compact_bytes false false r.
Proof.
  induction s as [|a s IH]; [done|]. cbn [string_forallb String.append]. unfold plain at 1.
  intros [Ha Hs]%andb_true_iff. apply andb_true_iff in Ha as [[[Hl Hh]%andb_true_iff Hw]%andb_true_iff Hq].
  apply Z.ltb_lt in Hl. apply negb_true_iff in Hh, Hq.
  rewrite compact_keep by (try apply sep_at_small; done). rewrite Hq. cbn [andb negb]. by rewrite IH.
Qed.

(** *** Strings

    [good s p]: the texts [s] and [p] begin alike as far as the decoder of a
    rune before them looks. *)
Definition agree (s p : string) : Prop :=
  exists c s1 p1, s = c +:+ s1 /\ p = c +:+ p1 /\ string_forallb is_cont c = true /\
    head_is (fun a => negb (is_cont a)) s1 = true /\ head_is (fun a => negb (is_cont a)) p1 = true.

Definition good (s p : string) : Prop :=
  agree s p /\ forall u rest, low_surrogate u s = None -> low_surrogate u (p +:+ rest) = None.

Lemma agree_heads s p :
  head_is (fun a => negb (is_cont a)) s = true -> head_is (fun a => negb (is_cont a)) p = true -> agree s p.
Proof. intros Hs Hp. by exists "", s, p. Qed.

Lemma agree_cons a s p : is_cont a = true -> agree s p -> agree (String a s) (String a p).
Proof.
  intros Ha (c & s1 & p1 & -> & -> & Hc & Hs & Hp). exists (String a c), s1, p1. simpl. by rewrite Ha.
Qed.

Lemma range_cont lo hi b : is_cont b = false -> 128 <= lo -> hi <= 191 -> in_byte_range lo hi b = false.
Proof.
  unfold is_cont, in_byte_range. intros Hb Hlo Hhi.
  destruct (Z.leb_spec 128 (byte_val b)), (Z.leb_spec (byte_val b) 191),
    (Z.leb_spec lo (byte_val b)), (Z.leb_spec (byte_val b) hi); simpl in *; done || lia.
Qed.

(** The width does not depend on what follows a byte that continues no rune. *)
Lemma rune_width_stop1 a b r : is_cont b = false -> rune_width (String a (String b r)) = rune_width (String a "").
Proof.
  intros Hb. cbn [rune_width]. destruct (byte_val a <? 128); [done|].
  rewrite Hb, !andb_false_r, !range_cont by (done || lia).
  destruct r as [|x [|y r]]; [done| |]; destruct (byte_val a =? 224), (byte_val a =? 237),
    (byte_val a =? 240), (byte_val a =? 244); by rewrite ?andb_false_r.
Qed.

Lemma rune_width_stop2 a b x r :
  is_cont x = false -> rune_width (String a (String b (String x r))) = rune_width (String a (String b "")).
Proof.
  intros Hx. cbn [rune_width]. destruct (byte_val a <? 128); [done|].
  destruct (in_byte_range 194 223 a && is_cont b); [done|]. rewrite Hx. simpl. by destruct r.
Qed.

Lemma rune_width_stop3 a b x y r :
  is_cont y = false ->
  rune_width (String a (String b (String x (String y r)))) = rune_width (String a (String b (String x ""))).
Proof.
  intros Hy. cbn [rune_width]. destruct (byte_val a <? 128); [done|].
  destruct (in_byte_range 194 223 a && is_cont b); [done|]. rewrite Hy, andb_false_r. done.
Qed.

Lemma agree_width a s p rest :
  agree s p -> rune_width (String a (p +:+ rest)) = rune_width (String a s).
Proof.
  intros (c & s1 & p1 & -> & -> & Hc & Hs & Hp). rewrite string_app_assoc.
  destruct s1 as [|x s1]; [done|]. destruct p1 as [|y p1]; [done|]. simpl in Hs, Hp.
  apply negb_true_iff in Hs, Hp.
  destruct c as [|b [|d [|e c]]]; cbn [String.append].
  - by rewrite !rune_width_stop1.
  - by rewrite !rune_width_stop2.
  - by rewrite !rune_width_stop3.
  - done.
Qed.

Lemma html_noncont a : html_byte a = true -> is_cont a = false.
Proof.
  intros H%html_small. unfold is_cont, in_byte_range. destruct (Z.leb_spec 128 (byte_val a)); [lia|done].
Qed.

Lemma small_noncont a : byte_val a < 128 -> is_cont a = false.
Proof. intros H. unfold is_cont, in_byte_range. destruct (Z.leb_spec 128 (byte_val a)); [lia|done]. Qed.

Lemma low_surrogate_other u a s : a <> backslash -> low_surrogate u (String a s) = None.
Proof.
  intros Ha. unfold low_surrogate. cbn [strip_prefix].
  destruct (Ascii.eqb_spec backslash a); [by subst|done].
Qed.

Lemma good_other a b s p :
  is_cont a = false -> is_cont b = false -> a <> backslash -> b <> backslash ->
  good (String a s) (String b p).
Proof.
  intros Ha Hb Hna Hnb. split.
  - apply agree_heads; simpl; [by rewrite Ha|by rewrite Hb].
  - intros u rest _. by apply low_surrogate_other.
Qed.

(** What the decoder does with a text depends on its first rune only through
    [good]. *)
Definition string_image (s : string) (t r p : string) : Prop :=
  compact_bytes true false s = p +:+ compact_bytes false false r /\
  (forall rest, compact_bytes true false (p +:+ rest) = p +:+ compact_bytes false false rest) /\ good s p /\
  forall f rest, (String.length p < f)%nat -> parse_string f (p +:+ rest) = Some (t, rest).

(** One rune [pre], written as [esc] and decoded as [chunk]. *)
Lemma image_step pre esc chunk s t r p :
  string_image s t r p ->
  compact_bytes true false (pre +:+ s) = esc +:+ compact_bytes true false s ->
  (forall rest, compact_bytes true false (esc +:+ (p +:+ rest)) = esc +:+ compact_bytes true false (p +:+ rest)) ->
  esc <> "" -> good (pre +:+ s) (esc +:+ p) ->
  (forall f rest, parse_string (S f) (esc +:+ (p +:+ rest)) = then_ chunk (parse_string f (p +:+ rest))) ->
  string_image (pre +:+ s) (chunk +:+ t) r (esc +:+ p).
Proof.
  intros (Hc & Hk & Hg & Hp) He Hke Hne Hg' Hstep. split_and!; [| |done|].
  - by rewrite He, Hc, string_app_assoc.
  - intros rest. by rewrite string_app_assoc, Hke, Hk, string_app_assoc.
  - intros f rest Hf. rewrite string_app_assoc. destruct f as [|f]; [lia|]. rewrite Hstep.
    rewrite length_append in Hf. rewrite Hp; [done|]. destruct esc; [done|simpl in Hf; lia].
Qed.

Lemma compact_str_byte a r :
  html_byte a = false -> sep_at (String a r) = false -> a <> quote -> a <> backslash ->
  compact_bytes true false (String a r) = String a (compact_bytes true false r).
Proof.
  intros Hh Hs Hq Hb. rewrite compact_keep by done.
  rewrite (proj2 (Ascii.eqb_neq a quote) Hq), (proj2 (Ascii.eqb_neq a backslash) Hb). done.
Qed.

Lemma compact_str_wide a r : 128 <= byte_val a -> sep_at (String a r) = false ->
  compact_bytes true false (String a r) = String a (compact_bytes true false r).
Proof.
  intros Ha Hs. apply compact_str_byte; [|done|..].
  - destruct (html_byte a) eqn:E; [|done]. apply html_small in E. lia.
  - intros ->. by vm_compute in Ha.
  - intros ->. by vm_compute in Ha.
Qed.

Lemma compact_escaped a r :
  byte_val a < 128 -> html_byte a = false ->
  compact_bytes true false (String backslash (String a r)) = String backslash (String a (compact_bytes true false r)).
Proof.
  intros Ha Hh. rewrite compact_keep; [|done|by apply sep_at_small|done].
  cbn [negb andb]. change (Ascii.eqb backslash quote) with false. change (Ascii.eqb backslash backslash) with true.
  cbn [negb]. rewrite compact_keep; [|done|by apply sep_at_small|done]. done.
Qed.

(** Four hexadecimal digits. *)
Lemma hex4_spec s z r :
  hex4 s = Some (z, r) -> exists h, s = h +:+ r /\ (forall t, hex4 (h +:+ t) = Some (z, t)) /\
    forall t, compact_bytes true false (h +:+ t) = h +:+ compact_bytes true false t.
Proof.
  unfold hex4 at 1. destruct s as [|a [|b [|c [|d s]]]]; try done.
  destruct (hex_val a) eqn:Ha, (hex_val b) eqn:Hb, (hex_val c) eqn:Hc, (hex_val d) eqn:Hd; simpl; try done.
  intros [= <- <-]. exists (String a (String b (String c (String d "")))). split_and!; [done| |].
  - intros t. simpl. by rewrite Ha, Hb, Hc, Hd.
  - assert (Hbyte : forall x z t, hex_val x = Some z ->
      compact_bytes true false (String x t) = String x (compact_bytes true false t)).
    { intros x v t Hx. assert (html_byte x = false /\ byte_val x < 128 /\ x <> quote /\ x <> backslash)
        as (H1 & H2 & H3 & H4).
      { destruct x as [[] [] [] [] [] [] [] []]; vm_compute in Hx; try discriminate Hx;
          (split_and!; [reflexivity|reflexivity|intros E; discriminate E|intros E; discriminate E]). }
      apply compact_str_byte; try done. by apply sep_at_small. }
    intros t. cbn [String.append]. by erewrite !Hbyte by done.
Qed.

Lemma hex4_kept h z :
  (forall t, hex4 (h +:+ t) = Some (z, t)) ->
  forall t, compact_bytes true false (h +:+ t) = h +:+ compact_bytes true false t.
Proof.
  intros Hh. specialize (Hh "") as H0. apply hex4_spec in H0 as (h' & E & _ & Hc).
  rewrite !string_app_nil_r in E. by subst.
Qed.

Definition u_text (h : string) : string := String backslash (String "u" h).

Lemma u_text_head h t : head_is (fun a => negb (is_cont a)) (u_text h +:+ t) = true.
Proof. done. Qed.

Lemma low_surrogate_u u h z t :
  (forall t, hex4 (h +:+ t) = Some (z, t)) ->
  low_surrogate u (u_text h +:+ t) =
    if (55296 <=? u) && (u <? 56320) && (56320 <=? z) && (z <? 57344)
    then Some ((u - 55296) * 1024 + (z - 56320) + 65536, t) else None.
Proof.
  intros Hh. unfold low_surrogate, u_text. cbn [String.append strip_prefix].
  rewrite !Ascii.eqb_refl. cbn [mbind option_bind]. by rewrite Hh.
Qed.

Lemma good_u h z s p : (forall t, hex4 (h +:+ t) = Some (z, t)) -> good (u_text h +:+ s) (u_text h +:+ p).
Proof.
  intros Hh. split; [by apply agree_heads|]. intros u rest. rewrite string_app_assoc.
  rewrite !(low_surrogate_u u h z _ Hh). by destruct (_ && _).
Qed.

(** An escape written for a byte or a separator. *)
Lemma good_written h z a s p :
  (forall t, hex4 (h +:+ t) = Some (z, t)) -> z < 56320 -> is_cont a = false -> a <> backslash ->
  good (String a s) (u_text h +:+ p).
Proof.
  intros Hh Hz Ha Hb. split; [apply agree_heads; [simpl; by rewrite Ha|done]|]. intros u rest _.
  rewrite string_app_assoc, (low_surrogate_u u h z _ Hh).
  destruct (Z.leb_spec 56320 z); [lia|]. by rewrite !andb_false_r.
Qed.

Lemma compact_u h t :
  (forall t, compact_bytes true false (h +:+ t) = h +:+ compact_bytes true false t) ->
  compact_bytes true false (u_text h +:+ t) = u_text h +:+ compact_bytes true false t.
Proof. intros Hh. unfold u_text. cbn [String.append]. rewrite compact_escaped by done. by rewrite Hh. Qed.

Lemma html_escape a : html_byte a = true ->
  exists h, u_escape (byte_val a) = u_text h /\ ascii_escape (byte_val a) = u_text h /\
    forall t, hex4 (h +:+ t) = Some (byte_val a, t).
Proof.
  intros H. destruct a as [[] [] [] [] [] [] [] []]; vm_compute in H; try discriminate H;
    (eexists; split; [reflexivity|split; [reflexivity|reflexivity]]).
Qed.

Lemma sep_escape a b c : is_line_sep a b c = true ->
  exists h z, line_sep_escape c = u_text h /\ z < 56320 /\ forall t, hex4 (h +:+ t) = Some (z, t).
Proof.
  intros (-> & -> & [-> | ->])%line_sep_bytes;
    (eexists _, _; split; [reflexivity|split; [|reflexivity]]; reflexivity).
Qed.

Lemma compact_sep a b c r : is_line_sep a b c = true ->
  compact_bytes true false (String a (String b (String c r))) = line_sep_escape c +:+ compact_bytes true false r.
Proof.
  intros Hs. pose proof (line_sep_bytes _ _ _ Hs) as (-> & -> & _). cbn [compact_bytes]. rewrite Hs. done.
Qed.

Lemma then_Some c x t r : then_ c x = Some (t, r) -> exists t', x = Some (t', r) /\ t = c +:+ t'.
Proof. destruct x as [[t' r']|]; [|done]. simpl. intros [= <- <-]. by exists t'. Qed.

(** The cases of the decoder, one lemma each: what follows has an image, so
    has the whole. *)
Lemma image_quote r : string_image (String quote r) "" r (String quote "").
Proof.
  assert (Hk : forall t, compact_bytes true false (String quote t) = String quote (compact_bytes false false t))
    by (intros t; rewrite compact_keep; [done|done|by apply sep_at_small|done]).
  split_and!; [apply Hk|intros t; apply Hk|by apply good_other|by intros [|f] rest Hf; [lia|]].
Qed.

Lemma image_simple e c s t r p :
  simple_escape e = Some c -> string_image s t r p ->
  string_image (String backslash (String e s)) (String c t) r (String backslash (String e p)).
Proof.
  intros He Hi.
  assert (byte_val e < 128 /\ html_byte e = false /\ Ascii.eqb e "u" = false) as (H1 & H2 & H3).
  { destruct e as [[] [] [] [] [] [] [] []]; vm_compute in He; try discriminate He; done. }
  apply (image_step (String backslash (String e "")) (String backslash (String e "")) (String c "") s t r p Hi).
  - cbn [String.append]. by apply compact_escaped.
  - intros rest. cbn [String.append]. by apply compact_escaped.
  - done.
  - split; [by apply agree_heads|]. intros u rest _. unfold low_surrogate. cbn [String.append strip_prefix].
    rewrite Ascii.eqb_refl. cbn [strip_prefix]. rewrite Ascii.eqb_sym, H3. done.
  - intros f rest. cbn [String.append parse_string]. change (Ascii.eqb backslash quote) with false.
    change (Ascii.eqb backslash backslash) with true. cbv iota. by rewrite H3, He.
Qed.

Lemma parse_string_u h z f t :
  (forall t, hex4 (h +:+ t) = Some (z, t)) ->
  parse_string (S f) (u_text h +:+ t) =
    if is_surrogate z then
      match low_surrogate z t with
      | Some (u, r) => then_ (encode_rune u) (parse_string f r)
      | None => then_ replacement (parse_string f t)
      end
    else then_ (encode_rune z) (parse_string f t).
Proof.
  intros Hh. unfold u_text. cbn [String.append parse_string].
  change (Ascii.eqb backslash quote) with false. change (Ascii.eqb backslash backslash) with true.
  rewrite Ascii.eqb_refl. cbv iota. rewrite Hh. cbn [mbind option_bind].
  destruct (is_surrogate z); [|done]. by destruct (low_surrogate z t) as [[u r]|].
Qed.

Lemma image_u h z s t r p :
  (forall t, hex4 (h +:+ t) = Some (z, t)) ->
  (forall t, compact_bytes true false (h +:+ t) = h +:+ compact_bytes true false t) ->
  (is_surrogate z = true -> low_surrogate z s = None) -> string_image s t r p ->
  string_image (u_text h +:+ s) ((if is_surrogate z then replacement else encode_rune z) +:+ t) r (u_text h +:+ p).
Proof.
  intros Hh Hc Hl Hi. apply (image_step (u_text h) (u_text h) _ s t r p Hi).
  - by apply compact_u.
  - intros rest. by apply compact_u.
  - done.
  - by eapply good_u.
  - intros f rest. rewrite (parse_string_u h z f _ Hh). destruct (is_surrogate z); [|done].
    destruct Hi as (_ & _ & [_ Hg] & _). by rewrite Hg by by apply Hl.
Qed.

Lemma image_pair h1 z1 h2 z2 u s t r p :
  (forall t, hex4 (h1 +:+ t) = Some (z1, t)) ->
  (forall t, compact_bytes true false (h1 +:+ t) = h1 +:+ compact_bytes true false t) ->
  (forall t, hex4 (h2 +:+ t) = Some (z2, t)) ->
  (forall t, compact_bytes true false (h2 +:+ t) = h2 +:+ compact_bytes true false t) ->
  is_surrogate z1 = true -> (forall t, low_surrogate z1 (u_text h2 +:+ t) = Some (u, t)) ->
  string_image s t r p ->
  string_image ((u_text h1 +:+ u_text h2) +:+ s) (encode_rune u +:+ t) r ((u_text h1 +:+ u_text h2) +:+ p).
Proof.
  intros Hh1 Hc1 Hh2 Hc2 Hs Hl Hi.
  apply (image_step (u_text h1 +:+ u_text h2) (u_text h1 +:+ u_text h2) _ s t r p Hi).
  - by rewrite !string_app_assoc, !compact_u.
  - intros rest. by rewrite !string_app_assoc, !compact_u.
  - done.
  - rewrite !string_app_assoc. by eapply good_u.
  - intros f rest. rewrite !string_app_assoc, (parse_string_u h1 z1 f _ Hh1), Hs. by rewrite Hl.
Qed.

Lemma image_html a s t r p :
  html_byte a = true -> string_image s t r p ->
  string_image (String a s) (String a t) r (ascii_escape (byte_val a) +:+ p).
Proof.
  intros Ha Hi. destruct (html_escape a Ha) as (h & Hu & He & Hh). pose proof (html_small a Ha) as Hs.
  apply (image_step (String a "") (ascii_escape (byte_val a)) (String a "") s t r p Hi).
  - cbn [String.append]. by rewrite compact_html, Hu, He.
  - intros rest. rewrite He. eapply compact_u, hex4_kept, Hh.
  - by rewrite He.
  - rewrite He. cbn [String.append]. apply (good_written h (byte_val a)); try done; [lia|by apply html_noncont|].
    intros ->. by vm_compute in Ha.
  - intros f rest. apply parse_escape; [done|by rewrite He].
Qed.

Lemma image_byte a s t r p :
  32 <= byte_val a < 128 -> html_byte a = false -> a <> quote -> a <> backslash -> string_image s t r p ->
  string_image (String a s) (String a t) r (String a p).
Proof.
  intros Ha Hh Hq Hb Hi. pose proof (small_noncont a (proj2 Ha)) as Hn.
  apply (image_step (String a "") (String a "") (String a "") s t r p Hi).
  - cbn [String.append]. apply compact_str_byte; try done. apply sep_at_small. lia.
  - intros rest. cbn [String.append]. apply compact_str_byte; try done. apply sep_at_small. lia.
  - done.
  - by apply good_other.
  - intros f rest. cbn [String.append parse_string].
    rewrite (proj2 (Ascii.eqb_neq a quote) Hq), (proj2 (Ascii.eqb_neq a backslash) Hb).
    destruct (Z.ltb_spec (byte_val a) 32); [lia|].
    assert (rune_width (String a (p +:+ rest)) = 1%nat) as ->; [|done].
    simpl. destruct (Z.ltb_spec (byte_val a) 128); [done|lia].
Qed.

Lemma wide_not_cont a r : (2 <= rune_width (String a r))%nat -> is_cont a = false.
Proof.
  intros Hw. destruct (is_cont a) eqn:Ha; [|done]. exfalso. revert Hw. unfold is_cont, in_byte_range in Ha.
  apply andb_true_iff in Ha as [H1%Z.leb_le H2%Z.leb_le].
  assert (Hf : forall lo hi, 191 < lo -> in_byte_range lo hi a = false).
  { intros lo hi Hlo. unfold in_byte_range. destruct (Z.leb_spec lo (byte_val a)); [lia|done]. }
  destruct r as [|b [|x [|y r]]]; cbn [rune_width]; rewrite ?Hf by lia;
    destruct (Z.ltb_spec (byte_val a) 128), (Z.eqb_spec (byte_val a) 224), (Z.eqb_spec (byte_val a) 237),
      (Z.eqb_spec (byte_val a) 240), (Z.eqb_spec (byte_val a) 244);
    try lia; cbn [andb]; rewrite ?andb_false_r; lia.
Qed.

Lemma wide_conts a r : (2 <= rune_width (String a r))%nat ->
  exists c s, r = c +:+ s /\ S (String.length c) = rune_width (String a r) /\ string_forallb is_cont c = true.
Proof.
  assert (Hr : forall lo hi b, 128 <= lo -> hi <= 191 -> in_byte_range lo hi b = true -> is_cont b = true).
  { unfold is_cont, in_byte_range. intros lo hi b Hlo Hhi [H1%Z.leb_le H2%Z.leb_le]%andb_true_iff.
    apply andb_true_iff. split; apply Z.leb_le; lia. }
  destruct r as [|b [|x [|y r]]]; cbn [rune_width]; repeat case_match; intros Hw; try lia;
    repeat match goal with H : _ && _ = true |- _ => apply andb_true_iff in H as [? ?] end.
  all: try (by exists (String b ""); eexists; split_and!; [reflexivity|done|simpl; by rewrite ?andb_true_r]).
  all: match goal with H : in_byte_range ?lo ?hi ?x = true |- _ =>
           assert (is_cont x = true) by (apply (Hr lo hi x); [lia|lia|exact H]) | _ => idtac end.
  all: match goal with |- context [S _ = 3%nat] => exists (String b (String x ""))
                     | _ => exists (String b (String x (String y ""))) end.
  all: eexists; split_and!; [reflexivity|done|].
  all: cbn [string_forallb]; repeat match goal with H : is_cont _ = true |- _ => rewrite H; clear H end; done.
Qed.

Lemma compact_conts c s :
  string_forallb is_cont c = true ->
  compact_bytes true false (c +:+ s) = c +:+ compact_bytes true false s.
Proof.
  induction c as [|a c IH]; [done|]. cbn [string_forallb String.append]. intros [Ha Hc]%andb_true_iff.
  rewrite compact_str_wide, IH; [done|done| |by apply sep_at_cont].
  unfold is_cont, in_byte_range in Ha. by apply andb_true_iff in Ha as [H%Z.leb_le _].
Qed.

Lemma wide_small a r : (2 <= rune_width (String a r))%nat -> a <> backslash.
Proof. intros Hw%rune_width_wide ->. by vm_compute in Hw. Qed.

(** What follows a rune does not make it a separator. *)
Lemma wide_sep_at a c s u :
  (2 <= rune_width (String a (c +:+ s)))%nat -> S (String.length c) = rune_width (String a (c +:+ s)) ->
  sep_at (String a (c +:+ s)) = false -> sep_at (String a (c +:+ u)) = false.
Proof.
  intros Hw Hl Hs. destruct c as [|b [|x c]]; [rewrite <- Hl in Hw; simpl in Hw; lia| |exact Hs].
  apply not_true_iff_false. intros E. destruct u as [|y u]; [done|]. cbn in E.
  apply line_sep_bytes in E as (-> & -> & _). revert Hl. cbn [String.append String.length]. clear. cbn [rune_width].
  destruct s as [|x [|y s]]; repeat case_match; done.
Qed.

Lemma image_wide a c s t r p :
  (2 <= rune_width (String a (c +:+ s)))%nat -> S (String.length c) = rune_width (String a (c +:+ s)) ->
  string_forallb is_cont c = true -> sep_at (String a (c +:+ s)) = false -> string_image s t r p ->
  string_image (String a c +:+ s) (String a c +:+ t) r (String a c +:+ p).
Proof.
  intros Hw Hl Hc Hs Hi.
  apply (image_step (String a c) (String a c) (String a c) s t r p Hi).
  - cbn [String.append]. rewrite compact_str_wide, compact_conts by (done || by eapply rune_width_wide). done.
  - intros rest. cbn [String.append]. rewrite compact_str_wide, compact_conts; [done|done|by eapply rune_width_wide|].
    by eapply wide_sep_at.
  - done.
  - cbn [String.append]. pose proof (wide_not_cont _ _ Hw). pose proof (wide_small _ _ Hw). by apply good_other.
  - intros f rest. apply (parse_wide (String a c) s); [|exact Hl].
    pose proof (proj1 (rune_width_le (String a (c +:+ s)))). cbn [String.append]. lia.
Qed.

Lemma image_sep a b c s t r p :
  is_line_sep a b c = true -> string_image s t r p ->
  string_image (String a (String b (String c s))) (String a (String b (String c t))) r (line_sep_escape c +:+ p).
Proof.
  intros Hs Hi. destruct (sep_escape _ _ _ Hs) as (h & z & He & Hz & Hh).
  apply (image_step (String a (String b (String c ""))) (line_sep_escape c) (String a (String b (String c ""))) s t r p Hi).
  - cbn [String.append]. by apply compact_sep.
  - intros rest. rewrite He. eapply compact_u, hex4_kept, Hh.
  - by rewrite He.
  - rewrite He. cbn [String.append]. pose proof (line_sep_bytes _ _ _ Hs) as (-> & _).
    by apply (good_written h z).
  - intros f rest. by apply parse_line_sep.
Qed.

(** A byte that starts no rune. *)
Lemma image_bad a s t r p :
  rune_width (String a s) = 0%nat -> string_image s t r p ->
  string_image (String a s) (replacement +:+ t) r (String a p).
Proof.
  intros Hw Hi.
  assert (Ha : 128 <= byte_val a).
  { simpl in Hw. by destruct (Z.ltb_spec (byte_val a) 128). }
  destruct (wide_byte a Ha) as (Hq & Hb & H32).
  assert (Hs : sep_at (String a s) = false).
  { destruct s as [|b [|x s]]; [done|done|]. simpl. destruct (is_line_sep a b x) eqn:E; [|done].
    apply line_sep_bytes in E as (-> & -> & [-> | ->]); done. }
  apply (image_step (String a "") (String a "") replacement s t r p Hi).
  - by apply compact_str_wide.
  - intros rest. apply compact_str_wide; [done|]. apply not_true_iff_false. intros E.
    destruct Hi as (_ & _ & [Hag _] & _). pose proof (agree_width a s p rest Hag) as Hr. rewrite Hw in Hr.
    cbn [String.append] in E. destruct (p +:+ rest) as [|b [|x u]]; [done|done|]. cbn in E.
    apply line_sep_bytes in E as (-> & -> & [-> | ->]); done.
  - done.
  - destruct Hi as (_ & _ & [Hag _] & _). apply Ascii.eqb_neq in Hb. split.
    + destruct (is_cont a) eqn:Hc; [by apply agree_cons|]. by apply agree_heads; simpl; rewrite Hc.
    + intros u rest _. by apply low_surrogate_other.
  - intros f rest. cbn [String.append parse_string]. rewrite Hq, Hb, H32.
    destruct Hi as (_ & _ & [Hag _] & _). rewrite (agree_width a s p rest Hag), Hw. done.
Qed.

Lemma low_surrogate_Some z s u r :
  low_surrogate z s = Some (u, r) -> exists h z2, s = u_text h +:+ r /\
    (forall t, hex4 (h +:+ t) = Some (z2, t)) /\
    (forall t, compact_bytes true false (h +:+ t) = h +:+ compact_bytes true false t) /\
    forall t, low_surrogate z (u_text h +:+ t) = Some (u, t).
Proof.
  unfold low_surrogate at 1. destruct (strip_prefix _ s) as [s'|] eqn:Hp; [|done]. cbn [mbind option_bind].
  apply strip_prefix_Some in Hp as ->. destruct (hex4 s') as [[z2 r']|] eqn:Hh; [|done].
  cbn [mbind option_bind]. destruct (_ && _) eqn:Hc; [|done]. intros [= <- <-].
  apply hex4_spec in Hh as (h & -> & Hh & Hch). exists h, z2. split_and!; [done|done|done|].
  intros t. by rewrite (low_surrogate_u z h z2 t Hh), Hc.
Qed.

Lemma escape_image f s t r :
  (forall s t r, parse_string f s = Some (t, r) -> exists p, string_image s t r p) ->
  parse_string (S f) (String backslash s) = Some (t, r) -> exists p, string_image (String backslash s) t r p.
Proof.
  intros IH. destruct s as [|e s]; [done|]. destruct (Ascii.eqb_spec e "u") as [->|He].
  - destruct (hex4 s) as [[z r1]|] eqn:Hh.
    2:{ cbn [parse_string]. change (Ascii.eqb backslash quote) with false.
        change (Ascii.eqb backslash backslash) with true. rewrite Ascii.eqb_refl. cbv iota. by rewrite Hh. }
    apply hex4_spec in Hh as (h & -> & Hh & Hc).
    change (String backslash (String "u" (h +:+ r1))) with (u_text h +:+ r1).
    rewrite (parse_string_u h z f r1 Hh). destruct (is_surrogate z) eqn:Hs.
    + destruct (low_surrogate z r1) as [[u r2]|] eqn:Hl.
      * intros (t' & Hp & ->)%then_Some. destruct (IH _ _ _ Hp) as [p Hi].
        apply low_surrogate_Some in Hl as (h2 & z2 & -> & Hh2 & Hc2 & Hl).
        eexists. rewrite <- string_app_assoc. by eapply image_pair.
      * intros (t' & Hp & ->)%then_Some. destruct (IH _ _ _ Hp) as [p Hi].
        exists (u_text h +:+ p). pose proof (image_u h z r1 t' r p Hh Hc (fun _ => Hl) Hi) as Him.
        by rewrite Hs in Him.
    + intros (t' & Hp & ->)%then_Some. destruct (IH _ _ _ Hp) as [p Hi].
      exists (u_text h +:+ p). pose proof (image_u h z r1 t' r p Hh Hc) as Him.
      rewrite Hs in Him. by apply Him.
  - cbn [parse_string]. change (Ascii.eqb backslash quote) with false.
    change (Ascii.eqb backslash backslash) with true. rewrite (proj2 (Ascii.eqb_neq e "u") He). cbv iota.
    destruct (simple_escape e) as [c|] eqn:Hc; [|done]. cbn [mbind option_bind].
    intros (t' & Hp & ->)%(then_Some (String c "")). destruct (IH _ _ _ Hp) as [p Hi].
    eexists. by apply image_simple.
Qed.

(** A rune written with [S k] bytes, the first one [a]. *)
Lemma wide_image f a s t r :
  (forall s t r, parse_string f s = Some (t, r) -> exists p, string_image s t r p) ->
  (2 <= rune_width (String a s))%nat ->
  parse_string (S f) (String a s) = Some (t, r) -> exists p, string_image (String a s) t r p.
Proof.
  intros IH Hw. destruct (wide_conts a s Hw) as (c & s' & -> & Hl & Hc). pose proof (proj1 (rune_width_le (String a (c +:+ s')))).
  change (String a (c +:+ s')) with (String a c +:+ s').
  rewrite (parse_wide (String a c) s') by (cbn [String.append String.length]; lia).
  intros (t' & Hp & ->)%then_Some. destruct (IH _ _ _ Hp) as [p Hi].
  destruct (sep_at (String a (c +:+ s'))) eqn:Hs; [|eexists; by apply image_wide].
  assert (rune_width (String a (c +:+ s')) = 3%nat) as Hw3.
  { destruct (c +:+ s') as [|b [|x s2]]; [done|done|]. simpl in Hs.
    apply line_sep_bytes in Hs as (-> & -> & [-> | ->]); done. }
  rewrite Hw3 in Hl. destruct c as [|b [|x [|y c]]]; try (simpl in Hl; lia). eexists. by apply image_sep.
Qed.

(** A string literal that was read is read again from its compact form. *)
Lemma compact_string f : forall s t r,
  parse_string f s = Some (t, r) -> exists p, string_image s t r p.
Proof.
  induction f as [|f IH]; [done|]. intros s t r. destruct s as [|a s]; [done|].
  destruct (Ascii.eqb_spec a backslash) as [->|Hb]; [by apply escape_image|].
  destruct (decide (2 <= rune_width (String a s))%nat) as [Hw|Hw]; [by apply wide_image|].
  cbn [parse_string]. destruct (Ascii.eqb_spec a quote) as [->|Hq].
  { intros [= <- <-]. eexists. apply image_quote. }
  rewrite (proj2 (Ascii.eqb_neq a backslash) Hb). destruct (Z.ltb_spec (byte_val a) 32); [done|].
  destruct (rune_width (String a s)) as [|[|k]] eqn:Hr; [| |lia].
  - intros (t' & Hp & ->)%(then_Some replacement). destruct (IH _ _ _ Hp) as [p Hi].
    eexists. by apply image_bad.
  - apply rune_width_one in Hr. intros (t' & Hp & ->)%(then_Some (String a "")).
    destruct (IH _ _ _ Hp) as [p Hi]. destruct (html_byte a) eqn:Hh.
    + eexists. by apply image_html.
    + eexists. by apply image_byte.
Qed.

(** ** Scalars *)

Lemma compact_ws s : compact_bytes false false s = compact_bytes false false (skip_ws s).
Proof.
  induction s as [|a s IH]; [done|]. cbn [skip_ws]. destruct (is_ws a) eqn:Hw; [|done]. rewrite <- IH.
  assert (html_byte a = false /\ byte_val a < 128) as [Hh Ha].
  { destruct a as [[] [] [] [] [] [] [] []]; vm_compute in Hw; try discriminate Hw; done. }
  cbn [compact_bytes]. unfold html_byte in Hh. rewrite Hh, Hw. pose proof (sep_at_small a s Ha) as Hs.
  destruct s as [|b [|x s]]; [done|done|]. unfold sep_at in Hs. by rewrite Hs.
Qed.

Lemma compact_quoted s : compact_bytes false false (String quote s) = String quote (compact_bytes true false s).
Proof. rewrite compact_keep; [done|done|by apply sep_at_small|done]. Qed.

Definition scalar (v : jval) : bool := match v with JStr _ | JNum _ => true | _ => false end.

(** The first byte tells the kind of a value. *)
Lemma parse_scalar f d s v r :
  scalar v = true -> parse_value f d s = Some (v, r) ->
  (exists t s', v = JStr t /\ s = String quote s' /\ parse_string (str_fuel s') s' = Some (t, r)) \/
  (exists l, v = JNum l /\ parse_number s = Some (l, r)).
Proof.
  intros Hv. destruct f as [|f]; [done|]. destruct s as [|a s]; [done|]. cbn [parse_value].
  destruct (Ascii.eqb a "{").
  { destruct (maxNestingDepth <=? d); [done|]. destruct (skip_ws s) as [|b s']; [done|].
    destruct (Ascii.eqb b "}"); [by intros [= <- _]|].
    destruct (parse_members _ _ _) as [[ms r']|]; [|done]. by intros [= <- _]. }
  destruct (Ascii.eqb a "[").
  { destruct (maxNestingDepth <=? d); [done|]. destruct (skip_ws s) as [|b s']; [done|].
    destruct (Ascii.eqb b "]"); [by intros [= <- _]|].
    destruct (parse_elems _ _ _) as [[ms r']|]; [|done]. by intros [= <- _]. }
  destruct (Ascii.eqb_spec a quote) as [->|_].
  { destruct (parse_string (str_fuel s) s) as [[t r']|] eqn:Hp; [|done]. intros [= <- <-].
    left. by exists t, s. }
  destruct (Ascii.eqb a "t"); [destruct (strip_prefix "rue" s); [by intros [= <- _]|done]|].
  destruct (Ascii.eqb a "f"); [destruct (strip_prefix "alse" s); [by intros [= <- _]|done]|].
  destruct (Ascii.eqb a "n"); [destruct (strip_prefix "ull" s); [by intros [= <- _]|done]|].
  destruct (parse_number (String a s)) as [[l r']|] eqn:Hp; [|done]. intros [= <- <-].
  right. by exists l.
Qed.

Lemma reads_quoted d s t r p :
  string_image s t r p -> reads d (String quote p) (JStr t).
Proof. intros (_ & _ & _ & Hp). apply reads_key_value. by exists p. Qed.

Lemma num_byte_cases a : num_byte a = true ->
  plain a && negb (Ascii.eqb a quote) = true /\
  Ascii.eqb a "{" = false /\ Ascii.eqb a "[" = false /\ Ascii.eqb a quote = false /\
  Ascii.eqb a "t" = false /\ Ascii.eqb a "f" = false /\ Ascii.eqb a "n" = false /\ is_ws a = false.
Proof.
  intros H. destruct a as [[] [] [] [] [] [] [] []]; vm_compute in H; try discriminate H; done.
Qed.

Lemma reads_number d s l r : parse_number s = Some (l, r) -> reads d l (JNum l).
Proof.
  intros (-> & Hb & Hh & Hp)%parse_number_scans. destruct l as [|a l]; [done|]. simpl in Hh.
  destruct (num_byte_cases a Hh) as (_ & H1 & H2 & H3 & H4 & H5 & H6 & H7). split_and!.
  - simpl. by rewrite H7.
  - done.
  - intros [|f] rest Hf He; [lia|]. cbn [String.append parse_value]. rewrite H1, H2, H3, H4, H5, H6.
    change (String a (l +:+ rest)) with (String a l +:+ rest). rewrite Hp; [done|].
    destruct rest as [|b rest]; [done|]. by destruct He as [-> | [-> | ->]].
Qed.

Lemma readable_scalar raw v :
  parse_json raw = Some v -> scalar v = true ->
  exists c, json_compact raw = Some c /\ forall d, reads d c v.
Proof.
  intros Hp Hv. unfold json_compact, json_Valid. rewrite Hp. eexists. split; [reflexivity|].
  unfold parse_json in Hp. rewrite compact_ws. set (s := skip_ws raw) in *.
  destruct (parse_value (parse_fuel s) 0 s) as [[v' r]|] eqn:Hpv; [|done].
  destruct (skip_ws r) as [|] eqn:Hr; [|done]. injection Hp as ->.
  assert (Hend : compact_bytes false false r = "") by (by rewrite compact_ws, Hr).
  apply parse_scalar in Hpv as [(t & s' & -> & Es & Hps)|(l & -> & Hn)]; [..|done]; intros d.
  - destruct (compact_string _ _ _ _ Hps) as [p Hi]. pose proof Hi as (Hc & _).
    rewrite Es, compact_quoted, Hc, Hend, string_app_nil_r. by eapply reads_quoted.
  - pose proof (parse_number_scans _ _ _ Hn) as (Es & Hb & _ & _). rewrite Es.
    rewrite compact_plain, Hend, string_app_nil_r; [by eapply reads_number|].
    clear -Hb. induction l as [|a l IH]; [done|]. simpl in *. apply andb_true_iff in Hb as [Ha Hb].
    by rewrite (proj1 (num_byte_cases a Ha)), IH.
Qed.
