(* ===== verification/JsonUtf8.v ===== *)
(** * What is decoded is text

    The strings the parser of [Json] decodes, the names of members among them,
    are valid UTF-8, whatever bytes the document is made of, and its numbers
    are JSON number literals ([parse_json_textual]).  So encoding them again
    loses nothing. *)

From S2P Require Import Prelude GoTime Json JsonRaw JsonRoundTrip JsonIds.

(** ** Valid UTF-8, rune by rune *)

Lemma utf8_go_enough n : forall m s, (String.length s <= n)%nat -> (String.length s <= m)%nat -> utf8_go n s = utf8_go m s.
Proof.
  induction n as [|n IH]; intros m s Hn Hm.
  { destruct s; [by destruct m|simpl in Hn; lia]. }
  destruct s as [|a s]; [by destruct m|]. destruct m as [|m]; [simpl in Hm; lia|]. simpl in Hn, Hm.
  cbn [utf8_go]. destruct (rune_width (String a s)) as [|[|[|[|[|k]]]]]; try done.
  - apply IH; lia.
  - destruct s as [|b s]; [done|]. simpl in *. apply IH; lia.
  - destruct s as [|b [|c s]]; [done..|]. simpl in *. apply IH; lia.
  - destruct s as [|b [|c [|d s]]]; [done..|]. simpl in *. apply IH; lia.
Qed.

(** The text is one rune. *)
Definition is_rune (p : string) : Prop := rune_width p = String.length p /\ (1 <= String.length p <= 4)%nat.

Lemma utf8_rune p t : is_rune p -> utf8 (p +:+ t) = utf8 t.
Proof.
  intros [Hw Hl]. assert (rune_width (p +:+ t) = String.length p) as Hw'.
  { destruct (decide (2 <= String.length p)%nat) as [H2|H2]; [by rewrite rune_width_extend by lia|].
    destruct p as [|a [|? ?]]; simpl in Hl, H2; [lia| |lia]. apply rune_width_one in Hw. simpl.
    by rewrite (proj2 (Z.ltb_lt _ _)). }
  clear Hw. unfold utf8.
  rewrite (utf8_go_enough (String.length (p +:+ t)) (S (String.length (p +:+ t)))) by lia.
  generalize (String.length (p +:+ t)) as n, (length_append p t). intros n Hn. revert Hw'.
  destruct p as [|a [|b [|c [|d [|? ?]]]]]; cbn [String.length] in *; try lia; cbn [String.append utf8_go];
    intros ->; apply utf8_go_enough; lia.
Qed.

Lemma is_cont_byte z : 128 <= z < 192 -> is_cont (byte z) = true.
Proof. intros. unfold is_cont, in_byte_range. rewrite byte_val_byte by lia. apply andb_true_iff. split; apply Z.leb_le; lia. Qed.

Lemma replacement_rune : is_rune replacement.
Proof. by split; [|simpl; lia]. Qed.

Ltac bytes := unfold in_byte_range; rewrite ?byte_val_byte by lia; rewrite ?andb_true_iff, ?Z.leb_le, ?Z.ltb_lt; lia.

Lemma rune2 a b : in_byte_range 194 223 a = true -> is_cont b = true -> is_rune (String a (String b "")).
Proof.
  intros Ha Hb. split; [|simpl; lia]. cbn -[Z.ltb]. rewrite Ha, Hb.
  unfold in_byte_range in Ha. apply andb_true_iff in Ha as [Ha%Z.leb_le _]. by rewrite (proj2 (Z.ltb_ge _ _)) by lia.
Qed.

Lemma rune3 a b c :
  is_cont c = true ->
  (if byte_val a =? 224 then in_byte_range 160 191 b
   else if byte_val a =? 237 then in_byte_range 128 159 b
   else in_byte_range 225 239 a && is_cont b) = true ->
  is_rune (String a (String b (String c ""))).
Proof.
  intros Hc Hab. split; [|simpl; lia]. cbn -[Z.ltb Z.eqb]. rewrite Hc, Hab.
  assert (224 <= byte_val a) as Ha.
  { destruct (Z.eqb_spec (byte_val a) 224); [lia|]. destruct (Z.eqb_spec (byte_val a) 237); [lia|].
    apply andb_true_iff in Hab as [Ha _]. apply andb_true_iff in Ha as [Ha%Z.leb_le _]. lia. }
  rewrite (proj2 (Z.ltb_ge _ _)) by lia. unfold in_byte_range. rewrite (proj2 (Z.leb_gt (byte_val a) 223)) by lia.
  by rewrite andb_false_r.
Qed.

Lemma rune4 a b c d :
  is_cont c = true -> is_cont d = true ->
  (if byte_val a =? 240 then in_byte_range 144 191 b
   else if byte_val a =? 244 then in_byte_range 128 143 b
   else in_byte_range 241 243 a && is_cont b) = true ->
  is_rune (String a (String b (String c (String d "")))).
Proof.
  intros Hc Hd Hab. split; [|simpl; lia]. cbn -[Z.ltb Z.eqb]. rewrite Hc, Hd, Hab.
  assert (240 <= byte_val a) as Ha.
  { destruct (Z.eqb_spec (byte_val a) 240); [lia|]. destruct (Z.eqb_spec (byte_val a) 244); [lia|].
    apply andb_true_iff in Hab as [Ha _]. apply andb_true_iff in Ha as [Ha%Z.leb_le _]. lia. }
  rewrite (proj2 (Z.ltb_ge _ _)) by lia. unfold in_byte_range. rewrite (proj2 (Z.leb_gt (byte_val a) 223)) by lia.
  rewrite (proj2 (Z.eqb_neq (byte_val a) 224)), (proj2 (Z.eqb_neq (byte_val a) 237)) by lia. rewrite (proj2 (Z.leb_gt (byte_val a) 239)) by lia.
  by rewrite !andb_false_r.
Qed.

(** What [utf8.EncodeRune] writes is one. *)
Lemma encode_rune_is_rune r : 0 <= r -> is_rune (encode_rune r).
Proof.
  intros Hr. unfold encode_rune. destruct (Z.ltb_spec r 128).
  { split; [|simpl; lia]. cbn -[Z.ltb]. rewrite byte_val_byte by lia. by rewrite (proj2 (Z.ltb_lt _ _)). }
  pose proof (Z.mod_pos_bound r 64). pose proof (Z.div_mod r 64).
  destruct (Z.ltb_spec r 2048).
  { apply rune2; [bytes|apply is_cont_byte; lia]. }
  destruct ((1114111 <? r) || _) eqn:Hs; [apply replacement_rune|]. apply orb_false_iff in Hs as [Hmax Hsur].
  apply Z.ltb_ge in Hmax. apply andb_false_iff in Hsur. rewrite !Z.leb_gt in Hsur.
  pose proof (Z.mod_pos_bound (r / 64) 64). pose proof (Z.div_mod (r / 64) 64). pose proof (Z.div_div r 64 64).
  change (64 * 64) with 4096 in *.
  destruct (Z.ltb_spec r 65536).
  - apply rune3; [apply is_cont_byte; lia|]. rewrite byte_val_byte by lia.
    destruct (Z.eqb_spec (224 + r / 4096) 224); [bytes|]. destruct (Z.eqb_spec (224 + r / 4096) 237); [bytes|].
    apply andb_true_iff. split; [bytes|apply is_cont_byte; lia].
  - pose proof (Z.mod_pos_bound (r / 4096) 64). pose proof (Z.div_mod (r / 4096) 64). pose proof (Z.div_div r 4096 64).
    change (4096 * 64) with 262144 in *.
    apply rune4; [apply is_cont_byte; lia|apply is_cont_byte; lia|]. rewrite byte_val_byte by lia.
    destruct (Z.eqb_spec (240 + r / 262144) 240); [bytes|]. destruct (Z.eqb_spec (240 + r / 262144) 244); [bytes|].
    apply andb_true_iff. split; [bytes|apply is_cont_byte; lia].
Qed.

(** ** What the parser of strings yields *)

Lemma low_surrogate_nonneg hi s z r : low_surrogate hi s = Some (z, r) -> 0 <= z.
Proof.
  unfold low_surrogate. destruct (strip_prefix _ s) as [s'|]; [|done]. cbn [mbind option_bind].
  destruct (hex4 s') as [[lo r']|]; [|done]. cbn [mbind option_bind].
  destruct (_ && _) eqn:Hc; [|done]. intros [= <- _]. bool_to_prop.
  repeat match goal with H : (_ <=? _) = true |- _ => apply Z.leb_le in H | H : (_ <? _) = true |- _ => apply Z.ltb_lt in H end.
  lia.
Qed.

Lemma hex_val_nonneg a z : hex_val a = Some z -> 0 <= z.
Proof.
  unfold hex_val. intros Hz. repeat case_match; try done; injection Hz as <-; bool_to_prop;
    repeat match goal with H : (_ <=? _) = true |- _ => apply Z.leb_le in H end; lia.
Qed.

Lemma hex4_nonneg s z r : hex4 s = Some (z, r) -> 0 <= z.
Proof.
  unfold hex4. destruct s as [|a [|b [|c [|d s]]]]; try done.
  destruct (hex_val a) eqn:Ha, (hex_val b) eqn:Hb, (hex_val c) eqn:Hc, (hex_val d) eqn:Hd; simpl; try done.
  apply hex_val_nonneg in Ha, Hb, Hc, Hd. intros [= <- _]. lia.
Qed.

Lemma simple_escape_rune e c : simple_escape e = Some c -> is_rune (String c "").
Proof.
  intros He. destruct e as [[] [] [] [] [] [] [] []]; vm_compute in He; try discriminate He; injection He as <-;
    (split; [reflexivity|simpl; lia]).
Qed.

Lemma parse_string_utf8 f : forall s t r, parse_string f s = Some (t, r) -> utf8 t = true.
Proof.
  induction f as [|f IH]; [done|]. intros s t r. destruct s as [|a s]; [done|].
  assert (Hgo : forall p u, is_rune p -> then_ p (parse_string f u) = Some (t, r) -> utf8 t = true).
  { intros p u Hp. destruct (parse_string f u) as [[t' r']|] eqn:Hu; [|done]. intros [= <- <-].
    rewrite utf8_rune by done. by eapply IH. }
  cbn [parse_string]. destruct (Ascii.eqb a quote); [by intros [= <- _]|].
  destruct (Ascii.eqb a backslash).
  { destruct s as [|e s]; [done|]. destruct (Ascii.eqb e "u").
    - destruct (hex4 s) as [[z r1]|] eqn:Hh; [|done]. apply hex4_nonneg in Hh. cbn [mbind option_bind].
      destruct (is_surrogate z); [destruct (low_surrogate z r1) as [[u r2]|] eqn:Hl|].
      + apply low_surrogate_nonneg in Hl. by apply Hgo, encode_rune_is_rune.
      + apply Hgo, replacement_rune.
      + by apply Hgo, encode_rune_is_rune.
    - destruct (simple_escape e) as [c|] eqn:He; [|done]. by eapply (Hgo (String c "")), simple_escape_rune. }
  destruct (byte_val a <? 32); [done|].
  destruct (rune_width_le (String a s)) as [Hw4 Hwl].
  assert (Hwide : forall p u, String a s = p +:+ u -> rune_width (String a s) = String.length p -> (2 <= String.length p)%nat ->
             is_rune p).
  { intros p u E Hw Hl. rewrite E in Hw, Hw4. split; [|lia]. rewrite <- Hw. apply rune_width_prefix; [|lia]. intros ->. simpl in Hl. lia. }
  destruct (rune_width (String a s)) as [|[|[|[|[|k]]]]] eqn:Hw; [| | | | |lia].
  - apply (Hgo replacement), replacement_rune.
  - apply (Hgo (String a "")). split; [|simpl; lia]. apply rune_width_one in Hw. simpl. by rewrite (proj2 (Z.ltb_lt _ _)).
  - destruct s as [|b s]; [simpl in Hwl; lia|]. apply (Hgo (String a (String b ""))). apply (Hwide _ s); [done|done|simpl; lia].
  - destruct s as [|b [|c s]]; [simpl in Hwl; lia..|]. apply (Hgo (String a (String b (String c "")))). apply (Hwide _ s); [done|done|simpl; lia].
  - destruct s as [|b [|c [|d s]]]; [simpl in Hwl; lia..|].
    apply (Hgo (String a (String b (String c (String d ""))))). apply (Hwide _ s); [done|done|simpl; lia].
Qed.

(** ** Values made of text and numbers *)

Definition is_literal (lit : string) : bool := bool_decide (parse_number lit = Some (lit, "")).

(** Every string is valid UTF-8 and every number a literal. *)
Fixpoint textual (v : jval) : bool :=
  match v with
  | JNum lit => is_literal lit
  | JStr s => utf8 s
  | JArr l => forallb textual l
  | JObj l => forallb (fun e => utf8 e.1 && textual e.2.2) l
  | _ => true
  end.

Lemma literal_reads d lit : is_literal lit = true -> reads d lit (JNum lit).
Proof. unfold is_literal. rewrite bool_decide_eq_true. apply reads_number. Qed.

Lemma parse_number_literal s lit r : parse_number s = Some (lit, r) -> is_literal lit = true.
Proof.
  intros (_ & _ & _ & Hr)%parse_number_scans. unfold is_literal. rewrite bool_decide_eq_true.
  specialize (Hr "" eq_refl). by rewrite string_app_nil_r in Hr.
Qed.

Definition textual_elems (vs : list jval) : bool := forallb textual vs.
Definition textual_members (ms : list (string * (string * jval))) : bool :=
  forallb (fun e => utf8 e.1 && textual e.2.2) ms.

Lemma parse_value_textual f :
  (forall d s vs r, parse_elems f d s = Some (vs, r) -> textual_elems vs = true) ->
  (forall d s ms r, parse_members f d s = Some (ms, r) -> textual_members ms = true) ->
  forall d s v r, parse_value (S f) d s = Some (v, r) -> textual v = true.
Proof.
  intros IHe IHm d s v r H. cbn [parse_value] in H. destruct s as [|a s]; [done|].
  destruct (Ascii.eqb a "{").
  { destruct (maxNestingDepth <=? d); [done|]. destruct (skip_ws s) as [|b s']; [done|].
    destruct (Ascii.eqb b "}"); [by injection H as <- _|].
    destruct (parse_members f _ _) as [[ms r']|] eqn:Hm; [|done]. injection H as <- _. exact (IHm _ _ _ _ Hm). }
  destruct (Ascii.eqb a "[").
  { destruct (maxNestingDepth <=? d); [done|]. destruct (skip_ws s) as [|b s']; [done|].
    destruct (Ascii.eqb b "]"); [by injection H as <- _|].
    destruct (parse_elems f _ _) as [[vs r']|] eqn:Hm; [|done]. injection H as <- _. exact (IHe _ _ _ _ Hm). }
  destruct (Ascii.eqb a quote).
  { destruct (parse_string _ _) as [[t r']|] eqn:Hp; [|done]. injection H as <- _. by eapply parse_string_utf8. }
  repeat match type of H with (if Ascii.eqb a ?c then r ← strip_prefix ?p s; _ else _) = _ =>
    destruct (Ascii.eqb a c); [destruct (strip_prefix p s); [|done]; by injection H as <- _|] end.
  destruct (parse_number (String a s)) as [[l r']|] eqn:Hn; [|done]. injection H as <- _. by eapply parse_number_literal.
Qed.

Lemma parse_members_textual f :
  (forall d s v r, parse_value f d s = Some (v, r) -> textual v = true) ->
  (forall d s ms r, parse_members f d s = Some (ms, r) -> textual_members ms = true) ->
  forall d s ms r, parse_members (S f) d s = Some (ms, r) -> textual_members ms = true.
Proof.
  intros IHv IHm d s ms r H. cbn [parse_members] in H. destruct s as [|q s]; [done|].
  destruct (Ascii.eqb q quote); [|done].
  destruct (parse_string _ _) as [[key r0]|] eqn:Hk; [|done]. cbn [mbind option_bind] in H.
  destruct (skip_ws r0) as [|b0 r1]; [done|]. destruct (Ascii.eqb b0 ":"); [|done].
  destruct (parse_value f d _) as [[v r2]|] eqn:Hv; [|done]. cbn [mbind option_bind] in H.
  assert (utf8 key && textual v = true) as Hm.
  { apply andb_true_iff. split; [by eapply parse_string_utf8|by eapply IHv]. }
  destruct (skip_ws r2) as [|b r3]; [done|]. destruct (Ascii.eqb b "}").
  { injection H as <- _. unfold textual_members. simpl. by rewrite Hm. }
  destruct (Ascii.eqb b ","); [|done].
  destruct (parse_members f d _) as [[ms' r4]|] eqn:Hp; [|done]. injection H as <- _.
  unfold textual_members. simpl. rewrite Hm. exact (IHm _ _ _ _ Hp).
Qed.

Lemma parse_textual f :
  (forall d s v r, parse_value f d s = Some (v, r) -> textual v = true) /\
  (forall d s vs r, parse_elems f d s = Some (vs, r) -> textual_elems vs = true) /\
  (forall d s ms r, parse_members f d s = Some (ms, r) -> textual_members ms = true).
Proof.
  induction f as [|f (IHv & IHe & IHm)]; [done|].
  split_and!; [by apply parse_value_textual| |by apply parse_members_textual].
  intros d s vs r H. cbn [parse_elems] in H.
  destruct (parse_value f d s) as [[v r1]|] eqn:Hv; [|done]. cbn [mbind option_bind] in H. apply IHv in Hv.
  destruct (skip_ws r1) as [|b r2]; [done|]. destruct (Ascii.eqb b "]").
  { injection H as <- _. unfold textual_elems. simpl. by rewrite Hv. }
  destruct (Ascii.eqb b ","); [|done].
  destruct (parse_elems f d _) as [[vs' r3]|] eqn:Hp; [|done]. injection H as <- _.
  unfold textual_elems. simpl. rewrite Hv. exact (IHe _ _ _ _ Hp).
Qed.

(** Whatever is decoded is made of text and numbers. *)
Lemma parse_json_textual s v : parse_json s = Some v -> textual v = true.
Proof.
  unfold parse_json. destruct (parse_value _ _ _) as [[w r]|] eqn:Hv; [|done]. destruct (skip_ws r); [|done].
  intros [= <-]. by eapply (proj1 (parse_textual _)).
Qed.
