(* ===== verification/JsonCompact.v ===== *)
(** * Compact texts are read alike

    [json.Compact] changes the spelling of a document and not its value: what
    the parser of [Json] reads from a text it reads from the compact form of it
    too, alone ([parse_compact]) or inside a document, at any nesting depth
    that leaves room for it ([reads_raw]).  A compact text is its own compact
    form ([json_compact_compact]). *)

From S2P Require Import Prelude Json JsonRaw JsonRoundTrip JsonIds.

#[local] Abbreviation members := (list (string * (string * jval))).

(** ** Values without their spelling *)

(** The value without the raw texts of the members. *)
Fixpoint erase (v : jval) : jval :=
  match v with
  | JArr l => JArr (map erase l)
  | JObj l => JObj (map (fun e => (e.1, ("", erase e.2.2))) l)
  | _ => v
  end.

Definition erase_member (e : string * (string * jval)) : string * (string * jval) := (e.1, ("", erase e.2.2)).

(** How deep arrays and objects are nested in it. *)
Fixpoint nesting (v : jval) : Z :=
  match v with
  | JArr l => 1 + foldr Z.max 0 (map nesting l)
  | JObj l => 1 + foldr Z.max 0 (map (fun e => nesting e.2.2) l)
  | _ => 0
  end.

Definition deepest (vs : list jval) : Z := foldr Z.max 0 (map nesting vs).
Definition values (ms : members) : list jval := map (fun e => e.2.2) ms.

Lemma deepest_cons v vs : deepest (v :: vs) = Z.max (nesting v) (deepest vs).
Proof. done. Qed.

Lemma deepest_nonneg vs : 0 <= deepest vs.
Proof. induction vs as [|v vs IH]; [done|]. rewrite deepest_cons. lia. Qed.

Lemma nesting_array l : nesting (JArr l) = 1 + deepest l.
Proof. done. Qed.

Lemma nesting_object ms : nesting (JObj ms) = 1 + deepest (values ms).
Proof. unfold deepest, values. by rewrite map_map. Qed.

Lemma nesting_nonneg v : 0 <= nesting v.
Proof.
  destruct v; try done; [rewrite nesting_array|rewrite nesting_object];
    pose proof (deepest_nonneg); [specialize (H l)|specialize (H (values l))]; lia.
Qed.

(** ** The compact form *)

Abbreviation compact := (compact_bytes false false).

(** The bytes that structure a document are kept. *)
Lemma compact_struct a r :
  string_existsb (Ascii.eqb a) "[]{},:" = true -> compact (String a r) = String a (compact r).
Proof.
  intros Ha. rewrite compact_keep.
  - destruct a as [[] [] [] [] [] [] [] []]; vm_compute in Ha; try discriminate Ha; reflexivity.
  - destruct a as [[] [] [] [] [] [] [] []]; vm_compute in Ha; try discriminate Ha; reflexivity.
  - apply sep_at_small. destruct a as [[] [] [] [] [] [] [] []]; vm_compute in Ha; try discriminate Ha; done.
  - destruct a as [[] [] [] [] [] [] [] []]; vm_compute in Ha; try discriminate Ha; reflexivity.
Qed.

Lemma compact_struct_ws s a r :
  skip_ws s = String a r -> string_existsb (Ascii.eqb a) "[]{},:" = true -> compact s = String a (compact r).
Proof. intros Hs Ha. by rewrite compact_ws, Hs, compact_struct. Qed.

(** A text that compaction leaves as it is. *)
Definition kept (c : string) : Prop := forall t, compact (c +:+ t) = c +:+ compact t.

Lemma kept_app c c' : kept c -> kept c' -> kept (c +:+ c').
Proof. intros Hc Hc' t. by rewrite !string_app_assoc, Hc, Hc'. Qed.

Lemma kept_struct a : string_existsb (Ascii.eqb a) "[]{},:" = true -> kept (String a "").
Proof. intros Ha t. by apply compact_struct. Qed.

Lemma kept_quoted p :
  (forall t, compact_bytes true false (p +:+ t) = p +:+ compact t) -> kept (String quote p).
Proof. intros Hp t. cbn [String.append]. by rewrite compact_quoted, Hp. Qed.

Lemma kept_concat l : Forall kept l -> kept (String.concat "," l).
Proof.
  induction l as [|c [|c' l] IH]; intros HF; [done|by inversion HF|].
  apply Forall_cons in HF as [Hc HF]. rewrite concat_cons by done.
  apply kept_app; [done|]. apply kept_app; [by apply kept_struct|by apply IH].
Qed.

(** [s] starts with [v], of which [r] is left: its compact form starts with a
    text, which is compact, from which a value like [v] is read at every depth
    with room for it. *)
Definition value_image (d : Z) (s : string) (v : jval) (r : string) : Prop :=
  exists c v', compact s = c +:+ compact r /\ kept c /\ erase v' = erase v /\ d + nesting v <= maxNestingDepth /\
    forall d', d' + nesting v <= maxNestingDepth -> reads d' c v'.

Definition elems_image (d : Z) (s : string) (vs : list jval) (r : string) : Prop :=
  exists es : list (string * jval), es <> [] /\
    compact s = String.concat "," es.*1 +:+ String "]" (compact r) /\ Forall kept es.*1 /\
    map erase es.*2 = map erase vs /\ d + deepest vs <= maxNestingDepth /\
    forall d', d' + deepest vs <= maxNestingDepth -> Forall (fun e => reads d' e.1 e.2) es.

Definition members_image (d : Z) (s : string) (ms : members) (r : string) : Prop :=
  exists ts : list member_text, ts <> [] /\
    compact s = String.concat "," (map key_text ts) +:+ String "}" (compact r) /\ Forall kept (map key_text ts) /\
    map erase_member (map read_member ts) = map erase_member ms /\ d + deepest (values ms) <= maxNestingDepth /\
    forall d', d' + deepest (values ms) <= maxNestingDepth -> Forall (member_reads d') ts.

Lemma scalar_image d s v r c :
  d <= maxNestingDepth -> nesting v = 0 -> compact s = c +:+ compact r -> kept c -> (forall d', reads d' c v) ->
  value_image d s v r.
Proof. intros Hd Hv Hs Hk Hr. exists c, v. rewrite Hv. split_and!; [done|done|done|lia|done]. Qed.

(** A literal of plain bytes. *)
Lemma literal_image d lit p a s v r :
  lit = String a p -> string_forallb (fun a => plain a && negb (Ascii.eqb a quote)) lit = true ->
  d <= maxNestingDepth -> nesting v = 0 -> strip_prefix p s = Some r -> (forall d', reads d' lit v) ->
  value_image d (String a s) v r.
Proof.
  intros E Hp Hd Hv Hs Hr. apply strip_prefix_Some in Hs as ->. apply (scalar_image _ _ _ _ lit); [done|done| | |done].
  - rewrite <- (compact_plain _ r Hp). by rewrite E.
  - intros t. by apply compact_plain.
Qed.

Lemma number_plain l : string_forallb num_byte l = true ->
  string_forallb (fun a => plain a && negb (Ascii.eqb a quote)) l = true.
Proof.
  induction l as [|a l IH]; [done|]. simpl. intros [Ha Hl]%andb_true_iff.
  by rewrite (proj1 (num_byte_cases a Ha)), IH.
Qed.

(** An array or an object. *)
Lemma array_image d a s b s' vs r :
  a = "["%char -> skip_ws s = String b s' -> elems_image (d + 1) (String b s') vs r ->
  value_image d (String a s) (JArr vs) r.
Proof.
  intros -> Hs (es & _ & Hc & Hk & He & Hd & Hr). exists ("[" +:+ String.concat "," es.*1 +:+ "]"), (JArr es.*2).
  rewrite nesting_array. split_and!; [| |exact (f_equal JArr He)|lia|].
  - rewrite compact_struct, compact_ws, Hs, Hc by done. by rewrite !string_app_assoc.
  - apply kept_app; [by apply kept_struct|]. apply kept_app; [by apply kept_concat|by apply kept_struct].
  - intros d' Hd'. pose proof (deepest_nonneg vs). apply reads_array; [lia|]. apply Hr. lia.
Qed.

Lemma object_image d a s b s' ms r :
  a = "{"%char -> skip_ws s = String b s' -> members_image (d + 1) (String b s') ms r ->
  value_image d (String a s) (JObj ms) r.
Proof.
  intros -> Hs (ts & _ & Hc & Hk & He & Hd & Hr).
  exists ("{" +:+ String.concat "," (map key_text ts) +:+ "}"), (JObj (map read_member ts)).
  rewrite nesting_object. split_and!; [| |exact (f_equal JObj He)|lia|].
  - rewrite compact_struct, compact_ws, Hs, Hc by done. by rewrite !string_app_assoc.
  - apply kept_app; [by apply kept_struct|]. apply kept_app; [by apply kept_concat|by apply kept_struct].
  - intros d' Hd'. pose proof (deepest_nonneg (values ms)). apply reads_object; [lia|]. apply Hr. lia.
Qed.

Lemma compact_value f :
  (forall d s vs r, parse_elems f d s = Some (vs, r) -> d <= maxNestingDepth -> elems_image d s vs r) ->
  (forall d s ms r, parse_members f d s = Some (ms, r) -> d <= maxNestingDepth -> members_image d s ms r) ->
  forall d s v r, parse_value (S f) d s = Some (v, r) -> d <= maxNestingDepth -> value_image d s v r.
Proof.
  intros IHe IHm d s v r H Hd. cbn [parse_value] in H. destruct s as [|a s]; [done|].
  destruct (Ascii.eqb_spec a "{") as [E|_].
  { destruct (Z.leb_spec maxNestingDepth d); [done|]. destruct (skip_ws s) as [|b s'] eqn:Hs; [done|].
    destruct (Ascii.eqb_spec b "}") as [->|_].
    - injection H as <- <-. exists "{}", (JObj []). split_and!; [|by apply (kept_app "{" "}"); apply kept_struct|done|by simpl; lia|].
      + rewrite E, compact_struct, compact_ws, Hs, compact_struct by done. done.
      + intros d' Hd'. simpl in Hd'. apply (reads_object d' []); [lia|done].
    - destruct (parse_members f _ _) as [[ms r']|] eqn:Hm; [|done]. injection H as <- <-.
      eapply object_image; [done|done|]. apply IHm; [done|lia]. }
  destruct (Ascii.eqb_spec a "[") as [E|_].
  { destruct (Z.leb_spec maxNestingDepth d); [done|]. destruct (skip_ws s) as [|b s'] eqn:Hs; [done|].
    destruct (Ascii.eqb_spec b "]") as [->|_].
    - injection H as <- <-. exists "[]", (JArr []). split_and!; [|by apply (kept_app "[" "]"); apply kept_struct|done|by simpl; lia|].
      + rewrite E, compact_struct, compact_ws, Hs, compact_struct by done. done.
      + intros d' Hd'. simpl in Hd'. apply (reads_array d' []); [lia|done].
    - destruct (parse_elems f _ _) as [[vs r']|] eqn:He; [|done]. injection H as <- <-.
      eapply array_image; [done|done|]. apply IHe; [done|lia]. }
  destruct (Ascii.eqb_spec a quote) as [->|_].
  { destruct (parse_string _ _) as [[t r']|] eqn:Hp; [|done]. injection H as <- <-.
    destruct (compact_string _ _ _ _ Hp) as [p Hi]. pose proof Hi as (Hc & Hk & _).
    apply (scalar_image _ _ _ _ (String quote p)); [done|done|by rewrite compact_quoted, Hc|by apply kept_quoted|].
    intros d'. by eapply reads_quoted. }
  repeat match type of H with (if Ascii.eqb a ?c then r ← strip_prefix ?p s; _ else _) = _ =>
    destruct (Ascii.eqb_spec a c) as [->|_];
    [destruct (strip_prefix p s) eqn:Hp; [|done]; injection H as <- <-;
     eapply (literal_image _ (String c p)); [done|done|done|done|exact Hp|]; intros d';
     [exact (reads_bool d' true) || exact (reads_bool d' false) || exact (reads_null d')]|] end.
  destruct (parse_number (String a s)) as [[l r']|] eqn:Hn; [|done]. injection H as <- <-.
  pose proof (parse_number_scans _ _ _ Hn) as (E & Hb & _).
  assert (Hk : kept l) by (intros t; by apply compact_plain, number_plain).
  apply (scalar_image _ _ _ _ l); [done|done| |done|by intros d'; eapply reads_number]. by rewrite E.
Qed.

(** The compact form of a list: an element, a comma and the others. *)
Lemma concat_app sep a l t : l <> [] -> String.concat sep (a :: l) +:+ t = a +:+ sep +:+ (String.concat sep l +:+ t).
Proof. destruct l as [|b l]; [done|]. intros _. rewrite concat_cons. by rewrite !string_app_assoc. Qed.

Lemma compact_elems f :
  (forall d s v r, parse_value f d s = Some (v, r) -> d <= maxNestingDepth -> value_image d s v r) ->
  (forall d s vs r, parse_elems f d s = Some (vs, r) -> d <= maxNestingDepth -> elems_image d s vs r) ->
  forall d s vs r, parse_elems (S f) d s = Some (vs, r) -> d <= maxNestingDepth -> elems_image d s vs r.
Proof.
  intros IHv IHe d s vs r H Hd. cbn [parse_elems] in H.
  destruct (parse_value f d s) as [[v r1]|] eqn:Hv; [|done]. cbn [mbind option_bind] in H.
  destruct (IHv _ _ _ _ Hv Hd) as (c & v' & Hc & Hk & He & Hn & Hr).
  destruct (skip_ws r1) as [|b r2] eqn:Hs; [done|]. destruct (Ascii.eqb_spec b "]") as [->|_].
  { injection H as <- <-. exists [(c, v')]. rewrite deepest_cons. pose proof (nesting_nonneg v).
    split_and!; [done| |by apply Forall_singleton|exact (f_equal (fun x => [x]) He)|by change (deepest []) with 0; lia|].
    - by rewrite Hc, (compact_ws r1), Hs, compact_struct.
    - intros d' Hd'. constructor; [apply Hr; change (deepest []) with 0 in Hd'; lia|done]. }
  destruct (Ascii.eqb_spec b ",") as [->|_]; [|done].
  destruct (parse_elems f d (skip_ws r2)) as [[vs' r3]|] eqn:Hp; [|done]. injection H as <- <-.
  destruct (IHe _ _ _ _ Hp Hd) as (es & Hne & Hc' & Hk' & He' & Hn' & Hr'). exists ((c, v') :: es).
  rewrite deepest_cons. split_and!; [done| |by constructor|exact (f_equal2 cons He He')|lia|].
  - rewrite Hc, (compact_ws r1), Hs, compact_struct, (compact_ws r2), Hc' by done.
    cbn [fmap list_fmap fst]. by rewrite concat_app by (by destruct es).
  - intros d' Hd'. constructor; [apply Hr; lia|apply Hr'; lia].
Qed.

Lemma compact_members f :
  (forall d s v r, parse_value f d s = Some (v, r) -> d <= maxNestingDepth -> value_image d s v r) ->
  (forall d s ms r, parse_members f d s = Some (ms, r) -> d <= maxNestingDepth -> members_image d s ms r) ->
  forall d s ms r, parse_members (S f) d s = Some (ms, r) -> d <= maxNestingDepth -> members_image d s ms r.
Proof.
  intros IHv IHm d s ms r H Hd. cbn [parse_members] in H. destruct s as [|q s]; [done|].
  destruct (Ascii.eqb_spec q quote) as [->|_]; [|done].
  destruct (parse_string _ _) as [[key r0]|] eqn:Hk; [|done]. cbn [mbind option_bind] in H.
  destruct (skip_ws r0) as [|b0 r1] eqn:Hs0; [done|]. destruct (Ascii.eqb_spec b0 ":") as [->|_]; [|done].
  destruct (parse_value f d _) as [[v r2]|] eqn:Hv; [|done]. cbn [mbind option_bind] in H.
  destruct (compact_string _ _ _ _ Hk) as [p (Hck & Hkk & _ & Hrk)].
  destruct (IHv _ _ _ _ Hv Hd) as (c & v' & Hc & Hkc & He & Hn & Hr).
  set (m := ((String quote p, key), (c, v')) : member_text).
  assert (Hm : forall t, compact r2 = t -> compact (String quote s) = key_text m +:+ t).
  { intros t Ht. rewrite compact_quoted, Hck, (compact_ws r0), Hs0, compact_struct, (compact_ws r1), Hc, Ht by done.
    unfold key_text. simpl. by rewrite !string_app_assoc. }
  assert (Hkm : kept (key_text m)).
  { apply (kept_app (String quote p) (":" +:+ c)); [by apply kept_quoted|]. apply kept_app; [by apply kept_struct|done]. }
  assert (Hmr : forall d', d' + nesting v <= maxNestingDepth -> member_reads d' m).
  { intros d' Hd'. split; [by exists p|by apply Hr]. }
  destruct (skip_ws r2) as [|b r3] eqn:Hs; [done|]. destruct (Ascii.eqb_spec b "}") as [->|_].
  { injection H as <- <-. exists [m]. unfold values. simpl map. rewrite deepest_cons. pose proof (nesting_nonneg v).
    change (deepest []) with 0. split_and!; [done| |by apply Forall_singleton|by unfold erase_member, m; simpl; rewrite He|lia|].
    - apply Hm. by rewrite (compact_ws r2), Hs, compact_struct.
    - intros d' Hd'. constructor; [apply Hmr; lia|done]. }
  destruct (Ascii.eqb_spec b ",") as [->|_]; [|done].
  destruct (parse_members f d (skip_ws r3)) as [[ms' r4]|] eqn:Hp; [|done]. injection H as <- <-.
  destruct (IHm _ _ _ _ Hp Hd) as (ts & Hne & Hc' & Hk' & He' & Hn' & Hr'). exists (m :: ts).
  unfold values in *. simpl map in *. rewrite deepest_cons.
  split_and!; [done| |by constructor|by rewrite He'; unfold erase_member, m; simpl; rewrite He|lia|].
  - rewrite concat_app by (by destruct ts). apply Hm.
    by rewrite (compact_ws r2), Hs, compact_struct, (compact_ws r3), Hc'.
  - intros d' Hd'. constructor; [apply Hmr; lia|apply Hr'; lia].
Qed.

Lemma compact_values f :
  (forall d s v r, parse_value f d s = Some (v, r) -> d <= maxNestingDepth -> value_image d s v r) /\
  (forall d s vs r, parse_elems f d s = Some (vs, r) -> d <= maxNestingDepth -> elems_image d s vs r) /\
  (forall d s ms r, parse_members f d s = Some (ms, r) -> d <= maxNestingDepth -> members_image d s ms r).
Proof.
  induction f as [|f (IHv & IHe & IHm)]; [done|].
  split_and!; [by apply compact_value|by apply compact_elems|by apply compact_members].
Qed.

(** ** Documents *)

(** A valid text can be compacted; what it means is read from the compact text
    wherever that stands with room for its nesting. *)
Theorem reads_raw raw v :
  parse_json raw = Some v ->
  exists c v', json_compact raw = Some c /\ erase v' = erase v /\ nesting v <= maxNestingDepth /\
    forall d, d + nesting v <= maxNestingDepth -> reads d c v'.
Proof.
  intros Hp. unfold json_compact, json_Valid. rewrite Hp. unfold parse_json in Hp.
  destruct (parse_value _ 0 (skip_ws raw)) as [[w r]|] eqn:Hv; [|done].
  destruct (skip_ws r) eqn:Hs; [|done]. injection Hp as ->.
  destruct (proj1 (compact_values _) _ _ _ _ Hv) as (c & v' & Hc & _ & He & Hn & Hr); [done|].
  exists c, v'. split_and!; [|done|lia|done]. rewrite compact_ws, Hc, (compact_ws r), Hs. by rewrite string_app_nil_r.
Qed.

Lemma parse_compact raw v :
  parse_json raw = Some v -> exists c v', json_compact raw = Some c /\ parse_json c = Some v' /\ erase v' = erase v.
Proof.
  intros (c & v' & Hc & He & Hn & Hr)%reads_raw. exists c, v'. split_and!; [done|apply parse_json_reads, Hr; lia|done].
Qed.

(** A compact text is its own compact form. *)
Lemma json_compact_compact raw c : json_compact raw = Some c -> json_compact c = Some c.
Proof.
  intros Hc. assert (is_Some (parse_json raw)) as [v Hp]
    by (revert Hc; unfold json_compact, json_Valid; by destruct (parse_json raw)).
  destruct (parse_compact _ _ Hp) as (c' & v' & Hc' & Hp' & _). rewrite Hc in Hc'. injection Hc' as <-.
  unfold json_compact, json_Valid in Hc |- *. rewrite Hp'. rewrite Hp in Hc. injection Hc as Hc. f_equal.
  unfold parse_json in Hp. destruct (parse_value _ 0 (skip_ws raw)) as [[w r]|] eqn:Hv; [|done].
  destruct (skip_ws r) eqn:Hs; [|done].
  destruct (proj1 (compact_values _) _ _ _ _ Hv) as (c1 & v1 & Hc1 & Hk & _); [done|].
  rewrite compact_ws, Hc1, (compact_ws r), Hs, string_app_nil_r in Hc. subst c1.
  specialize (Hk ""). by rewrite !string_app_nil_r in Hk.
Qed.

Lemma json_compact_parses raw c : json_compact raw = Some c -> is_Some (parse_json raw).
Proof. unfold json_compact, json_Valid. by destruct (parse_json raw). Qed.

(** ** Integers *)

Lemma positive_digits p :
  string_forallb is_digit (pretty (Npos p)) = true /\ digits_val 0 (pretty (Npos p)) = Zpos p /\
  exists a r, pretty (Npos p) = String a r /\ Ascii.eqb a "0" = false.
Proof.
  unfold pretty, pretty_N. rewrite decide_False by done.
  destruct (pretty_N_digits (Npos p)) as (Hd & Hv & a & r & Hp & Ha); [done|]. split_and!; [done|by rewrite Hv|].
  exists a, r. split; [done|]. apply Ascii.eqb_neq. by intros ->.
Qed.

Lemma parse_digits sign p rest :
  sign = "" \/ sign = "-" -> not_num rest = true ->
  parse_number ((sign +:+ pretty (Npos p)) +:+ rest) = Some (sign +:+ pretty (Npos p), rest).
Proof.
  intros Hs Hr. destruct (positive_digits p) as (Hd & _ & a & r & Hp & Ha). rewrite Hp in *.
  assert (Hda : is_digit a = true) by (simpl in Hd; by apply andb_true_iff in Hd as [? _]).
  assert (Hsp : span_digits (String a r +:+ rest) = (String a r, rest)).
  { apply span_digits_app; [done|]. eapply not_num_head; [|done]. unfold num_byte. by intros b ->. }
  assert (Hu : unsigned sign (String a r +:+ rest) = Some (sign +:+ String a r, rest)).
  { unfold unsigned, num_int, digits1. rewrite Hsp. cbn [String.append]. rewrite Ha. cbn [mbind option_bind].
    assert (num_frac rest = Some ("", rest)) as ->.
    { destruct rest as [|b rest]; [done|]. simpl. destruct (Ascii.eqb_spec b "."); [by subst|done]. }
    cbn [mbind option_bind]. assert (num_exp rest = Some ("", rest)) as ->; [|cbn [mbind option_bind String.append]; by rewrite string_app_nil_r].
    destruct rest as [|b rest]; [done|]. cbn [num_exp].
    destruct (Ascii.eqb_spec b "e"); [by subst|]. destruct (Ascii.eqb_spec b "E"); [by subst|]. done. }
  destruct Hs as [-> | ->]; [|exact Hu]. unfold parse_number. cbn [String.append] in Hu |- *.
  rewrite (digit_not a "-") by done. exact Hu.
Qed.

(** An integer that is written is read back. *)
Lemma reads_json_int d n : reads d (json_int n) (JNum (pretty n)).
Proof.
  unfold json_int. destruct n as [|p|p].
  - by apply (reads_number d "0" "0" "").
  - apply (reads_number d (pretty (Npos p)) _ ""). pose proof (parse_digits "" p "" (or_introl eq_refl) eq_refl) as Hp.
    by rewrite string_app_nil_r in Hp.
  - apply (reads_number d ("-" +:+ pretty (Npos p)) _ "").
    pose proof (parse_digits "-" p "" (or_intror eq_refl) eq_refl) as Hp. by rewrite string_app_nil_r in Hp.
Qed.

Lemma parse_int_pretty n : parse_int_lit (pretty n) = Some n.
Proof.
  destruct n as [|p|p]; [done| |]; destruct (positive_digits p) as (Hd & Hv & a & r & Hp & Ha); rewrite Hp in *.
  - change (pretty (Zpos p)) with (pretty (Npos p)). rewrite Hp. unfold parse_int_lit.
    assert (is_digit a = true) as Hda by (simpl in Hd; by apply andb_true_iff in Hd as [? _]).
    rewrite (digit_not a "-") by done. by rewrite Hd, Hv.
  - change (pretty (Zneg p)) with ("-" +:+ pretty (Npos p)). rewrite Hp. unfold parse_int_lit. cbn [String.append].
    rewrite Ascii.eqb_refl. by rewrite Hd, Hv.
Qed.
