(* ===== verification/RequestKey.v ===== *)
(** * Request keys

    [CanonicalRequestKey] of pkg/reqmgr/manager.go: the key under which a cloud
    request is tracked and its response cached.  [classify] reads the JSON-RPC
    id (numbers through [big.Rat.SetString], with its limits on exponents);
    [CanonicalRequestKey] formats the key.  The theorem says that two keys
    of sessions without a colon are equal exactly when the session is the same
    and the ids are the same string or the same rational number. *)

From Stdlib Require Import QArith Qreduction Qpower.
From S2P Require Import Prelude Json.
Open Scope Z_scope.

(** ** [math/big] rationals *)

(** The exponent as [strconv.ParseInt] reads it: [None] out of range. *)
Definition np_exponent (n : num_parts) : option Z :=
  match np_exp n with
  | None => Some 0
  | Some (neg, ds) =>
      let e := if neg : bool then - digits_val 0 ds else digits_val 0 ds in
      if (min_int64 <=? e) && (e <=? max_int64) then Some e else None
  end.

Definition rat_max_exp5 : Z := 1000000.

(** [m * 10^e] in lowest terms. *)
Definition rat_scale (m e : Z) : Q :=
  if 0 <=? e then Qred (Qmake (m * 10 ^ e) 1) else Qred (Qmake m (Z.to_pos (10 ^ (- e)))).

(** [new(big.Rat).SetString(lit)] on a JSON number literal. *)
Definition Rat_SetString (lit : string) : option Q :=
  let n := split_number lit in
  e ← np_exponent n;
  if np_mantissa n =? 0 then Some (Qmake 0 1) else
  let exp := e - len (np_frac n) in
  if rat_max_exp5 <? Z.abs exp then None else Some (rat_scale (np_mantissa n) exp).

(** [RatString] of a rational in lowest terms. *)
Definition RatString (q : Q) : string :=
  if Pos.eqb (Qden q) 1 then pretty (Qnum q)
  else pretty (Qnum q) +:+ "/" +:+ pretty (Npos (Qden q)).

(** ** The key *)

Inductive cloud_id :=
| IdAbsent
| IdString (s : string)
| IdNumber (q : Q).

Definition classify (id : string) : result cloud_id :=
  if 256 <? len id then Err (ENew "json-rpc id exceeds maximum length") else
  if (len id =? 0) || String.eqb id "null" then Ok IdAbsent else
  let s := skip_ws id in
  match parse_value (parse_fuel s) 0 s with
  | None => Err (EWrap "invalid json-rpc id: " json_error)
  | Some (v, r) =>
      match skip_ws r with
      | String _ _ => Err (ENew "invalid json-rpc id: trailing content")
      | EmptyString =>
          match v with
          | JStr t => Ok (IdString t)
          | JNum lit =>
              match Rat_SetString lit with
              | Some q => Ok (IdNumber q)
              | None => Err (ENew "invalid json-rpc number")
              end
          | _ => Err (ENew "json-rpc id must be string or number")
          end
      end
  end.

Definition format_key (sessionID : string) (i : cloud_id) : string :=
  match i with
  | IdAbsent => ""
  | IdString s => sessionID +:+ ":s:" +:+ s
  | IdNumber q => sessionID +:+ ":n:" +:+ RatString q
  end.

Definition CanonicalRequestKey (sessionID id : string) : result string :=
  (i <-? classify id; Ok (format_key sessionID i))%go.

Example key_number :
  map (CanonicalRequestKey "sess") ["1"; "1.0"; "10e-1"; "0.001E3"; "-2.50"; "0e9"]
  = map (fun k => Ok ("sess:n:" +:+ k)) ["1"; "1"; "1"; "1"; "-5/2"; "0"].
Proof. vm_compute. reflexivity. Qed.

Example key_string : CanonicalRequestKey "sess" (dq "'a\u0062'") = Ok "sess:s:ab".
Proof. vm_compute. reflexivity. Qed.

Example key_errors :
  map (CanonicalRequestKey "sess") ["null"; "true"; "1 2"; "1e1000001"; "[1]"; "nul"]
  = [Ok ""; Err (ENew "json-rpc id must be string or number");
     Err (ENew "invalid json-rpc id: trailing content"); Err (ENew "invalid json-rpc number");
     Err (ENew "json-rpc id must be string or number"); Err (EWrap "invalid json-rpc id: " json_error)].
Proof. vm_compute. reflexivity. Qed.

(** ** What a key says of its request *)

(** The exact value of a number literal. *)
Definition literal_value (m e : Z) : Q := (inject_Z m * Qpower (inject_Z 10) e)%Q.

Lemma rat_scale_value m e : (rat_scale m e == literal_value m e)%Q.
Proof.
  unfold rat_scale, literal_value. destruct (Z.leb_spec 0 e) as [He|He]; rewrite Qred_correct.
  - rewrite <- Zpower_Qpower by lia. unfold Qeq, inject_Z, Qmult. simpl. lia.
  - rewrite <- (Z.opp_involutive e) at 2. rewrite Qpower_opp, <- Zpower_Qpower by lia.
    assert (0 < 10 ^ (- e)) as Hp by (apply Z.pow_pos_nonneg; lia).
    destruct (10 ^ (- e)) as [|p|p]; try lia.
    unfold Qeq, inject_Z, Qmult, Qinv. simpl. lia.
Qed.

Lemma rat_scale_reduced m e : Qred (rat_scale m e) = rat_scale m e.
Proof. unfold rat_scale. case_match; apply Qred_complete, Qred_correct. Qed.

(** The value of a literal that [SetString] accepts. *)
Definition number_value (lit : string) : Q :=
  let n := split_number lit in
  literal_value (np_mantissa n) (default 0 (np_exponent n) - len (np_frac n)).

Lemma Rat_SetString_value lit q :
  Rat_SetString lit = Some q -> (q == number_value lit)%Q /\ Qred q = q.
Proof.
  unfold Rat_SetString, number_value. destruct (np_exponent _) as [e|]; simpl; [|done].
  destruct (Z.eqb_spec (np_mantissa (split_number lit)) 0) as [->|Hm].
  - intros [= <-]. split; [|done]. unfold literal_value.
    change (inject_Z 0) with 0%Q. by rewrite Qmult_0_l.
  - case_match; [done|]. intros [= <-].
    split; [apply rat_scale_value | apply rat_scale_reduced].
Qed.

Lemma RatString_inj q1 q2 : RatString q1 = RatString q2 -> q1 = q2.
Proof.
  unfold RatString. destruct q1 as [n1 d1], q2 as [n2 d2]. cbn [Qnum Qden].
  assert (Hs : forall n, lacks "/" (pretty (n : Z)) = true) by (intros; by apply lacks_pretty_Z).
  destruct (Pos.eqb_spec d1 1) as [->|], (Pos.eqb_spec d2 1) as [->|].
  - by intros ->%(inj pretty).
  - intros H. pose proof (Hs n1) as Hl. rewrite H, lacks_append in Hl.
    by apply andb_true_iff in Hl as [_ Hl].
  - intros H. pose proof (Hs n2) as Hl. rewrite <- H, lacks_append in Hl.
    by apply andb_true_iff in Hl as [_ Hl].
  - intros H. apply (lacks_split "/") in H as [->%(inj pretty) Hd]; [|done..].
    apply (inj pretty) in Hd. congruence.
Qed.

(** What a request's id denotes: its JSON value, numbers by their exact value. *)
Definition same_request_id (id1 id2 : string) : Prop :=
  match parse_json id1, parse_json id2 with
  | Some (JStr a), Some (JStr b) => a = b
  | Some (JNum a), Some (JNum b) => (number_value a == number_value b)%Q
  | _, _ => False
  end.

Lemma classify_parse id i :
  classify id = Ok i -> i <> IdAbsent ->
  match i with
  | IdAbsent => False
  | IdString s => parse_json id = Some (JStr s)
  | IdNumber q => exists lit, parse_json id = Some (JNum lit) /\
                    (q == number_value lit)%Q /\ Qred q = q
  end.
Proof.
  unfold classify, parse_json. case_match; [done|].
  destruct (_ || _); [by intros [= <-]|].
  destruct (parse_value _ _ _) as [[v r]|]; [|done].
  destruct (skip_ws r); [|done]. destruct v; try done.
  - destruct (Rat_SetString lit) eqn:Hq; [|done]. intros [= <-] _.
    exists lit. split; [done|]. by apply Rat_SetString_value.
  - by intros [= <-].
Qed.

Lemma same_id_iff id1 id2 i1 i2 :
  classify id1 = Ok i1 -> classify id2 = Ok i2 -> i1 <> IdAbsent -> i2 <> IdAbsent ->
  i1 = i2 <-> same_request_id id1 id2.
Proof.
  intros H1 H2 N1 N2.
  pose proof (classify_parse _ _ H1 N1) as P1. pose proof (classify_parse _ _ H2 N2) as P2.
  unfold same_request_id. destruct i1 as [|s1|q1], i2 as [|s2|q2]; try done.
  - rewrite P1, P2. split; [by intros [= ->] | by intros ->].
  - destruct P2 as (lit & -> & _). by rewrite P1.
  - destruct P1 as (lit & -> & _). by rewrite P2.
  - destruct P1 as (l1 & -> & V1 & R1), P2 as (l2 & -> & V2 & R2). split.
    + intros [= ->]. by rewrite <- V1, V2.
    + intros Hv. f_equal. rewrite <- R1, <- R2. apply Qred_complete. by rewrite V1, V2.
Qed.

Lemma format_key_inj s1 s2 i1 i2 :
  lacks ":" s1 = true -> lacks ":" s2 = true -> i1 <> IdAbsent -> i2 <> IdAbsent ->
  format_key s1 i1 = format_key s2 i2 <-> s1 = s2 /\ i1 = i2.
Proof.
  intros L1 L2 N1 N2. split; [|by intros [-> ->]].
  destruct i1, i2; try done; simpl; intros H; apply (lacks_split ":") in H as [-> H]; try done.
  - by injection H as ->.
  - injection H as H. apply RatString_inj in H as ->. done.
Qed.

Lemma format_key_nil s i : lacks ":" s = true -> format_key s i = "" <-> i = IdAbsent.
Proof. intros _. destruct i; simpl; [done|..]; split; try done; by destruct s. Qed.

(** C21: Two requests get the same key exactly when they come from the same
    session and carry the same id: the same decoded string, or numbers of the
    same exact value (1, 1.0 and 10e-1 alike).  A string never meets a number
    and no session sees another's keys (session identifiers have no colon). *)
Theorem request_keys_separate_requests s1 s2 id1 id2 k1 k2 :
  lacks ":" s1 = true -> lacks ":" s2 = true ->
  CanonicalRequestKey s1 id1 = Ok k1 -> CanonicalRequestKey s2 id2 = Ok k2 ->
  k1 <> "" -> k2 <> "" ->
  k1 = k2 <-> s1 = s2 /\ same_request_id id1 id2.
Proof.
  unfold CanonicalRequestKey. intros L1 L2 H1 H2 N1 N2.
  destruct (classify id1) as [i1|] eqn:C1; [|done]. injection H1 as <-.
  destruct (classify id2) as [i2|] eqn:C2; [|done]. injection H2 as <-.
  rewrite (format_key_nil _ _ L1) in N1. rewrite (format_key_nil _ _ L2) in N2.
  rewrite format_key_inj by done. by rewrite (same_id_iff _ _ _ _ C1 C2).
Qed.

Lemma request_keys_separate_requests_witness :
  "sess-1:n:1" = "sess-1:n:1" <-> "sess-1" = "sess-1" /\ same_request_id "1.0" "10e-1".
Proof.
  apply (request_keys_separate_requests "sess-1" "sess-1" "1.0" "10e-1");
    try (vm_compute; reflexivity); done.
Defined.

(** The id of a notification, absent or null, has the empty key. *)
Lemma notification_key s id :
  (len id =? 0) || String.eqb id "null" = true -> CanonicalRequestKey s id = Ok "".
Proof.
  intros H. unfold CanonicalRequestKey, classify. rewrite H.
  apply orb_true_iff in H as [H|H].
  - apply Z.eqb_eq in H. by rewrite H.
  - apply String.eqb_eq in H as ->. done.
Qed.

Lemma key_nonempty s id k :
  CanonicalRequestKey s id = Ok k ->
  k = "" <-> (len id =? 0) || String.eqb id "null" = true.
Proof.
  unfold CanonicalRequestKey, classify. destruct (256 <? len id); [done|].
  destruct (_ || _); [by intros [= <-]|]. intros H.
  destruct (parse_value _ _ _) as [[v r]|]; [|done]. destruct (skip_ws r); [|done].
  destruct v; try done; [destruct (Rat_SetString lit); [|done]|];
    injection H as <-; (split; [by destruct s | done]).
Qed.
