(* ===== verification/Rpc.v ===== *)
(** * JSON-RPC messages

    The JSON-RPC part of pkg/contracts/rpc.go: the request and response
    structures with their [Validate] methods, the identifiers they accept, the
    marshalling of responses, the internal error object and [FormatLogID].

    A [json.RawMessage] is the string of its bytes, empty when nil: the code
    tests raw messages by their length only. *)

From S2P Require Import Prelude Json.

Definition JSONRPCVersion : string := "2.0".
Definition ErrParse : Z := -32700.
Definition ErrInvalidRequest : Z := -32600.
Definition ErrMethodNotFound : Z := -32601.
Definition ErrInvalidParams : Z := -32602.
Definition ErrInternal : Z := -32603.

Definition ErrAppFailure : Z := 1.
Definition ErrTimeout : Z := 2.
Definition ErrServiceUnavailable : Z := 3.
Definition ErrValidationFailed : Z := 4.
Definition ErrRollbackSuccess : Z := 5.
Definition ErrRollbackFailed : Z := 6.

Record JSONRPCRequest := mkRequest {
  req_jsonrpc : string;
  req_method : string;
  req_params : string;
  req_id : string
}.

Record JSONRPCError := mkError {
  err_code : Z;
  err_message : string;
  err_data : string
}.

Record JSONRPCResponse := mkResponse {
  resp_jsonrpc : string;
  resp_result : string;
  resp_error : option JSONRPCError;
  resp_id : string
}.

(** ** Identifiers *)

Definition first_byte (s : string) : Z :=
  match s with EmptyString => -1 | String a _ => byte_val a end.

Definition validateJSONRPCID (id : string) (allowNull : bool) : option error :=
  let trimmed := trim_space id in
  if len trimmed =? 0 then None else
  if negb (json_Valid trimmed) then Some (ENew "id must contain valid JSON") else
  if String.eqb trimmed "null" then
    if allowNull then None else Some (ENew "id cannot be null")
  else
    let c := first_byte trimmed in
    if (c =? 123) || (c =? 91) then Some (ENew "id cannot be an object or array") else
    if (c =? 116) || (c =? 102) then Some (ENew "id cannot be a boolean") else
    if c =? 34 then
      match parse_json trimmed with
      | Some (JStr (String _ _)) => None
      | _ => Some (ENew "id cannot be an empty string")
      end
    else
      match parse_json trimmed with
      | Some (JNum lit) =>
          if float64_in_range lit then None
          else Some (ENew "id must be a valid number without parsing issues")
      | _ => Some (ENew "id must be a valid number without parsing issues")
      end.

Definition ValidResponseID (id : string) : string :=
  if (0 <? len id) && match validateJSONRPCID id true with None => true | Some _ => false end
  then id else "null".

(** ** Requests *)

Definition JSONRPCRequest_Validate (r : JSONRPCRequest) : option error :=
  if negb (String.eqb (req_jsonrpc r) JSONRPCVersion) then
    Some (ENew (dq "invalid jsonrpc version, must be '2.0'"))
  else if String.eqb (req_method r) "" then Some (ENew "method must be specified")
  else
    match (if 0 <? len (req_id r) then validateJSONRPCID (req_id r) false else None) with
    | Some e => Some e
    | None =>
        if 0 <? len (req_params r) then
          let trimmedParams := trim_space (req_params r) in
          if negb (json_Valid trimmedParams) then Some (ENew "params must contain valid JSON") else
          if String.eqb trimmedParams "null" then
            Some (ENew "params must be an object or array if present, not null") else
          let c := first_byte trimmedParams in
          if negb (c =? 123) && negb (c =? 91) then
            Some (ENew "params must be an object or array") else None
        else None
    end.

Definition request_fields : list string := ["jsonrpc"; "method"; "params"; "id"].

(** [json.Unmarshal(frame, &rpcReq)]. *)
Definition decode_request (frame : string) : result JSONRPCRequest :=
  match parse_json frame with
  | None => Err json_error
  | Some v =>
      match struct_members v with
      | None => Err json_error
      | Some ms =>
          let get := assigned request_fields in
          let '(version, b1) := decode_field dec_string "" (get "jsonrpc" ms) in
          let '(method, b2) := decode_field dec_string "" (get "method" ms) in
          let '(params, _) := decode_field dec_raw "" (get "params" ms) in
          let '(id, _) := decode_field dec_raw "" (get "id" ms) in
          if b1 || b2 then Err json_error else Ok (mkRequest version method params id)
      end
  end.

(** ** Responses *)

Definition default_result : string := dq "{'status':{'error':0,'text':'Success'}}".

(** A raw message with [omitempty]. *)
Definition opt_raw (name raw : string) : option (option (string * string)) :=
  if len raw =? 0 then Some None
  else match json_compact raw with Some c => Some (Some (name, c)) | None => None end.

Definition marshal_error_object (e : JSONRPCError) : option string :=
  data ← opt_raw "data" (err_data e);
  Some (json_object [Some ("code", json_int (err_code e));
                     Some ("message", json_string (err_message e)); data]).

(** [JSONRPCResponse.MarshalJSON]; [None] is the error of an invalid raw
    message. *)
Definition MarshalJSON (r : JSONRPCResponse) : option string :=
  let '(res, error_) :=
    match resp_error r with
    | Some e => ("", Some e)
    | None => (if len (resp_result r) =? 0 then default_result else resp_result r, None)
    end in
  let id := if len (resp_id r) =? 0 then "null" else resp_id r in
  res ← opt_raw "result" res;
  err ← match error_ with
        | Some e => o ← marshal_error_object e; Some (Some ("error", o))
        | None => Some None
        end;
  id ← json_compact id;
  Some (json_object [Some ("jsonrpc", json_string (resp_jsonrpc r)); res; err; Some ("id", id)]).

(** [json.Marshal] of a response compacts what [MarshalJSON] returned once
    more, and refuses a text nested too deep. *)
Definition json_Marshal_response (r : JSONRPCResponse) : option string :=
  t ← MarshalJSON r; json_compact t.

Definition JSONRPCResponse_Validate (r : JSONRPCResponse) : option error :=
  if negb (String.eqb (resp_jsonrpc r) JSONRPCVersion) then
    Some (ENew (dq "invalid jsonrpc version, must be '2.0'"))
  else if len (resp_id r) =? 0 then Some (ENew "id is required in JSON-RPC responses")
  else
    let hasError := match resp_error r with Some _ => true | None => false end in
    let allowNullID := match resp_error r with
                       | Some e => (err_code e =? ErrParse) || (err_code e =? ErrInvalidRequest)
                       | None => false end in
    match validateJSONRPCID (resp_id r) allowNullID with
    | Some e => Some e
    | None =>
        let hasResult := 0 <? len (resp_result r) in
        if hasResult && negb (json_Valid (resp_result r)) then
          Some (ENew "result must contain valid JSON")
        else if hasResult && hasError then
          Some (ENew "response cannot contain both result and error")
        else if negb hasResult && negb hasError then
          Some (ENew "response must contain either result or error")
        else if len (resp_id r) =? 0 then Some (ENew "id must be included in the response")
        else None
    end.

(** ** Internal errors and logging *)

Definition NewInternalJSONRPCError (appCode : Z) (message : string) : result JSONRPCError :=
  if existsb (Z.eqb appCode) [ErrAppFailure; ErrTimeout; ErrServiceUnavailable;
                              ErrValidationFailed; ErrRollbackSuccess; ErrRollbackFailed]
  then Ok (mkError ErrInternal message
             (json_object [Some ("application_code", json_int appCode)]))
  else Err (ENew ("unsupported application code: " +:+ pretty appCode)).

Definition FormatLogID (id : string) : string :=
  if len id =? 0 then "null" else
  if 128 <? len id then String.substring 0 128 id +:+ "...(truncated)" else id.

Example marshal_timeout :
  json_Marshal_response (mkResponse "2.0" "" (match NewInternalJSONRPCError ErrTimeout "late" with
                                    | Ok e => Some e | Err _ => None end) "7")
  = Some (dq "{'jsonrpc':'2.0','error':{'code':-32603,'message':'late','data':{'application_code':2}},'id':7}").
Proof. vm_compute. reflexivity. Qed.

Example marshal_default :
  json_Marshal_response (mkResponse "2.0" "" None "")
  = Some (dq "{'jsonrpc':'2.0','result':{'status':{'error':0,'text':'Success'}},'id':null}").
Proof. vm_compute. reflexivity. Qed.

Example decode_ex :
  decode_request (dq " {'jsonrpc':'2.0','METHOD':'ping','id': 4.0 ,'extra':[]}")
  = Ok (mkRequest "2.0" "ping" "" "4.0").
Proof. vm_compute. reflexivity. Qed.

(** ** What an identifier may be *)

Lemma trim_space_no_ws s : skip_ws (trim_space s) = trim_space s.
Proof.
  destruct (trim_space s) as [|a r] eqn:H; [done|]. apply trim_space_head in H. simpl.
  destruct (is_ws a) eqn:Hw; [|done]. destruct H. unfold is_ws in Hw.
  repeat setoid_rewrite orb_true_iff in Hw.
  destruct Hw as [[[->%Z.eqb_eq| ->%Z.eqb_eq]| ->%Z.eqb_eq]| ->%Z.eqb_eq];
    apply (bool_decide_unpack _); by vm_compute.
Qed.

Lemma byte_val_inj a b : byte_val a = byte_val b -> a = b.
Proof.
  unfold byte_val. intros H%N2Z.inj.
  by rewrite <- (ascii_N_embedding a), <- (ascii_N_embedding b), H.
Qed.

(** The kind of a value is decided by its first byte. *)
Definition kind_byte (v : jval) (c : Z) : Prop :=
  match v with
  | JObj _ => c = 123
  | JArr _ => c = 91
  | JStr _ => c = 34
  | JBool _ => c = 116 \/ c = 102
  | JNull => c = 110
  | JNum _ => c = 45 \/ 48 <= c <= 57
  end.

Lemma digit_byte a : is_digit a = true -> 48 <= byte_val a <= 57.
Proof. unfold is_digit. rewrite andb_true_iff. lia. Qed.

Lemma parse_number_byte a s l r :
  parse_number (String a s) = Some (l, r) -> byte_val a = 45 \/ 48 <= byte_val a <= 57.
Proof.
  unfold parse_number. destruct (Ascii.eqb_spec a "-") as [->|]; [by left|]. intros H. right.
  destruct (num_int (String a s)) as [[i r1]|] eqn:Hi; [|done]. clear H.
  unfold num_int in Hi. destruct (Ascii.eqb_spec a "0") as [->|]; [done|].
  unfold digits1 in Hi. cbn [span_digits] in Hi.
  destruct (is_digit a) eqn:Hd; [|done]. by apply digit_byte.
Qed.

Lemma parse_value_kind fuel d a s v r :
  parse_value fuel d (String a s) = Some (v, r) -> kind_byte v (byte_val a).
Proof.
  destruct fuel as [|fuel]; [done|]. cbn [parse_value].
  destruct (Ascii.eqb_spec a "{") as [->|N1].
  { case_match; [done|]. destruct (skip_ws s) as [|b s']; [done|].
    case_match; [by intros [= <- _]|].
    destruct (parse_members _ _ _) as [[ms r']|]; [|done]. by intros [= <- _]. }
  destruct (Ascii.eqb_spec a "[") as [->|N2].
  { case_match; [done|]. destruct (skip_ws s) as [|b s']; [done|].
    case_match; [by intros [= <- _]|].
    destruct (parse_elems _ _ _) as [[ms r']|]; [|done]. by intros [= <- _]. }
  destruct (Ascii.eqb_spec a quote) as [->|N3].
  { destruct (parse_string _ _) as [[t r']|]; [|done]. by intros [= <- _]. }
  destruct (Ascii.eqb_spec a "t") as [->|N4].
  { destruct (strip_prefix _ _); [|done]. intros [= <- _]. by left. }
  destruct (Ascii.eqb_spec a "f") as [->|N5].
  { destruct (strip_prefix _ _); [|done]. intros [= <- _]. by right. }
  destruct (Ascii.eqb_spec a "n") as [->|N6].
  { destruct (strip_prefix _ _); [|done]. by intros [= <- _]. }
  destruct (parse_number _) as [[l r']|] eqn:Hn; [|done]. intros [= <- _].
  by apply parse_number_byte in Hn.
Qed.

Lemma parse_json_trimmed_kind s v :
  parse_json (trim_space s) = Some v -> kind_byte v (first_byte (trim_space s)).
Proof.
  unfold parse_json. rewrite trim_space_no_ws. destruct (trim_space s) as [|a r]; [done|].
  destruct (parse_value _ _ _) as [[v' r']|] eqn:H; [|done]. destruct (skip_ws r'); [|done].
  intros [= <-]. by apply parse_value_kind in H.
Qed.

(** An identifier the protocol admits: a non-empty string or a number in the
    range of a double; null only where an error response permits it. *)
Definition admissible_id (allowNull : bool) (id : string) : Prop :=
  let t := trim_space id in
  (allowNull = true /\ t = "null") \/
  (exists s, parse_json t = Some (JStr s) /\ s <> "") \/
  (exists lit, parse_json t = Some (JNum lit) /\ float64_in_range lit = true).

Ltac eqb_consts := repeat match goal with
  | |- context [(?c =? ?k)] => destruct (Z.eqb_spec c k); [lia|]; simpl
  end.

(** Apart from a blank one, an identifier passes [validateJSONRPCID]
    exactly when it is a JSON string other than the empty one or a number that
    fits a double, null being admitted only where the caller allows it;
    objects, arrays, booleans and malformed texts are refused. *)
Theorem validateJSONRPCID_admissible id allowNull :
  validateJSONRPCID id allowNull = None <-> trim_space id = "" \/ admissible_id allowNull id.
Proof.
  unfold validateJSONRPCID, admissible_id, json_Valid.
  pose proof (parse_json_trimmed_kind id) as Hkind. destruct (trim_space id) as [|a r] eqn:Ht; [tauto|].
  set (t := String a r) in *. change (first_byte t) with (byte_val a) in *.
  assert ((len t =? 0) = false) as -> by (apply Z.eqb_neq; unfold len; simpl; lia).
  destruct (parse_json t) as [v|] eqn:Hp; cbn [negb].
  - specialize (Hkind v eq_refl). destruct (String.eqb_spec t "null") as [Hn|Hn].
    { rewrite Hn in *. destruct allowNull; split; intros H; try done; [by right; left|].
      destruct H as [|[[]|[(s & H & _)|(l & H & _)]]]; try done; vm_compute in Hp; congruence. }
    assert (Hrefused : (forall s, v = JStr s -> s = "") ->
              (forall l, v = JNum l -> float64_in_range l = false) ->
              ~ (t = "" \/ allowNull = true /\ t = "null" \/
                 (exists s, Some v = Some (JStr s) /\ s <> "") \/
                 (exists l, Some v = Some (JNum l) /\ float64_in_range l = true))).
    { intros Hs Hl [|[[]|[(s & [= ->] & Hne)|(l & [= ->] & Hr)]]]; try done.
      - by apply Hne, Hs.
      - specialize (Hl l eq_refl). congruence. }
    destruct v; simpl in Hkind; try (rewrite Hkind; simpl; split; [done|]; intros H; by destruct Hrefused).
    + destruct Hkind as [-> | ->]; simpl; (split; [done|]; intros H; by destruct Hrefused).
    + eqb_consts. destruct (float64_in_range lit) eqn:Hf; (split; [intros ?|]); try done.
      * right. right. right. by exists lit.
      * intros H. destruct Hrefused; [done| by intros l [= <-] | done].
    + rewrite Hkind. simpl. destruct s; (split; [intros ?|]); try done.
      * intros H. destruct Hrefused; [by intros s [= <-] | done | done].
      * right. right. left. by eexists.
  - split; [done|]. intros [|[[_ Hn]|[(s & H & _)|(l & H & _)]]]; try done.
    by rewrite Hn in Hp.
Qed.

(** The identifier put on an error response is itself acceptable. *)
Lemma ValidResponseID_valid id :
  validateJSONRPCID (ValidResponseID id) true = None /\ ValidResponseID id <> "".
Proof.
  unfold ValidResponseID. destruct (Z.ltb_spec 0 (len id)); simpl; [|done].
  destruct (validateJSONRPCID id true) eqn:Hv; simpl; [done|]. split; [done|].
  intros ->. done.
Qed.
