(* ===== verification/Responses.v ===== *)
(** * Responses as the cloud reads them

    What a client of JSON-RPC 2.0 finds in a marshalled response
    ([read_response]) is what was put into it ([response_read]): its id, and
    either the result or the error, never both.  A response is marshalled
    whenever its raw messages are valid and not nested too deep
    ([response_marshals]).

    The identifiers of requests come out of frames, where one level is spent on
    the request itself: a response that carries one is not too deep for it
    ([raw_field_fits]). *)

From S2P Require Import Prelude Json JsonRaw JsonRoundTrip JsonIds JsonCompact Rpc.

(** ** What is read *)

Inductive outcome :=
| OResult (result : jval)
| OError (code : Z) (message : string) (data : option jval).

Definition read_error (v : jval) : option outcome :=
  match v with
  | JObj ((k1, (_, JNum lit)) :: (k2, (_, JStr message)) :: rest) =>
      if String.eqb k1 "code" && String.eqb k2 "message" then
        code ← parse_int_lit lit;
        match rest with
        | [] => Some (OError code message None)
        | [(k3, (_, data))] => if String.eqb k3 "data" then Some (OError code message (Some data)) else None
        | _ => None
        end
      else None
  | _ => None
  end.

(** The id and the outcome in an object with the members of a response. *)
Definition read_content (v : jval) : option (jval * outcome) :=
  match erase v with
  | JObj [(k1, (_, JStr version)); (k2, (_, body)); (k3, (_, id))] =>
      if String.eqb k1 "jsonrpc" && String.eqb version JSONRPCVersion && String.eqb k3 "id" then
        if String.eqb k2 "result" then Some (id, OResult body) else
        if String.eqb k2 "error" then out ← read_error body; Some (id, out) else None
      else None
  | _ => None
  end.

Definition read_response (payload : string) : option (jval * outcome) :=
  v ← parse_json payload; read_content v.

(** ** What was put in *)

(** The value of a raw message, without the spelling of its parts. *)
Definition denotes (raw : string) : option jval := erase <$> parse_json raw.

Definition error_content (e : JSONRPCError) : option outcome :=
  let message := to_valid (err_message e) in
  if len (err_data e) =? 0 then Some (OError (err_code e) message None)
  else data ← denotes (err_data e); Some (OError (err_code e) message (Some data)).

Definition response_content (r : JSONRPCResponse) : option (jval * outcome) :=
  id ← denotes (if len (resp_id r) =? 0 then "null" else resp_id r);
  out ← match resp_error r with
        | Some e => error_content e
        | None => OResult <$> denotes (if len (resp_result r) =? 0 then default_result else resp_result r)
        end;
  Some (id, out).

(** ** Raw messages *)

Lemma nesting_erase v : nesting (erase v) = nesting v.
Proof.
  induction v as [| | | |l IH|l IH] using jval_ind; try done; cbn [nesting erase]; rewrite map_map; do 2 f_equal;
    apply map_ext_Forall; eapply Forall_impl; [exact IH| |exact IH|]; done.
Qed.

(** How deep a raw message is nested. *)
Definition raw_depth (raw : string) : Z := match parse_json raw with Some v => nesting v | None => 0 end.

(** The compact form of a raw message, with what it says. *)
Definition raw_reads (raw c : string) (v : jval) : Prop :=
  denotes raw = Some (erase v) /\ nesting v = raw_depth raw /\
  forall d, d + nesting v <= maxNestingDepth -> reads d c v.

Lemma raw_reads_compact raw c : json_compact raw = Some c -> exists v, raw_reads raw c v.
Proof.
  intros Hc. destruct (json_compact_parses _ _ Hc) as [v Hv].
  destruct (reads_raw _ _ Hv) as (c' & v' & Hc' & He & _ & Hr). rewrite Hc in Hc'. injection Hc' as <-.
  assert (nesting v' = nesting v) as Hn by (by rewrite <- nesting_erase, He, nesting_erase).
  exists v'. unfold raw_reads, denotes, raw_depth. rewrite Hv, Hn. split_and!; [by cbn; rewrite He|done|exact Hr].
Qed.

(** A member the encoder writes, read at every depth with room for it. *)
Definition member_room (m : string * (string * jval)) : Prop :=
  utf8 m.1 = true /\ forall d, d + nesting m.2.2 <= maxNestingDepth -> reads d m.2.1 m.2.2.

Lemma reads_members ms d :
  Forall member_room ms -> d + nesting (JObj ms) <= maxNestingDepth ->
  reads d (json_object (map (fun m => Some (member_of m)) ms)) (JObj ms).
Proof.
  rewrite nesting_object. intros HF Hd. pose proof (deepest_nonneg (values ms)). apply reads_json_object; [lia|].
  clear H. revert Hd. induction HF as [|m ms [Hu Hr] _ IH]; [constructor|]. unfold values. simpl map.
  rewrite deepest_cons. intros Hd. constructor; [split; [done|apply Hr; lia]|apply IH; unfold values; lia].
Qed.

Lemma string_room k s : utf8 k = true -> member_room (k, (json_string s, JStr (to_valid s))).
Proof. intros Hk. split; [done|]. intros d _. apply reads_json_string. Qed.

Lemma raw_room k raw c v : utf8 k = true -> raw_reads raw c v -> member_room (k, (c, v)).
Proof. intros Hk (_ & _ & Hr). by split. Qed.

(** ** The parts of a response *)

Definition error_depth (e : JSONRPCError) : Z := 1 + raw_depth (err_data e).

Lemma raw_depth_nonneg raw : 0 <= raw_depth raw.
Proof. unfold raw_depth. destruct (parse_json raw); [apply nesting_nonneg|done]. Qed.

Lemma len_zero s : (len s =? 0) = true -> s = "".
Proof. destruct s; [done|]. unfold len. cbn [String.length]. intros H%Z.eqb_eq. lia. Qed.

Lemma error_reads e t :
  marshal_error_object e = Some t -> exists v out,
    error_content e = Some out /\ read_error (erase v) = Some out /\ nesting v = error_depth e /\
    forall d, d + nesting v <= maxNestingDepth -> reads d t v.
Proof.
  unfold marshal_error_object, opt_raw, error_content, error_depth.
  pose proof (raw_depth_nonneg (err_data e)) as Hd0.
  set (code := ("code", (json_int (err_code e), JNum (pretty (err_code e))))).
  set (msg := ("message", (json_string (err_message e), JStr (to_valid (err_message e))))).
  assert (member_room code) as Hcode by (split; [done|intros d _; apply reads_json_int]).
  assert (member_room msg) as Hmsg by (by apply string_room).
  destruct (len (err_data e) =? 0) eqn:Hl; [|destruct (json_compact (err_data e)) as [c|] eqn:Hc; [|done]];
    cbn [mbind option_bind]; intros [= <-].
  - exists (JObj [code; msg]), (OError (err_code e) (to_valid (err_message e)) None).
    split_and!; [done| |by rewrite (len_zero _ Hl)|].
    + simpl. by rewrite parse_int_pretty.
    + intros d Hd. refine (reads_members [code; msg] d _ Hd). by rewrite !Forall_cons, Forall_nil.
  - destruct (raw_reads_compact _ _ Hc) as (v & Hr). pose proof Hr as (Hden & Hn & _).
    exists (JObj [code; msg; ("data", (c, v))]), (OError (err_code e) (to_valid (err_message e)) (Some (erase v))).
    split_and!; [by rewrite Hden| |rewrite <- Hn; rewrite <- Hn in Hd0; simpl; lia|].
    + simpl. by rewrite parse_int_pretty.
    + intros d Hd. refine (reads_members [code; msg; ("data", (c, v))] d _ Hd).
      rewrite !Forall_cons, Forall_nil; split_and!; try done. by eapply raw_room.
Qed.

(** The raw messages a response is made of, when none is given. *)
Definition shown_id (r : JSONRPCResponse) : string := if len (resp_id r) =? 0 then "null" else resp_id r.
Definition shown_result (r : JSONRPCResponse) : string :=
  if len (resp_result r) =? 0 then default_result else resp_result r.

(** How deep a response is nested. *)
Definition response_depth (r : JSONRPCResponse) : Z :=
  1 + Z.max (raw_depth (shown_id r))
        (match resp_error r with Some e => error_depth e | None => raw_depth (shown_result r) end).

Lemma MarshalJSON_reads r t :
  MarshalJSON r = Some t -> resp_jsonrpc r = JSONRPCVersion -> exists v x,
    response_content r = Some x /\ read_content v = Some x /\ nesting v = response_depth r /\
    forall d, d + nesting v <= maxNestingDepth -> reads d t v.
Proof.
  intros H Hver. unfold MarshalJSON in H. rewrite Hver in H. unfold response_content, response_depth.
  fold (shown_id r) in H |- *. set (id := shown_id r) in *.
  pose proof (string_room "jsonrpc" JSONRPCVersion eq_refl) as Hv0.
  set (version := ("jsonrpc", (json_string JSONRPCVersion, JStr (to_valid JSONRPCVersion)))) in *.
  destruct (resp_error r) as [e|].
  - cbn [mbind option_bind] in H. change (opt_raw "result" "") with (Some (@None (string * string))) in H.
    cbn [mbind option_bind] in H. destruct (marshal_error_object e) as [o|] eqn:He; [|done]. cbn [mbind option_bind] in H.
    destruct (json_compact id) as [ci|] eqn:Hi; [|done]. injection H as <-.
    destruct (raw_reads_compact _ _ Hi) as (vi & Hri). pose proof Hri as (Hdi & Hni & _).
    destruct (error_reads _ _ He) as (ve & out & Hout & Hre & Hne & Hrd).
    exists (JObj [version; ("error", (o, ve)); ("id", (ci, vi))]), (erase vi, out). split_and!.
    + by rewrite Hdi, Hout.
    + unfold read_content. cbn [erase map fst snd version]. cbn. by rewrite Hre.
    + rewrite nesting_object. unfold values. simpl map. rewrite !deepest_cons.
      change (deepest []) with 0. pose proof (nesting_nonneg ve). simpl nesting at 1. lia.
    + intros d Hd. refine (reads_members [version; ("error", (o, ve)); ("id", (ci, vi))] d _ Hd).
      rewrite !Forall_cons, Forall_nil; split_and!; try done. by eapply raw_room.
  - fold (shown_result r) in H |- *. set (res := shown_result r) in *.
    assert (len res <> 0) as Hl by (unfold res, shown_result; by destruct (Z.eqb_spec (len (resp_result r)) 0)).
    unfold opt_raw in H. destruct (Z.eqb_spec (len res) 0); [done|].
    destruct (json_compact res) as [c|] eqn:Hc; [|done]. cbn [mbind option_bind] in H.
    destruct (json_compact id) as [ci|] eqn:Hi; [|done]. injection H as <-.
    destruct (raw_reads_compact _ _ Hi) as (vi & Hri). pose proof Hri as (Hdi & Hni & _).
    destruct (raw_reads_compact _ _ Hc) as (vr & Hrr). pose proof Hrr as (Hdr & Hnr & _).
    exists (JObj [version; ("result", (c, vr)); ("id", (ci, vi))]), (erase vi, OResult (erase vr)). split_and!.
    + by rewrite Hdi, Hdr.
    + done.
    + rewrite nesting_object. unfold values. simpl map. rewrite !deepest_cons. change (deepest []) with 0.
      pose proof (nesting_nonneg vr). simpl nesting at 1. lia.
    + intros d Hd. refine (reads_members [version; ("result", (c, vr)); ("id", (ci, vi))] d _ Hd).
      rewrite !Forall_cons, Forall_nil; split_and!; try done; by eapply raw_room.
Qed.

(** ** Marshalled responses *)

Lemma trunc_0 s : trunc 0 s = s.
Proof. induction s as [|a s IH]; [done|]. rewrite trunc_cons by lia. by rewrite IH. Qed.

(** What is read from a valid text at some depth is what the text says, and
    was not nested too deep. *)
Lemma reads_parse d t v : reads d t v -> d <= 0 -> json_Valid t = true -> parse_json t = Some v /\ nesting v <= maxNestingDepth.
Proof.
  intros (Hs & Hne & Hr) Hd Hv. unfold json_Valid in Hv. destruct (parse_json t) as [w|] eqn:Hp; [|done].
  unfold parse_json in Hp. rewrite Hs in Hp. destruct (parse_value (parse_fuel t) 0 t) as [[w' r]|] eqn:Hw; [|done].
  destruct (proj1 (compact_values _) _ _ _ _ Hw) as (c & v' & _ & _ & He & Hn & _); [done|].
  destruct (skip_ws r) eqn:Hsr; [|done]. injection Hp as <-.
  apply (proj1 (parse_trunc 0 (parse_fuel t)) (parse_fuel t) 0 d) in Hw; [|lia|unfold parse_fuel; lia|done].
  rewrite !trunc_0 in Hw. specialize (Hr (parse_fuel t) "" ltac:(rewrite string_app_nil_r; unfold parse_fuel; lia) I).
  rewrite string_app_nil_r, Hw in Hr. injection Hr as -> _. split; [done|lia].
Qed.

Lemma read_content_erase v w : erase v = erase w -> read_content v = read_content w.
Proof. unfold read_content. by intros ->. Qed.

(** Whatever response is marshalled, the cloud reads from it what was put in:
    the id and one of result and error. *)
Lemma response_read r p :
  resp_jsonrpc r = JSONRPCVersion -> json_Marshal_response r = Some p ->
  exists x, response_content r = Some x /\ read_response p = Some x.
Proof.
  intros Hver. unfold json_Marshal_response. destruct (MarshalJSON r) as [t|] eqn:Ht; [|done]. cbn [mbind option_bind].
  intros Hp. destruct (MarshalJSON_reads _ _ Ht Hver) as (v & x & Hx & Hc & _ & Hr). exists x. split; [done|].
  assert (parse_json t = Some v) as Hv.
  { apply (reads_parse (Z.min 0 (maxNestingDepth - nesting v))); [apply Hr; lia|lia|].
    unfold json_compact in Hp. by destruct (json_Valid t). }
  destruct (parse_compact _ _ Hv) as (c & v' & Hcp & Hv' & He). rewrite Hp in Hcp. injection Hcp as <-.
  unfold read_response. rewrite Hv'. cbn [mbind option_bind]. by rewrite (read_content_erase _ _ He).
Qed.

(** A raw message that leaves [n] levels to what is around it. *)
Definition raw_fits (n : Z) (raw : string) : Prop :=
  raw = "" \/ exists v, parse_json raw = Some v /\ nesting v + n <= maxNestingDepth.

Lemma raw_fits_depth n raw : n <= maxNestingDepth -> raw_fits n raw -> raw_depth raw + n <= maxNestingDepth.
Proof. unfold raw_depth. intros Hn [->|(v & -> & Hv)]; [|done]. assert (parse_json "" = None) as -> by done. lia. Qed.

Lemma raw_fits_compact n raw : raw_fits n raw -> raw <> "" -> is_Some (json_compact raw).
Proof.
  intros [->|(v & Hv & _)] Hne; [done|]. unfold json_compact, json_Valid. rewrite Hv. by eexists.
Qed.

Lemma opt_raw_fits n name raw : raw_fits n raw -> is_Some (opt_raw name raw).
Proof.
  intros Hf. unfold opt_raw. destruct (len raw =? 0) eqn:Hl; [by eexists|].
  destruct (raw_fits_compact n raw Hf) as [c ->]; [by intros ->|]. by eexists.
Qed.

(** What stands for a missing raw message leaves room enough. *)
Lemma shown_fits default raw :
  raw_fits 1 raw -> (match parse_json default with Some v => nesting v + 1 <=? maxNestingDepth | None => false end) = true ->
  raw_fits 1 (if len raw =? 0 then default else raw).
Proof.
  intros Hraw Hd. destruct (len raw =? 0); [|done]. right. destruct (parse_json default) as [v|]; [|done].
  exists v. split; [done|]. by apply Z.leb_le.
Qed.

Lemma compact_fits n raw c : json_compact raw = Some c -> raw_depth raw + n <= maxNestingDepth -> raw_fits n raw.
Proof.
  unfold raw_depth. intros Hc Hd. destruct (json_compact_parses _ _ Hc) as [v Hv]. rewrite Hv in Hd. right. by exists v.
Qed.

(** A response with valid parts that are not nested too deep is marshalled. *)
Definition response_fits (r : JSONRPCResponse) : Prop :=
  resp_jsonrpc r = JSONRPCVersion /\ raw_fits 1 (resp_id r) /\
  match resp_error r with Some e => raw_fits 2 (err_data e) | None => raw_fits 1 (resp_result r) end.

Lemma response_marshals r : response_fits r -> is_Some (json_Marshal_response r).
Proof.
  intros (Hver & Hid & Hb). unfold json_Marshal_response.
  assert (is_Some (MarshalJSON r)) as [t Ht].
  { unfold MarshalJSON. set (id := if len (resp_id r) =? 0 then "null" else resp_id r).
    assert (is_Some (json_compact id)) as [ci Hci].
    { unfold id. destruct (len (resp_id r) =? 0) eqn:Hl; [by eexists|]. apply (raw_fits_compact 1); [done|].
      by intros E; rewrite E in Hl. }
    destruct (resp_error r) as [e|].
    - change (opt_raw "result" "") with (Some (@None (string * string))). cbn [mbind option_bind].
      unfold marshal_error_object. destruct (opt_raw_fits 2 "data" _ Hb) as [d ->]. cbn [mbind option_bind].
      rewrite Hci. by eexists.
    - set (res := if len (resp_result r) =? 0 then default_result else resp_result r).
      assert (is_Some (opt_raw "result" res)) as [d ->].
      { unfold res. destruct (len (resp_result r) =? 0); [by eexists|]. by apply (opt_raw_fits 1). }
      cbn [mbind option_bind]. rewrite Hci. by eexists. }
  rewrite Ht. destruct (MarshalJSON_reads _ _ Ht Hver) as (v & x & _ & _ & Hn & Hr).
  assert (nesting v <= maxNestingDepth) as Hd.
  { rewrite Hn. unfold response_depth. pose proof (raw_fits_depth 1 _ ltac:(done) (shown_fits "null" _ Hid eq_refl)) as H1.
    change (raw_depth (shown_id r) + 1 <= maxNestingDepth) in H1. destruct (resp_error r) as [e|].
    - unfold error_depth. pose proof (raw_fits_depth 2 _ ltac:(done) Hb). lia.
    - pose proof (raw_fits_depth 1 _ ltac:(done) (shown_fits default_result _ Hb eq_refl)) as H2.
      change (raw_depth (shown_result r) + 1 <= maxNestingDepth) in H2. lia. }
  assert (parse_json t = Some v) as Hv by (by apply parse_json_reads, Hr).
  cbn [mbind option_bind]. unfold json_compact, json_Valid. rewrite Hv. by eexists.
Qed.

(** And no other. *)
Lemma marshalled_fits r p :
  resp_jsonrpc r = JSONRPCVersion -> json_Marshal_response r = Some p -> response_fits r.
Proof.
  intros Hver. unfold json_Marshal_response. destruct (MarshalJSON r) as [t|] eqn:Ht; [|done]. cbn [mbind option_bind].
  intros Hp. destruct (MarshalJSON_reads _ _ Ht Hver) as (v & x & _ & _ & Hn & Hr).
  assert (nesting v <= maxNestingDepth) as Hd.
  { apply (reads_parse (Z.min 0 (maxNestingDepth - nesting v)) t); [apply Hr; lia|lia|].
    unfold json_compact in Hp. by destruct (json_Valid t). }
  rewrite Hn in Hd. unfold response_depth in Hd. split; [done|]. unfold MarshalJSON in Ht.
  fold (shown_id r) (shown_result r) in Ht. rewrite Hver in Ht.
  assert (forall id ci, json_compact (shown_id r) = ci -> id = resp_id r -> is_Some ci -> raw_fits 1 id) as Hid.
  { intros id ci Hc -> [c ->]. destruct (len (resp_id r) =? 0) eqn:Hl; [left; by apply len_zero|].
    unfold shown_id in Hc, Hd. rewrite Hl in Hc, Hd. eapply compact_fits; [exact Hc|lia]. }
  destruct (resp_error r) as [e|].
  - change (opt_raw "result" "") with (Some (@None (string * string))) in Ht. cbn [mbind option_bind] in Ht.
    destruct (marshal_error_object e) as [o|] eqn:He; [|done]. cbn [mbind option_bind] in Ht.
    destruct (json_compact (shown_id r)) as [ci|] eqn:Hi; [|done]. split; [by eapply Hid|].
    unfold marshal_error_object, opt_raw, error_depth in *. destruct (len (err_data e) =? 0) eqn:Hl; [left; by apply len_zero|].
    destruct (json_compact (err_data e)) as [c|] eqn:Hc; [|done]. eapply compact_fits; [exact Hc|lia].
  - unfold opt_raw in Ht. destruct (len (shown_result r) =? 0) eqn:Hs.
    { exfalso. revert Hs. unfold shown_result. destruct (len (resp_result r) =? 0) eqn:E; [done|by rewrite E]. }
    destruct (json_compact (shown_result r)) as [c|] eqn:Hc; [|done]. cbn [mbind option_bind] in Ht.
    destruct (json_compact (shown_id r)) as [ci|] eqn:Hi; [|done]. split; [by eapply Hid|].
    unfold shown_result in *. destruct (len (resp_result r) =? 0) eqn:Hl; [left; by apply len_zero|].
    eapply compact_fits; [exact Hc|lia].
Qed.

(** C26: What the cloud reads is what was put in.  A response of this version is
    marshalled exactly when its id and its result, or the data of its error,
    are JSON texts that nest little enough to leave a level, or two, to the
    response; and then a reader of JSON finds in it the id, [null] for none,
    and the result or the error, never both, with every string made valid. *)
Theorem response_roundtrip r :
  resp_jsonrpc r = JSONRPCVersion ->
  (is_Some (json_Marshal_response r) <-> response_fits r) /\
  forall p, json_Marshal_response r = Some p -> exists x, response_content r = Some x /\ read_response p = Some x.
Proof.
  intros Hver. split; [split|].
  - intros [p Hp]. by eapply marshalled_fits.
  - apply response_marshals.
  - intros p. by apply response_read.
Qed.

Definition demo_response : JSONRPCResponse :=
  mkResponse JSONRPCVersion "" (Some (mkError ErrInternal "no" (dq "{ 'application_code' : 2 }"))) " 7".

Lemma response_roundtrip_witness :
  resp_jsonrpc demo_response = JSONRPCVersion /\
  (json_Marshal_response demo_response ≫= read_response) =
    Some (JNum "7", OError ErrInternal "no" (Some (JObj [("application_code", ("", JNum "2"))]))).
Proof.
  split; [reflexivity|]. destruct (response_roundtrip demo_response eq_refl) as [[_ Hm] Hr].
  destruct (json_Marshal_response demo_response) as [p|] eqn:Hp; [|vm_compute in Hp; discriminate Hp].
  destruct (Hr p eq_refl) as (x & Hx & Hread). cbn [mbind option_bind]. rewrite Hread.
  vm_compute in Hx. exact (eq_sym Hx).
Defined.

(** ** The members of a frame *)

Lemma deepest_elem v vs : v ∈ vs -> nesting v <= deepest vs.
Proof.
  induction vs as [|w vs IH]; [by intros ?%elem_of_nil|]. rewrite deepest_cons. intros [<-|Hin]%elem_of_cons; [lia|].
  specialize (IH Hin). lia.
Qed.

Lemma parse_json_depth s v : parse_json s = Some v -> nesting v <= maxNestingDepth.
Proof. intros (c & v' & _ & _ & Hn & _)%reads_raw. done. Qed.

(** A raw member of a document leaves the level of the document. *)
Lemma member_fits s ms m :
  parse_json s = Some (JObj ms) -> m ∈ ms -> parse_json m.2.1 = Some m.2.2 /\ nesting m.2.2 + 1 <= maxNestingDepth.
Proof.
  intros Hp Hm. split; [by eapply member_raw_parses|]. apply parse_json_depth in Hp. rewrite nesting_object in Hp.
  assert (nesting m.2.2 <= deepest (values ms)); [|lia]. apply deepest_elem. unfold values. apply list_elem_of_fmap. by exists m.
Qed.

Lemma assigned_elem names name ms rv : rv ∈ assigned names name ms -> exists m, m ∈ ms /\ m.2 = rv.
Proof.
  unfold assigned. intros (m & Hin & Hr)%list_elem_of_omap. exists m. split; [done|].
  destruct (resolve names m.1); [|done]. case_match; [by injection Hr|done].
Qed.

Lemma raw_field_fits s v ms names name :
  parse_json s = Some v -> struct_members v = Some ms ->
  raw_fits 1 (decode_field dec_raw "" (assigned names name ms)).1.
Proof.
  intros Hp Hm. unfold decode_field.
  assert (Forall (fun rv => raw_fits 1 rv.1) (assigned names name ms)) as HF.
  { apply Forall_forall. intros rv (m & Hin & <-)%assigned_elem. right.
    destruct v; try done; simpl in Hm; injection Hm as <-; [by apply elem_of_nil in Hin|].
    destruct (member_fits _ _ _ Hp Hin). by exists m.2.2. }
  assert (raw_fits 1 ("", false).1) as Hacc by (by left). revert Hacc HF. generalize ("", false) as acc.
  induction (assigned names name ms) as [|rv vs IH]; intros acc Hacc HF; [done|].
  apply Forall_cons in HF as [Hrv HF]. simpl. apply IH; [|done]. exact Hrv.
Qed.
