(* ===== verification/Commands.v ===== *)
(** * Cloud commands

    The command part of pkg/contracts/rpc.go: the request and result structures
    of every cloud method, how they are decoded, their [Validate] methods, the
    payload limits and the compressed form of [configure].

    What the code takes from libraries is a parameter ([GoLib]): the base64 and
    zlib readers, the URL parser, the configuration schema validator,
    [strings.EqualFold] on arbitrary text, the quoting of the error texts and
    the text of a floating-point number.  All that is assumed of them is that
    the latter is a JSON number, as the encoder's documentation says. *)

From S2P Require Import Prelude Json JsonUtf8 Enums Rpc.

(** ** Library functions *)

(** The parts of a [*url.URL] the code reads. *)
Record URL := mkURL {
  u_Scheme : string;
  u_Host : string;
  u_Hostname : string;
  u_Port : string;
  u_User : option string;
  u_Path : string;
  u_RawQuery : string;
  u_Fragment : string
}.

(** What goes wrong with a zlib stream: at the header, or while reading. *)
Inductive zlib_result :=
| ZlibHeaderError (e : error)
| ZlibReadError (e : error)
| ZlibData (bytes : string).

Class GoLib := {
  strconv_Quote : string -> string;
  (** What [json.Marshal] writes for the [float64] a number literal decodes to. *)
  float64_text : string -> string;
  strings_EqualFold : string -> string -> bool;
  url_ParseRequestURI : string -> option URL;
  (** [io.ReadAll(io.LimitReader(base64.NewDecoder(base64.StdEncoding, s), n))]. *)
  base64_ReadAll : string -> Z -> result string;
  (** The same through [zlib.NewReader]. *)
  zlib_base64_ReadAll : string -> Z -> zlib_result;
  (** [validator.Validate] of the schema module. *)
  validator_Validate : string -> option error;
  float64_text_literal lit :
    is_literal lit = true -> float64_in_range lit = true -> is_literal (float64_text lit) = true
}.

(** ** Payload limits

    The three package variables; zero before [SetLimits]. *)
Record limits := mkLimits {
  maxConfigureSize : Z;
  maxCertUpdateSize : Z;
  maxScriptSize : Z
}.

Definition SetLimits (configure certUpdate script : Z) : limits :=
  mkLimits configure certUpdate script.

Definition getConfigureLimit (l : limits) : Z :=
  if 0 <? maxConfigureSize l then maxConfigureSize l else 10 * 1024 * 1024.
Definition getCertUpdateLimit (l : limits) : Z :=
  if 0 <? maxCertUpdateSize l then maxCertUpdateSize l else 2 * 1024 * 1024.
Definition getScriptLimit (l : limits) : Z :=
  if 0 <? maxScriptSize l then maxScriptSize l else 1024 * 1024.

(** ** Decoding

    A struct decoder reads its fields from the members of an object; the flag
    of the result says whether some member had the wrong kind. *)
Definition members := list (string * (string * jval)).

Definition fbind {A B} (f : field A) (k : A -> field B) : field B :=
  let '(a, e1) := f in let '(b, e2) := k a in (b, e1 || e2).
Notation "x <-f f ; k" := (fbind f (fun x => k)) (at level 60, f at next level, right associativity).
Definition fret {A} (a : A) : field A := (a, false).

(** One field of a struct with the given field names. *)
Definition fld {A} (names : list string) (name : string)
    (dec : field A -> string * jval -> field A) (zero : A) (ms : members) : field A :=
  decode_field dec zero (assigned names name ms).

(** A whole value into a struct. *)
Definition decode_struct {A} (dec : members -> field A) (v : jval) : result A :=
  match struct_members v with
  | None => Err json_error
  | Some ms => let '(a, bad) := dec ms in if bad then Err json_error else Ok a
  end.

(** [json.Unmarshal(raw, &x)]. *)
Definition unmarshal {A} (dec : members -> field A) (raw : string) : result A :=
  match parse_json raw with None => Err json_error | Some v => decode_struct dec v end.

(** [DisallowUnknownFields]. *)
Definition known_fields (names : list string) (ms : members) : bool :=
  forallb (fun m => match resolve names m.1 with Some _ => true | None => false end) ms.

(** The first failing check of a [Validate] method. *)
Definition check (bad : bool) (e : error) (next : option error) : option error :=
  if bad then Some e else next.
Notation "'reject' c 'with' e ; k" :=
  (check c e k) (at level 60, c at level 200, e at level 200, right associativity).

Definition is_empty (s : string) : bool := String.eqb s "".

(** An optional integer outside [lo, hi]. *)
Definition ptr_out_of_range (lo hi : Z) (p : option Z) : bool :=
  match p with None => false | Some z => (z <? lo) || (hi <? z) end.

Definition serial_required : error := ENew "serial is required".

(** ** Requests *)

Record CloudConfigureRequest := mkConfigure {
  cfg_serial : string; cfg_uuid : Z; cfg_when : Z; cfg_config : string;
  cfg_compress64 : string; cfg_compress_sz : Z }.
Record CloudRebootRequest := mkReboot { rb_serial : string; rb_when : Z }.
Record CloudFactoryRequest := mkFactory {
  fa_serial : string; fa_keep_redirector : option Z; fa_when : Z }.
Record CloudUpgradeRequest := mkUpgrade {
  up_serial : string; up_uri : string; up_FWsignature : string; up_when : Z }.
Record CloudTraceRequest := mkTrace {
  tr_serial : string; tr_when : Z; tr_duration : option Z; tr_packets : option Z;
  tr_network : string; tr_interface : string; tr_uri : string }.
Record CloudPingRequest := mkPing { pi_serial : string }.
Record CloudLedsRequest := mkLeds {
  le_serial : string; le_when : Z; le_duration : option Z; le_pattern : string }.
Record CloudTelemetryRequest := mkTelemetry {
  te_serial : string; te_interval : option Z; te_types : list string }.
Record CloudRemoteAccessRequest := mkRemoteAccess {
  ra_method : string; ra_serial : string; ra_token : string; ra_id : string;
  ra_server : string; ra_port : Z; ra_user : string; ra_timeout : option Z }.
Record CloudCertupdateRequest := mkCertupdate { ce_serial : string; ce_certificates : string }.
Record CloudReenrollRequest := mkReenroll { re_serial : string; re_when : Z }.
Record CloudScriptRequest := mkScript {
  sc_serial : string; sc_type : ScriptType; sc_script : string; sc_timeout : option Z;
  sc_uri : string; sc_signature : string; sc_when : Z }.

Definition dec_int_ := dec_int min_int64 max_int64.

Definition decode_configure (ms : members) : field CloudConfigureRequest :=
  let n := ["serial"; "uuid"; "when"; "config"; "compress_64"; "compress_sz"] in
  serial <-f fld n "serial" dec_string "" ms; uuid <-f fld n "uuid" dec_int64 0 ms;
  when <-f fld n "when" dec_int64 0 ms; config <-f fld n "config" dec_raw "" ms;
  c64 <-f fld n "compress_64" dec_string "" ms; csz <-f fld n "compress_sz" dec_uint32 0 ms;
  fret (mkConfigure serial uuid when config c64 csz).

Definition decode_serial_when {A} (f : string -> Z -> A) (ms : members) : field A :=
  let n := ["serial"; "when"] in
  serial <-f fld n "serial" dec_string "" ms; when <-f fld n "when" dec_int64 0 ms;
  fret (f serial when).
Definition decode_reboot := decode_serial_when mkReboot.
Definition decode_reenroll := decode_serial_when mkReenroll.

Definition decode_factory (ms : members) : field CloudFactoryRequest :=
  let n := ["serial"; "keep_redirector"; "when"] in
  serial <-f fld n "serial" dec_string "" ms;
  keep <-f fld n "keep_redirector" dec_ptr_int None ms; when <-f fld n "when" dec_int64 0 ms;
  fret (mkFactory serial keep when).

Definition decode_upgrade (ms : members) : field CloudUpgradeRequest :=
  let n := ["serial"; "uri"; "FWsignature"; "when"] in
  serial <-f fld n "serial" dec_string "" ms; uri <-f fld n "uri" dec_string "" ms;
  sig <-f fld n "FWsignature" dec_string "" ms; when <-f fld n "when" dec_int64 0 ms;
  fret (mkUpgrade serial uri sig when).

Definition decode_trace (ms : members) : field CloudTraceRequest :=
  let n := ["serial"; "when"; "duration"; "packets"; "network"; "interface"; "uri"] in
  serial <-f fld n "serial" dec_string "" ms; when <-f fld n "when" dec_int64 0 ms;
  duration <-f fld n "duration" dec_ptr_int None ms;
  packets <-f fld n "packets" dec_ptr_int None ms;
  network <-f fld n "network" dec_string "" ms;
  interface <-f fld n "interface" dec_string "" ms; uri <-f fld n "uri" dec_string "" ms;
  fret (mkTrace serial when duration packets network interface uri).

Definition decode_ping (ms : members) : field CloudPingRequest :=
  serial <-f fld ["serial"] "serial" dec_string "" ms; fret (mkPing serial).

Definition decode_leds (ms : members) : field CloudLedsRequest :=
  let n := ["serial"; "when"; "duration"; "pattern"] in
  serial <-f fld n "serial" dec_string "" ms; when <-f fld n "when" dec_int64 0 ms;
  duration <-f fld n "duration" dec_ptr_int None ms;
  pattern <-f fld n "pattern" dec_string "" ms;
  fret (mkLeds serial when duration pattern).

Definition decode_telemetry (ms : members) : field CloudTelemetryRequest :=
  let n := ["serial"; "interval"; "types"] in
  serial <-f fld n "serial" dec_string "" ms;
  interval <-f fld n "interval" dec_ptr_int None ms;
  types <-f fld n "types" dec_strings [] ms;
  fret (mkTelemetry serial interval types).

Definition decode_remote_access (ms : members) : field CloudRemoteAccessRequest :=
  let n := ["method"; "serial"; "token"; "id"; "server"; "port"; "user"; "timeout"] in
  method <-f fld n "method" dec_string "" ms; serial <-f fld n "serial" dec_string "" ms;
  token <-f fld n "token" dec_string "" ms; id <-f fld n "id" dec_string "" ms;
  server <-f fld n "server" dec_string "" ms; port <-f fld n "port" dec_int_ 0 ms;
  user <-f fld n "user" dec_string "" ms; timeout <-f fld n "timeout" dec_ptr_int None ms;
  fret (mkRemoteAccess method serial token id server port user timeout).

Definition decode_certupdate (ms : members) : field CloudCertupdateRequest :=
  let n := ["serial"; "certificates"] in
  serial <-f fld n "serial" dec_string "" ms; cert <-f fld n "certificates" dec_string "" ms;
  fret (mkCertupdate serial cert).

(** [CloudScriptRequest.UnmarshalJSON]: unknown fields are an error. *)
Definition decode_script (ms : members) : field CloudScriptRequest :=
  let n := ["serial"; "type"; "script"; "timeout"; "uri"; "signature"; "when"] in
  serial <-f fld n "serial" dec_string "" ms; type <-f fld n "type" dec_string "" ms;
  script <-f fld n "script" dec_string "" ms; timeout <-f fld n "timeout" dec_ptr_int None ms;
  uri <-f fld n "uri" dec_string "" ms; sig <-f fld n "signature" dec_string "" ms;
  when <-f fld n "when" dec_int64 0 ms;
  (mkScript serial type script timeout uri sig when, negb (known_fields n ms)).

Section Validate.
Context `{GoLib} (lim : limits) (AllowedTraceUploadURL : option URL).

(** *** [configure] *)

(** [decompress]. *)
Definition decompress (r : CloudConfigureRequest) : result string :=
  if is_empty (cfg_compress64 r) then Err (ENew "compress_64 is required") else
  if cfg_compress_sz r =? 0 then Err (ENew "compress_sz must be greater than zero") else
  let limit := getConfigureLimit lim in
  if limit <? cfg_compress_sz r then
    Err (ENew ("compress_sz exceeds configured limit of " +:+ pretty limit +:+ " bytes")) else
  match zlib_base64_ReadAll (cfg_compress64 r) (cfg_compress_sz r + 1) with
  | ZlibHeaderError e => Err (EWrap "invalid zlib data: " e)
  | ZlibReadError e => Err (EWrap "decompression error: " e)
  | ZlibData bytes =>
      if len bytes =? cfg_compress_sz r then Ok bytes
      else Err (ENew "decompressed size does not match compress_sz")
  end.

Definition has_config (r : CloudConfigureRequest) : bool :=
  (0 <? len (cfg_config r)) && negb (String.eqb (cfg_config r) "null").
Definition has_compress (r : CloudConfigureRequest) : bool :=
  negb (is_empty (cfg_compress64 r)) || (0 <? cfg_compress_sz r).

(** The [uuid] member of a configuration, 0 when it cannot be read. *)
Definition config_uuid (config : string) : Z :=
  match unmarshal (fun ms => fld ["uuid"] "uuid" dec_int64 0 ms) config with
  | Ok uuid => uuid
  | Err _ => 0
  end.

(** The checks before the content is looked at. *)
Definition configure_envelope (r : CloudConfigureRequest) : option error :=
  reject has_config r && has_compress r with ENew "cannot provide both config and compress_64";
  reject negb (has_config r) && negb (has_compress r)
    with ENew "must provide either config or compress_64";
  if has_compress r then
    reject negb (is_empty (cfg_serial r)) || negb (cfg_uuid r =? 0) || negb (cfg_when r =? 0)
      with ENew "outer compressed request must not contain serial, uuid, or when";
    None
  else
    reject is_empty (cfg_serial r) with serial_required;
    reject cfg_uuid r <=? 0 with ENew "uuid must be greater than zero";
    reject negb (cfg_when r =? 0) with ENew "when must be zero for configure";
    None.

Definition not_an_object (s : string) : bool :=
  (len s =? 0) || negb (first_byte s =? 123).

(** [ValidateAndGetUUID]; the fuel bounds the nesting of compressed requests,
    which the code refuses beyond the first level. *)
Fixpoint ValidateAndGetUUID (fuel : nat) (r : CloudConfigureRequest) : result Z :=
  match fuel with
  | O => Err (ENew "out of fuel")
  | S fuel =>
      match configure_envelope r with
      | Some e => Err e
      | None =>
          if has_config r then
            let trimmed := trim_space (cfg_config r) in
            if not_an_object trimmed then Err (ENew "config must be a JSON object") else
            match validator_Validate trimmed with
            | Some e => Err (EWrap "config schema validation failed: " e)
            | None =>
                let uuid := config_uuid trimmed in
                if 0 <? uuid then Ok uuid else Ok (cfg_uuid r)
            end
          else
            match decompress r with
            | Err e => Err e
            | Ok bytesRead =>
                let trimmed := trim_space bytesRead in
                let bad := ENew "decompressed payload must be a JSON configuration object" in
                if not_an_object trimmed then Err bad else
                match unmarshal decode_configure trimmed with
                | Err _ => Err bad
                | Ok innerReq =>
                    if negb (is_empty (cfg_compress64 innerReq)) then
                      Err (ENew "nested compression is not supported") else
                    match ValidateAndGetUUID fuel innerReq with
                    | Err e => Err (EWrap "invalid compressed configuration: " e)
                    | Ok innerUUID => Ok innerUUID
                    end
                end
            end
      end
  end.

(** Two levels are all the code ever enters ([ValidateAndGetUUID_two_levels]). *)
Definition configure_fuel : nat := 2.

Definition CloudConfigureRequest_Validate (r : CloudConfigureRequest) : option error :=
  match ValidateAndGetUUID configure_fuel r with Ok _ => None | Err e => Some e end.

(** *** The other requests *)

Definition CloudRebootRequest_Validate (r : CloudRebootRequest) : option error :=
  reject is_empty (rb_serial r) with serial_required;
  reject negb (rb_when r =? 0) with ENew "when must be zero for reboot";
  None.

Definition CloudFactoryRequest_Validate (r : CloudFactoryRequest) : option error :=
  reject is_empty (fa_serial r) with serial_required;
  match fa_keep_redirector r with
  | None => Some (ENew "missing keep_redirector")
  | Some k =>
      reject negb (k =? 0) && negb (k =? 1) with ENew ("invalid keep_redirector: " +:+ pretty k);
      reject negb (fa_when r =? 0) with ENew "when must be zero for factory";
      None
  end.

Definition https : string := "https".

Definition CloudUpgradeRequest_Validate (r : CloudUpgradeRequest) : option error :=
  reject is_empty (up_serial r) with serial_required;
  reject is_empty (up_uri r) with ENew "uri is required";
  match url_ParseRequestURI (up_uri r) with
  | None => Some (ENew "invalid upgrade URI")
  | Some u =>
      reject is_empty (u_Host u) with ENew "invalid upgrade URI";
      reject negb (strings_EqualFold (u_Scheme u) https)
        with ENew ("upgrade uri scheme must be https, got " +:+ strconv_Quote (u_Scheme u));
      reject negb (up_when r =? 0) with ENew "when must be zero for upgrade";
      None
  end.

(** The upload address of a trace. *)
Definition trace_uri_check (uri : string) : option error :=
  if is_empty uri then None else
  match AllowedTraceUploadURL with
  | None => Some (ENew "trace upload is disabled (OLG_TRACE_UPLOAD_ALLOWED_URL is not configured)")
  | Some allowed =>
      match url_ParseRequestURI uri with
      | None => Some (ENew "invalid trace URI")
      | Some u =>
          reject is_empty (u_Host u) with ENew "invalid trace URI";
          reject negb (strings_EqualFold (u_Scheme u) https)
            with ENew ("trace URI scheme must be https, got " +:+ strconv_Quote (u_Scheme u));
          reject negb (strings_EqualFold (u_Hostname u) (u_Hostname allowed))
            with ENew ("trace URI hostname " +:+ strconv_Quote (u_Hostname u) +:+ " is not allowed");
          reject negb (String.eqb (u_Port u) (u_Port allowed))
            with ENew ("trace URI port " +:+ strconv_Quote (u_Port u) +:+ " is not allowed");
          reject bool_decide (is_Some (u_User u)) with ENew "trace URI must not contain credentials";
          None
      end
  end.

Definition CloudTraceRequest_Validate (r : CloudTraceRequest) : option error :=
  reject is_empty (tr_serial r) with serial_required;
  reject negb (tr_when r =? 0) with ENew "when must be zero for trace";
  reject ptr_out_of_range 1 300 (tr_duration r) with ENew "duration must be between 1 and 300";
  reject ptr_out_of_range 1 10000 (tr_packets r) with ENew "packets must be between 1 and 10000";
  trace_uri_check (tr_uri r).

Definition CloudPingRequest_Validate (r : CloudPingRequest) : option error :=
  reject is_empty (pi_serial r) with serial_required; None.

Definition CloudLedsRequest_Validate (r : CloudLedsRequest) : option error :=
  reject is_empty (le_serial r) with serial_required;
  reject negb (one_of (le_pattern r) ["on"; "off"; "blink"])
    with ENew "pattern must be on, off, or blink";
  reject negb (le_when r =? 0) with ENew "when must be zero for leds";
  reject ptr_out_of_range 1 300 (le_duration r) with ENew "duration must be between 1 and 300";
  None.

Definition CloudTelemetryRequest_Validate (r : CloudTelemetryRequest) : option error :=
  reject is_empty (te_serial r) with serial_required;
  match te_interval r with
  | None => Some (ENew "invalid interval")
  | Some i =>
      reject (i <? 0) || (60 <? i) with ENew "invalid interval";
      reject negb (bool_decide (te_types r = ["dhcp"])) with ENew "invalid types";
      None
  end.

Definition CloudRemoteAccessRequest_Validate (r : CloudRemoteAccessRequest) : option error :=
  reject negb (String.eqb (ra_method r) RemoteAccessRTTY)
    with ENew ("invalid method for remote access: " +:+ strconv_Quote (ra_method r));
  reject is_empty (ra_serial r) with serial_required;
  reject is_empty (ra_token r) with ENew "token is required";
  reject is_empty (ra_id r) with ENew "id is required";
  reject is_empty (ra_server r) with ENew "server is required";
  reject (ra_port r <? 1) || (65535 <? ra_port r) with ENew "port must be between 1 and 65535";
  reject ptr_out_of_range 1 300 (ra_timeout r) with ENew "timeout must be between 1 and 300";
  None.

(** A base64 field whose contents are limited: the texts of the three errors. *)
Definition base64_check (s : string) (limit : Z) (bad empty large : error) : option error :=
  match base64_ReadAll s (limit + 1) with
  | Err _ => Some bad
  | Ok bytesRead =>
      reject len bytesRead =? 0 with empty;
      reject limit <? len bytesRead with large;
      None
  end.

Definition CloudCertupdateRequest_Validate (r : CloudCertupdateRequest) : option error :=
  reject is_empty (ce_serial r) with serial_required;
  reject is_empty (ce_certificates r) with ENew "certificates payload is required";
  let limit := getCertUpdateLimit lim in
  base64_check (ce_certificates r) limit (ENew "certificates must be valid base64")
    (ENew "certificates payload must not be empty")
    (ENew ("certificates exceed configured limit of " +:+ pretty limit +:+ " bytes")).

Definition CloudReenrollRequest_Validate (r : CloudReenrollRequest) : option error :=
  reject is_empty (re_serial r) with serial_required;
  reject negb (re_when r =? 0) with ENew "when must be zero for reenroll";
  None.

Definition script_uri_check (uri : string) : option error :=
  if is_empty uri then None else
  match url_ParseRequestURI uri with
  | None => Some (ENew "invalid script URI")
  | Some u =>
      reject is_empty (u_Scheme u) || is_empty (u_Host u) with ENew "invalid script URI";
      reject negb (strings_EqualFold (u_Scheme u) https)
        with ENew ("script uri scheme must be https, got " +:+ strconv_Quote (u_Scheme u));
      None
  end.

Definition script_body_check (script : string) : option error :=
  if is_empty script then None else
  let limit := getScriptLimit lim in
  base64_check script limit (ENew "script must be valid base64")
    (ENew "decoded script must not be empty")
    (ENew ("script exceeds configured limit of " +:+ pretty limit +:+ " bytes")).

Definition CloudScriptRequest_Validate (r : CloudScriptRequest) : option error :=
  reject is_empty (sc_serial r) with serial_required;
  reject negb (one_of (sc_type r) [ScriptTypeShell; ScriptTypeUcode; ScriptTypeBundle])
    with ENew ("invalid script type: " +:+ strconv_Quote (sc_type r));
  reject negb (sc_when r =? 0) with ENew "when must be zero for script";
  reject Bool.eqb (is_empty (sc_script r)) (is_empty (sc_uri r))
    with ENew "exactly one of script or uri must be provided";
  match script_body_check (sc_script r) with
  | Some e => Some e
  | None =>
      match script_uri_check (sc_uri r) with
      | Some e => Some e
      | None =>
          reject ptr_out_of_range 1 300 (sc_timeout r) with ENew "timeout must be between 1 and 300";
          None
      end
  end.

(** [EffectiveUUID] follows compressed requests as deep as they go. *)
Fixpoint EffectiveUUID (fuel : nat) (r : CloudConfigureRequest) : result Z :=
  match fuel with
  | O => Err (ENew "out of fuel")
  | S fuel =>
      if has_config r then
        let uuid := config_uuid (cfg_config r) in
        if 0 <? uuid then Ok uuid else Ok (cfg_uuid r)
      else if is_empty (cfg_compress64 r) then
        Err (ENew "neither config nor compress_64 is provided")
      else
        match decompress r with
        | Err e => Err e
        | Ok bytesRead =>
            match unmarshal decode_configure (trim_space bytesRead) with
            | Err _ => Err (ENew "decompressed payload must be a JSON configuration object")
            | Ok innerReq => EffectiveUUID fuel innerReq
            end
        end
  end.

End Validate.

(** ** Results

    The status objects of the command results; those of reboot, factory,
    upgrade and trace have the same fields, as have those of leds and
    telemetry, and those of certupdate and reenroll. *)

Record ConfigureRejectedParameter := mkRejected {
  rj_parameter : string; rj_reason : string; rj_substitution : string }.
Record CloudConfigureResultStatus := mkConfigureStatus {
  cs_error : Z; cs_text : string; cs_when : Z; cs_rejected : list ConfigureRejectedParameter }.
Record TimedStatus := mkTimedStatus { ts_error : Z; ts_text : string; ts_when : Z }.
Record TextStatus := mkTextStatus { xs_error : Z; xs_text : string }.
Record TxtStatus := mkTxtStatus { tx_error : Z; tx_txt : string }.
Record CloudRemoteAccessStatus := mkRemoteAccessStatus {
  rs_error : Z; rs_text : string; rs_meta : string }.
Record CloudScriptStatus := mkScriptStatus {
  ss_error : Z; ss_result_64 : string; ss_result_sz : option Z; ss_result : string }.

Definition decode_rejected (ms : members) : field ConfigureRejectedParameter :=
  let n := ["parameter"; "reason"; "substitution"] in
  parameter <-f fld n "parameter" dec_raw "" ms; reason <-f fld n "reason" dec_string "" ms;
  substitution <-f fld n "substitution" dec_raw "" ms;
  fret (mkRejected parameter reason substitution).

(** A slice of structs; an element of the wrong kind stays zero. *)
Definition dec_structs {A} (zero : A) (dec : members -> field A) (st : field (list A))
    (rv : string * jval) : field (list A) :=
  match rv.2 with
  | JNull => ([], st.2)
  | JArr vs =>
      foldl (fun acc v =>
               match struct_members v with
               | Some ms => let '(a, bad) := dec ms in (acc.1 ++ [a], acc.2 || bad)
               | None => (acc.1 ++ [zero], true)
               end) ([], st.2) vs
  | _ => (st.1, true)
  end.

Definition decode_configure_status (ms : members) : field CloudConfigureResultStatus :=
  let n := ["error"; "text"; "when"; "rejected"] in
  error <-f fld n "error" dec_int_ 0 ms; text <-f fld n "text" dec_string "" ms;
  when <-f fld n "when" dec_int64 0 ms;
  rejected <-f fld n "rejected" (dec_structs (mkRejected "" "" "") decode_rejected) [] ms;
  fret (mkConfigureStatus error text when rejected).

Definition decode_timed_status (ms : members) : field TimedStatus :=
  let n := ["error"; "text"; "when"] in
  error <-f fld n "error" dec_int_ 0 ms; text <-f fld n "text" dec_string "" ms;
  when <-f fld n "when" dec_int64 0 ms; fret (mkTimedStatus error text when).

Definition decode_text_status (ms : members) : field TextStatus :=
  let n := ["error"; "text"] in
  error <-f fld n "error" dec_int_ 0 ms; text <-f fld n "text" dec_string "" ms;
  fret (mkTextStatus error text).

Definition decode_txt_status (ms : members) : field TxtStatus :=
  let n := ["error"; "txt"] in
  error <-f fld n "error" dec_int_ 0 ms; txt <-f fld n "txt" dec_string "" ms;
  fret (mkTxtStatus error txt).

Definition decode_remote_access_status (ms : members) : field CloudRemoteAccessStatus :=
  let n := ["error"; "text"; "meta"] in
  error <-f fld n "error" dec_int_ 0 ms; text <-f fld n "text" dec_string "" ms;
  meta <-f fld n "meta" dec_raw "" ms; fret (mkRemoteAccessStatus error text meta).

Definition decode_script_status (ms : members) : field CloudScriptStatus :=
  let n := ["error"; "result_64"; "result_sz"; "result"] in
  error <-f fld n "error" dec_int_ 0 ms; r64 <-f fld n "result_64" dec_string "" ms;
  rsz <-f fld n "result_sz" dec_ptr_int None ms; res <-f fld n "result" dec_string "" ms;
  fret (mkScriptStatus error r64 rsz res).

Definition text_required : error := ENew "text is required".

Definition CloudConfigureResultStatus_Validate (r : CloudConfigureResultStatus) : option error :=
  reject is_empty (cs_text r) with text_required; None.
Definition CloudRebootStatus_Validate (r : TimedStatus) : option error :=
  reject is_empty (ts_text r) with text_required; None.
Definition CloudFactoryStatus_Validate (r : TimedStatus) : option error :=
  reject is_empty (ts_text r) with text_required; None.
Definition CloudUpgradeStatus_Validate (r : TimedStatus) : option error :=
  reject is_empty (ts_text r) with text_required; None.
Definition CloudTraceStatus_Validate (r : TimedStatus) : option error := None.
Definition CloudLedsStatus_Validate (r : TextStatus) : option error :=
  reject is_empty (xs_text r) with text_required; None.
Definition CloudTelemetryStatus_Validate (r : TextStatus) : option error :=
  reject is_empty (xs_text r) with text_required; None.
Definition CloudRemoteAccessStatus_Validate (r : CloudRemoteAccessStatus) : option error :=
  reject is_empty (rs_text r) with text_required; None.
Definition CloudCertupdateStatus_Validate (r : TxtStatus) : option error :=
  reject is_empty (tx_txt r) with ENew "txt is required"; None.
Definition CloudReenrollStatus_Validate (r : TxtStatus) : option error :=
  reject is_empty (tx_txt r) with ENew "txt is required"; None.
Definition CloudScriptStatus_Validate (r : CloudScriptStatus) : option error :=
  reject is_empty (ss_result r) && is_empty (ss_result_64 r) && (ss_error r =? 0)
    with ENew "result is required"; None.

(** ** What is accepted *)

Lemma unmarshal_Ok {A} (dec : members -> field A) raw a :
  unmarshal dec raw = Ok a ->
  exists v ms, parse_json raw = Some v /\ struct_members v = Some ms /\ dec ms = (a, false).
Proof.
  unfold unmarshal, decode_struct. destruct (parse_json raw) as [v|]; [|done].
  destruct (struct_members v) as [ms|] eqn:Hms; [|done].
  destruct (dec ms) as [x [|]] eqn:E; [done|]. intros [= ->]. eauto.
Qed.

Lemma check_None b e k : check b e k = None <-> b = false /\ k = None.
Proof. destruct b; simpl; naive_solver. Qed.

Lemma is_empty_false s : is_empty s = false <-> s <> "".
Proof. apply String.eqb_neq. Qed.
Lemma is_empty_true s : is_empty s = true <-> s = "".
Proof. apply String.eqb_eq. Qed.

Lemma not_an_object_false s : not_an_object s = false <-> s <> "" /\ first_byte s = 123.
Proof.
  unfold not_an_object. rewrite orb_false_iff, negb_false_iff, Z.eqb_eq, Z.eqb_neq.
  unfold len. destruct s; simpl; naive_solver lia.
Qed.

(** Turn an accepted [Validate] into the facts it checked. *)
Ltac accepted :=
  repeat match goal with
  | H : check _ _ _ = None |- _ => apply check_None in H as [? H]
  | H : is_empty _ = false |- _ => apply is_empty_false in H
  | H : is_empty _ = true |- _ => apply is_empty_true in H
  | H : negb (is_empty _) = false |- _ => apply negb_false_iff, is_empty_true in H
  | H : not_an_object _ = false |- _ => apply not_an_object_false in H as [? ?]
  end; bool_to_prop.

Section Accepted.
Context `{GoLib} (lim : limits).

(** An uncompressed request that is accepted with the version [u]. *)
Definition plain_accepted (r : CloudConfigureRequest) (u : Z) : Prop :=
  has_config r = true /\ has_compress r = false /\ cfg_serial r <> "" /\ 0 < cfg_uuid r /\
  cfg_when r = 0 /\
  let config := trim_space (cfg_config r) in
  config <> "" /\ first_byte config = 123 /\ validator_Validate config = None /\
  u = (if 0 <? config_uuid config then config_uuid config else cfg_uuid r).

(** A compressed one: it carries nothing but the data, which unpack within the
    limit to an uncompressed request. *)
Definition compressed_accepted (r : CloudConfigureRequest) (u : Z) : Prop :=
  has_config r = false /\ cfg_compress64 r <> "" /\ 0 < cfg_compress_sz r <= getConfigureLimit lim /\
  cfg_serial r = "" /\ cfg_uuid r = 0 /\ cfg_when r = 0 /\
  exists bytes inner,
    zlib_base64_ReadAll (cfg_compress64 r) (cfg_compress_sz r + 1) = ZlibData bytes /\
    len bytes = cfg_compress_sz r /\
    trim_space bytes <> "" /\ first_byte (trim_space bytes) = 123 /\
    unmarshal decode_configure (trim_space bytes) = Ok inner /\
    cfg_compress64 inner = "" /\ plain_accepted inner u.

Lemma decompress_spec r b :
  decompress lim r = Ok b <->
  cfg_compress64 r <> "" /\ 0 < cfg_compress_sz r <= getConfigureLimit lim /\
  zlib_base64_ReadAll (cfg_compress64 r) (cfg_compress_sz r + 1) = ZlibData b /\
  len b = cfg_compress_sz r.
Proof.
  unfold decompress. destruct (is_empty (cfg_compress64 r)) eqn:E; accepted; [naive_solver|].
  destruct (Z.eqb_spec (cfg_compress_sz r) 0); [split; [done|lia]|].
  destruct (Z.ltb_spec (getConfigureLimit lim) (cfg_compress_sz r)); [split; [done|lia]|].
  destruct (zlib_base64_ReadAll _ _) as [| |bytes]; [naive_solver..|].
  destruct (Z.eqb_spec (len bytes) (cfg_compress_sz r)) as [Hl|Hl]; [|naive_solver].
  pose proof (len_nonneg bytes). split; [intros [= <-]|naive_solver]. repeat split; try done; lia.
Qed.

Lemma plain_step fuel r u :
  has_config r = true ->
  ValidateAndGetUUID lim (S fuel) r = Ok u <-> plain_accepted r u.
Proof.
  intros Hc. cbn [ValidateAndGetUUID]. unfold plain_accepted, configure_envelope. rewrite Hc.
  destruct (has_compress r); simpl; [naive_solver|].
  destruct (is_empty (cfg_serial r)) eqn:Es; accepted; simpl; [naive_solver|].
  destruct (Z.leb_spec (cfg_uuid r) 0); simpl; [split; [done|lia]|].
  destruct (Z.eqb_spec (cfg_when r) 0); simpl; [|naive_solver].
  destruct (not_an_object _) eqn:Eo.
  { split; [done|]. intros (_ & _ & _ & _ & _ & H1 & H2 & _).
    apply not_false_iff_true in Eo. destruct Eo. by apply not_an_object_false. }
  accepted. destruct (validator_Validate _); [naive_solver|].
  destruct (0 <? _); naive_solver.
Qed.

Lemma nested_refused fuel r :
  has_config r = false -> cfg_compress64 r = "" ->
  exists e, ValidateAndGetUUID lim (S fuel) r = Err e.
Proof.
  intros Hc H64. cbn [ValidateAndGetUUID]. destruct (configure_envelope r); [by eexists|].
  rewrite Hc. unfold decompress. rewrite H64. by eexists.
Qed.

(** The request inside a compressed one is read without a further recursion. *)
Lemma inner_accepted fuel r u :
  cfg_compress64 r = "" -> ValidateAndGetUUID lim (S fuel) r = Ok u <-> plain_accepted r u.
Proof.
  intros H64. destruct (has_config r) eqn:Hc; [by apply plain_step|].
  destruct (nested_refused fuel r Hc H64) as [e ->]. split; [done|].
  intros [Hc' _]. congruence.
Qed.

(** The accepted requests; the property below adds the fuel. *)
Lemma configure_accepted_cases fuel r u :
  ValidateAndGetUUID lim (S (S fuel)) r = Ok u <-> plain_accepted r u \/ compressed_accepted r u.
Proof.
  destruct (has_config r) eqn:Hc.
  { rewrite plain_step by done. unfold compressed_accepted. rewrite Hc. naive_solver. }
  assert (Hp : ~ plain_accepted r u) by (intros [? _]; congruence).
  assert (ValidateAndGetUUID lim (S (S fuel)) r = Ok u <-> compressed_accepted r u); [|naive_solver].
  remember (S fuel) as n eqn:Hn. cbn [ValidateAndGetUUID].
  unfold compressed_accepted, configure_envelope. rewrite Hc. simpl.
  destruct (has_compress r) eqn:Hz; simpl.
  2:{ unfold has_compress in Hz. bool_to_prop. split; [done|]. intros (_ & _ & ? & _). lia. }
  destruct (is_empty (cfg_serial r)) eqn:Es; accepted; simpl; [|naive_solver].
  destruct (Z.eqb_spec (cfg_uuid r) 0); simpl; [|naive_solver].
  destruct (Z.eqb_spec (cfg_when r) 0); simpl; [|naive_solver].
  destruct (decompress lim r) as [b|err] eqn:Hd.
  2:{ split; [done|]. intros (_ & ? & ? & _ & _ & _ & b & i & ? & ? & _).
      assert (decompress lim r = Ok b) by (by apply decompress_spec). congruence. }
  pose proof (proj1 (decompress_spec r b) Hd) as (H64 & Hsz & Hzl & Hlen).
  assert (Hb : forall b', zlib_base64_ReadAll (cfg_compress64 r) (cfg_compress_sz r + 1) = ZlibData b'
                     -> b' = b) by (intros b'; rewrite Hzl; by intros [= ->]).
  transitivity (trim_space b <> "" /\ first_byte (trim_space b) = 123 /\
    exists inner, unmarshal decode_configure (trim_space b) = Ok inner /\
      cfg_compress64 inner = "" /\ plain_accepted inner u).
  2:{ split; [intros (? & ? & i & ?); repeat split; try done; try lia; by exists b, i|].
      intros (_ & _ & _ & _ & _ & _ & b' & i & ->%Hb & _ & ? & ? & ?). eauto. }
  destruct (not_an_object _) eqn:Eo.
  { split; [done|]. intros (? & ? & _). apply not_false_iff_true in Eo. destruct Eo.
    by apply not_an_object_false. }
  accepted. destruct (unmarshal decode_configure _) as [inner|?]; [|naive_solver].
  destruct (is_empty (cfg_compress64 inner)) eqn:Ei; accepted; simpl.
  2:{ split; [done|]. by intros (_ & _ & i & [= <-] & ? & _). }
  pose proof (inner_accepted fuel inner u Ei) as Hin.
  transitivity (ValidateAndGetUUID lim n inner = Ok u).
  { destruct (ValidateAndGetUUID lim n inner); [reflexivity | split; intros [=]]. }
  rewrite Hn, Hin. split; [intros; repeat split; [done..|by exists inner]|].
  by intros (_ & _ & i & [= <-] & _ & ?).
Qed.

(** The version of an accepted configuration is positive. *)
Lemma plain_accepted_positive r u : plain_accepted r u -> 0 < u.
Proof. intros (_ & _ & _ & ? & _ & _ & _ & _ & ->). destruct (Z.ltb_spec 0 (config_uuid (trim_space (cfg_config r)))); lia. Qed.

Lemma configure_uuid_positive fuel r u :
  ValidateAndGetUUID lim (S (S fuel)) r = Ok u -> 0 < u.
Proof.
  intros [?|(_ & _ & _ & _ & _ & _ & b & i & _ & _ & _ & _ & _ & _ & ?)]%configure_accepted_cases;
    by eapply plain_accepted_positive.
Qed.

(** The code never enters a third level, so that more fuel changes nothing. *)
Lemma ValidateAndGetUUID_two_levels fuel r :
  ValidateAndGetUUID lim (S (S fuel)) r = ValidateAndGetUUID lim configure_fuel r.
Proof.
  assert (Hone : forall n i, cfg_compress64 i = "" ->
            ValidateAndGetUUID lim (S n) i = ValidateAndGetUUID lim 1 i).
  { intros n i Hi. cbn [ValidateAndGetUUID]. unfold decompress. rewrite Hi. done. }
  unfold configure_fuel. remember (S fuel) as n eqn:Hn. remember 1%nat as k eqn:Hk.
  cbn [ValidateAndGetUUID].
  destruct (configure_envelope r); [done|]. destruct (has_config r); [done|].
  destruct (decompress lim r) as [b|]; [|done].
  destruct (not_an_object (trim_space b)); [done|].
  destruct (unmarshal decode_configure (trim_space b)) as [i|]; [|done].
  destruct (is_empty (cfg_compress64 i)) eqn:Ei; [|done]. accepted.
  by rewrite Hn, (Hone fuel i Ei).
Qed.

(** C33: [ValidateAndGetUUID] accepts a request exactly when it is a plain
    configuration that passes the schema, with serial, positive uuid and no
    schedule, or a bare compressed one that unpacks within the limit to such a
    configuration; the version it returns is positive, and it never goes deeper
    than the second level, whatever the data nest. *)
Theorem configure_accepted_iff fuel r :
  ValidateAndGetUUID lim (S (S fuel)) r = ValidateAndGetUUID lim configure_fuel r /\
  forall u, (ValidateAndGetUUID lim configure_fuel r = Ok u <-> plain_accepted r u \/ compressed_accepted r u)
            /\ (plain_accepted r u \/ compressed_accepted r u -> 0 < u).
Proof.
  split; [apply ValidateAndGetUUID_two_levels|]. intros u.
  pose proof (configure_accepted_cases 0 r u) as Hc. split; [exact Hc|].
  intros Ha%Hc. by eapply configure_uuid_positive.
Qed.

(** Scripts and certificates that are accepted decode to a non-empty text
    within the limit. *)
Lemma base64_check_None s n e1 e2 e3 :
  base64_check s n e1 e2 e3 = None <->
  exists b, base64_ReadAll s (n + 1) = Ok b /\ 0 < len b <= n.
Proof.
  unfold base64_check. destruct (base64_ReadAll s (n + 1)) as [b|]; [|naive_solver].
  pose proof (len_nonneg b). rewrite !check_None, Z.eqb_neq, Z.ltb_ge.
  split; [intros [? [? _]]; exists b; split; [done|lia]|].
  intros (? & [= <-] & ? & ?). repeat split; lia.
Qed.

End Accepted.
