(* ===== verification/Envelopes.v ===== *)
(** * Envelope validation

    pkg/contracts/envelopes.go: the NATS target, the payload of a command and
    the payload of a result, each decoded into the structure its command and
    action call for and validated. *)

From S2P Require Import Prelude GoTime Json Enums Rpc Commands.

Definition EnvelopeVersion : string := "1.0".

Definition ValidateNATSTarget (target : string) : option error :=
  reject is_empty target with ENew "nats target is required and cannot be empty";
  reject negb (String.eqb (trim_space target) target)
    with ENew "nats target must not contain leading or trailing whitespace";
  reject string_existsb (fun a => existsb (Z.eqb (byte_val a)) [46; 42; 62; 32; 9; 13; 10]) target
    with ENew "nats target must not contain wildcards, dots, or internal whitespace";
  None.

Record CloudDeviceStatusQuery := mkQuery {
  q_version : string; q_rpc_id : string; q_target : string; q_timestamp : Z }.

Definition CloudDeviceStatusQuery_Validate `{GoLib} (q : CloudDeviceStatusQuery) : option error :=
  reject negb (String.eqb (q_version q) EnvelopeVersion)
    with ENew ("unsupported envelope version: " +:+ strconv_Quote (q_version q));
  reject is_empty (q_rpc_id q) || is_empty (q_target q) || (q_timestamp q =? zero_time)
    with ENew "missing required fields in CloudDeviceStatusQuery";
  None.

(** ** Streams

    A [json.Decoder] over a whole payload: the first value with the text after
    it, or the error of the first [Decode]. *)
Definition decode_first (s : string) : result (jval * string) :=
  let s := skip_ws s in
  if is_empty s then Err io_EOF else
  match parse_value (parse_fuel s) 0 s with
  | None => Err json_error
  | Some (v, r) => Ok (v, r)
  end.

(** Whether a second [Decode] does not return [io.EOF]. *)
Definition trailing (rest : string) : bool := negb (is_empty (skip_ws rest)).

Inductive decoded A :=
| DecodeError (e : error)
| TrailingData
| Decoded (a : A).
Arguments DecodeError {A} e.
Arguments TrailingData {A}.
Arguments Decoded {A} a.

Definition decode_stream {A} (dec : members -> field A) (payload : string) : decoded A :=
  match decode_first payload with
  | Err e => DecodeError e
  | Ok (v, rest) =>
      match decode_struct dec v with
      | Err e => DecodeError e
      | Ok a => if trailing rest then TrailingData else Decoded a
      end
  end.

(** ** Command payloads *)

Section Payloads.
Context `{GoLib} (lim : limits) (AllowedTraceUploadURL : option URL).

(** A request structure, which the code holds behind an interface with the
    single method [Validate]. *)
Inductive request :=
| RqConfigure (r : CloudConfigureRequest)
| RqFactory (r : CloudFactoryRequest)
| RqCertupdate (r : CloudCertupdateRequest)
| RqReenroll (r : CloudReenrollRequest)
| RqRemoteAccess (r : CloudRemoteAccessRequest)
| RqLeds (r : CloudLedsRequest)
| RqTrace (r : CloudTraceRequest)
| RqPing (r : CloudPingRequest)
| RqTelemetry (r : CloudTelemetryRequest)
| RqReboot (r : CloudRebootRequest)
| RqUpgrade (r : CloudUpgradeRequest)
| RqScript (r : CloudScriptRequest).

Definition request_Validate (r : request) : option error :=
  match r with
  | RqConfigure r => CloudConfigureRequest_Validate lim r
  | RqFactory r => CloudFactoryRequest_Validate r
  | RqCertupdate r => CloudCertupdateRequest_Validate lim r
  | RqReenroll r => CloudReenrollRequest_Validate r
  | RqRemoteAccess r => CloudRemoteAccessRequest_Validate r
  | RqLeds r => CloudLedsRequest_Validate r
  | RqTrace r => CloudTraceRequest_Validate AllowedTraceUploadURL r
  | RqPing r => CloudPingRequest_Validate r
  | RqTelemetry r => CloudTelemetryRequest_Validate r
  | RqReboot r => CloudRebootRequest_Validate r
  | RqUpgrade r => CloudUpgradeRequest_Validate r
  | RqScript r => CloudScriptRequest_Validate lim r
  end.

Definition fmap_field {A B} (f : A -> B) (d : members -> field A) (ms : members) : field B :=
  a <-f d ms; fret (f a).

(** The structure chosen by command and action, as its decoder. *)
Definition request_decoder (command : CommandType) (action : ActionType)
    : option (members -> field request) :=
  if command =s CommandConfigure then Some (fmap_field RqConfigure decode_configure) else
  if action =s ActionFactory then Some (fmap_field RqFactory decode_factory) else
  if action =s ActionCertupdate then Some (fmap_field RqCertupdate decode_certupdate) else
  if action =s ActionReenroll then Some (fmap_field RqReenroll decode_reenroll) else
  if action =s ActionRTTY then Some (fmap_field RqRemoteAccess decode_remote_access) else
  if action =s ActionLeds then Some (fmap_field RqLeds decode_leds) else
  if action =s ActionTrace then Some (fmap_field RqTrace decode_trace) else
  if action =s ActionPing then Some (fmap_field RqPing decode_ping) else
  if action =s ActionTelemetry then Some (fmap_field RqTelemetry decode_telemetry) else
  if (action =s ActionReboot) || (command =s CommandReboot) then
    Some (fmap_field RqReboot decode_reboot) else
  if (action =s ActionUpgrade) || (command =s CommandUpgrade) then
    Some (fmap_field RqUpgrade decode_upgrade) else
  if (action =s ActionExecute) || (command =s CommandScript) then
    Some (fmap_field RqScript decode_script) else
  None.

(** [for command %q action %q] *)
Definition for_command (command : CommandType) (action : ActionType) : string :=
  " for command " +:+ strconv_Quote command +:+ " action " +:+ strconv_Quote action.

Definition ValidateCommandPayload (command : CommandType) (action : ActionType) (payload : string)
    : option error :=
  match request_decoder command action with
  | None =>
      reject (0 <? len payload) && negb (json_Valid payload)
        with ENew "payload contains invalid JSON";
      None
  | Some dec =>
      reject (len payload =? 0) || String.eqb payload "null"
        with ENew ("payload is required" +:+ for_command command action);
      match decode_stream dec payload with
      | DecodeError e => Some (EWrap ("malformed payload" +:+ for_command command action +:+ ": ") e)
      | TrailingData => Some (ENew ("trailing JSON in payload" +:+ for_command command action))
      | Decoded req =>
          match request_Validate req with
          | Some e => Some (EWrap ("invalid payload" +:+ for_command command action +:+ ": ") e)
          | None => None
          end
      end
  end.

(** ** Result payloads *)

Definition check_status {A} (dec : members -> field A) (validate : A -> option error)
    (payload : string) : option error :=
  match decode_stream dec payload with
  | DecodeError e => Some e
  | TrailingData => Some (ENew "trailing JSON in payload")
  | Decoded status => validate status
  end.

Definition ValidateResultPayload (command : CommandType) (action : ActionType) (payload : string)
    : option error :=
  if (len payload =? 0) || String.eqb (trim_space payload) "null" then None else
  if command =s CommandConfigure then
    check_status decode_configure_status CloudConfigureResultStatus_Validate payload else
  if command =s CommandReboot then
    check_status decode_timed_status CloudRebootStatus_Validate payload else
  if command =s CommandScript then
    check_status decode_script_status CloudScriptStatus_Validate payload else
  if command =s CommandUpgrade then
    check_status decode_timed_status CloudUpgradeStatus_Validate payload else
  if command =s CommandAction then
    if action =s ActionFactory then
      check_status decode_timed_status CloudFactoryStatus_Validate payload else
    if action =s ActionTelemetry then
      check_status decode_text_status CloudTelemetryStatus_Validate payload else
    if action =s ActionRTTY then
      check_status decode_remote_access_status CloudRemoteAccessStatus_Validate payload else
    if action =s ActionCertupdate then
      check_status decode_txt_status CloudCertupdateStatus_Validate payload else
    if action =s ActionReenroll then
      check_status decode_txt_status CloudReenrollStatus_Validate payload else
    if action =s ActionLeds then
      check_status decode_text_status CloudLedsStatus_Validate payload else
    if action =s ActionTrace then
      check_status decode_timed_status CloudTraceStatus_Validate payload else
    if action =s ActionPing then Some (ENew "ping result payload must be empty") else
    if action =s ActionReboot then
      check_status decode_timed_status CloudRebootStatus_Validate payload else
    if action =s ActionUpgrade then
      check_status decode_timed_status CloudUpgradeStatus_Validate payload else
    if action =s ActionExecute then
      check_status decode_script_status CloudScriptStatus_Validate payload else
    Some (ENew ("unrecognized action for result: " +:+ strconv_Quote action))
  else None.

End Payloads.

(** ** What an accepted payload guarantees *)

Lemma decode_stream_Decoded {A} (dec : members -> field A) payload a :
  decode_stream dec payload = Decoded a <->
  exists v, parse_json payload = Some v /\ decode_struct dec v = Ok a.
Proof.
  unfold decode_stream, decode_first, parse_json, trailing.
  destruct (skip_ws payload) as [|c s] eqn:Hs; [simpl; naive_solver|].
  assert (is_empty (String c s) = false) as -> by done.
  destruct (parse_value _ _ _) as [[v r]|]; [|naive_solver].
  destruct (decode_struct dec v) as [x|] eqn:Hd.
  - destruct (skip_ws r); simpl; [|naive_solver].
    split; [intros [= <-]; by exists v | intros (v' & [= <-] & Ha); congruence].
  - split; [done|]. intros (v' & Hv & Ha). destruct (skip_ws r); congruence.
Qed.

Section Accepted.
Context `{GoLib} (lim : limits) (allowed : option URL).

(** The serial and the schedule of a request; some have no schedule. *)
Definition request_serial (r : request) : string :=
  match r with
  | RqConfigure r => cfg_serial r | RqFactory r => fa_serial r | RqCertupdate r => ce_serial r
  | RqReenroll r => re_serial r | RqRemoteAccess r => ra_serial r | RqLeds r => le_serial r
  | RqTrace r => tr_serial r | RqPing r => pi_serial r | RqTelemetry r => te_serial r
  | RqReboot r => rb_serial r | RqUpgrade r => up_serial r | RqScript r => sc_serial r
  end.

Definition request_when (r : request) : Z :=
  match r with
  | RqConfigure r => cfg_when r | RqFactory r => fa_when r | RqReenroll r => re_when r
  | RqLeds r => le_when r | RqTrace r => tr_when r | RqReboot r => rb_when r
  | RqUpgrade r => up_when r | RqScript r => sc_when r
  | RqCertupdate _ | RqRemoteAccess _ | RqPing _ | RqTelemetry _ => 0
  end.

(** The device is named, unless by the configuration inside compressed data. *)
Definition names_device (r : request) : Prop :=
  request_serial r <> "" \/ exists c, r = RqConfigure c /\ cfg_compress64 c <> "".

Ltac split_checks :=
  repeat match goal with
  | H : Some _ = None |- _ => discriminate H
  | H : (if ?b then _ else _) = None |- _ => destruct b eqn:?
  | H : match ?x with _ => _ end = None |- _ => destruct x eqn:?
  | H : check _ _ _ = None |- _ => apply check_None in H as [? H]
  end; accepted.

Lemma configure_immediate r :
  CloudConfigureRequest_Validate lim r = None ->
  cfg_when r = 0 /\ (cfg_serial r <> "" \/ cfg_compress64 r <> "").
Proof.
  unfold CloudConfigureRequest_Validate, configure_fuel.
  destruct (ValidateAndGetUUID lim 2 r) as [u|] eqn:Hv; [intros _|done].
  apply configure_accepted_cases in Hv as [(? & ? & ? & ? & ? & ?)|(? & ? & ? & ? & ? & ? & ?)]; auto.
Qed.

Lemma valid_request_immediate r :
  request_Validate lim allowed r = None -> request_when r = 0 /\ names_device r.
Proof.
  unfold names_device. destruct r as [r|r|r|r|r|r|r|r|r|r|r|r]; simpl; intros Hv.
  1: apply configure_immediate in Hv; naive_solver.
  all: match type of Hv with ?f _ = None => unfold f in Hv | ?f _ _ = None => unfold f in Hv
       | ?f _ _ _ = None => unfold f in Hv end; split_checks; auto.
Qed.

Lemma decoder_null_refused command action dec req :
  request_decoder command action = Some dec -> decode_struct dec JNull = Ok req ->
  is_Some (request_Validate lim allowed req).
Proof.
  intros Hd Hn. unfold request_decoder in Hd.
  repeat match type of Hd with context [if ?b then _ else _] => destruct b end;
    try discriminate Hd; injection Hd as <-; lazy in Hn; injection Hn as <-; simpl.
  all: try by eexists.
Qed.

(** A payload passes [ValidateCommandPayload] exactly when the whole of it
    is one JSON value that decodes to the request structure of the command and
    that request is valid; such a request has no schedule and names its device,
    unless the device is named inside compressed data. *)
Theorem command_payload_accepted command action payload dec :
  request_decoder command action = Some dec ->
  (ValidateCommandPayload lim allowed command action payload = None <->
   exists v req, parse_json payload = Some v /\ decode_struct dec v = Ok req /\
     request_Validate lim allowed req = None) /\
  (forall v req, decode_struct dec v = Ok req -> request_Validate lim allowed req = None ->
     request_when req = 0 /\ names_device req).
Proof.
  intros Hdec. split; [|by intros v req _; apply valid_request_immediate].
  unfold ValidateCommandPayload. rewrite Hdec, check_None. split.
  - intros [_ Hv]. destruct (decode_stream dec payload) as [| |req] eqn:Hs; try done.
    apply decode_stream_Decoded in Hs as (v & ? & ?).
    destruct (request_Validate lim allowed req) eqn:?; [done|]. by exists v, req.
  - intros (v & req & Hp & Hd & Hv). split.
    + apply orb_false_iff. split.
      * apply Z.eqb_neq. destruct payload; [done|]. unfold len. simpl. lia.
      * apply String.eqb_neq. intros ->. vm_compute in Hp. injection Hp as <-.
        destruct (decoder_null_refused _ _ _ _ Hdec Hd) as [e He]. congruence.
    + assert (decode_stream dec payload = Decoded req) as -> by (apply decode_stream_Decoded; eauto).
      by rewrite Hv.
Qed.

End Accepted.

(** ** A concrete library

    The base64 reader on whole texts, no compression, URLs cut at their
    separators: enough to run the definitions on examples. *)
Module DemoLib.

Definition base64_val (a : ascii) : option Z :=
  let c := byte_val a in
  if (65 <=? c) && (c <=? 90) then Some (c - 65) else
  if (97 <=? c) && (c <=? 122) then Some (c - 71) else
  if (48 <=? c) && (c <=? 57) then Some (c + 4) else
  if c =? 43 then Some 62 else if c =? 47 then Some 63 else None.

Fixpoint base64_decode (fuel : nat) (s : string) : option string :=
  match fuel, s with
  | _, EmptyString => Some ""
  | S fuel, String a (String b (String c (String d r))) =>
      a ← base64_val a; b ← base64_val b;
      if Ascii.eqb c "=" then
        if Ascii.eqb d "=" && is_empty r then Some (b1 (a * 4 + b / 16)) else None
      else
        c ← base64_val c;
        let two := b2 (a * 4 + b / 16) (b mod 16 * 16 + c / 4) in
        if Ascii.eqb d "=" then if is_empty r then Some two else None
        else d ← base64_val d; rest ← base64_decode fuel r;
             Some (two +:+ b1 (c mod 4 * 64 + d) +:+ rest)
  | _, _ => None
  end.

Definition limited (s : string) (n : Z) : string := String.substring 0 (Z.to_nat n) s.

Fixpoint cut (c : ascii) (s : string) : string * string :=
  match s with
  | EmptyString => (EmptyString, EmptyString)
  | String a r => if Ascii.eqb a c then (EmptyString, r) else let '(x, y) := cut c r in (String a x, y)
  end.

Definition parse_url (s : string) : option URL :=
  let '(scheme, rest) := cut ":" s in
  rest ← strip_prefix "//" rest;
  let '(host, path) := cut "/" rest in
  let '(name, port) := cut ":" host in
  Some (mkURL scheme host name port None path "" "").

#[export] Instance lib : GoLib := {
  strconv_Quote s := json_string s;
  float64_text lit := lit;
  strings_EqualFold a b := String.eqb (fold_key a) (fold_key b);
  url_ParseRequestURI := parse_url;
  base64_ReadAll s n := match base64_decode (String.length s) s with
                        | Some b => Ok (limited b n)
                        | None => Err (ENew "illegal base64 data") end;
  zlib_base64_ReadAll s n := match base64_decode (String.length s) s with
                             | Some b => ZlibData (limited b n)
                             | None => ZlibHeaderError (ENew "zlib: invalid header") end;
  validator_Validate s := if json_Valid s then None else Some (ENew "schema");
  float64_text_literal lit H _ := H
}.

Definition script_payload : string :=
  dq "{'serial':'24f5a2','type':'shell','script':'ZWNobyBoaQo=','timeout':30}".

Example script_accepted :
  ValidateCommandPayload (SetLimits 0 0 0) None CommandScript ActionExecute script_payload = None.
Proof. vm_compute. reflexivity. Qed.

Example script_too_large :
  is_Some (ValidateCommandPayload (SetLimits 0 0 4) None CommandScript ActionExecute script_payload).
Proof. vm_compute. by eexists. Qed.

Example compressed_configure :
  ValidateAndGetUUID (SetLimits 0 0 0) configure_fuel
    (mkConfigure "" 0 0 ""
       "eyJzZXJpYWwiOiJhIiwidXVpZCI6MiwiY29uZmlnIjp7InV1aWQiOjd9fQ==" 43) = Ok 7.
Proof. vm_compute. reflexivity. Qed.

(** The hypothesis of [command_payload_accepted] at a concrete command. *)
Lemma command_payload_accepted_witness :
  ValidateCommandPayload (SetLimits 0 0 0) None CommandScript ActionExecute script_payload = None /\
  exists v req, parse_json script_payload = Some v /\
    decode_struct (fmap_field RqScript decode_script) v = Ok req /\
    request_Validate (SetLimits 0 0 0) None req = None.
Proof.
  split; [exact script_accepted|].
  exact (proj1 (proj1 (command_payload_accepted (SetLimits 0 0 0) None CommandScript ActionExecute
    script_payload (fmap_field RqScript decode_script) eq_refl)) script_accepted).
Defined.

End DemoLib.
