(* ===== verification/Config.v ===== *)
(** * Configuration

    pkg/config/config.go: the configuration file, its validation, the binding
    of the serial number to the client certificate, and the cache times from
    the environment.  The file system, certificates, NATS credentials, IP
    addresses and lower-casing of arbitrary text are parameters
    ([ConfigLib]). *)

From S2P Require Import Prelude GoTime GoDuration Json Commands Envelopes.
Open Scope go_scope.

(** The fields of a certificate the code reads; a URI may be nil. *)
Record Certificate := mkCertificate {
  CommonName : string;
  DNSNames : list string;
  URIs : list (option string)
}.

Class ConfigLib := {
  (** Whether the file is a directory. *)
  os_Stat : string -> result bool;
  os_Open : string -> option error;
  os_ReadFile_at : string -> result string;
  (** The DER certificates of a pair. *)
  tls_LoadX509KeyPair : string -> string -> result (list string);
  x509_ParseCertificate : string -> result Certificate;
  AppendCertsFromPEM : string -> bool;
  jwt_ParseDecoratedJWT : string -> option error;
  jwt_ParseDecoratedNKey : string -> option error;
  (** [net.ParseIP(host)] is an address that [IsLoopback] or [IsPrivate]. *)
  net_local_IP : string -> bool;
  strings_ToLower : string -> string
}.

(** ** Data *)

Definition DefaultCompressionThresholdBytes : Z := 2048.
Definition DefaultMaxFrameSizeBytes : Z := 11 * 1024 * 1024.
Definition DefaultMaxConsecutiveFrameErrors : Z := 20.
Definition DefaultMaxConcurrentRequests : Z := 100.

Record CloudTLSConfig := mkCloudTLS {
  t_CAFile : string; t_ClientCertFile : string; t_ClientKeyFile : string; t_ServerName : string }.

Record CloudConfig := mkCloud {
  c_URL : string;
  ConnectTimeoutSeconds : Z;
  WriteTimeoutSeconds : Z;
  PingIntervalSeconds : Z;
  PongTimeoutSeconds : Z;
  StableSessionThresholdSeconds : Z;
  CompressionThresholdBytes : Z;
  MaxFrameSizeBytes : Z;
  MaxConsecutiveFrameErrors : Z;
  c_TLS : CloudTLSConfig }.

Record NATSConfig := mkNATS {
  n_Servers : list string;
  n_CredentialsFile : string;
  n_CAFile : string;
  n_ClientCertFile : string;
  n_ClientKeyFile : string;
  n_AllowInsecureLocalDev : bool;
  n_Target : string }.

Record QueueConfig := mkQueues {
  WSWriterCapacity : Z;
  EmergencyCapacity : Z;
  NATSPublishCapacity : Z;
  CommandResultCapacity : Z;
  TelemetryCapacity : Z;
  q_MaxConcurrentRequests : Z }.

Record Config := mkConfig {
  Serial : string; Cloud : CloudConfig; NATS : NATSConfig; Queues : QueueConfig }.

(** ** Validation

    A [Validate] method returns the structure with its defaults filled in. *)
Definition refuse_if {A} (bad : bool) (msg : string) (k : result A) : result A :=
  if bad then Err (ENew msg) else k.
Notation "'refuse' c 'with' m ; k" :=
  (refuse_if c m k) (at level 60, c at level 200, m at level 200, right associativity) : go_scope.

Definition wrap_err {A} (msg : string) (r : result A) : result A :=
  match r with Ok a => Ok a | Err e => Err (EWrap msg e) end.

Definition or_err (e : option error) : result unit :=
  match e with Some e => Err e | None => Ok tt end.

Section Validation.
Context `{GoLib} `{ConfigLib}.

Definition checkFile (path name : string) : result unit :=
  refuse is_empty path with name +:+ " is required";
  dir <-? wrap_err (name +:+ " is not accessible: ") (os_Stat path);
  refuse dir with name +:+ " is a directory";
  wrap_err (name +:+ " cannot be opened: ") (or_err (os_Open path)).

Definition CloudTLSConfig_Validate (c : CloudTLSConfig) : result unit :=
  _ <-? checkFile (t_CAFile c) "tls ca_file";
  _ <-? checkFile (t_ClientCertFile c) "tls client_cert_file";
  _ <-? checkFile (t_ClientKeyFile c) "tls client_key_file";
  _ <-? wrap_err "invalid tls client certificate or key: "
          (tls_LoadX509KeyPair (t_ClientCertFile c) (t_ClientKeyFile c));
  caCert <-? wrap_err "failed to read tls ca_file: " (os_ReadFile_at (t_CAFile c));
  refuse negb (AppendCertsFromPEM caCert) with "failed to parse tls ca_file as a valid PEM CA bundle";
  Ok tt.

Definition norm (s : string) : string := strings_ToLower (trim_space s).

Definition CloudTLSConfig_ValidateSerialBinding (c : CloudTLSConfig) (serial : string) : result unit :=
  if is_empty (t_ClientCertFile c) then Ok tt else
  certs <-? wrap_err "failed to load client certificate for serial binding validation: "
              (tls_LoadX509KeyPair (t_ClientCertFile c) (t_ClientKeyFile c));
  match certs with
  | [] => Err (ENew ("no certificates found in " +:+ t_ClientCertFile c))
  | der :: _ =>
      leaf <-? wrap_err "failed to parse client certificate: " (x509_ParseCertificate der);
      let normSerial := norm serial in
      let normCN := norm (CommonName leaf) in
      if String.eqb normCN normSerial && negb (is_empty normCN) then Ok tt else
      if existsb (fun dns => String.eqb (norm dns) normSerial) (DNSNames leaf) then Ok tt else
      if existsb (fun uri => match uri with Some u => String.eqb (norm u) normSerial | None => false end)
           (URIs leaf) then Ok tt else
      Err (ENew ("serial mismatch: interface_map serial " +:+ strconv_Quote serial +:+
                 " does not match client certificate CN " +:+ strconv_Quote (CommonName leaf)))
  end.

(** A field that is zero by default and must not be negative. *)
Definition defaulted (z default : Z) : Z := if z =? 0 then default else z.

Definition CloudConfig_Validate (c : CloudConfig) : result CloudConfig :=
  refuse is_empty (c_URL c) with "cloud url is required";
  refuse match url_ParseRequestURI (c_URL c) with
         | None => true
         | Some u => negb (String.eqb (u_Scheme u) "wss") || is_empty (u_Host u)
         end with "cloud url must be a valid wss URL";
  refuse ConnectTimeoutSeconds c <=? 0 with "cloud connect_timeout_seconds must be positive";
  refuse WriteTimeoutSeconds c <=? 0 with "cloud write_timeout_seconds must be positive";
  refuse PingIntervalSeconds c <=? 0 with "cloud ping_interval_seconds must be positive";
  refuse PongTimeoutSeconds c <=? 0 with "cloud pong_timeout_seconds must be positive";
  refuse StableSessionThresholdSeconds c <=? 0
    with "cloud stable_session_threshold_seconds must be positive";
  refuse CompressionThresholdBytes c <? 0 with "cloud compression_threshold_bytes must be positive";
  refuse MaxFrameSizeBytes c <? 0 with "cloud max_frame_size_bytes must be zero or positive";
  refuse MaxConsecutiveFrameErrors c <? 0
    with "cloud max_consecutive_frame_errors must be zero or positive";
  _ <-? CloudTLSConfig_Validate (c_TLS c);
  Ok (mkCloud (c_URL c) (ConnectTimeoutSeconds c) (WriteTimeoutSeconds c) (PingIntervalSeconds c)
        (PongTimeoutSeconds c) (StableSessionThresholdSeconds c)
        (defaulted (CompressionThresholdBytes c) DefaultCompressionThresholdBytes)
        (defaulted (MaxFrameSizeBytes c) DefaultMaxFrameSizeBytes)
        (defaulted (MaxConsecutiveFrameErrors c) DefaultMaxConsecutiveFrameErrors) (c_TLS c)).

(** The loop over the servers: whether one of them is plain [nats]. *)
Fixpoint check_servers (allow : bool) (servers : list string) : result bool :=
  match servers with
  | [] => Ok false
  | srv :: servers =>
      match url_ParseRequestURI srv with
      | None => Err (ENew "nats server must be a valid URL")
      | Some u =>
          refuse is_empty (u_Host u) with "nats server must be a valid URL";
          refuse (negb (is_empty (u_Path u)) && negb (String.eqb (u_Path u) "/"))
                 || negb (is_empty (u_RawQuery u)) || negb (is_empty (u_Fragment u))
            with "nats server URL must contain only scheme, host, and port (no paths, queries, or fragments)";
          refuse negb allow && negb (String.eqb (u_Scheme u) "tls")
            with "nats server must use tls:// (nats:// is only permitted if allow_insecure_local_dev is true)";
          refuse allow && negb (String.eqb (u_Scheme u) "tls") && negb (String.eqb (u_Scheme u) "nats")
            with "nats server must use tls:// or nats://";
          rest <-? check_servers allow servers;
          Ok (String.eqb (u_Scheme u) "nats" || rest)
      end
  end.

Definition local_host (srv : string) : bool :=
  match url_ParseRequestURI srv with
  | None => false
  | Some u =>
      let host := u_Hostname u in
      String.eqb host "localhost" || String.eqb host "nats-server" || net_local_IP host
  end.

Definition check_credentials (n : NATSConfig) : result unit :=
  if is_empty (n_CredentialsFile n) then Ok tt else
  _ <-? checkFile (n_CredentialsFile n) "nats credentials_file";
  natsCreds <-? wrap_err "failed to read nats credentials_file: " (os_ReadFile_at (n_CredentialsFile n));
  _ <-? wrap_err "failed to parse JWT from nats credentials_file: " (or_err (jwt_ParseDecoratedJWT natsCreds));
  wrap_err "failed to parse NKey from nats credentials_file: " (or_err (jwt_ParseDecoratedNKey natsCreds)).

Definition check_nats_ca (n : NATSConfig) : result unit :=
  if is_empty (n_CAFile n) then Ok tt else
  _ <-? checkFile (n_CAFile n) "nats ca_file";
  natsCaCert <-? wrap_err "failed to read nats ca_file: " (os_ReadFile_at (n_CAFile n));
  refuse negb (AppendCertsFromPEM natsCaCert) with "failed to parse nats ca_file as a valid PEM CA bundle";
  Ok tt.

Definition check_nats_pair (n : NATSConfig) : result unit :=
  let cert := n_ClientCertFile n in let key := n_ClientKeyFile n in
  refuse (negb (is_empty cert) && is_empty key) || (is_empty cert && negb (is_empty key))
    with "nats client_cert_file and client_key_file must both be provided for mTLS";
  if negb (is_empty cert) && negb (is_empty key) then
    _ <-? checkFile cert "nats client_cert_file";
    _ <-? checkFile key "nats client_key_file";
    _ <-? wrap_err "invalid nats client certificate or key: " (tls_LoadX509KeyPair cert key);
    Ok tt
  else Ok tt.

Definition NATSConfig_Validate (n : NATSConfig) : result NATSConfig :=
  let target := if is_empty (n_Target n) then "vyos" else n_Target n in
  _ <-? wrap_err "nats target is invalid: " (or_err (ValidateNATSTarget target));
  match n_Servers n with [] => Err (ENew "nats servers are required") | _ =>
  let allow := n_AllowInsecureLocalDev n in
  plain <-? check_servers allow (n_Servers n);
  let hasInsecureFeatures := is_empty (n_CredentialsFile n) || is_empty (n_CAFile n) || plain in
  refuse hasInsecureFeatures && allow && negb (forallb local_host (n_Servers n))
    with "insecure features (nats://, missing creds, missing CA) are only permitted for loopback addresses or private local dev addresses";
  refuse negb allow && is_empty (n_CredentialsFile n)
    with "nats credentials_file is strictly required in production";
  _ <-? check_credentials n;
  refuse negb allow && is_empty (n_CAFile n) with "nats ca_file is strictly required in production";
  _ <-? check_nats_ca n;
  _ <-? check_nats_pair n;
  Ok (mkNATS (n_Servers n) (n_CredentialsFile n) (n_CAFile n) (n_ClientCertFile n) (n_ClientKeyFile n)
        allow target)
  end.

Definition QueueConfig_Validate (q : QueueConfig) : result QueueConfig :=
  refuse WSWriterCapacity q <=? 0 with "ws_writer_capacity must be positive";
  refuse EmergencyCapacity q <=? 0 with "emergency_capacity must be positive";
  refuse NATSPublishCapacity q <=? 0 with "nats_publish_capacity must be positive";
  refuse CommandResultCapacity q <=? 0 with "command_result_capacity must be positive";
  refuse TelemetryCapacity q <=? 0 with "telemetry_capacity must be positive";
  refuse q_MaxConcurrentRequests q <? 0 with "max_concurrent_requests must be positive";
  Ok (mkQueues (WSWriterCapacity q) (EmergencyCapacity q) (NATSPublishCapacity q)
        (CommandResultCapacity q) (TelemetryCapacity q)
        (defaulted (q_MaxConcurrentRequests q) DefaultMaxConcurrentRequests)).

Definition Config_Validate (c : Config) : result Config :=
  cloud <-? CloudConfig_Validate (Cloud c);
  nats <-? NATSConfig_Validate (NATS c);
  queues <-? QueueConfig_Validate (Queues c);
  Ok (mkConfig (Serial c) cloud nats queues).

Definition Config_ValidateSerialBinding (c : Config) : result unit :=
  refuse is_empty (Serial c) with "serial cannot be empty for serial binding validation";
  CloudTLSConfig_ValidateSerialBinding (c_TLS (Cloud c)) (Serial c).

(** ** What an accepted configuration guarantees *)

Lemma refuse_Ok {A} b msg (k : result A) a : (refuse b with msg; k) = Ok a -> b = false /\ k = Ok a.
Proof. unfold refuse_if. by destruct b. Qed.

Lemma wrap_Ok {A} msg (r : result A) a : wrap_err msg r = Ok a -> r = Ok a.
Proof. by destruct r. Qed.

(** The credentials and the CA bundle of a NATS configuration parse. *)
Definition credentials_usable (n : NATSConfig) : Prop :=
  exists creds, os_ReadFile_at (n_CredentialsFile n) = Ok creds /\
    jwt_ParseDecoratedJWT creds = None /\ jwt_ParseDecoratedNKey creds = None.
Definition ca_usable (n : NATSConfig) : Prop :=
  exists ca, os_ReadFile_at (n_CAFile n) = Ok ca /\ AppendCertsFromPEM ca = true.

Definition server_scheme (srv scheme : string) : Prop :=
  exists u, url_ParseRequestURI srv = Some u /\ u_Host u <> "" /\ u_Scheme u = scheme.

Lemma check_servers_Ok allow servers plain :
  check_servers allow servers = Ok plain ->
  Forall (fun srv => server_scheme srv "tls" \/ (allow = true /\ server_scheme srv "nats")) servers /\
  (plain = false -> Forall (fun srv => server_scheme srv "tls") servers).
Proof.
  revert plain. induction servers as [|srv servers IH]; intros plain; simpl; [by repeat constructor|].
  destruct (url_ParseRequestURI srv) as [u|] eqn:Hu; [|done].
  intros (Hh & (_ & (Ht & (Hn & E)%refuse_Ok)%refuse_Ok)%refuse_Ok)%refuse_Ok.
  destruct (check_servers allow servers) as [rest|]; [|done]. injection E as <-.
  destruct (IH rest eq_refl) as [Hall Htls].
  assert (Hhost : u_Host u <> "") by (by apply String.eqb_neq).
  destruct (String.eqb_spec (u_Scheme u) "tls") as [Hs|Hs].
  - rewrite Hs. change (String.eqb "tls" "nats") with false. cbn [orb].
    split; [constructor; [left; by exists u|done]|]. intros Hr. constructor; [by exists u|by apply Htls].
  - destruct allow; [|done]. simpl in Hn. apply negb_false_iff, String.eqb_eq in Hn. rewrite Hn. simpl.
    split; [|done]. constructor; [right; split; [done|by exists u]|done].
Qed.

Lemma check_credentials_Ok n r : check_credentials n = Ok r -> n_CredentialsFile n <> "" -> credentials_usable n.
Proof.
  unfold check_credentials, is_empty. intros Hc Hne. rewrite (proj2 (String.eqb_neq _ _) Hne) in Hc.
  destruct (checkFile _ _); [|done].
  destruct (wrap_err _ (os_ReadFile_at _)) as [creds|] eqn:Hr; [|done]. apply wrap_Ok in Hr.
  destruct (wrap_err _ (or_err (jwt_ParseDecoratedJWT creds))) eqn:Hj; [|done]. apply wrap_Ok in Hj.
  apply wrap_Ok in Hc. exists creds. split_and!; [done|..].
  - by destruct (jwt_ParseDecoratedJWT creds).
  - by destruct (jwt_ParseDecoratedNKey creds).
Qed.

Lemma check_nats_ca_Ok n r : check_nats_ca n = Ok r -> n_CAFile n <> "" -> ca_usable n.
Proof.
  unfold check_nats_ca, is_empty. intros Hc Hne. rewrite (proj2 (String.eqb_neq _ _) Hne) in Hc.
  destruct (checkFile _ _); [|done].
  destruct (wrap_err _ (os_ReadFile_at _)) as [ca|] eqn:Hr; [|done]. apply wrap_Ok in Hr.
  apply refuse_Ok in Hc as [Hp _]. exists ca. split; [done|]. by apply negb_false_iff.
Qed.

Lemma NATSConfig_Validate_inv n n' :
  NATSConfig_Validate n = Ok n' ->
  n' = mkNATS (n_Servers n) (n_CredentialsFile n) (n_CAFile n) (n_ClientCertFile n) (n_ClientKeyFile n)
         (n_AllowInsecureLocalDev n) (if is_empty (n_Target n) then "vyos" else n_Target n) /\
  ValidateNATSTarget (n_Target n') = None /\ n_Servers n <> [] /\
  exists plain, check_servers (n_AllowInsecureLocalDev n) (n_Servers n) = Ok plain /\
    ((is_empty (n_CredentialsFile n) || is_empty (n_CAFile n) || plain) && n_AllowInsecureLocalDev n
       && negb (forallb local_host (n_Servers n)) = false) /\
    (negb (n_AllowInsecureLocalDev n) && is_empty (n_CredentialsFile n) = false) /\
    (negb (n_AllowInsecureLocalDev n) && is_empty (n_CAFile n) = false) /\
    check_credentials n = Ok tt /\ check_nats_ca n = Ok tt.
Proof.
  unfold NATSConfig_Validate. set (target := if is_empty (n_Target n) then _ else _).
  destruct (wrap_err _ (or_err (ValidateNATSTarget target))) eqn:Ht; [|done]. apply wrap_Ok in Ht.
  destruct (n_Servers n) as [|srv srvs] eqn:Hs; [done|]. rewrite <- Hs.
  destruct (check_servers _ _) as [plain|] eqn:Hp; [|done].
  intros (H1 & (H2 & E)%refuse_Ok)%refuse_Ok.
  destruct (check_credentials n) as [[]|] eqn:Hc; [|done]. apply refuse_Ok in E as [H3 E].
  destruct (check_nats_ca n) as [[]|] eqn:Hca; [|done]. destruct (check_nats_pair n) as [[]|]; [|done].
  injection E as <-. split_and!; [done| |by rewrite Hs|].
  - simpl. by destruct (ValidateNATSTarget target).
  - by exists plain.
Qed.

(** A NATS configuration that was accepted is safe to use.  Outside local
    development every server is reached over TLS, and the credentials and the
    CA bundle are there and parse; an unencrypted server, or missing
    credentials or CA bundle, is accepted only with the local development flag
    and only if every server is a local or private host. *)
Theorem nats_config_secure n n' :
  NATSConfig_Validate n = Ok n' ->
  ValidateNATSTarget (n_Target n') = None /\ n_Servers n' <> [] /\
  (n_AllowInsecureLocalDev n' = false ->
     Forall (fun srv => server_scheme srv "tls") (n_Servers n') /\
     credentials_usable n' /\ ca_usable n') /\
  (Forall (fun srv => local_host srv = true) (n_Servers n') \/
     Forall (fun srv => server_scheme srv "tls") (n_Servers n') /\ credentials_usable n' /\ ca_usable n').
Proof.
  intros (-> & Ht & Hne & plain & Hp & H1 & H2 & H3 & Hc & Hca)%NATSConfig_Validate_inv.
  destruct (check_servers_Ok _ _ _ Hp) as [Hall Htls]. cbn [n_Servers n_AllowInsecureLocalDev].
  assert (Huse : n_CredentialsFile n <> "" -> n_CAFile n <> "" -> credentials_usable n /\ ca_usable n)
    by (split; [by eapply check_credentials_Ok|by eapply check_nats_ca_Ok]).
  split_and!; [done|done| |].
  - intros Hf. rewrite Hf in H2, H3, Hall. simpl in H2, H3. apply String.eqb_neq in H2, H3.
    split; [|by apply Huse]. eapply Forall_impl; [exact Hall|]. intros srv [?|[? _]]; done.
  - destruct (n_AllowInsecureLocalDev n) eqn:Hf.
    + rewrite andb_true_r in H1. destruct (forallb local_host (n_Servers n)) eqn:Hl.
      * left. apply Forall_forall. intros srv Hin. rewrite forallb_forall in Hl.
        apply Hl. by apply list_elem_of_In.
      * rewrite andb_true_r in H1. apply orb_false_iff in H1 as [[Hc1 Hc2]%orb_false_iff ->].
        apply String.eqb_neq in Hc1, Hc2. right. split; [by apply Htls|by apply Huse].
    + simpl in H2, H3. apply String.eqb_neq in H2, H3. right. split; [|by apply Huse].
      eapply Forall_impl; [exact Hall|]. intros srv [?|[? _]]; done.
Qed.

Lemma CloudConfig_Validate_inv c c' :
  CloudConfig_Validate c = Ok c' ->
  server_scheme (c_URL c') "wss" /\ c_TLS c' = c_TLS c /\
  0 < ConnectTimeoutSeconds c' /\ 0 < WriteTimeoutSeconds c' /\ 0 < PingIntervalSeconds c' /\
  0 < PongTimeoutSeconds c' /\ 0 < StableSessionThresholdSeconds c' /\
  0 < CompressionThresholdBytes c' /\ 0 < MaxFrameSizeBytes c' /\ 0 < MaxConsecutiveFrameErrors c'.
Proof.
  assert (Hd : forall z d, 0 < d -> (z <? 0) = false -> 0 < defaulted z d).
  { intros z d Hpos Hz%Z.ltb_ge. unfold defaulted. destruct (Z.eqb_spec z 0); lia. }
  intros (_ & (Hu & (H1%Z.leb_gt & (H2%Z.leb_gt & (H3%Z.leb_gt & (H4%Z.leb_gt & (H5%Z.leb_gt &
    (H6 & (H7 & (H8 & E)%refuse_Ok)%refuse_Ok)%refuse_Ok)%refuse_Ok)%refuse_Ok)%refuse_Ok)%refuse_Ok)
    %refuse_Ok)%refuse_Ok)%refuse_Ok.
  destruct (CloudTLSConfig_Validate (c_TLS c)); [|done]. injection E as <-. simpl.
  split_and!; try done; try (by apply Hd).
  destruct (url_ParseRequestURI (c_URL c)) as [u|] eqn:Hp; [|done]. exists u.
  apply orb_false_iff in Hu as [Hs%negb_false_iff%String.eqb_eq Hh%String.eqb_neq]. done.
Qed.

(** ** Cache times from the environment *)

Record CacheTTLConfig := mkTTLs {
  ttl_Configure : Z; ttl_LEDs : Z; ttl_Reboot : Z; ttl_RemoteAccess : Z; ttl_Factory : Z;
  ttl_Upgrade : Z; ttl_Certupdate : Z; ttl_Reenroll : Z; ttl_Script : Z; ttl_Default : Z }.

(** The texts of the errors leave out the duration printed with [%v].
    [os.Getenv]: empty when the variable is not set. *)
Definition environment := string -> string.

Definition parseEnvDuration (getenv : environment) (envKey : string) (defaultDuration : Z) : result Z :=
  let val := getenv envKey in
  if is_empty val then Ok (Seconds_int defaultDuration) else
  match ParseDuration val with
  | None => Err (EWrap ("failed to parse " +:+ envKey +:+ ": ")
                   (ENew ("time: invalid duration " +:+ strconv_Quote val)))
  | Some d =>
      if d <? Second then Err (ENew (envKey +:+ " must be at least 1s"))
      else Ok (Seconds_int d)
  end.

Definition LoadCacheTTLConfigFromEnv (getenv : environment) : result CacheTTLConfig :=
  configure <-? parseEnvDuration getenv "OLG_CACHE_TTL_CONFIGURE" (5 * Minute);
  leds <-? parseEnvDuration getenv "OLG_CACHE_TTL_LEDS" (5 * Minute);
  reboot <-? parseEnvDuration getenv "OLG_CACHE_TTL_REBOOT" (10 * Minute);
  remote <-? parseEnvDuration getenv "OLG_CACHE_TTL_REMOTE_ACCESS" (10 * Minute);
  factory <-? parseEnvDuration getenv "OLG_CACHE_TTL_FACTORY" (30 * Minute);
  upgrade <-? parseEnvDuration getenv "OLG_CACHE_TTL_UPGRADE" (60 * Minute);
  certupdate <-? parseEnvDuration getenv "OLG_CACHE_TTL_CERTUPDATE" (30 * Minute);
  reenroll <-? parseEnvDuration getenv "OLG_CACHE_TTL_REENROLL" (30 * Minute);
  script <-? parseEnvDuration getenv "OLG_CACHE_TTL_SCRIPT" (30 * Minute);
  default <-? parseEnvDuration getenv "OLG_CACHE_TTL_DEFAULT" (2 * Minute);
  Ok (mkTTLs configure leds reboot remote factory upgrade certupdate reenroll script default).

Definition TTLForMethod (c : CacheTTLConfig) (method : string) : Z :=
  let m := strings_ToLower method in
  if String.eqb m "configure" then ttl_Configure c else
  if String.eqb m "leds" then ttl_LEDs c else
  if String.eqb m "reboot" then ttl_Reboot c else
  if String.eqb m "remoteaccess" || String.eqb m "remote_access" || String.eqb m "rtty"
  then ttl_RemoteAccess c else
  if String.eqb m "factory" then ttl_Factory c else
  if String.eqb m "upgrade" then ttl_Upgrade c else
  if String.eqb m "certupdate" then ttl_Certupdate c else
  if String.eqb m "reenroll" then ttl_Reenroll c else
  if String.eqb m "script" then ttl_Script c else ttl_Default c.

(** ** Loading

    A struct field that is a struct itself: the members of every object
    assigned to it, in order. *)
Definition nested (names : list string) (name : string) (ms : members) : members * bool :=
  foldl (fun acc (rv : string * jval) =>
           match rv.2 with
           | JObj ms => (acc.1 ++ ms, acc.2)
           | JNull => acc
           | _ => (acc.1, true)
           end) ([], false) (assigned names name ms).

Definition decode_nested {A} (dec : members -> field A) (names : list string) (name : string)
    (ms : members) : field A :=
  let '(sub, bad) := nested names name ms in
  let '(a, bad') := dec sub in (a, bad || bad').

Definition decode_tls (ms : members) : field CloudTLSConfig :=
  let n := ["ca_file"; "client_cert_file"; "client_key_file"; "server_name"] in
  ca <-f fld n "ca_file" dec_string "" ms;
  cert <-f fld n "client_cert_file" dec_string "" ms;
  key <-f fld n "client_key_file" dec_string "" ms;
  name <-f fld n "server_name" dec_string "" ms;
  fret (mkCloudTLS ca cert key name).

Definition decode_cloud (ms : members) : field CloudConfig :=
  let n := ["url"; "connect_timeout_seconds"; "write_timeout_seconds"; "ping_interval_seconds";
            "pong_timeout_seconds"; "stable_session_threshold_seconds"; "compression_threshold_bytes";
            "max_frame_size_bytes"; "max_consecutive_frame_errors"; "tls"] in
  url <-f fld n "url" dec_string "" ms;
  connect <-f fld n "connect_timeout_seconds" dec_int_ 0 ms;
  write <-f fld n "write_timeout_seconds" dec_int_ 0 ms;
  ping <-f fld n "ping_interval_seconds" dec_int_ 0 ms;
  pong <-f fld n "pong_timeout_seconds" dec_int_ 0 ms;
  stable <-f fld n "stable_session_threshold_seconds" dec_int_ 0 ms;
  compression <-f fld n "compression_threshold_bytes" dec_int_ 0 ms;
  frame <-f fld n "max_frame_size_bytes" dec_int_ 0 ms;
  errors <-f fld n "max_consecutive_frame_errors" dec_int_ 0 ms;
  tls <-f decode_nested decode_tls n "tls" ms;
  fret (mkCloud url connect write ping pong stable compression frame errors tls).

Definition decode_nats (ms : members) : field NATSConfig :=
  let n := ["servers"; "credentials_file"; "ca_file"; "client_cert_file"; "client_key_file";
            "allow_insecure_local_dev"; "target"] in
  servers <-f fld n "servers" dec_strings [] ms;
  creds <-f fld n "credentials_file" dec_string "" ms;
  ca <-f fld n "ca_file" dec_string "" ms;
  cert <-f fld n "client_cert_file" dec_string "" ms;
  key <-f fld n "client_key_file" dec_string "" ms;
  allow <-f fld n "allow_insecure_local_dev" dec_bool false ms;
  target <-f fld n "target" dec_string "" ms;
  fret (mkNATS servers creds ca cert key allow target).

Definition decode_queues (ms : members) : field QueueConfig :=
  let n := ["ws_writer_capacity"; "emergency_capacity"; "nats_publish_capacity";
            "command_result_capacity"; "telemetry_capacity"; "max_concurrent_requests"] in
  writer <-f fld n "ws_writer_capacity" dec_int_ 0 ms;
  emergency <-f fld n "emergency_capacity" dec_int_ 0 ms;
  publish <-f fld n "nats_publish_capacity" dec_int_ 0 ms;
  results <-f fld n "command_result_capacity" dec_int_ 0 ms;
  telemetry <-f fld n "telemetry_capacity" dec_int_ 0 ms;
  requests <-f fld n "max_concurrent_requests" dec_int_ 0 ms;
  fret (mkQueues writer emergency publish results telemetry requests).

Definition decode_config (ms : members) : field Config :=
  let n := ["cloud"; "nats"; "queues"] in
  cloud <-f decode_nested decode_cloud n "cloud" ms;
  nats <-f decode_nested decode_nats n "nats" ms;
  queues <-f decode_nested decode_queues n "queues" ms;
  fret (mkConfig "" cloud nats queues).

Definition LoadConfig (path : string) : result Config :=
  data <-? wrap_err "failed to read configuration file: " (os_ReadFile_at path);
  wrap_err "failed to parse configuration JSON: " (unmarshal decode_config data).

Definition decode_mapping (ms : members) : field string := fld ["serial"] "serial" dec_string "" ms.

Definition LoadSerialFromMapping (filePath : string) : result string :=
  data <-? wrap_err "failed to read interface map file: " (os_ReadFile_at filePath);
  payload <-? wrap_err "failed to parse interface map JSON: " (unmarshal decode_mapping data);
  let serial := trim_space payload in
  refuse is_empty serial with "serial field is empty or whitespace in mapping file";
  Ok serial.

End Validation.

(** ** A configuration, concretely *)

Module DemoConfig.
Import DemoLib.

#[export] Instance host : ConfigLib := {
  os_Stat _ := Ok false;
  os_Open _ := None;
  os_ReadFile_at path :=
    if String.eqb path "config.json" then
      Ok (dq "{'cloud':{'url':'wss://gw:15002','connect_timeout_seconds':10,'tls':{'ca_file':'ca'}},'nats':{'servers':['tls://n:4222'],'credentials_file':'creds','ca_file':'ca'},'queues':{'telemetry_capacity':4}}")
    else Ok path;
  tls_LoadX509KeyPair cert _ := Ok [cert];
  x509_ParseCertificate der := Ok (mkCertificate der [] []);
  AppendCertsFromPEM s := String.eqb s "ca";
  jwt_ParseDecoratedJWT s := if String.eqb s "creds" then None else Some (ENew "jwt");
  jwt_ParseDecoratedNKey s := None;
  net_local_IP s := String.eqb s "127.0.0.1";
  strings_ToLower := string_map lower_ascii
}.

Example load :
  match LoadConfig "config.json" with
  | Ok c => ConnectTimeoutSeconds (Cloud c) = 10 /\ n_Servers (NATS c) = ["tls://n:4222"]
            /\ t_CAFile (c_TLS (Cloud c)) = "ca" /\ TelemetryCapacity (Queues c) = 4
  | Err _ => False
  end.
Proof. vm_compute. by split_and!. Qed.

Definition nats0 : NATSConfig := mkNATS ["tls://n:4222"] "creds" "ca" "" "" false "".

Lemma nats_config_secure_witness :
  exists n', NATSConfig_Validate nats0 = Ok n' /\ credentials_usable n' /\ ca_usable n'.
Proof.
  destruct (NATSConfig_Validate nats0) as [n'|e] eqn:E.
  - exists n'. split; [done|].
    refine (proj2 (proj1 (proj2 (proj2 (nats_config_secure nats0 n' E))) _)).
    vm_compute in E. injection E as <-. reflexivity.
  - exfalso. vm_compute in E. discriminate E.
Defined.

End DemoConfig.
