(* ===== verification/DeviceResult.v ===== *)
(** * Results for the cloud

    The end of pkg/contracts/rpc.go: how the result of a device becomes the
    [result] member of a JSON-RPC response ([BuildDeviceResultObject] and
    [EnsureStatusInResult]).

    Both decode a payload into a [map[string]interface{}], change some entries
    and marshal the map again: keys sorted, numbers through [float64].  The
    result is an [option]: assigning to a nil map is a panic.  [ResultText]
    shows what the marshalled maps say. *)

From S2P Require Import Prelude Json Rpc Commands Envelopes.

(** ** Decoded maps

    A value of such a map: decoded from the payload, or put there by the code. *)
Inductive leaf :=
| LVal (v : jval)
| LInt (z : Z)
| LStr (s : string).

Inductive entry :=
| ELeaf (l : leaf)
| EMap (m : gmap string leaf).

Abbreviation any_map := (gmap string entry).

Section Marshal.
Context `{GoLib}.

(** The entries in the order of their keys. *)
Definition sorted_entries {A} (m : gmap string A) : list (string * A) :=
  merge_sort (fun a b : string * A => Is_true (String.leb a.1 b.1)) (map_to_list m).

Definition sorted_fields (m : gmap string string) : list (option (string * string)) :=
  map Some (sorted_entries m).

(** An object written from the texts of its members. *)
Definition json_map (m : gmap string string) : string := json_object (sorted_fields m).

(** A decoded value: an object keeps the last of several members with one
    name, a number that no [float64] can hold was decoded to nil. *)
Fixpoint marshal_any (v : jval) : string :=
  match v with
  | JNull => "null"
  | JBool b => if b then "true" else "false"
  | JNum lit => if float64_in_range lit then float64_text lit else "null"
  | JStr s => json_string s
  | JArr l => "[" +:+ String.concat "," (map marshal_any l) +:+ "]"
  | JObj l => json_map (foldl (fun m e => <[e.1 := e.2]> m) ∅
                              (map (fun e => (e.1, marshal_any e.2.2)) l))
  end.

(** The members of an object as a map, the last of equal names staying. *)
Definition decode_map (ms : members) : gmap string jval :=
  foldl (fun m e => <[e.1 := e.2.2]> m) ∅ ms.

(** Decoding it reports an error: a number that does not fit. *)
Fixpoint any_error (v : jval) : bool :=
  match v with
  | JNum lit => negb (float64_in_range lit)
  | JArr l => existsb any_error l
  | JObj l => existsb (fun e => any_error e.2.2) l
  | _ => false
  end.

Definition marshal_leaf (l : leaf) : string :=
  match l with LVal v => marshal_any v | LInt z => json_int z | LStr s => json_string s end.

Definition marshal_entry (e : entry) : string :=
  match e with ELeaf l => marshal_leaf l | EMap m => json_map (marshal_leaf <$> m) end.

Definition marshal_map (m : any_map) : string := json_map (marshal_entry <$> m).

(** ** [EnsureStatusInResult] *)

Definition status_key : string := "status".
Definition success_status : entry := EMap {[ "error" := LInt 0; "text" := LStr "Success" ]}.

Definition invalid_downstream : string :=
  dq "{'status':{'error':1,'text':'Invalid downstream response'}}".

Definition EnsureStatusInResult (payload : string) : option string :=
  if (len payload =? 0) || String.eqb payload "null" then Some default_result else
  match parse_json payload with
  | Some (JObj ms) =>
      if any_error (JObj ms) then Some invalid_downstream else
      let obj := decode_map ms in
      match obj !! status_key with
      | Some _ => Some payload
      | None => Some (marshal_map (<[status_key := success_status]> ((ELeaf ∘ LVal) <$> obj)))
      end
  | Some JNull => None
  | _ => Some invalid_downstream
  end.

End Marshal.

(** ** [fmt.Sscan] of an integer

    White space, a sign, a base prefix and digits with underscores, the rest
    of the text being left unread; the token is read by [ParseInt] in base 0. *)
Definition in_set (set : string) (a : ascii) : bool := string_existsb (Ascii.eqb a) set.

Fixpoint span_set (set s : string) : string * string :=
  match s with
  | String a r => if in_set set a then let '(t, r) := span_set set r in (String a t, r) else ("", s)
  | EmptyString => ("", "")
  end.

Definition binaryDigits : string := "01".
Definition octalDigits : string := "01234567".
Definition decimalDigits : string := "0123456789".
Definition hexadecimalDigits : string := "0123456789aAbBcCdDeEfF".

(** The prefix read, the digits accepted after it and whether a zero counts
    as digits already. *)
Definition scanBasePrefix (s : string) : string * string * bool * string :=
  match s with
  | String "0" r =>
      match r with
      | String b r' =>
          let p := String "0" (String b "") in
          if in_set "bB" b then (p, binaryDigits, true, r') else
          if in_set "oO" b then (p, octalDigits, true, r') else
          if in_set "xX" b then (p, hexadecimalDigits, true, r') else
          ("0", octalDigits, true, r)
      | EmptyString => ("0", octalDigits, true, r)
      end
  | _ => ("", decimalDigits, false, s)
  end.

(** [strconv.underscoreOK] after the sign: [last] is the kind of the character
    before: [^] at the start, [0] a digit, [_] an underscore, [!] another. *)
Fixpoint underscore_ok (hex : bool) (last : ascii) (s : string) : bool :=
  match s with
  | EmptyString => negb (Ascii.eqb last "_")
  | String a r =>
      if in_set decimalDigits a || (hex && in_set hexadecimalDigits a) then underscore_ok hex "0" r
      else if Ascii.eqb a "_" then Ascii.eqb last "0" && underscore_ok hex "_" r
      else negb (Ascii.eqb last "_") && underscore_ok hex "!" r
  end.

Definition underscoreOK (s : string) : bool :=
  match s with
  | String "0" (String b r) =>
      if in_set "bBoOxX" b then underscore_ok (in_set "xX" b) "0" r else underscore_ok false "^" s
  | _ => underscore_ok false "^" s
  end.

Fixpoint digits_in_base (base acc : Z) (s : string) : option Z :=
  match s with
  | EmptyString => Some acc
  | String a r =>
      if Ascii.eqb a "_" then digits_in_base base acc r else
      d ← hex_val a; if base <=? d then None else digits_in_base base (acc * base + d) r
  end.

(** The base and the digits of a token without its sign. *)
Definition split_base (s : string) : Z * string :=
  match s with
  | String "0" r =>
      match r with
      | String b (String c r') =>
          let digits := String c r' in
          if in_set "bB" b then (2, digits) else if in_set "oO" b then (8, digits) else
          if in_set "xX" b then (16, digits) else (8, r)
      | _ => (8, r)
      end
  | _ => (10, s)
  end.

(** [strconv.ParseInt(sign + s, 0, 64)]. *)
Definition parse_int_base0 (neg : bool) (s : string) : option Z :=
  if is_empty s then None else
  let '(base, digits) := split_base s in
  n ← digits_in_base base 0 digits;
  let z := if neg then - n else n in
  if underscoreOK s && (min_int64 <=? z) && (z <=? max_int64) then Some z else None.

Definition Sscan_int (s : string) : option Z :=
  let s := trim_left_with unicode_spaces (String.length s) s in
  let '(neg, s) := match s with
                   | String "-" r => (true, r) | String "+" r => (false, r) | _ => (false, s) end in
  let '(prefix, digits, have, s) := scanBasePrefix s in
  let '(tok, _) := span_set (digits +:+ "_") s in
  if is_empty tok && negb have then None else parse_int_base0 neg (prefix +:+ tok).

Example sscan_ex :
  map Sscan_int ["1752"; "  -12abc"; "0x1F"; "010"; "1_000"; "1__0"; "08"; ""; "abc"; "0"; "9223372036854775808"]
  = [Some 1752; Some (-12); Some 31; Some 8; Some 1000; None; Some 0; None; None; Some 0; None].
Proof. vm_compute. reflexivity. Qed.

(** ** [BuildDeviceResultObject] *)

(** The map the payload is decoded into; [None] is a nil map.  An error leaves
    what was decoded so far. *)
Definition decode_payload (payload : string) : option any_map :=
  if (0 <? len payload) && negb (String.eqb payload "null") then
    match parse_json payload with
    | Some (JObj ms) => Some ((ELeaf ∘ LVal) <$> decode_map ms)
    | Some JNull => None
    | _ => Some ∅
    end
  else Some ∅.

(** The status object the code goes on with: the one of the payload or a new
    one. *)
Definition existing_status (m : any_map) : gmap string leaf :=
  match m !! status_key with
  | Some (ELeaf (LVal (JObj ms))) => LVal <$> decode_map ms
  | _ => ∅
  end.

Definition result_code (natsResult errCode : string) : Z :=
  if String.eqb natsResult "success" then 0
  else match Sscan_int errCode with
       | Some n => if n =? 0 then 1 else n
       | None => 1
       end.

Definition result_text (natsResult msg : string) : string :=
  if negb (is_empty msg) then msg
  else if String.eqb natsResult "success" then "Success" else "Failed".

(** The uuid entry: an integer when the text starts with one. *)
Definition uuid_leaf (configUUID : string) : leaf :=
  match Sscan_int configUUID with Some n => LInt n | None => LStr configUUID end.

Definition device_result_map (serial configUUID natsResult errCode msg payload : string)
    : option any_map :=
  m ← decode_payload payload;
  let m := <["serial" := ELeaf (LStr serial)]> m in
  let m := if is_empty configUUID then m else <["uuid" := ELeaf (uuid_leaf configUUID)]> m in
  let status := existing_status m in
  let status := <["error" := LInt (result_code natsResult errCode)]> status in
  let status := <["text" := LStr (result_text natsResult msg)]> status in
  Some (<[status_key := EMap status]> m).

Definition BuildDeviceResultObject `{GoLib}
    (serial configUUID natsResult errCode msg payload : string) : option string :=
  marshal_map <$> device_result_map serial configUUID natsResult errCode msg payload.

(** A null that the comparison with the text of a null does not see. *)
Definition disguised_null (payload : string) : Prop :=
  payload <> "null" /\ parse_json payload = Some JNull.

(** It, and nothing else, makes the function panic. *)
Lemma object_missing `{GoLib} serial configUUID natsResult errCode msg payload :
  BuildDeviceResultObject serial configUUID natsResult errCode msg payload = None <-> disguised_null payload.
Proof.
  unfold BuildDeviceResultObject, device_result_map, decode_payload, disguised_null.
  destruct (Z.ltb_spec 0 (len payload)) as [Hl|Hl].
  - destruct (String.eqb_spec payload "null") as [->|Hn]; cbn [negb andb mbind option_bind fmap option_fmap option_map]; [naive_solver|].
    destruct (parse_json payload) as [[]|]; cbn [mbind option_bind fmap option_fmap option_map]; naive_solver.
  - destruct payload; [|unfold len in Hl; simpl in Hl; lia]. cbn [andb mbind option_bind fmap option_fmap option_map].
    split; [done|]. by intros [_ ?].
Qed.

(** The entries of the map. *)
Lemma device_result_entries serial configUUID natsResult errCode msg payload :
  match device_result_map serial configUUID natsResult errCode msg payload with
  | None => payload <> "null" /\ parse_json payload = Some JNull
  | Some m =>
      exists m0 status,
        decode_payload payload = Some m0 /\
        m !! "serial" = Some (ELeaf (LStr serial)) /\
        m !! status_key = Some (EMap status) /\
        (exists code, status !! "error" = Some (LInt code) /\ (code = 0 <-> natsResult = "success")) /\
        (exists text, status !! "text" = Some (LStr text) /\ text <> "") /\
        (forall k, k <> "error" -> k <> "text" -> status !! k = existing_status m0 !! k) /\
        (configUUID <> "" -> m !! "uuid" = Some (ELeaf (uuid_leaf configUUID))) /\
        (forall k, k <> "serial" -> k <> status_key -> (k = "uuid" -> configUUID = "") ->
           m !! k = m0 !! k)
  end.
Proof.
  unfold device_result_map. destruct (decode_payload payload) as [m0|] eqn:Hd; simpl.
  - eexists _, _. split; [done|]. unfold status_key. split_and!.
    + rewrite lookup_insert_ne by done. destruct (is_empty configUUID); by simplify_map_eq.
    + by simplify_map_eq.
    + eexists. rewrite lookup_insert_ne, lookup_insert_eq by done. split; [done|].
      unfold result_code. destruct (String.eqb_spec natsResult "success") as [->|]; [done|].
      destruct (Sscan_int errCode) as [code|]; [|done]. destruct (Z.eqb_spec code 0); done.
    + eexists. rewrite lookup_insert_eq. split; [done|]. unfold result_text.
      destruct (is_empty msg) eqn:Em; simpl; [by case_match|]. by apply is_empty_false in Em.
    + intros k ??. rewrite !lookup_insert_ne by done. unfold existing_status, status_key.
      destruct (is_empty configUUID); by simplify_map_eq.
    + intros Hu. rewrite lookup_insert_ne by done. apply is_empty_false in Hu. rewrite Hu.
      by simplify_map_eq.
    + intros k ?? Hk. rewrite lookup_insert_ne by done.
      destruct (is_empty configUUID) eqn:Eu; [by rewrite lookup_insert_ne|].
      apply is_empty_false in Eu. destruct (decide (k = "uuid")) as [->|]; [by destruct Eu; apply Hk|].
      by rewrite !lookup_insert_ne.
  - unfold decode_payload in Hd. destruct (_ && _) eqn:Hb; [|done]. bool_to_prop.
    split; [by apply String.eqb_neq|]. by destruct (parse_json payload) as [[]|].
Qed.

Example device_result_ex :
  BuildDeviceResultObject (H := DemoLib.lib) "24f5a2" "1752" "failure" "7" ""
    (dq "{'status':{'text':'x','when':3},'serial':'zz','extra':[1,{'b':1,'a':2}]}")
  = Some (dq "{'extra':[1,{'a':2,'b':1}],'serial':'24f5a2','status':{'error':7,'text':'Failed','when':3},'uuid':1752}").
Proof. vm_compute. reflexivity. Qed.

Example device_result_panics : BuildDeviceResultObject (H := DemoLib.lib) "s" "" "success" "" "" " null" = None.
Proof. vm_compute. reflexivity. Qed.

Example ensure_status_ex :
  EnsureStatusInResult (H := DemoLib.lib) (dq "{'b':1,'a':'<'}")
  = Some (dq "{'a':'\u003c','b':1,'status':{'error':0,'text':'Success'}}").
Proof. vm_compute. reflexivity. Qed.
