(* ===== verification/ResultText.v ===== *)
(** * What the cloud reads in a result

    The texts that [DeviceResult] marshals, read back.  An object of the
    encoder has every name once, in order ([map_value]); a decoded payload that
    is marshalled again says what it said, each number being the [float64]
    nearest to it and the last of several members with one name standing for
    all ([writes_any]).  So the text of [BuildDeviceResultObject] is always an
    object that a reader of JSON finds the status, the serial and the entries
    of the payload in ([device_result_read]); it nests no deeper than the
    payload did. *)

From S2P Require Import Prelude Json JsonRaw JsonRoundTrip JsonIds JsonUtf8 JsonCompact Rpc Responses Commands Envelopes DeviceResult.

(** ** Maps as objects *)

(** The object with these members, without the spelling of their values. *)
Definition map_value (m : gmap string jval) : jval :=
  JObj (map (fun e => (e.1, ("", e.2))) (sorted_entries m)).

(** A member of an object, as a decoder finds it. *)
Definition get (k : string) (v : jval) : option jval :=
  match v with JObj ms => decode_map ms !! k | _ => None end.

Definition names (v : jval) : list string := match v with JObj ms => map fst ms | _ => [] end.

Definition name_le {A} (a b : string * A) : Prop := Is_true (String.leb a.1 b.1).

#[local] Instance name_le_trans {A} : Transitive (@name_le A).
Proof. intros [a ?] [b ?] [c ?]. apply (transitivity (R := String.le)). Qed.
#[local] Instance name_le_total {A} : Total (@name_le A).
Proof. intros [a ?] [b ?]. apply (total String.le). Qed.

Lemma sorted_entries_Permutation {A} (m : gmap string A) : sorted_entries m ≡ₚ map_to_list m.
Proof. apply merge_sort_Permutation. Qed.

Lemma sorted_entries_sorted {A} (m : gmap string A) : StronglySorted name_le (sorted_entries m).
Proof. apply (StronglySorted_merge_sort name_le). Qed.

Lemma sorted_entries_names {A} (m : gmap string A) : NoDup (sorted_entries m).*1.
Proof. rewrite sorted_entries_Permutation. apply NoDup_fst_map_to_list. Qed.

Lemma sorted_entries_elem {A} (m : gmap string A) k x : (k, x) ∈ sorted_entries m <-> m !! k = Some x.
Proof. rewrite sorted_entries_Permutation. apply elem_of_map_to_list. Qed.

Lemma StronglySorted_names {A B} (f : A -> B) (l : list (string * A)) :
  StronglySorted name_le l -> StronglySorted name_le (prod_map id f <$> l).
Proof.
  induction 1 as [|e l _ IH HF]; [constructor|]. cbn. constructor; [done|]. apply Forall_fmap.
  eapply Forall_impl; [exact HF|]. by intros.
Qed.

Lemma sorted_entries_fmap {A B} (f : A -> B) (m : gmap string A) :
  sorted_entries (f <$> m) = prod_map id f <$> sorted_entries m.
Proof.
  apply (StronglySorted_unique_strong name_le).
  - intros [k x] [k' y] Hx Hy H1 H2. assert (k = k') as <- by by apply (anti_symm String.le).
    f_equal. apply sorted_entries_elem in Hx. apply list_elem_of_fmap in Hy as ([k2 z] & [= -> ->] & Hz).
    apply sorted_entries_elem in Hz. rewrite lookup_fmap, Hz in Hx. by injection Hx.
  - apply sorted_entries_sorted.
  - apply StronglySorted_names, sorted_entries_sorted.
  - by rewrite !sorted_entries_Permutation, map_to_list_fmap.
Qed.

(** ** Decoding a map *)

Lemma decode_map_list ms : decode_map ms = list_to_map (reverse (map (fun e => (e.1, e.2.2)) ms)).
Proof.
  unfold decode_map. induction ms as [|e ms IH] using rev_ind; [done|].
  rewrite foldl_app, map_app, reverse_app, IH. done.
Qed.

Lemma decode_map_value m : decode_map (map (fun e => (e.1, ("", e.2))) (sorted_entries m)) = m.
Proof.
  rewrite decode_map_list, map_map. rewrite <- (list_to_map_to_list m) at 2.
  assert (map (fun e : string * jval => (e.1, e.2)) (sorted_entries m) = sorted_entries m) as E.
  { rewrite <- (map_id (sorted_entries m)) at 2. apply map_ext. by intros []. }
  cbn. rewrite E. apply list_to_map_proper.
  - rewrite reverse_Permutation. apply sorted_entries_names.
  - by rewrite reverse_Permutation, sorted_entries_Permutation.
Qed.

Lemma get_map_value k m : get k (map_value m) = m !! k.
Proof. unfold get, map_value. by rewrite decode_map_value. Qed.

Lemma names_map_value m : NoDup (names (map_value m)).
Proof. unfold names, map_value. rewrite map_map. apply sorted_entries_names. Qed.

Lemma decode_map_elem ms k v : decode_map ms !! k = Some v -> exists raw, (k, (raw, v)) ∈ ms.
Proof.
  rewrite decode_map_list. intros Hv%elem_of_list_to_map_2. rewrite elem_of_reverse in Hv.
  apply list_elem_of_fmap in Hv as ([k' [raw v']] & [= -> ->] & Hin). by exists raw.
Qed.

(** Decoding the members after changing their values. *)
Lemma decode_map_fmap {A} (f : jval -> A) (ms : members) :
  foldl (fun m e => <[e.1 := e.2]> m) ∅ (map (fun e => (e.1, f e.2.2)) ms) = f <$> decode_map ms.
Proof.
  unfold decode_map. induction ms as [|e ms IH] using rev_ind; [symmetry; exact (fmap_empty f)|].
  rewrite map_app, !foldl_app, IH. cbn. by rewrite fmap_insert.
Qed.

(** ** What is written is read

    [writes t x]: the text [t] is read as [x], spelling aside, wherever there
    is room for the nesting of [x]. *)
Definition writes (t : string) (x : jval) : Prop :=
  exists v, erase v = x /\ forall d, d + nesting x <= maxNestingDepth -> reads d t v.

Lemma writes_denotes t x : writes t x -> nesting x <= maxNestingDepth -> denotes t = Some x.
Proof.
  intros (v & <- & Hr) Hn. unfold denotes. rewrite (parse_json_reads t v); [done|]. apply Hr. lia.
Qed.

Lemma writes_flat t v : erase v = v -> (forall d, reads d t v) -> writes t v.
Proof. intros He Hr. by exists v. Qed.

Lemma writes_list (ts : list string) (xs : list jval) :
  Forall2 writes ts xs -> exists es : list (string * jval), es.*1 = ts /\ map erase es.*2 = xs /\
    forall d, d + deepest xs <= maxNestingDepth -> Forall (fun e => reads d e.1 e.2) es.
Proof.
  induction 1 as [|t x ts xs (v & He & Hr) _ (es & Ht & Hx & Hes)]; [by exists []|].
  exists ((t, v) :: es). cbn [fmap list_fmap map fst snd]. rewrite deepest_cons, Ht, He. split_and!; [done| |].
  - f_equal. exact Hx.
  - intros d Hd. constructor; [apply Hr; lia|apply Hes; lia].
Qed.

Lemma writes_array ts xs :
  Forall2 writes ts xs -> writes ("[" +:+ String.concat "," ts +:+ "]") (JArr xs).
Proof.
  intros (es & <- & <- & Hes)%writes_list. exists (JArr es.*2). split; [done|]. rewrite nesting_array. intros d Hd.
  pose proof (deepest_nonneg (map erase es.*2)). apply reads_array; [lia|]. apply Hes. lia.
Qed.

(** An object: each text is read as the value with the same name. *)
Lemma writes_map (z : gmap string (string * jval)) :
  (forall k e, z !! k = Some e -> utf8 k = true /\ writes e.1 e.2) ->
  writes (json_map (fst <$> z)) (map_value (snd <$> z)).
Proof.
  intros Hz. unfold json_map, sorted_fields, map_value. rewrite !sorted_entries_fmap.
  assert (Forall (fun e => utf8 e.1 = true /\ writes e.2.1 e.2.2) (sorted_entries z)) as HF.
  { apply Forall_forall. intros [k e] Hin%sorted_entries_elem. by apply Hz. }
  clear Hz. set (l := sorted_entries z) in *.
  assert (exists ms, map Some (prod_map id fst <$> l) = map (fun m => Some (member_of m)) ms /\
            map erase_member ms = map (fun e => (e.1, ("", e.2))) (prod_map id snd <$> l) /\
            Forall member_room ms) as (ms & Ht & Hv & Hms).
  { induction HF as [|[k [t x]] l' [Hk (v & He & Hr)] _ (ms & Ht & Hv & Hms)]; [by exists []|].
    exists ((k, (t, v)) :: ms). cbn in *. rewrite Ht, Hv. unfold erase_member at 1. cbn. rewrite He.
    split_and!; [done|done|]. constructor; [|done]. split; [done|]. cbn. intros d Hd. apply Hr.
    by rewrite <- He, nesting_erase. }
  rewrite Ht, <- Hv. exists (JObj ms). split; [done|]. intros d Hd. apply reads_members; [done|].
  by rewrite <- nesting_erase.
Qed.

Lemma nesting_map_value m n : 0 <= n -> (forall k v, m !! k = Some v -> nesting v <= n) -> nesting (map_value m) <= 1 + n.
Proof.
  intros Hn Hm. unfold map_value. rewrite nesting_object.
  assert (Forall (fun v => nesting v <= n) (values (map (fun e => (e.1, ("", e.2))) (sorted_entries m)))) as HF.
  { unfold values. rewrite map_map. apply Forall_map, Forall_forall. intros [k v] Hin%sorted_entries_elem. by apply (Hm k). }
  assert (forall vs, Forall (fun v => nesting v <= n) vs -> deepest vs <= n) as Hd; [|apply Hd in HF; lia].
  induction 1 as [|v vs Hv _ IH]; [done|]. rewrite deepest_cons. lia.
Qed.

(** ** Decoded values *)

Section Decoded.
Context `{GoLib}.

(** What is left of a value that was decoded. *)
Fixpoint decoded (v : jval) : jval :=
  match v with
  | JNum lit => if float64_in_range lit then JNum (float64_text lit) else JNull
  | JArr l => JArr (map decoded l)
  | JObj l => map_value (foldl (fun m e => <[e.1 := e.2]> m) ∅ (map (fun e => (e.1, decoded e.2.2)) l))
  | _ => v
  end.

Lemma decoded_object ms : decoded (JObj ms) = map_value (decoded <$> decode_map ms).
Proof. cbn [decoded]. by rewrite (decode_map_fmap decoded). Qed.

Lemma marshal_object ms : marshal_any (JObj ms) = json_map (marshal_any <$> decode_map ms).
Proof. cbn [marshal_any]. by rewrite (decode_map_fmap marshal_any). Qed.

Lemma textual_member ms k v :
  textual (JObj ms) = true -> decode_map ms !! k = Some v -> utf8 k = true /\ textual v = true.
Proof.
  intros Ht (raw & Hin)%decode_map_elem. cbn in Ht. rewrite forallb_forall in Ht.
  specialize (Ht (k, (raw, v))). rewrite <- list_elem_of_In in Ht. by apply andb_true_iff, Ht.
Qed.

Lemma map_lookup_writes {A} (text : A -> string) (value : A -> jval) (m : gmap string A) :
  (forall k a, m !! k = Some a -> utf8 k = true /\ writes (text a) (value a)) ->
  writes (json_map (text <$> m)) (map_value (value <$> m)).
Proof.
  intros Hm. set (z := (fun a => (text a, value a)) <$> m).
  assert (text <$> m = fst <$> z) as -> by (unfold z; by rewrite <- map_fmap_compose).
  assert (value <$> m = snd <$> z) as -> by (unfold z; by rewrite <- map_fmap_compose).
  apply writes_map. intros k e. unfold z. rewrite lookup_fmap. destruct (m !! k) as [a|] eqn:Ha; [|done].
  intros [= <-]. by apply Hm.
Qed.

(** Marshalled again, a decoded value says what is left of it. *)
Lemma writes_any v : textual v = true -> writes (marshal_any v) (decoded v).
Proof.
  induction v as [| | | |l IH|l IH] using jval_ind; intros Ht.
  - apply writes_flat; [done|]. intros d. apply reads_null.
  - apply writes_flat; [done|]. intros d. apply reads_bool.
  - cbn in *. destruct (float64_in_range l) eqn:Hr.
    + apply writes_flat; [done|]. intros d. by apply literal_reads, float64_text_literal.
    + apply writes_flat; [done|]. intros d. apply reads_null.
  - apply writes_flat; [done|]. intros d. by apply reads_string.
  - cbn in *. apply writes_array. induction IH as [|v l Hv _ IHl]; [constructor|]. cbn in *.
    apply andb_true_iff in Ht as [??]. constructor; [by apply Hv|by apply IHl].
  - rewrite marshal_object, decoded_object. apply map_lookup_writes. intros k v Hk.
    destruct (textual_member _ _ _ Ht Hk) as [Hu Hv]. split; [done|]. rewrite Forall_forall in IH.
    apply decode_map_elem in Hk as (raw & Hin). by apply (IH (k, (raw, v))).
Qed.

Lemma decode_map_nesting ms k v : decode_map ms !! k = Some v -> nesting v <= deepest (values ms).
Proof.
  intros (raw & Hin)%decode_map_elem. apply deepest_elem. unfold values. apply list_elem_of_fmap. by exists (k, (raw, v)).
Qed.

Lemma nesting_decoded v : nesting (decoded v) <= nesting v.
Proof.
  induction v as [| |l| |l IH|l IH] using jval_ind; try done.
  - cbn. by destruct (float64_in_range l).
  - change (decoded (JArr l)) with (JArr (map decoded l)). rewrite !nesting_array.
    induction IH as [|v l Hv _ IHl]; [done|]. simpl map. rewrite !deepest_cons. lia.
  - rewrite decoded_object, nesting_object. apply nesting_map_value; [apply deepest_nonneg|].
    intros k v. rewrite lookup_fmap. destruct (decode_map l !! k) as [w|] eqn:Hw; [|done]. intros [= <-].
    rewrite Forall_forall in IH. pose proof (decode_map_nesting _ _ _ Hw) as Hn.
    apply decode_map_elem in Hw as (raw & Hin). specialize (IH _ Hin). cbn in IH. lia.
Qed.
(** ** The maps of results *)

Definition leaf_value (l : leaf) : jval :=
  match l with LVal v => decoded v | LInt z => JNum (pretty z) | LStr s => JStr (to_valid s) end.

Definition entry_value (e : entry) : jval :=
  match e with ELeaf l => leaf_value l | EMap m => map_value (leaf_value <$> m) end.

Definition any_map_value (m : any_map) : jval := map_value (entry_value <$> m).

(** The names are text, and so is what was decoded; the values nest at most [n]
    deep. *)
Definition leaf_ok (n : Z) (l : leaf) : Prop :=
  match l with LVal v => textual v = true /\ nesting v <= n | _ => True end.

Definition fields_ok {A} (ok : Z -> A -> Prop) (n : Z) (m : gmap string A) : Prop :=
  forall k a, m !! k = Some a -> utf8 k = true /\ ok n a.

Definition entry_ok (n : Z) (e : entry) : Prop :=
  match e with ELeaf l => leaf_ok n l | EMap m => 1 <= n /\ fields_ok leaf_ok (n - 1) m end.

Lemma writes_int z : writes (json_int z) (JNum (pretty z)).
Proof. apply writes_flat; [done|]. intros d. apply reads_json_int. Qed.

Lemma writes_json_string s : writes (json_string s) (JStr (to_valid s)).
Proof. apply writes_flat; [done|]. intros d. apply reads_json_string. Qed.

Lemma writes_leaf n l : leaf_ok n l -> writes (marshal_leaf l) (leaf_value l).
Proof. destruct l as [v|z|s]; [by intros [? _]; apply writes_any|intros _; apply writes_int|intros _; apply writes_json_string]. Qed.

Lemma writes_entry n e : entry_ok n e -> writes (marshal_entry e) (entry_value e).
Proof.
  destruct e as [l|m]; [apply writes_leaf|]. intros [_ Hm]. apply map_lookup_writes. intros k l Hl.
  destruct (Hm k l Hl) as [Hu Hok]. split; [done|by eapply writes_leaf].
Qed.

Lemma writes_any_map n m : fields_ok entry_ok n m -> writes (marshal_map m) (any_map_value m).
Proof.
  intros Hm. apply map_lookup_writes. intros k e He. destruct (Hm k e He) as [Hu Hok].
  split; [done|by eapply writes_entry].
Qed.

Lemma nesting_leaf n l : 0 <= n -> leaf_ok n l -> nesting (leaf_value l) <= n.
Proof. destruct l as [v|z|s]; [|done..]. intros Hn [_ Hv]. pose proof (nesting_decoded v). cbn. lia. Qed.

Lemma nesting_fields {A} (ok : Z -> A -> Prop) (value : A -> jval) n m :
  0 <= n -> (forall a, ok n a -> nesting (value a) <= n) -> fields_ok ok n m -> nesting (map_value (value <$> m)) <= 1 + n.
Proof.
  intros Hn Hv Hm. apply nesting_map_value; [done|]. intros k v. rewrite lookup_fmap.
  destruct (m !! k) as [a|] eqn:Ha; [|done]. intros [= <-]. by apply Hv, (Hm k).
Qed.

Lemma nesting_entry n e : 0 <= n -> entry_ok n e -> nesting (entry_value e) <= n.
Proof.
  intros Hn. destruct e as [l|m]; [by apply nesting_leaf|]. intros [H1 Hm].
  replace n with (1 + (n - 1)) by lia. apply (nesting_fields leaf_ok); [lia| |done].
  intros l. apply nesting_leaf. lia.
Qed.

Lemma any_map_denotes n m :
  0 <= n < maxNestingDepth -> fields_ok entry_ok n m ->
  denotes (marshal_map m) = Some (any_map_value m) /\ nesting (any_map_value m) <= 1 + n.
Proof.
  intros Hn Hm. assert (nesting (any_map_value m) <= 1 + n) as Hd.
  { apply (nesting_fields entry_ok); [lia| |done]. intros e. apply nesting_entry. lia. }
  split; [|done]. apply writes_denotes; [by eapply writes_any_map|lia].
Qed.

Lemma fields_ok_insert {A} (ok : Z -> A -> Prop) n k a m :
  utf8 k = true -> ok n a -> fields_ok ok n m -> fields_ok ok n (<[k := a]> m).
Proof. intros Hk Ha Hm k' a' [[<- <-]|[_ Hk']]%lookup_insert_Some; [done|by apply Hm]. Qed.

Lemma fields_ok_fmap {A B} (ok : Z -> A -> Prop) (ok' : Z -> B -> Prop) (f : A -> B) n m :
  (forall a, ok n a -> ok' n (f a)) -> fields_ok ok n m -> fields_ok ok' n (f <$> m).
Proof.
  intros Hf Hm k b. rewrite lookup_fmap. destruct (m !! k) as [a|] eqn:Ha; [|done]. intros [= <-].
  destruct (Hm k a Ha). split; [done|by apply Hf].
Qed.

Definition value_ok (n : Z) (v : jval) : Prop := textual v = true /\ nesting v <= n.

Lemma decode_map_ok ms n :
  textual (JObj ms) = true -> nesting (JObj ms) <= 1 + n -> fields_ok value_ok n (decode_map ms).
Proof.
  rewrite nesting_object. intros Ht Hn k v Hk. destruct (textual_member _ _ _ Ht Hk) as [Hu Hv].
  apply decode_map_nesting in Hk. split; [done|]. split; [done|lia].
Qed.

(** ** The result object *)

(** How deep a result object nests: as its payload, and two levels for the
    status. *)
Definition result_depth (payload : string) : Z := Z.max 2 (raw_depth payload).

Lemma result_depth_bound payload : 2 <= result_depth payload <= maxNestingDepth.
Proof.
  unfold result_depth, raw_depth. destruct (parse_json payload) as [v|] eqn:Hp; [|done].
  apply parse_json_depth in Hp. change maxNestingDepth with 10000 in *. lia.
Qed.

Lemma decode_payload_ok payload m :
  decode_payload payload = Some m -> fields_ok entry_ok (result_depth payload - 1) m.
Proof.
  unfold decode_payload, result_depth, raw_depth. destruct (_ && _); [|by intros [= <-]].
  destruct (parse_json payload) as [v|] eqn:Hp; [|by intros [= <-]].
  destruct v as [| | | | |ms]; try done; try by intros [= <-]. intros [= <-].
  apply (fields_ok_fmap value_ok); [by intros v Hv|]. apply decode_map_ok; [by eapply parse_json_textual|lia].
Qed.

Lemma existing_status_ok n m :
  1 <= n -> fields_ok entry_ok n m -> fields_ok leaf_ok (n - 1) (existing_status m).
Proof.
  intros Hn Hm. unfold existing_status. destruct (m !! status_key) as [[[v| |]|]|] eqn:Hs; try done.
  destruct v as [| | | | |ms]; try done. destruct (Hm _ _ Hs) as [_ [Ht Hd]].
  apply (fields_ok_fmap value_ok); [by intros v Hv|]. apply decode_map_ok; [done|lia].
Qed.

Lemma device_result_ok serial configUUID natsResult errCode msg payload m :
  device_result_map serial configUUID natsResult errCode msg payload = Some m ->
  fields_ok entry_ok (result_depth payload - 1) m.
Proof.
  unfold device_result_map. pose proof (result_depth_bound payload) as [Hd _].
  destruct (decode_payload payload) as [m0|] eqn:Hp; [|done]. apply decode_payload_ok in Hp.
  cbn [mbind option_bind]. intros [= <-].
  set (m1 := if is_empty configUUID then _ else _). assert (fields_ok entry_ok (result_depth payload - 1) m1) as Hm1.
  { unfold m1. destruct (is_empty configUUID); repeat apply fields_ok_insert; try done.
    unfold uuid_leaf. by destruct (Sscan_int configUUID). }
  apply fields_ok_insert; [done| |done]. split; [lia|]. repeat apply fields_ok_insert; try done.
  by apply existing_status_ok; [lia|].
Qed.

(** The value of the result object. *)
Definition result_value (serial configUUID natsResult errCode msg payload : string) : option jval :=
  any_map_value <$> device_result_map serial configUUID natsResult errCode msg payload.

Lemma result_text_value serial configUUID natsResult errCode msg payload :
  match BuildDeviceResultObject serial configUUID natsResult errCode msg payload with
  | Some t => exists v, result_value serial configUUID natsResult errCode msg payload = Some v /\
                denotes t = Some v /\ nesting v <= result_depth payload
  | None => result_value serial configUUID natsResult errCode msg payload = None
  end.
Proof.
  unfold BuildDeviceResultObject, result_value. destruct (device_result_map _ _ _ _ _ _) as [m|] eqn:Hm; [|done].
  cbn. apply device_result_ok in Hm. pose proof (result_depth_bound payload).
  destruct (any_map_denotes (result_depth payload - 1) m) as [Hv Hd]; [lia|done|]. eexists. split_and!; [done|done|lia].
Qed.

(** ** What the cloud reads

    The payload as an object: what was decoded of it, empty if it is none. *)
Definition payload_value (payload : string) : jval :=
  match parse_json payload with Some (JObj ms) => decoded (JObj ms) | _ => JObj [] end.

(** A member of a member. *)
Definition get2 (k1 k2 : string) (v : jval) : option jval := get k1 v ≫= get k2.

Lemma get_any_map k m : get k (any_map_value m) = entry_value <$> m !! k.
Proof. unfold any_map_value. by rewrite get_map_value, lookup_fmap. Qed.

Lemma get_decoded k v : get k (decoded v) = match v with JObj ms => decoded <$> decode_map ms !! k | _ => None end.
Proof.
  destruct v as [| |l| | |ms]; try done; [by cbn; destruct (float64_in_range l)|].
  by rewrite decoded_object, get_map_value, lookup_fmap.
Qed.

Lemma get_empty k : get k (JObj []) = None.
Proof. done. Qed.

Lemma decode_payload_value payload m :
  decode_payload payload = Some m ->
  m = ∅ /\ payload_value payload = JObj [] \/
  exists ms, parse_json payload = Some (JObj ms) /\ m = (ELeaf ∘ LVal) <$> decode_map ms.
Proof.
  unfold decode_payload, payload_value. destruct (_ && _) eqn:Hc.
  - destruct (parse_json payload) as [[]|]; intros [= <-]; try (by left); []. right. by eexists.
  - intros [= <-]. left. split; [done|]. apply andb_false_iff in Hc as [Hl|Hn].
    + apply Z.ltb_ge in Hl. assert (payload = "") as ->; [|done]. destruct payload; [done|]. unfold len in Hl. simpl in Hl. lia.
    + apply negb_false_iff, String.eqb_eq in Hn. by subst.
Qed.

Lemma get_payload k payload m :
  decode_payload payload = Some m -> entry_value <$> m !! k = get k (payload_value payload).
Proof.
  intros [[-> ->]|(ms & Hp & ->)]%decode_payload_value; [done|]. unfold payload_value. rewrite Hp, get_decoded, lookup_fmap.
  by destruct (decode_map ms !! k).
Qed.

Lemma get_payload_status k payload m :
  decode_payload payload = Some m ->
  leaf_value <$> existing_status m !! k = get2 status_key k (payload_value payload).
Proof.
  intros Hm. unfold get2. rewrite <- (get_payload status_key payload m Hm). unfold existing_status.
  apply decode_payload_value in Hm as [[-> _]|(ms & _ & ->)]; [done|]. rewrite lookup_fmap.
  destruct (decode_map ms !! status_key) as [v|]; [|done]. cbn [fmap option_fmap option_map entry_value leaf_value compose mbind option_bind].
  rewrite get_decoded. destruct v; try done. rewrite lookup_fmap. by destruct (decode_map l !! k).
Qed.

Lemma to_valid_nonempty s : s <> "" -> to_valid s <> "".
Proof.
  unfold to_valid. destruct s as [|a s]; [done|]. intros _. cbn [String.length to_valid_go].
  destruct (rune_width (String a s)) as [|[|[|[|[|]]]]]; try done;
    destruct s as [|? [|? [|? ?]]]; done.
Qed.

(** C35: Whatever the agent sent, the cloud reads an object with the serial of this
    device and a status, whose code is zero exactly when the command succeeded
    and whose text is never empty; every other member of the payload, and of its
    status, is passed on as it was decoded.  No name occurs twice in it, and it
    nests no deeper than the payload, or two levels.  There is no object only
    for a null payload with white space around it, on which the function
    panics. *)
Theorem device_result_read serial configUUID natsResult errCode msg payload :
  match BuildDeviceResultObject serial configUUID natsResult errCode msg payload with
  | None => payload <> "null" /\ parse_json payload = Some JNull
  | Some t =>
      exists v, denotes t = Some v /\ NoDup (names v) /\ nesting v <= result_depth payload /\
        get "serial" v = Some (JStr (to_valid serial)) /\
        (exists code, get2 status_key "error" v = Some (JNum (pretty code)) /\ (code = 0 <-> natsResult = "success")) /\
        (exists text, get2 status_key "text" v = Some (JStr text) /\ text <> "") /\
        (forall k, k <> "error" -> k <> "text" ->
           get2 status_key k v = get2 status_key k (payload_value payload)) /\
        (configUUID <> "" -> get "uuid" v = Some (leaf_value (uuid_leaf configUUID))) /\
        (forall k, k <> "serial" -> k <> status_key -> (k = "uuid" -> configUUID = "") ->
           get k v = get k (payload_value payload))
  end.
Proof.
  pose proof (device_result_entries serial configUUID natsResult errCode msg payload) as He.
  pose proof (result_text_value serial configUUID natsResult errCode msg payload) as Ht. revert He Ht.
  unfold result_value, BuildDeviceResultObject. destruct (device_result_map _ _ _ _ _ _) as [m|]; [|done].
  intros (m0 & status & Hm0 & Hser & Hst & (code & Hcode & Hz) & (text & Htext & Hne) & Hrest & Huuid & Hother) (v & [= <-] & Hd & Hn).
  cbn [fmap option_fmap option_map] in Hd |- *. exists (any_map_value m). unfold get2. rewrite !get_any_map, Hser, Hst.
  cbn [fmap option_fmap option_map mbind option_bind entry_value leaf_value].
  split_and!; [done|apply names_map_value|done|done| | | | |].
  - exists code. by rewrite get_map_value, lookup_fmap, Hcode.
  - exists (to_valid text). rewrite get_map_value, lookup_fmap, Htext. split; [done|by apply to_valid_nonempty].
  - intros k H1 H2. rewrite get_map_value, lookup_fmap, Hrest by done. by apply get_payload_status.
  - intros Hu. by rewrite Huuid.
  - intros k H1 H2 H3. rewrite get_any_map, Hother by done. by apply get_payload.
Qed.
(** ** [EnsureStatusInResult] *)

Lemma get_erase k v : get k (erase v) = erase <$> get k v.
Proof.
  destruct v as [| | | | |ms]; try done. cbn [erase get]. rewrite !decode_map_list, map_map. cbn [fst snd].
  assert (map (fun e : string * (string * jval) => (e.1, erase e.2.2)) ms
    = prod_map id erase <$> map (fun e => (e.1, e.2.2)) ms) as E by (symmetry; exact (map_map _ _ ms)).
  by rewrite E, <- fmap_reverse, list_to_map_fmap, lookup_fmap.
Qed.

(** Whatever the payload, what is sent has a status.  A payload that has one is
    sent as it is; to one that has none the status of success is added, its
    members being passed on as they were decoded.  Only a null payload with
    white space around it makes the function panic. *)
Theorem ensure_status_read payload :
  match EnsureStatusInResult payload with
  | None => payload <> "null" /\ parse_json payload = Some JNull
  | Some t =>
      exists v, denotes t = Some v /\ is_Some (get status_key v) /\
        forall ms, parse_json payload = Some (JObj ms) -> any_error (JObj ms) = false ->
          (is_Some (decode_map ms !! status_key) -> t = payload) /\
          (decode_map ms !! status_key = None ->
             get2 status_key "error" v = Some (JNum "0") /\ get2 status_key "text" v = Some (JStr "Success") /\
             forall k, k <> status_key -> get k v = get k (decoded (JObj ms)))
  end.
Proof.
  unfold EnsureStatusInResult. destruct (_ || _) eqn:Hc.
  { eexists. split; [reflexivity|]. split; [by eexists|]. intros ms Hp. exfalso.
    apply orb_true_iff in Hc as [->%len_zero|Hn]; [done|]. apply String.eqb_eq in Hn as ->. done. }
  assert (exists v, denotes invalid_downstream = Some v /\ is_Some (get status_key v)) as (iv & Hiv & His).
  { eexists. split; [reflexivity|by eexists]. }
  destruct (parse_json payload) as [v|] eqn:Hp; [|by exists iv].
  destruct v as [| | | | |ms]; try (by exists iv).
  { split; [|done]. intros ->. done. }
  destruct (any_error (JObj ms)) eqn:He; [exists iv; split_and!; [done..|]; intros ms' [= <-] He'; by rewrite He in He'|].
  destruct (decode_map ms !! status_key) as [s|] eqn:Hs.
  - exists (erase (JObj ms)). unfold denotes. rewrite Hp. split; [done|]. split.
    { rewrite get_erase. cbn [get]. rewrite Hs. by eexists. }
    intros ms' [= <-] _. by rewrite Hs.
  - set (m := <[status_key := success_status]> _). pose proof (result_depth_bound payload).
    destruct (any_map_denotes (result_depth payload - 1) m) as [Hv _]; [lia| |].
    { apply fields_ok_insert; [done| |].
      - split; [lia|]. intros k l. rewrite <- insert_empty. intros [[<- <-]|[_ [[<- <-]|[_ [=]]]%lookup_insert_Some]]%lookup_insert_Some; done.
      - apply (fields_ok_fmap value_ok); [by intros v Hv|]. apply decode_map_ok; [by eapply parse_json_textual|].
        unfold result_depth, raw_depth. rewrite Hp. lia. }
    exists (any_map_value m). split; [done|]. unfold get2. rewrite get_any_map.
    assert (m !! status_key = Some success_status) as -> by apply lookup_insert_eq. split; [by eexists|]. intros ms' [= <-] _. rewrite Hs. split; [by intros [? [=]]|]. intros _.
    split_and!; [reflexivity|reflexivity|]. intros k Hk. rewrite get_any_map, get_decoded. unfold m. rewrite lookup_insert_ne, lookup_fmap by done.
    by destruct (decode_map ms !! k).
Qed.
End Decoded.

(** At a concrete result, with the library of [DemoLib]. *)
Definition demo_payload : string :=
  dq "{'status':{'text':'x','when':3},'serial':'zz','extra':[1,{'b':1,'a':2}]}".

Lemma device_result_read_witness :
  exists t v, BuildDeviceResultObject (H := DemoLib.lib) "24f5a2" "1752" "failure" "7" "" demo_payload = Some t /\
    denotes t = Some v /\ get "serial" v = Some (JStr "24f5a2") /\ get2 status_key "when" v = Some (JNum "3").
Proof.
  pose proof (device_result_read (H := DemoLib.lib) "24f5a2" "1752" "failure" "7" "" demo_payload) as Hr.
  destruct (BuildDeviceResultObject _ _ _ _ _ _) as [t|]; [|destruct Hr as [_ Hr]; vm_compute in Hr; discriminate Hr].
  destruct Hr as (v & Hv & _ & _ & Hs & _ & _ & Hrest & _). exists t, v. split; [reflexivity|]. split; [exact Hv|].
  split; [exact Hs|]. rewrite Hrest by done. vm_compute. reflexivity.
Defined.
