(* ===== verification/Capabilities.v ===== *)
(** * Capabilities and connect metadata

    pkg/nats/capabilities.go: the cache of the capabilities file and of the
    firmware version read from it, and the metadata provider of
    cmd/ucentral-client/handler.go, which serves the parameters of the connect
    message from that cache.

    [os.ReadFile] is a parameter of every operation, so that the file may
    change between two calls.  The mutex is not modelled: an operation runs in
    one critical section, apart from re-reading what it has just stored. *)

From S2P Require Import Prelude Json Commands Envelopes DeviceResult Config.
Open Scope go_scope.

Record CapabilityCache := mkCache {
  cc_capabilities : string;
  cc_firmware : string;
  cc_filePath : string
}.

(** [os.ReadFile]. *)
Definition reader := string -> result string.

Section Cache.
Context `{GoLib}.

(** ** Reading the file *)

Record olg_version := mkVersion { v_Major : option Z; v_Minor : option Z; v_Patch : option Z }.

Definition decode_olg (ms : members) : field olg_version :=
  let n := ["major"; "minor"; "patch"] in
  major <-f fld n "major" dec_ptr_int None ms;
  minor <-f fld n "minor" dec_ptr_int None ms;
  patch <-f fld n "patch" dec_ptr_int None ms;
  fret (mkVersion major minor patch).

Definition decode_metadata (ms : members) : field olg_version :=
  decode_nested (decode_nested decode_olg ["olg"] "olg") ["version"] "version" ms.

Definition LoadFromDisk (read : reader) (filePath : string) : result (string * string) :=
  data <-? wrap_err "failed to read capabilities file: " (read filePath);
  v <-? wrap_err "failed to parse capabilities JSON: " (unmarshal decode_metadata data);
  match v_Major v, v_Minor v, v_Patch v with
  | Some major, Some minor, Some patch =>
      refuse (major <? 0) || (minor <? 0) || (patch <? 0)
        with "capabilities 'version.olg' major, minor, and patch must be non-negative integers";
      Ok (data, pretty major +:+ "." +:+ pretty minor +:+ "." +:+ pretty patch)
  | _, _, _ => Err (ENew "capabilities 'version.olg' missing numeric major, minor, or patch fields")
  end.

Definition NewCapabilityCache (read : reader) (filePath : string) : result CapabilityCache :=
  loaded <-? wrap_err "failed to validate capabilities at startup: " (LoadFromDisk read filePath);
  Ok (mkCache loaded.1 loaded.2 filePath).

(** ** Serving from the cache *)

Definition GetCapabilities (read : reader) (c : CapabilityCache) : CapabilityCache * result string :=
  if is_empty (cc_capabilities c) then
    match LoadFromDisk read (cc_filePath c) with
    | Err e => (c, Err e)
    | Ok (data, firmware) =>
        (mkCache data firmware (cc_filePath c),
         if is_empty data then Err (ENew "capabilities not populated") else Ok data)
    end
  else (c, Ok (cc_capabilities c)).

Definition GetFirmware (read : reader) (c : CapabilityCache) : CapabilityCache * result string :=
  match GetCapabilities read c with
  | (c, Err e) => (c, Err e)
  | (c, Ok _) =>
      (c, if is_empty (cc_firmware c) then Err (ENew "firmware not populated") else Ok (cc_firmware c))
  end.

(** ** The parameters of the connect message *)

Record CloudConnectParams := mkConnectParams {
  cp_Serial : string;
  cp_UUID : Z;
  cp_Firmware : string;
  (** [None]: the nil map. *)
  cp_Capabilities : option (gmap string jval)
}.

(** [json.Unmarshal] into a nil [map[string]any]. *)
Definition unmarshal_map (raw : string) : result (option (gmap string jval)) :=
  match parse_json raw with
  | Some (JObj ms) => if any_error (JObj ms) then Err json_error else Ok (Some (decode_map ms))
  | Some JNull => Ok None
  | _ => Err json_error
  end.

Record connectMetadataProvider := mkProvider { mp_cache : CapabilityCache; mp_serial : string }.

Definition ConnectParams (read : reader) (p : connectMetadataProvider)
    : connectMetadataProvider * result CloudConnectParams :=
  let '(c, rawCaps) := GetCapabilities read (mp_cache p) in
  match rawCaps with
  | Err e => (mkProvider c (mp_serial p), Err e)
  | Ok rawCaps =>
      let '(c, fw) := GetFirmware read c in
      (mkProvider c (mp_serial p),
       fw <-? fw;
       caps <-? unmarshal_map rawCaps;
       Ok (mkConnectParams (mp_serial p) 0 fw caps))
  end.

(** ** Correctness *)

(** The text of a version. *)
Definition version_text (fw : string) : Prop :=
  exists major minor patch, 0 <= major /\ 0 <= minor /\ 0 <= patch
  /\ fw = pretty major +:+ "." +:+ pretty minor +:+ "." +:+ pretty patch.

Lemma LoadFromDisk_Ok read path data fw :
  LoadFromDisk read path = Ok (data, fw) ->
  read path = Ok data /\ version_text fw /\ exists ms, parse_json data = Some (JObj ms).
Proof.
  unfold LoadFromDisk. destruct (read path) as [raw|] eqn:Hr; [|done]. cbn.
  destruct (unmarshal decode_metadata raw) as [v|] eqn:Hu; [|done]. cbn.
  destruct (v_Major v) as [a|] eqn:Ha; [|done]. destruct (v_Minor v) as [b|] eqn:Hb; [|done].
  destruct (v_Patch v) as [c|] eqn:Hc; [|done]. intros [Hneg [= -> <-]]%refuse_Ok.
  rewrite !orb_false_iff, !Z.ltb_ge in Hneg. destruct Hneg as [[? ?] ?].
  split; [done|]. split; [by exists a, b, c|].
  apply unmarshal_Ok in Hu as (w & ms & Hp & Hm & Hd).
  destruct w; try discriminate Hm; [|by eexists].
  injection Hm as <-. vm_compute in Hd. by injection Hd as <-.
Qed.

Lemma is_empty_app s t : is_empty (s +:+ t) = is_empty s && is_empty t.
Proof. by destruct s. Qed.

Lemma version_text_nonempty fw : version_text fw -> is_empty fw = false.
Proof. intros (a & b & c & _ & _ & _ & ->). by rewrite !is_empty_app, andb_comm, <- andb_assoc. Qed.

(** once created, the cache serves the file as it was at start-up whatever
    happens to it on disk: the same bytes, the version read from them, and
    connect parameters with that version and the decoded members, unless a
    number in the file fits no float64; nothing is read again. *)
Theorem connect_params_stable read path c :
  NewCapabilityCache read path = Ok c ->
  exists data fw ms,
    read path = Ok data /\ parse_json data = Some (JObj ms) /\ version_text fw
    /\ c = mkCache data fw path
    /\ forall read' serial,
         let p := mkProvider c serial in
         GetCapabilities read' c = (c, Ok data)
         /\ GetFirmware read' c = (c, Ok fw)
         /\ ConnectParams read' p =
             (p, if any_error (JObj ms) then Err json_error
                 else Ok (mkConnectParams serial 0 fw (Some (decode_map ms)))).
Proof.
  unfold NewCapabilityCache. destruct (LoadFromDisk read path) as [[data fw]|] eqn:Hl; [|done].
  intros [= <-]. apply LoadFromDisk_Ok in Hl as (Hr & Hfw & ms & Hp).
  assert (is_empty data = false) as Hd by (by destruct data).
  exists data, fw, ms. split_and!; [done..|]. intros read' serial. cbn zeta.
  assert (GetCapabilities read' (mkCache data fw path) = (mkCache data fw path, Ok data)) as Hc
    by (unfold GetCapabilities; cbn [cc_capabilities]; by rewrite Hd).
  assert (GetFirmware read' (mkCache data fw path) = (mkCache data fw path, Ok fw)) as Hf.
  { unfold GetFirmware. rewrite Hc. cbn [cc_firmware]. by rewrite (version_text_nonempty fw). }
  split_and!; [done..|]. unfold ConnectParams. cbn [mp_cache mp_serial]. rewrite Hc, Hf.
  unfold unmarshal_map. rewrite Hp. by destruct (any_error _).
Qed.

End Cache.

Module DemoCapabilities.
Import DemoLib.

Definition caps_file : string :=
  dq "{'model':'x','version':{'olg':{'major':4,'minor':1,'patch':0}}}".

Lemma connect_params_stable_witness :
  exists c, NewCapabilityCache (fun _ => Ok caps_file) "caps" = Ok c /\
  exists data fw ms,
    Ok caps_file = Ok data /\ parse_json data = Some (JObj ms) /\ version_text fw
    /\ c = mkCache data fw "caps"
    /\ GetFirmware (fun _ => Err json_error) c = (c, Ok fw).
Proof.
  exists (mkCache caps_file "4.1.0" "caps"). split; [by vm_compute|].
  destruct (connect_params_stable (fun _ => Ok caps_file) "caps" (mkCache caps_file "4.1.0" "caps"))
    as (data & fw & ms & Hr & Hp & Hv & Hc & Hall); [by vm_compute|].
  exists data, fw, ms. split_and!; [done..|]. exact (proj1 (proj2 (Hall (fun _ => Err json_error) ""))).
Defined.

End DemoCapabilities.
