(* ===== verification/NatsClient.v ===== *)
(** * The NATS client

    pkg/nats/client.go: the checks around the agent-core library, which does
    the messaging.  The library is a parameter: [agent_SubmitConfigure] and
    [agent_SubmitAction] say what its calls return.  A context is the value of
    its [Err()]; the nil-pointer checks of the code are left out, nil being no
    value here, and the methods that only return a not-implemented error too. *)

From S2P Require Import Prelude GoTime Json Enums Rpc Commands Envelopes.

(** ** Messages of the agent-core library, as far as the code uses them *)

Record ConfigureCommand := mkConfigureCommand {
  cc_Version : string; cc_RPCID : string; cc_Target : string; cc_UUID : string;
  cc_Payload : string; cc_Timestamp : Z }.
Record ActionCommand := mkActionCommand {
  ac_Version : string; ac_RPCID : string; ac_Target : string; ac_CommandType : string;
  ac_Action : string; ac_Payload : string; ac_Timestamp : Z }.
Record ResultEnvelope := mkResultEnvelope {
  re_Version : string; re_RPCID : string; re_Target : string; re_CommandType : string;
  re_Action : string; re_UUID : string; re_Result : string; re_ErrorCode : string;
  re_Message : string; re_Payload : string; re_Timestamp : Z }.

Class AgentClient := {
  agent_SubmitConfigure : ConfigureCommand -> option error;
  agent_SubmitAction : ActionCommand -> option error
}.

(** [strconv.ParseInt(s, 10, 64)], with one error for all failures. *)
Definition ParseInt10 (s : string) : option Z :=
  let '(neg, ds) := match s with
                    | String a r => if Ascii.eqb a "-" then (true, r)
                                    else if Ascii.eqb a "+" then (false, r) else (false, s)
                    | EmptyString => (false, s) end in
  if negb (is_empty ds) && string_forallb is_digit ds then
    let z := if neg then - digits_val 0 ds else digits_val 0 ds in
    if (min_int64 <=? z) && (z <=? max_int64) then Some z else None
  else None.

(** What a call of the client came to: refused by a check, or handed to the
    agent with its result. *)
Inductive submission :=
| Refused (e : error)
| Submitted (r : option error).

Definition submission_error (s : submission) : option error :=
  match s with Refused e => Some e | Submitted r => r end.

Definition refuse_if (bad : bool) (e : error) (next : submission) : submission :=
  if bad then Refused e else next.
Notation "'refuse' c 'with' e ; k" :=
  (refuse_if c e k) (at level 60, c at level 200, e at level 200, right associativity).

Section Client.
Context `{GoLib} `{AgentClient} (lim : limits) (AllowedTraceUploadURL : option URL).

(** The [agentClient] field. *)
Record NATSClient := mkClient { nc_target : string; nc_agent : bool }.
#[global] Instance NATSClient_eq_dec : EqDecision NATSClient.
Proof. solve_decision. Defined.

Definition invalid_version (got : string) : error :=
  ENew ("invalid envelope version: expected " +:+ strconv_Quote EnvelopeVersion +:+ ", got "
        +:+ strconv_Quote got).
Definition agent_missing : error := ENew "agentClient is not initialized".

Definition SubmitConfigure (n : NATSClient) (ctx : option error) (cmd : ConfigureCommand)
    : submission :=
  match ctx with
  | Some e => Refused (EWrap "NATS dispatch context expired: " e)
  | None =>
      refuse negb (String.eqb (cc_Version cmd) EnvelopeVersion) with invalid_version (cc_Version cmd);
      refuse len (cc_Payload cmd) =? 0 with ENew "command payload cannot be empty";
      let uuid := match ParseInt10 (cc_UUID cmd) with Some u => u | None => 0 end in
      refuse uuid <=? 0 with ENew "uuid must be a positive int64";
      match unmarshal decode_configure (cc_Payload cmd) with
      | Err e => Refused (EWrap "invalid configure payload: " e)
      | Ok cfgReq =>
          match ValidateAndGetUUID lim configure_fuel cfgReq with
          | Err e => Refused (EWrap "invalid configure payload: " e)
          | Ok payloadUUID =>
              refuse negb (payloadUUID =? uuid)
                with ENew ("envelope UUID " +:+ strconv_Quote (cc_UUID cmd)
                           +:+ " does not match payload UUID " +:+ pretty payloadUUID);
              match ValidateNATSTarget (cc_Target cmd) with
              | Some e => Refused (EWrap "invalid target: " e)
              | None =>
                  refuse negb (nc_agent n) with agent_missing;
                  Submitted (agent_SubmitConfigure cmd)
              end
          end
      end
  end.

Definition invalid_combination (command action : string) : error :=
  ENew ("invalid command/action combination: command=" +:+ strconv_Quote command +:+ " action="
        +:+ strconv_Quote action).

Definition ExecuteAction (n : NATSClient) (ctx : option error) (cmd : ActionCommand) : submission :=
  match ctx with
  | Some e => Refused (EWrap "NATS dispatch context expired: " e)
  | None =>
      refuse len (ac_Payload cmd) =? 0 with ENew "command payload cannot be empty";
      refuse negb (String.eqb (ac_Version cmd) EnvelopeVersion) with invalid_version (ac_Version cmd);
      let command := ac_CommandType cmd in
      let action := ac_Action cmd in
      refuse negb (ValidCommandAction command action) with invalid_combination command action;
      match ValidateCommandPayload lim AllowedTraceUploadURL command action (ac_Payload cmd) with
      | Some e => Refused (EWrap "invalid action payload: " e)
      | None =>
          match ValidateNATSTarget (ac_Target cmd) with
          | Some e => Refused (EWrap "invalid target: " e)
          | None =>
              refuse negb (nc_agent n) with agent_missing;
              Submitted (agent_SubmitAction cmd)
          end
      end
  end.

(** ** Results *)

Definition validateResultEnvelope (expectedTarget : string) (msg : ResultEnvelope) : option error :=
  reject negb (String.eqb (re_Version msg) EnvelopeVersion) with invalid_version (re_Version msg);
  reject negb (String.eqb (re_Target msg) expectedTarget)
    with ENew ("target mismatch: got " +:+ strconv_Quote (re_Target msg) +:+ ", expected "
               +:+ strconv_Quote expectedTarget);
  reject is_empty (re_RPCID msg) with ENew "rpc_id cannot be empty";
  reject re_Timestamp msg =? zero_time with ENew "timestamp cannot be zero";
  reject negb (ResultType_Valid (re_Result msg))
    with ENew ("invalid result state: " +:+ strconv_Quote (re_Result msg));
  reject String.eqb (re_Result msg) ResultSuccess && negb (is_empty (re_ErrorCode msg))
         && negb (String.eqb (re_ErrorCode msg) "0")
    with ENew "success result cannot contain non-zero error_code";
  let command := re_CommandType msg in
  let action := re_Action msg in
  reject negb (ValidCommandAction command action) with invalid_combination command action;
  reject String.eqb command CommandConfigure
         && (match ParseInt10 (re_UUID msg) with Some u => u | None => 0 end <=? 0)
    with ENew "uuid must be a positive int64 for configure results";
  match ValidateResultPayload command action (re_Payload msg) with
  | Some e => Some (EWrap "invalid result payload: " e)
  | None => None
  end.

(** The registration, given what the library's returns, and the callback it
    registers: the envelope the handler is called with, if any. *)
Definition SubscribeResults (n : NATSClient) (ctx : option error) (target : string)
    (register : option error) : option error :=
  match ctx with
  | Some _ => Some (ENew "invalid or canceled context")
  | None =>
      match ValidateNATSTarget target with
      | Some e => Some (EWrap "invalid target: " e)
      | None => reject negb (nc_agent n) with agent_missing; register
      end
  end.

(** [Close], given what the library's returns. *)
Definition NATSClient_Close (n : NATSClient) (agent_Close : option error) : option error :=
  if nc_agent n then agent_Close else None.

(** What the library cannot do yet. *)
Definition not_implemented (method : string) : error := ENew (method +:+ " not implemented in agentcore").
Definition QueryDeviceStatus : error := not_implemented "QueryDeviceStatus".
Definition SubscribeTelemetry : error := not_implemented "SubscribeTelemetry".
Definition SubscribeLogs : error := not_implemented "SubscribeLogs".
Definition SubscribeHealth : error := not_implemented "SubscribeHealth".
Definition SubscribeState : error := not_implemented "SubscribeState".
Definition GetDesiredConfigMetadata : error := not_implemented "GetDesiredConfigMetadata".

Definition on_result (target : string) (msg : ResultEnvelope) : option ResultEnvelope :=
  match validateResultEnvelope target msg with Some _ => None | None => Some msg end.

(** [allServersUseTLS], with [url.Parse] returning the scheme as written. *)
Definition allServersUseTLS (url_Parse_scheme : string -> option string) (servers : list string) : bool :=
  match servers with
  | [] => false
  | _ => forallb (fun srv => match url_Parse_scheme srv with
                             | Some scheme => String.eqb (string_map lower_ascii scheme) "tls"
                             | None => false end) servers
  end.

End Client.

(** ** Configuration versions survive the trip

    [strconv.FormatInt] in the handler, [ParseInt] here. *)

Lemma ParseInt10_pretty z : 0 < z <= max_int64 -> ParseInt10 (pretty z) = Some z.
Proof.
  intros Hz. destruct z as [|p|p]; try lia. change (pretty (Zpos p)) with (pretty (Npos p)).
  unfold pretty at 1, pretty_N. rewrite decide_False by done.
  destruct (pretty_N_digits (Npos p)) as (Hd & Hv & _); [done|].
  unfold ParseInt10. set (t := pretty_N_go (Npos p) "") in *.
  assert (Hne : is_empty t = false).
  { apply is_empty_false. intros E. rewrite E in Hv. done. }
  destruct t as [|a r] eqn:Ht; [done|].
  assert (Ha : is_digit a = true) by (cbn [string_forallb] in Hd; by apply andb_true_iff in Hd as [? _]).
  destruct (Ascii.eqb_spec a "-") as [->|_]; [done|]. destruct (Ascii.eqb_spec a "+") as [->|_]; [done|].
  rewrite Hne, Hd. cbn [negb andb]. rewrite Hv. change (Z.of_N (N.pos p)) with (Z.pos p).
  unfold min_int64. destruct (Z.leb_spec (- 2 ^ 63) (Z.pos p)); [|lia].
  destruct (Z.leb_spec (Z.pos p) max_int64); [done|lia].
Qed.

(** Decoded integers are in the range of their type. *)
Lemma dec_int_range lo hi vs acc :
  lo <= acc.1 <= hi -> lo <= (foldl (dec_int lo hi) acc vs).1 <= hi.
Proof.
  revert acc. induction vs as [|rv vs IH]; intros acc Ha; simpl; [done|]. apply IH.
  unfold dec_int. destruct rv.2; simpl; try done.
  destruct (parse_int_lit lit) as [z|]; simpl; [|done].
  destruct ((lo <=? z) && (z <=? hi)) eqn:Hr; simpl; [|done]. bool_to_prop. lia.
Qed.

Lemma fbind_Ok {A B} (f : field A) (k : A -> field B) b :
  fbind f k = (b, false) -> exists a, f = (a, false) /\ k a = (b, false).
Proof.
  unfold fbind. destruct f as [a e1]. destruct (k a) as [b' e2] eqn:Hk.
  intros [= -> [-> ->]%orb_false_iff]. by exists a.
Qed.

Lemma fld_int64_range n name ms z :
  fld n name dec_int64 0 ms = (z, false) -> min_int64 <= z <= max_int64.
Proof.
  intros Hf. change z with (z, false).1. rewrite <- Hf. apply dec_int_range.
  unfold min_int64, max_int64. simpl. lia.
Qed.

Lemma configure_uuid_range raw r :
  unmarshal decode_configure raw = Ok r -> cfg_uuid r <= max_int64.
Proof.
  intros (_ & ms & _ & _ & Hd)%unmarshal_Ok. unfold decode_configure in Hd.
  apply fbind_Ok in Hd as (? & _ & Hd). apply fbind_Ok in Hd as (u & Hu & Hd).
  do 4 (apply fbind_Ok in Hd as (? & _ & Hd)). injection Hd as <-.
  apply fld_int64_range in Hu. simpl. lia.
Qed.

Lemma config_uuid_range config : config_uuid config <= max_int64.
Proof.
  unfold config_uuid. destruct (unmarshal _ config) as [z|] eqn:Hu; [|done].
  apply unmarshal_Ok in Hu as (_ & ms & _ & _ & Hu). apply fld_int64_range in Hu. lia.
Qed.

Lemma accepted_uuid_range `{GoLib} lim raw r u :
  unmarshal decode_configure raw = Ok r -> ValidateAndGetUUID lim configure_fuel r = Ok u ->
  0 < u <= max_int64.
Proof.
  intros Hr Hu. split; [by eapply configure_uuid_positive|].
  assert (Hplain : forall r' u, plain_accepted r' u -> cfg_uuid r' <= max_int64 -> u <= max_int64).
  { intros r' u' (_ & _ & _ & _ & _ & _ & _ & _ & ->) Hle. case_match; [apply config_uuid_range|done]. }
  apply configure_accepted_cases in Hu as [Hp|(_ & _ & _ & _ & _ & _ & b & i & _ & _ & _ & _ & Hi & _ & Hp)].
  - eapply Hplain; [exact Hp|]. by eapply configure_uuid_range.
  - eapply Hplain; [exact Hp|]. by eapply configure_uuid_range.
Qed.
