(* ===== verification/NatsConnect.v ===== *)
(** * Connecting to NATS

    [NewNATSClient] of pkg/nats/client.go: the configuration of the agent
    library's client, its construction and start, and the link state reported.
    The library ([agentcore.New], [Start]) is a parameter, as is [url.Parse]. *)

From S2P Require Import Prelude GoTime Json Enums Rpc Commands Envelopes Config NatsClient.
Open Scope go_scope.

(** [agentcore.Config]. *)
Record AgentConfig := mkAgentConfig {
  ag_AgentName : string;
  ag_Version : string;
  ag_Servers : list string;
  ag_CredentialsFile : string;
  ag_TLSEnabled : bool;
  ag_CAFile : string;
  ag_CertFile : string;
  ag_KeyFile : string;
  (** configure, action, result, status and health *)
  ag_Subjects : list string;
  ag_Bucket : string;
  ag_AutoCreateBucket : bool
}.

Class AgentLib := {
  agentcoreNew : AgentConfig -> option error;
  agent_Start : AgentConfig -> option error;
  (** The scheme [url.Parse] finds. *)
  url_Parse_scheme : string -> option string
}.

Section Connect.
Context `{GoLib} `{ConfigLib} `{AgentLib}.

Definition agent_config (agentName : string) (cfg : NATSConfig) : AgentConfig :=
  mkAgentConfig agentName "1.0" (n_Servers cfg) (n_CredentialsFile cfg)
    (allServersUseTLS url_Parse_scheme (n_Servers cfg)) (n_CAFile cfg) (n_ClientCertFile cfg)
    (n_ClientKeyFile cfg)
    ["cmd.configure.%s"; "cmd.action.%s.%s"; "result.%s"; "status.%s"; "health.%s"]
    "cfg_desired" true.

(** The client and the states reported to [onStateChange]. *)
Definition NewNATSClient (agentName : string) (cfg : NATSConfig) : result NATSClient * list LinkState :=
  match wrap_err "nats: invalid configuration: " (NATSConfig_Validate cfg) with
  | Err e => (Err e, [])
  | Ok cfg =>
      match ValidateNATSTarget agentName with
      | Some e => (Err (EWrap "nats: fatal: " e), [])
      | None =>
          let agentCfg := agent_config agentName cfg in
          match agentcoreNew agentCfg with
          | Some e => (Err (EWrap "nats: failed to initialize agentcore client: " e), [])
          | None =>
              match agent_Start agentCfg with
              | Some e => (Err (EWrap "nats: failed to start agentcore client: " e), [])
              | None => (Ok (mkClient agentName true), [LinkConnected])
              end
          end
      end
  end.

Lemma NewNATSClient_built agentName cfg r states :
  NewNATSClient agentName cfg = (r, states) ->
  match r with
  | Ok n => n = mkClient agentName true /\ states = [LinkConnected]
  | Err _ => states = []
  end.
Proof.
  unfold NewNATSClient. destruct (wrap_err _ _); [|by intros [= <- <-]].
  repeat (case_match; [by intros [= <- <-]|]). by intros [= <- <-].
Qed.

(** The handler registered for reconnections. *)
Definition on_reconnect : list LinkState := [LinkConnected].

(** C34: outside local development a NATS client is only ever built on an agent
    that has TLS switched on, credentials and a CA bundle that parse, and a
    usable name; and the link is reported as connected exactly when the client
    exists. *)
Theorem nats_client_secure agentName cfg n states :
  (forall srv u, url_ParseRequestURI srv = Some u -> url_Parse_scheme srv = Some (u_Scheme u)) ->
  NewNATSClient agentName cfg = (n, states) ->
  match n with
  | Err _ => states = []
  | Ok n =>
      states = [LinkConnected] /\ nc_target n = agentName /\ ValidateNATSTarget agentName = None /\
      (n_AllowInsecureLocalDev cfg = false ->
         let a := agent_config agentName cfg in
         ag_TLSEnabled a = true /\ agentcoreNew a = None /\ agent_Start a = None /\
         credentials_usable cfg /\ ca_usable cfg)
  end.
Proof.
  intros Hurl. unfold NewNATSClient. destruct (NATSConfig_Validate cfg) as [cfg'|e] eqn:Hv; [|by intros [= <- <-]].
  cbn [wrap_err]. destruct (ValidateNATSTarget agentName) eqn:Ht; [by intros [= <- <-]|].
  destruct (agentcoreNew _) eqn:Hnew; [by intros [= <- <-]|].
  destruct (agent_Start _) eqn:Hst; [by intros [= <- <-]|]. intros [= <- <-].
  split_and!; [done..|]. intros Hdev. cbv zeta.
  apply NATSConfig_Validate_inv in Hv as (-> & _ & Hne & plain & Hp & _ & H2 & H3 & Hc & Hca).
  rewrite Hdev in H2, H3. cbn in H2, H3. apply String.eqb_neq in H2, H3.
  split_and!; [|exact Hnew|exact Hst|by eapply check_credentials_Ok|by eapply check_nats_ca_Ok].
  cbn. unfold allServersUseTLS. destruct (n_Servers cfg) as [|s l] eqn:Hs; [done|].
  apply forallb_forall. intros srv Hin. rewrite <- Hs in Hin.
  destruct (check_servers_Ok _ _ _ Hp) as [Hall _].
  apply list_elem_of_In in Hin. rewrite Hdev, Hs in *. 
  destruct (proj1 (Forall_forall _ _) Hall srv Hin) as [(u & Hu & _ & Hsch)|[? _]]; [|done].
  by rewrite (Hurl srv u Hu), Hsch.
Qed.

End Connect.

Module DemoConnect.
Import DemoLib DemoConfig.

#[export] Instance agent_lib : AgentLib := {
  agentcoreNew _ := None;
  agent_Start _ := None;
  url_Parse_scheme s := match parse_url s with Some u => Some (u_Scheme u) | None => None end
}.

Lemma demo_schemes srv u : url_ParseRequestURI srv = Some u -> url_Parse_scheme srv = Some (u_Scheme u).
Proof. cbn [url_ParseRequestURI lib url_Parse_scheme agent_lib]. by intros ->. Qed.

Lemma nats_client_secure_witness :
  exists n, NewNATSClient "vyos" nats0 = (Ok n, [LinkConnected]) /\
  ag_TLSEnabled (agent_config "vyos" nats0) = true /\ credentials_usable nats0 /\ ca_usable nats0.
Proof.
  destruct (NewNATSClient "vyos" nats0) as [[n|e] states] eqn:E; [|exfalso; vm_compute in E; discriminate E].
  destruct (nats_client_secure "vyos" nats0 (Ok n) states
              demo_schemes E) as (-> & _ & _ & Hsec).
  destruct (Hsec eq_refl) as (? & _ & _ & ? & ?). exists n. by split_and!.
Defined.

End DemoConnect.
