(* ===== verification/Transaction.v ===== *)
(** * Transactions and their states

    pkg/reqmgr/transaction.go: the states of a request, the transitions between
    them and the transaction record, with the sentinel errors of
    pkg/reqmgr/manager.go that reject a transition.

    A timer field holds the handle of a runtime timer (a number; the timers
    themselves belong to the manager's state).  [OperationID] and [Cancel] of
    the Go record are never used and left out.  A value of the record is a
    deep copy in the sense of [Clone]: strings are values here. *)

From S2P Require Import Prelude GoTime.

Definition ErrInvalidStateTransition : error := ESentinel "invalid state transition".
Definition ErrAlreadyTerminal : error := ESentinel "transaction already in terminal state".

Inductive TransactionState :=
| TxCreated
| TxPreparingDispatch
| TxPendingPublish
| TxInFlight
| TxCompleted
| TxFailed
| TxTimedOut.

#[global] Instance TransactionState_eq_dec : EqDecision TransactionState.
Proof. solve_decision. Defined.

Definition state_eqb (a b : TransactionState) : bool := bool_decide (a = b).
Infix "=st" := state_eqb (at level 70) : go_scope.

Definition validateTransition (from to : TransactionState) : option error :=
  match from with
  | TxCreated =>
      if state_eqb to TxPreparingDispatch || state_eqb to TxFailed then None
      else Some ErrInvalidStateTransition
  | TxPreparingDispatch =>
      if state_eqb to TxPendingPublish || state_eqb to TxFailed then None
      else Some ErrInvalidStateTransition
  | TxPendingPublish =>
      if state_eqb to TxInFlight || state_eqb to TxFailed || state_eqb to TxCompleted then None
      else Some ErrInvalidStateTransition
  | TxInFlight =>
      if state_eqb to TxCompleted || state_eqb to TxFailed || state_eqb to TxTimedOut then None
      else Some ErrInvalidStateTransition
  | TxCompleted | TxFailed | TxTimedOut => Some ErrAlreadyTerminal
  end.

Definition state_String (s : TransactionState) : string :=
  match s with
  | TxCreated => "TxCreated"
  | TxPreparingDispatch => "TxPreparingDispatch"
  | TxPendingPublish => "TxPendingPublish"
  | TxInFlight => "TxInFlight"
  | TxCompleted => "TxCompleted"
  | TxFailed => "TxFailed"
  | TxTimedOut => "TxTimedOut"
  end.

Definition terminal (s : TransactionState) : bool :=
  match s with TxCompleted | TxFailed | TxTimedOut => true | _ => false end.

Definition preflight (s : TransactionState) : bool :=
  match s with TxCreated | TxPreparingDispatch | TxPendingPublish => true | _ => false end.

Record Transaction := mkTx {
  tx_RPCID : string;
  tx_CloudSessionID : string;
  tx_CloudRPCID : string;
  tx_RequestKey : string;
  tx_RespondToCloud : bool;
  tx_Method : string;
  tx_State : TransactionState;
  tx_Payload : option string;
  tx_HandoffInProgress : bool;
  tx_CreatedAt : Z;
  tx_TimeoutDuration : Z;
  tx_DispatchDeadline : Z;
  tx_ResponseDeadline : Z;
  tx_DispatchTimer : option nat;
  tx_ResponseTimer : option nat
}.

#[global] Instance Transaction_eq_dec : EqDecision Transaction.
Proof. solve_decision. Defined.

(** ** Field assignments *)

Definition set_State (s : TransactionState) (t : Transaction) : Transaction :=
  mkTx (tx_RPCID t) (tx_CloudSessionID t) (tx_CloudRPCID t) (tx_RequestKey t)
    (tx_RespondToCloud t) (tx_Method t) s (tx_Payload t) (tx_HandoffInProgress t)
    (tx_CreatedAt t) (tx_TimeoutDuration t) (tx_DispatchDeadline t) (tx_ResponseDeadline t)
    (tx_DispatchTimer t) (tx_ResponseTimer t).

Definition set_Payload (p : option string) (t : Transaction) : Transaction :=
  mkTx (tx_RPCID t) (tx_CloudSessionID t) (tx_CloudRPCID t) (tx_RequestKey t)
    (tx_RespondToCloud t) (tx_Method t) (tx_State t) p (tx_HandoffInProgress t)
    (tx_CreatedAt t) (tx_TimeoutDuration t) (tx_DispatchDeadline t) (tx_ResponseDeadline t)
    (tx_DispatchTimer t) (tx_ResponseTimer t).

Definition set_Handoff (h : bool) (t : Transaction) : Transaction :=
  mkTx (tx_RPCID t) (tx_CloudSessionID t) (tx_CloudRPCID t) (tx_RequestKey t)
    (tx_RespondToCloud t) (tx_Method t) (tx_State t) (tx_Payload t) h
    (tx_CreatedAt t) (tx_TimeoutDuration t) (tx_DispatchDeadline t) (tx_ResponseDeadline t)
    (tx_DispatchTimer t) (tx_ResponseTimer t).

Definition set_Response (deadline : Z) (timer : option nat) (t : Transaction) : Transaction :=
  mkTx (tx_RPCID t) (tx_CloudSessionID t) (tx_CloudRPCID t) (tx_RequestKey t)
    (tx_RespondToCloud t) (tx_Method t) (tx_State t) (tx_Payload t) (tx_HandoffInProgress t)
    (tx_CreatedAt t) (tx_TimeoutDuration t) (tx_DispatchDeadline t) deadline
    (tx_DispatchTimer t) timer.

Definition clear_timers (t : Transaction) : Transaction :=
  mkTx (tx_RPCID t) (tx_CloudSessionID t) (tx_CloudRPCID t) (tx_RequestKey t)
    (tx_RespondToCloud t) (tx_Method t) (tx_State t) (tx_Payload t) (tx_HandoffInProgress t)
    (tx_CreatedAt t) (tx_TimeoutDuration t) (tx_DispatchDeadline t) (tx_ResponseDeadline t)
    None None.

(** ** The state machine *)

Lemma state_eqb_spec a b : state_eqb a b = true <-> a = b.
Proof. apply bool_decide_eq_true. Qed.

Lemma validateTransition_terminal s s' :
  terminal s = true -> validateTransition s s' = Some ErrAlreadyTerminal.
Proof. by destruct s. Qed.

(** The documented table of the transitions ("Allowed Next States"). *)
Inductive allowed : TransactionState -> TransactionState -> Prop :=
| allowed_prepare : allowed TxCreated TxPreparingDispatch
| allowed_publish : allowed TxPreparingDispatch TxPendingPublish
| allowed_inflight : allowed TxPendingPublish TxInFlight
| allowed_fast : allowed TxPendingPublish TxCompleted
| allowed_complete : allowed TxInFlight TxCompleted
| allowed_timeout : allowed TxInFlight TxTimedOut
| allowed_fail s : terminal s = false -> allowed s TxFailed.

Lemma validateTransition_allowed s s' :
  validateTransition s s' = None <-> allowed s s'.
Proof.
  split.
  - destruct s, s'; try done; intros _; by constructor.
  - by intros [ | | | | | | [] ].
Qed.

(** How far a state is from its end; every transition comes closer. *)
Definition remaining_steps (s : TransactionState) : nat :=
  match s with
  | TxCreated => 4 | TxPreparingDispatch => 3 | TxPendingPublish => 2 | TxInFlight => 1
  | TxCompleted | TxFailed | TxTimedOut => 0
  end.

Lemma allowed_decreases s s' :
  allowed s s' -> (remaining_steps s' < remaining_steps s)%nat.
Proof. destruct 1 as [ | | | | | | [] ]; simpl; try lia; done. Qed.

(** The code accepts exactly the transitions of the documented table; the
    terminal states are the ones without a successor, an attempt to leave one
    is reported as [ErrAlreadyTerminal] and every other illegal attempt as
    [ErrInvalidStateTransition]; and each accepted transition brings the
    request closer to a terminal state, so a request makes at most four. *)
Theorem transition_table s s' :
  (validateTransition s s' = None <-> allowed s s') /\
  (terminal s = true <-> forall s'', validateTransition s s'' <> None) /\
  (validateTransition s s' = Some ErrAlreadyTerminal <-> terminal s = true) /\
  (validateTransition s s' = None -> (remaining_steps s' < remaining_steps s <= 4)%nat).
Proof.
  split_and!.
  - apply validateTransition_allowed.
  - split; [by destruct s|]. intros H. specialize (H TxFailed). by destruct s.
  - by destruct s, s'.
  - intros H%validateTransition_allowed%allowed_decreases. destruct s; simpl in *; lia.
Qed.
