(* ===== verification/Cache.v ===== *)
(** * The response cache

    pkg/reqmgr/cache.go: the time to live of a method's responses, and the
    cache of completed responses with [Set], [Get] and the sweep.  [now] is the
    value of [time.Now()] in nanoseconds. *)

From S2P Require Import Prelude GoTime.

Record CacheTTLConfig := mkTTL {
  DefaultTTL : Z;
  MethodTTLs : option (gmap string Z)
}.

Definition TTLForMethod (c : CacheTTLConfig) (method : string) : Z :=
  let fallback := if 0 <? DefaultTTL c then DefaultTTL c else 5 * Minute in
  match MethodTTLs c with
  | Some m =>
      match m !! method with
      | Some ttl => if 0 <? ttl then ttl else fallback
      | None => fallback
      end
  | None => fallback
  end.

Lemma TTLForMethod_pos c method : 0 < TTLForMethod c method.
Proof. unfold TTLForMethod, Minute, Second. repeat case_match; lia. Qed.

Module TransactionCache.

Record CacheEntry := mkEntry {
  Payload : string;
  ExpiresAt : Z
}.

Abbreviation t := (gmap string CacheEntry).

Definition NewTransactionCache : t := ∅.

Definition Set_ (c : t) (now : Z) (canonicalCloudID payload : string) (ttl : Z) : t :=
  <[canonicalCloudID := mkEntry payload (UnixNano (now + ttl))]> c.

Definition Get (c : t) (now : Z) (canonicalCloudID : string) : option string :=
  entry ← c !! canonicalCloudID;
  if ExpiresAt entry <=? UnixNano now then None else Some (Payload entry).

Definition sweepCache (c : t) (now : Z) : t :=
  filter (fun '(_, entry) => ~ (ExpiresAt entry <= UnixNano now)) c.

(** The goroutine of the sweeper: the period of its ticker, and one turn of its
    loop, which ends it when the context is done. *)
Definition StartCacheSweeper (interval : Z) : Z := if interval <=? 0 then Minute else interval.
Definition sweeper_turn (done : bool) (now : Z) (c : t) : option t := if done then None else Some (sweepCache c now).

(** Instants at which [UnixNano] is exact: the years 1677 to 2262. *)
Definition representable (z : Z) : Prop := min_int64 <= z <= max_int64.

Lemma UnixNano_id z : representable z -> UnixNano z = z.
Proof. apply wrap_int_small. Qed.

Lemma sweepCache_lookup c now k e :
  sweepCache c now !! k = Some e <-> c !! k = Some e /\ ~ (ExpiresAt e <= UnixNano now).
Proof. unfold sweepCache. by rewrite map_lookup_filter_Some. Qed.

(** Sweeping is invisible: no later [Get] answers differently, and what stays
    has not expired. *)
Lemma sweepCache_Get c now later k :
  representable now -> representable later -> now <= later ->
  Get (sweepCache c now) later k = Get c later k.
Proof.
  intros R1 R2 Hle. unfold Get. destruct (c !! k) as [e|] eqn:Hc; simpl.
  - destruct (decide (ExpiresAt e <= UnixNano now)) as [He|He].
    + assert (sweepCache c now !! k = None) as ->.
      { destruct (sweepCache c now !! k) eqn:Hs; [|done].
        apply sweepCache_lookup in Hs as [? ?]. by simplify_eq. }
      rewrite UnixNano_id in He by done. rewrite UnixNano_id by done.
      destruct (Z.leb_spec (ExpiresAt e) later); [done|lia].
    + assert (sweepCache c now !! k = Some e) as -> by (by apply sweepCache_lookup). done.
  - destruct (sweepCache c now !! k) eqn:Hs; [|done].
    apply sweepCache_lookup in Hs as [? ?]. by simplify_eq.
Qed.

Lemma Set_Get c now later k payload ttl :
  representable now -> representable (now + ttl) -> representable later -> 0 < ttl ->
  Get (Set_ c now k payload ttl) later k = if later <? now + ttl then Some payload else None.
Proof.
  intros. unfold Get, Set_. rewrite lookup_insert_eq. simpl. rewrite !UnixNano_id by done.
  destruct (Z.leb_spec (now + ttl) later), (Z.ltb_spec later (now + ttl)); done || lia.
Qed.

Lemma Set_Get_ne c now later k k' payload ttl :
  k <> k' -> Get (Set_ c now k payload ttl) later k' = Get c later k'.
Proof. intros. unfold Get, Set_. by rewrite lookup_insert_ne. Qed.

(** ** What the cache answers

    [CSet] and [CSweep] carry the time at which they run. *)
Inductive op := CSet (now : Z) (k payload : string) (ttl : Z) | CSweep (now : Z).

Definition op_time (o : op) : Z := match o with CSet n _ _ _ | CSweep n => n end.

Definition apply (c : t) (o : op) : t :=
  match o with
  | CSet now k payload ttl => Set_ c now k payload ttl
  | CSweep now => sweepCache c now
  end.

(** The reference answer: the latest [Set] of the key, if it has not expired. *)
Definition latest (k : string) (acc : option (string * Z)) (o : op) : option (string * Z) :=
  match o with
  | CSet now k' payload ttl => if String.eqb k k' then Some (payload, now + ttl) else acc
  | CSweep _ => acc
  end.

Definition reference_answer (later : Z) (acc : option (string * Z)) : option string :=
  '(payload, expires) ← acc; if later <? expires then Some payload else None.

Definition op_ok (later : Z) (o : op) : Prop :=
  representable (op_time o) /\ op_time o <= later /\
  match o with CSet now _ _ ttl => 0 < ttl /\ representable (now + ttl) | CSweep _ => True end.

(** At any moment [Get] returns the payload of the most recent [Set] of
    the key if its time to live has not elapsed, and nothing otherwise; the
    sweeps, whenever they ran, do not change any answer. *)
Theorem cache_answers_latest ops c later k acc :
  Forall (op_ok later) ops -> representable later ->
  Get c later k = reference_answer later acc ->
  Get (foldl apply c ops) later k = reference_answer later (foldl (latest k) acc ops).
Proof.
  intros Hops Hl. revert c acc. induction Hops as [|o ops (Hr & Hle & Ho) Hops IH]; intros c acc H;
    [done|].
  simpl. apply IH. destruct o as [now k' payload ttl|now]; simpl in *.
  - destruct (String.eqb_spec k k') as [->|Hne].
    + rewrite Set_Get by tauto. done.
    + by rewrite Set_Get_ne.
  - by rewrite sweepCache_Get.
Qed.

Lemma cache_answers_latest_witness :
  Get (foldl apply NewTransactionCache
         [CSet 10 "s:n:1" "one" 100; CSweep 50; CSet 60 "s:n:2" "two" 5; CSweep 90]) 95 "s:n:1"
  = Some "one" /\
  Get (foldl apply NewTransactionCache
         [CSet 10 "s:n:1" "one" 100; CSweep 50; CSet 60 "s:n:2" "two" 5; CSweep 90]) 110 "s:n:1"
  = None.
Proof.
  split; (rewrite (cache_answers_latest _ _ _ _ None);
    [reflexivity | repeat constructor; vm_compute; done | vm_compute; done | done]).
Defined.

End TransactionCache.
