(* ===== verification/Store.v ===== *)
(** * The operation store interface

    pkg/reqmgr/store.go: the persistent record of a background operation and
    the interface of the stores that keep it.  A store's operations are
    functions of its state, of the error of the context they are given
    ([ctx_err], [None] while the context is live) and of the time; what an
    input/output failure can leave behind is part of the laws. *)

From S2P Require Import Prelude GoTime.

Record PersistentOperation := mkOp {
  OperationID : string;
  RPCID : string;
  CloudRPCID : string;
  Target : string;
  Action : string;
  Stage : string;
  Status : string;
  Active : bool;
  BootID : string;
  CreatedAt : string;
  UpdatedAt : string
}.

#[global] Instance PersistentOperation_eq_dec : EqDecision PersistentOperation.
Proof. solve_decision. Defined.

Class OperationStore (St : Type) := {
  store_Save : St -> option error -> Z -> PersistentOperation -> St * option error;
  store_Get : St -> option error -> string -> result (option PersistentOperation);
  store_GetActive : St -> option error -> Z -> Z -> St * result (list PersistentOperation);
  store_Delete : St -> option error -> Z -> string -> St * option error;
  (** The records a [GetActive] without a limit would find, by their id. *)
  store_view : St -> gmap string PersistentOperation;
  (** The records the store can represent, and the form they come back in. *)
  storable : PersistentOperation -> Prop;
  store_form : PersistentOperation -> PersistentOperation;
}.

(** Newest first, by the instant [UpdatedAt] denotes. *)
Definition updated_at (op : PersistentOperation) : Z := default 0 (Parse_RFC3339 (UpdatedAt op)).
Definition newer (a b : PersistentOperation) : Prop := updated_at b <= updated_at a.

(** What an operation that reports an error may still have done: nothing, or
    all of its effect (the final directory sync can fail). *)
Class OperationStoreLaws (St : Type) `{OperationStore St} (Inv : St -> Prop) := {
  store_Save_inv st c now op st' r : Inv st -> store_Save st c now op = (st', r) -> Inv st';
  store_Save_ok st c now op st' :
    Inv st -> Active op = true -> is_Some (Parse_RFC3339 (UpdatedAt op)) -> storable op ->
    store_Save st c now op = (st', None) ->
    store_view st' = <[OperationID op := store_form op]> (store_view st);
  store_Save_err st c now op st' e :
    Inv st -> Active op = true -> is_Some (Parse_RFC3339 (UpdatedAt op)) -> storable op ->
    store_Save st c now op = (st', Some e) ->
    store_view st' = store_view st \/
    store_view st' = <[OperationID op := store_form op]> (store_view st);
  (** Only the raw id of the cloud request may come back in another layout. *)
  store_form_same op :
    store_form op = mkOp (OperationID op) (RPCID op) (CloudRPCID (store_form op)) (Target op) (Action op)
      (Stage op) (Status op) (Active op) (BootID op) (CreatedAt op) (UpdatedAt op);
  store_Delete_inv st c now id st' r : Inv st -> store_Delete st c now id = (st', r) -> Inv st';
  store_Delete_ok st c now id st' :
    Inv st -> store_Delete st c now id = (st', None) -> store_view st' = delete id (store_view st);
  store_Delete_err st c now id st' e :
    Inv st -> store_Delete st c now id = (st', Some e) ->
    store_view st' = store_view st \/ store_view st' = delete id (store_view st);
  store_GetActive_inv st c now limit st' r :
    Inv st -> store_GetActive st c now limit = (st', r) -> Inv st';
  store_GetActive_view st c now limit st' r :
    Inv st -> store_GetActive st c now limit = (st', r) -> store_view st' = store_view st;
  store_GetActive_ok st c now limit st' ops :
    Inv st -> store_GetActive st c now limit = (st', Ok ops) ->
    NoDup (map OperationID ops) /\ StronglySorted newer ops /\
    Forall (fun op => store_view st !! OperationID op = Some op) ops /\
    (0 < limit -> Z.of_nat (length ops) <= limit) /\
    (limit <= 0 \/ Z.of_nat (length ops) < limit ->
     forall id op, store_view st !! id = Some op -> op ∈ ops) /\
    (** What a limit leaves out is not newer than what is returned. *)
    (forall id op op', store_view st !! id = Some op -> op ∉ ops -> op' ∈ ops -> newer op' op);
  store_view_ids st id op :
    Inv st -> store_view st !! id = Some op -> OperationID op = id /\ id <> "";
}.
