(* ===== verification/FileSys.v ===== *)
(** * Files, directories and power loss

    What pkg/reqmgr/disk_store.go asks of the operating system: two
    directories (the base path and its [quarantine]), system calls that may
    fail, and what a power loss can leave of them.  A file's content is safe
    once the file was synced, a directory's entries once the directory was;
    until then each name may come back as in any listing since the last sync.

    A computation runs over the disk, a source of faults (one answer for each
    call, none left meaning that all succeed), the number of identifiers drawn
    so far and the disks seen on the way. *)

From S2P Require Import Prelude.
Open Scope go_scope.

(** ** The disk *)

Record file := mkFile { f_data : string; f_synced : bool }.

Abbreviation listing := (gmap string file).

(** [past]: the listings since the last sync, the live one apart. *)
Record directory := mkDir { live : listing; past : list listing }.

(** [unreadable]: entries whose content cannot be read, and why. *)
Record disk := mkDisk {
  base : directory;
  quarantine : directory;
  unreadable : gmap string error
}.

(** A failing call: the text of its error, which is none the code tests for, and
    how much a write had written. *)
Record fault := mkFault { ft_text : string; ft_written : nat }.
Definition ft_error (f : fault) : error := ENew (ft_text f).

Record io := mkIO {
  io_disk : disk;
  io_faults : list (option fault);
  io_drawn : nat;
  io_trace : list disk
}.

Definition IO (A : Type) : Type := io -> A * io.

#[global] Instance IO_ret : MRet IO := fun A a st => (a, st).
#[global] Instance IO_bind : MBind IO := fun A B k c st => let '(a, st') := c st in k a st'.

(** A call that reports an error goes to the handler. *)
Definition try_io {A} (c : IO (option error)) (h : error -> IO A) (k : IO A) : IO A :=
  e ← c; match e with Some e => h e | None => k end.
Notation "'try' c 'catch' h ; k" :=
  (try_io c h k) (at level 60, c at level 200, h at level 200, right associativity) : go_scope.

(** ** System calls *)

Definition os_ErrNotExist : error := ESentinel "file does not exist".

Definition unsync (f : file) : file := mkFile (f_data f) false.

(** The listing of a directory changes. *)
Definition relist (g : listing -> listing) (d : directory) : directory :=
  mkDir (g (live d)) (live d :: past d).

(** The file called [name] changes in place, wherever it is listed. *)
Definition touch (name : string) (g : file -> file) (d : directory) : directory :=
  mkDir (alter g name (live d)) (map (alter unsync name) (past d)).

Definition set_base (b : directory) (d : disk) : disk := mkDisk b (quarantine d) (unreadable d).
Definition on_base (g : directory -> directory) (d : disk) : disk := set_base (g (base d)) d.

Definition next_fault (st : io) : option fault * list (option fault) :=
  match io_faults st with [] => (None, []) | f :: fs => (f, fs) end.

(** One call: [ok] is its effect, [fail] what it leaves when it fails. *)
Definition syscall (ok : disk -> disk) (fail : nat -> disk -> disk) : IO (option error) := fun st =>
  let '(f, fs) := next_fault st in
  let '(e, d) := match f with
                 | None => (None, ok (io_disk st))
                 | Some f => (Some (ft_error f), fail (ft_written f) (io_disk st))
                 end in
  (e, mkIO d fs (io_drawn st) (io_trace st ++ [d])).

Definition unchanged (_ : nat) (d : disk) : disk := d.

(** [os.OpenFile(name, O_WRONLY|O_CREATE|O_TRUNC, 0640)] in the base directory. *)
Definition os_Create (name : string) : IO (option error) :=
  syscall (on_base (fun b => relist (insert name (mkFile "" false)) (touch name unsync b))) unchanged.

(** [f.Write(data)]: a failed write leaves a part of the data. *)
Definition append_data (data : string) (f : file) : file := mkFile (f_data f +:+ data) false.
Definition file_Write (name data : string) : IO (option error) :=
  syscall (on_base (touch name (append_data data)))
          (fun n => on_base (touch name (append_data (String.substring 0 n data)))).

(** [f.Sync()]. *)
Definition file_Sync (name : string) : IO (option error) :=
  syscall (on_base (fun b => mkDir (alter (fun f => mkFile (f_data f) true) name (live b)) (past b)))
          unchanged.

(** [f.Close()]. *)
Definition file_Close : IO (option error) := syscall (fun d => d) unchanged.

(** [os.Remove(name)]. *)
Definition os_Remove (name : string) : IO (option error) := fun st =>
  match live (base (io_disk st)) !! name with
  | None => (Some os_ErrNotExist, st)
  | Some _ => syscall (on_base (relist (delete name))) unchanged st
  end.

(** [os.Rename(from, to)] within the base directory. *)
Definition os_Rename (from to : string) : IO (option error) := fun st =>
  match live (base (io_disk st)) !! from with
  | None => (Some os_ErrNotExist, st)
  | Some f => syscall (on_base (relist (fun l => <[to := f]> (delete from l)))) unchanged st
  end.

(** [os.Rename] from the base directory into the quarantine. *)
Definition os_Rename_quarantine (from to : string) : IO (option error) := fun st =>
  match live (base (io_disk st)) !! from with
  | None => (Some os_ErrNotExist, st)
  | Some f => syscall (fun d => mkDisk (relist (delete from) (base d))
                                       (relist (insert to f) (quarantine d)) (unreadable d))
                      unchanged st
  end.

(** [os.Open] of a directory, and [Sync] and [Close] of it. *)
Definition os_OpenDir : IO (option error) := syscall (fun d => d) unchanged.
Definition dir_Sync : IO (option error) :=
  syscall (on_base (fun b => mkDir (live b) [])) unchanged.
Definition quarantine_Sync : IO (option error) :=
  syscall (fun d => mkDisk (base d) (mkDir (live (quarantine d)) []) (unreadable d)) unchanged.

(** [os.ReadFile(name)]. *)
Definition os_ReadFile (name : string) : IO (result string) := fun st =>
  let d := io_disk st in
  (match unreadable d !! name, live (base d) !! name with
   | Some e, _ => Err e
   | None, None => Err os_ErrNotExist
   | None, Some f => Ok (f_data f)
   end, st).

(** [os.ReadDir]: the entries in the order of their names, each with whether it
    is a directory. *)
Definition entry_le (a b : string * bool) : Prop := Is_true (String.leb a.1 b.1).
#[global] Instance entry_le_dec a b : Decision (entry_le a b).
Proof. unfold entry_le. apply _. Defined.

Definition entries (d : disk) : list (string * bool) :=
  merge_sort entry_le
    (("quarantine", true) :: map (fun e => (e.1, false)) (map_to_list (live (base d)))).

Definition os_ReadDir : IO (result (list (string * bool))) := fun st =>
  let '(f, fs) := next_fault st in
  (match f with Some f => Err (ft_error f) | None => Ok (entries (io_disk st)) end,
   mkIO (io_disk st) fs (io_drawn st) (io_trace st)).

(** The next identifier of a source. *)
Definition draw (source : nat -> string) : IO string := fun st =>
  (source (io_drawn st), mkIO (io_disk st) (io_faults st) (S (io_drawn st)) (io_trace st)).

(** ** Power loss *)

(** What [name] can be in the directory after a power loss: an entry of the
    live or of a past listing, with its content when it was synced and any
    content otherwise. *)
Definition may_hold (d : directory) (name : string) (r : option string) : Prop :=
  exists l, l ∈ live d :: past d /\
  match l !! name, r with
  | None, None => True
  | Some f, Some s => f_synced f = true -> s = f_data f
  | _, _ => False
  end.

(** The disk after a power loss and a restart. *)
Definition power_loss (d d' : disk) : Prop :=
  past (base d') = [] /\
  forall name, may_hold (base d) name (f_data <$> live (base d') !! name) /\
               (forall f, live (base d') !! name = Some f -> f_synced f = true).

(** ** Reasoning

    [triple I P c Q]: from a disk of [P], [c] ends with a result and a disk of
    [Q], and every disk seen on the way satisfies [I]. *)
Definition triple {A} (I : disk -> Prop) (P : disk -> Prop) (c : IO A) (Q : A -> disk -> Prop) : Prop :=
  forall st, P (io_disk st) -> Forall I (io_trace st) ->
  Q (c st).1 (io_disk (c st).2) /\ Forall I (io_trace (c st).2).

Section Rules.
Context (I : disk -> Prop).

Lemma triple_ret {A} (P : disk -> Prop) (a : A) (Q : A -> disk -> Prop) :
  (forall d, P d -> Q a d) -> triple I P (mret a) Q.
Proof. intros HQ st HP HI. split; [by apply HQ|done]. Qed.

Lemma triple_bind {A B} (P : disk -> Prop) (c : IO A) (R : A -> disk -> Prop) (k : A -> IO B) Q :
  triple I P c R -> (forall a, triple I (R a) (k a) Q) -> triple I P (c ≫= k) Q.
Proof.
  intros Hc Hk st HP HI. unfold mbind, IO_bind. destruct (c st) as [a st'] eqn:E.
  destruct (Hc st HP HI) as [HR HI']. rewrite E in HR, HI'. by apply (Hk a st').
Qed.

Lemma triple_try {A} (P : disk -> Prop) c (R : option error -> disk -> Prop) (h : error -> IO A) k Q :
  triple I P c R -> (forall e, triple I (R (Some e)) (h e) Q) -> triple I (R None) k Q ->
  triple I P (try c catch h; k) Q.
Proof. intros Hc Hh Hk. unfold try_io. eapply triple_bind; [exact Hc|]. by intros [e|]. Qed.

Lemma triple_syscall (P : disk -> Prop) ok fail (Q : option error -> disk -> Prop) :
  (forall d, P d -> I (ok d) /\ Q None (ok d)) ->
  (forall d n err, P d -> I (fail n d) /\ Q (Some (ENew err)) (fail n d)) ->
  triple I P (syscall ok fail) Q.
Proof.
  intros Hok Hfail st HP HI. unfold syscall. destruct (next_fault st) as [[f|] fs]; cbn.
  - destruct (Hfail _ (ft_written f) (ft_text f) HP). split; [done|].
    by apply Forall_app_2, Forall_singleton.
  - destruct (Hok _ HP). split; [done|]. by apply Forall_app_2, Forall_singleton.
Qed.

Lemma triple_pre {A} (P P' : disk -> Prop) (c : IO A) Q :
  (forall d, P d -> P' d) -> triple I P' c Q -> triple I P c Q.
Proof. intros HP Hc st Hd. by apply Hc, HP. Qed.

Lemma triple_post {A} (P : disk -> Prop) (c : IO A) (Q Q' : A -> disk -> Prop) :
  triple I P c Q' -> (forall a d, Q' a d -> Q a d) -> triple I P c Q.
Proof. intros Hc HQ st Hd HI. destruct (Hc st Hd HI). split; [by apply HQ|done]. Qed.

Lemma triple_draw (P : disk -> Prop) source :
  triple I P (draw source) (fun u d => P d /\ exists n, u = source n).
Proof. intros st HP HI. split; [|done]. split; [done|]. by eexists. Qed.

(** A call on an entry that must exist. *)
Lemma triple_entry (P : disk -> Prop) name (k : file -> IO (option error)) (Q : option error -> disk -> Prop) :
  (forall d, P d -> live (base d) !! name = None -> Q (Some os_ErrNotExist) d) ->
  (forall f, triple I (fun d => P d /\ live (base d) !! name = Some f) (k f) Q) ->
  triple I P (fun st => match live (base (io_disk st)) !! name with
                        | None => (Some os_ErrNotExist, st) | Some f => k f st end) Q.
Proof.
  intros Hno Hk st HP HI. destruct (live (base (io_disk st)) !! name) as [f|] eqn:Hf.
  - by apply (Hk f st).
  - split; [by apply Hno|done].
Qed.
End Rules.

(** ** Lemmas on [may_hold] *)

Lemma may_hold_live d name s f :
  live d !! name = Some f -> f_data f = s -> may_hold d name (Some s).
Proof. intros Hf <-. exists (live d). split; [by left|]. by rewrite Hf. Qed.

Lemma may_hold_settled d name r :
  past d = [] -> (forall f, live d !! name = Some f -> f_synced f = true) ->
  may_hold d name r -> r = f_data <$> live d !! name.
Proof.
  intros Hp Hs (l & Hl & Hr). rewrite Hp in Hl. apply list_elem_of_singleton in Hl as ->.
  destruct (live d !! name) as [f|] eqn:Hf, r as [s|]; try done. simpl. by rewrite Hr by by apply Hs.
Qed.

(** Nothing changes for a name that a change of the listing spares. *)
Lemma may_hold_relist g d name r :
  (forall l, g l !! name = l !! name) -> may_hold (relist g d) name r -> may_hold d name r.
Proof.
  intros Hg (l & Hl & Hr). simpl in Hl. apply elem_of_cons in Hl as [->|Hl].
  - exists (live d). split; [by left|]. by rewrite Hg in Hr.
  - by exists l.
Qed.

Lemma may_hold_touch n g d name r :
  n <> name -> may_hold (touch n g d) name r -> may_hold d name r.
Proof.
  intros Hn (l & Hl & Hr). simpl in Hl. apply elem_of_cons in Hl as [->|Hl].
  - rewrite lookup_alter_ne in Hr by done. exists (live d). split; [by left|done].
  - apply list_elem_of_fmap in Hl as (l' & -> & Hl). rewrite lookup_alter_ne in Hr by done.
    exists l'. split; [by right|done].
Qed.
