(* ===== verification/OpCodec.v ===== *)
(** * The persistent record on disk

    pkg/reqmgr/store.go: the JSON form of a [PersistentOperation], through the
    struct tags of the record.  What is written is read back in a canonical
    form, and a record of that form as it was ([decode_encode]). *)

From S2P Require Import Prelude Json JsonRaw JsonRoundTrip JsonIds JsonUtf8 JsonCompact Rpc Responses Commands Store.

(** [json.Marshal] of a [json.RawMessage]: a nil one is written [null]. *)
Definition encode_raw (raw : string) : option string :=
  if String.eqb raw "" then Some "null" else json_compact raw.

Definition operation_fields (op : PersistentOperation) (id : string) : list (option (string * string)) :=
  [Some ("operation_id", json_string (OperationID op));
   Some ("rpc_id", json_string (RPCID op));
   Some ("cloud_rpc_id", id);
   Some ("target", json_string (Target op));
   Some ("action", json_string (Action op));
   Some ("stage", json_string (Stage op));
   Some ("status", json_string (Status op));
   Some ("active", if Active op then "true" else "false");
   if String.eqb (BootID op) "" then None else Some ("boot_id", json_string (BootID op));
   Some ("created_at", json_string (CreatedAt op));
   Some ("updated_at", json_string (UpdatedAt op))].

(** [json.Marshal(operation)]. *)
Definition encode_operation (op : PersistentOperation) : option string :=
  id ← encode_raw (CloudRPCID op); Some (json_object (operation_fields op id)).

Definition operation_names : list string :=
  ["operation_id"; "rpc_id"; "cloud_rpc_id"; "target"; "action"; "stage"; "status"; "active";
   "boot_id"; "created_at"; "updated_at"].

Definition decode_operation_members (ms : members) : field PersistentOperation :=
  let n := operation_names in
  operation_id <-f fld n "operation_id" dec_string "" ms;
  rpc_id <-f fld n "rpc_id" dec_string "" ms;
  cloud_rpc_id <-f fld n "cloud_rpc_id" dec_raw "" ms;
  target <-f fld n "target" dec_string "" ms;
  action <-f fld n "action" dec_string "" ms;
  stage <-f fld n "stage" dec_string "" ms;
  status <-f fld n "status" dec_string "" ms;
  active <-f fld n "active" dec_bool false ms;
  boot_id <-f fld n "boot_id" dec_string "" ms;
  created_at <-f fld n "created_at" dec_string "" ms;
  updated_at <-f fld n "updated_at" dec_string "" ms;
  fret (mkOp operation_id rpc_id cloud_rpc_id target action stage status active boot_id
             created_at updated_at).

(** [json.Unmarshal(data, &op)]. *)
Definition decode_operation (data : string) : result PersistentOperation :=
  unmarshal decode_operation_members data.

(** ** Round trip *)

(** The record as it comes back, its raw id as it was written: texts that are
    not valid UTF-8 are made so. *)
Definition read_form (op : PersistentOperation) (id : string) : PersistentOperation :=
  mkOp (to_valid (OperationID op)) (to_valid (RPCID op)) id (to_valid (Target op)) (to_valid (Action op))
       (to_valid (Stage op)) (to_valid (Status op)) (Active op) (to_valid (BootID op))
       (to_valid (CreatedAt op)) (to_valid (UpdatedAt op)).

(** With valid texts only the raw id changes. *)
Definition stored_form (op : PersistentOperation) : PersistentOperation :=
  mkOp (OperationID op) (RPCID op) (default "" (encode_raw (CloudRPCID op))) (Target op) (Action op)
       (Stage op) (Status op) (Active op) (BootID op) (CreatedAt op) (UpdatedAt op).

(** Texts of valid UTF-8, and a raw id that can be written and read. *)
Definition texts (op : PersistentOperation) : list string :=
  [OperationID op; RPCID op; Target op; Action op; Stage op; Status op; BootID op;
   CreatedAt op; UpdatedAt op].

Definition readable_id (raw : string) : Prop :=
  exists c v, encode_raw raw = Some c /\ reads 1 c v.

(** An id the manager keeps: none, [null], a string or a number. *)
Definition id_ok (raw : string) : bool :=
  String.eqb raw "" || String.eqb raw "null" ||
  match parse_json raw with Some v => scalar v | None => false end.

Definition encodable (op : PersistentOperation) : Prop :=
  forallb utf8 (texts op) && id_ok (CloudRPCID op) = true.

Lemma readable_id_ok raw : id_ok raw = true -> readable_id raw.
Proof.
  unfold id_ok. destruct (String.eqb_spec raw "") as [->|Hne]; [intros _; exists "null", JNull; by split; [|apply reads_null]|].
  destruct (String.eqb_spec raw "null") as [->|_].
  { intros _. exists "null", JNull. by split; [|apply reads_null]. }
  cbn [orb]. destruct (parse_json raw) as [v|] eqn:Hp; [|done]. intros Hv.
  destruct (readable_scalar raw v Hp Hv) as (c & Hc & Hr). exists c, v. split; [|apply Hr].
  unfold encode_raw. by destruct (String.eqb_spec raw "").
Qed.

Lemma json_object_some fs : json_object fs = json_object (map Some (omap id fs)).
Proof.
  unfold json_object. do 3 f_equal. induction fs as [|[[k v]|] fs IH]; simpl; [done| |done].
  f_equal. exact IH.
Qed.

(** The members of a written record, as the parser gives them back. *)
Definition operation_members (op : PersistentOperation) (id : string) (v : jval) : members :=
  let str k s := (k, (json_string s, JStr (to_valid s))) in
  [str "operation_id" (OperationID op); str "rpc_id" (RPCID op); ("cloud_rpc_id", (id, v));
   str "target" (Target op); str "action" (Action op); str "stage" (Stage op);
   str "status" (Status op); ("active", (if Active op then "true" else "false", JBool (Active op)))]
  ++ (if String.eqb (BootID op) "" then [] else [str "boot_id" (BootID op)])
  ++ [str "created_at" (CreatedAt op); str "updated_at" (UpdatedAt op)].

Lemma operation_members_ok op id v : reads 1 id v -> Forall (member_ok 1) (operation_members op id v).
Proof.
  intros Hid. assert (Hstr : forall k s, utf8 k = true -> member_ok 1 (k, (json_string s, JStr (to_valid s))))
    by (split; [done|]; by apply reads_json_string).
  unfold operation_members. rewrite !Forall_app. split_and!.
  - repeat apply Forall_cons_2; try (by apply Hstr); [by split | split; [done|apply reads_bool] | by apply Forall_nil].
  - destruct (String.eqb _ _); [by apply Forall_nil|].
    by apply Forall_cons_2; [apply Hstr | apply Forall_nil].
  - repeat apply Forall_cons_2; try (by apply Hstr). by apply Forall_nil.
Qed.

Lemma operation_fields_members op id v :
  omap (fun f => f) (operation_fields op id) = map member_of (operation_members op id v).
Proof. unfold operation_fields, operation_members. by destruct (String.eqb (BootID op) ""). Qed.

Lemma decode_written op c v :
  encode_raw (CloudRPCID op) = Some c -> reads 1 c v ->
  exists data, encode_operation op = Some data /\ decode_operation data = Ok (read_form op c).
Proof.
  intros Hc Hv. unfold encode_operation. rewrite Hc. cbn [mbind option_bind].
  eexists. split; [reflexivity|].
  rewrite json_object_some. unfold id. rewrite (operation_fields_members op c v), map_map.
  unfold decode_operation, unmarshal. rewrite parse_json_object by (by apply operation_members_ok).
  unfold decode_struct. cbn [struct_members].
  assert (decode_operation_members (operation_members op c v) = (read_form op c, false)) as ->; [|done].
  unfold read_form, operation_members.
  destruct (String.eqb_spec (BootID op) "") as [->|_]; by destruct (Active op).
Qed.

Lemma read_form_valid op id :
  forallb utf8 (texts op) = true ->
  read_form op id = mkOp (OperationID op) (RPCID op) id (Target op) (Action op) (Stage op) (Status op) (Active op)
                         (BootID op) (CreatedAt op) (UpdatedAt op).
Proof.
  unfold texts, read_form. cbn [forallb]. rewrite !andb_true_iff. intros (? & ? & ? & ? & ? & ? & ? & ? & ? & _).
  by rewrite !to_valid_utf8 by done.
Qed.

Lemma decode_encode_data op :
  forallb utf8 (texts op) = true -> readable_id (CloudRPCID op) ->
  exists data, encode_operation op = Some data /\ decode_operation data = Ok (stored_form op).
Proof.
  intros Ht (c & v & Hc & Hv). destruct (decode_written op c v Hc Hv) as (data & Hd & Hr). exists data.
  split; [done|]. rewrite Hr, read_form_valid by done. unfold stored_form. by rewrite Hc.
Qed.

(** *** Canonical records *)

(** What a raw id says; a nil one says [null]. *)
Definition id_value (raw : string) : option jval :=
  if String.eqb raw "" then Some JNull else denotes raw.

(** A raw id that is written as it is. *)
Definition canonical (op : PersistentOperation) : Prop :=
  forallb utf8 (texts op) = true /\ encode_raw (CloudRPCID op) = Some (CloudRPCID op).

Lemma to_valid_is_utf8 s : utf8 (to_valid s) = true.
Proof.
  pose proof (parse_json_reads _ _ (reads_json_string 0 s)) as Hp. by apply parse_json_textual in Hp.
Qed.

Lemma compact_not_nil raw c : json_compact raw = Some c -> c <> "".
Proof. intros Hc ->. apply json_compact_compact in Hc. discriminate Hc. Qed.

(** What [encode_raw] writes: a text that says the same, and is written as it
    is. *)
Lemma encode_raw_spec raw :
  match encode_raw raw with
  | None => raw <> "" /\ parse_json raw = None
  | Some c => is_Some (id_value raw) /\ id_value c = id_value raw /\ encode_raw c = Some c /\
              exists v, nesting v = raw_depth raw /\ forall d, d + nesting v <= maxNestingDepth -> reads d c v
  end.
Proof.
  unfold encode_raw at 1. destruct (String.eqb_spec raw "") as [->|Hne].
  { split_and!; [by eexists|done|done|]. exists JNull. split; [done|]. intros d _. apply reads_null. }
  destruct (json_compact raw) as [c|] eqn:Hc.
  - pose proof (compact_not_nil _ _ Hc) as Hnil. destruct (raw_reads_compact _ _ Hc) as (v & Hv & Hn & Hr).
    unfold id_value, encode_raw. rewrite (proj2 (String.eqb_neq _ _) Hne), (proj2 (String.eqb_neq _ _) Hnil), Hv.
    split_and!; [by eexists| |by eapply json_compact_compact|by exists v].
    unfold denotes. destruct (json_compact_parses _ _ Hc) as [w Hw].
    destruct (parse_compact _ _ Hw) as (c' & w' & Hc' & Hw' & He). rewrite Hc in Hc'. injection Hc' as <-.
    rewrite Hw'. cbn. rewrite He. unfold denotes in Hv. by rewrite Hw in Hv.
  - split; [done|]. unfold json_compact, json_Valid in Hc. by destruct (parse_json raw).
Qed.

(** C27: Exactly the records whose raw id is nil or valid JSON can be written.
    Read back - unless the id nests as deep as a JSON text may - such a record
    is canonical: its texts are the ones of the record, made valid UTF-8, its
    raw id is compact and says the same, and no other member has changed.  A
    record that was canonical comes back as it was; so what is read from a
    record that was read, and written again, is that record. *)
Theorem decode_encode op :
  match encode_operation op with
  | None => CloudRPCID op <> "" /\ parse_json (CloudRPCID op) = None
  | Some data =>
      is_Some (id_value (CloudRPCID op)) /\
      (raw_depth (CloudRPCID op) < maxNestingDepth ->
       exists id, decode_operation data = Ok (read_form op id) /\ id_value id = id_value (CloudRPCID op) /\
         canonical (read_form op id) /\ (canonical op -> read_form op id = op))
  end.
Proof.
  pose proof (encode_raw_spec (CloudRPCID op)) as Hs. pose proof (decode_written op) as Hd.
  unfold encode_operation in *. destruct (encode_raw (CloudRPCID op)) as [c|] eqn:Hc; cbn [mbind option_bind] in *; [|done].
  destruct Hs as (Hsome & Hval & Hcc & v & Hn & Hr). split; [done|]. intros Hdepth.
  destruct (Hd c v eq_refl) as (data & [= <-] & Hdec); [apply Hr; lia|]. exists c. split_and!; [done|done| |].
  - split; [|done]. unfold texts, read_form.
    cbn [forallb OperationID RPCID Target Action Stage Status BootID CreatedAt UpdatedAt]. by rewrite !to_valid_is_utf8.
  - intros [Ht Hid]. rewrite read_form_valid by done. rewrite Hc in Hid. injection Hid as ->. by destruct op.
Qed.
