(* ===== verification/DiskStore.v ===== *)
(** * The disk-backed operation store

    pkg/reqmgr/disk_store.go, call by call over the file system of [FileSys].
    A path is named by the entry it denotes in the base directory: the ids
    that [uuid.Parse] accepts hold no path separator, so that
    [filepath.Join(basePath, id+".json")] is that entry.  [uuid.Parse],
    [uuid.New] and the order [sort.Slice] leaves equal elements in are
    parameters. *)

From S2P Require Import Prelude Json GoTime Store FileSys OpCodec.
Open Scope go_scope.

Class UUID := {
  uuid_Parse : string -> option error;
  uuid_New : nat -> string
}.

Class GoSort := { sort_Slice : forall A : Type, (A -> A -> bool) -> list A -> list A }.
Arguments sort_Slice {_ A}.

Section Store.
Context `{UUID} `{GoSort}.

Definition os_MkdirAll : IO (option error) := syscall (fun d => d) unchanged.

Definition NewDiskOperationStore : IO (option error) :=
  try os_MkdirAll catch (fun e => mret (Some (EWrap "failed to create operation store directory: " e)));
  try os_MkdirAll catch (fun e => mret (Some (EWrap "failed to create quarantine directory: " e)));
  mret None.

Definition record_name (operationID : string) : string := operationID +:+ ".json".

Definition getPath (operationID : string) : result string :=
  match uuid_Parse operationID with
  | Some e => Err (EWrap "invalid operation ID: " e)
  | None => Ok (record_name operationID)
  end.

(** Opening, syncing and closing the base directory. *)
Definition sync_parent (sync_failed : string) : IO (option error) :=
  try os_OpenDir catch (fun e => mret (Some (EWrap "failed to open directory for sync: " e)));
  try dir_Sync catch (fun e => _ ← file_Close; mret (Some (EWrap sync_failed e)));
  _ ← file_Close; mret None.

(** Giving up on the temporary file. *)
Definition discard (temp : string) (e : error) : IO (option error) :=
  _ ← os_Remove temp; mret (Some e).
Definition close_discard (temp : string) (e : error) : IO (option error) :=
  _ ← file_Close; discard temp e.

Definition write_and_rename (temp target data : string) : IO (option error) :=
  try os_Create temp catch (fun e => mret (Some e));
  try file_Write temp data catch close_discard temp;
  try file_Sync temp catch close_discard temp;
  try file_Close catch discard temp;
  try os_Rename temp target catch discard temp;
  sync_parent "failed to sync directory: ".

Definition Save (ctx : option error) (operation : option PersistentOperation) : IO (option error) :=
  match ctx, operation with
  | Some e, _ => mret (Some e)
  | None, None => mret (Some (ENew "operation cannot be nil"))
  | None, Some operation =>
      match encode_operation operation with
      | None => mret (Some json_error)
      | Some data =>
          match getPath (OperationID operation) with
          | Err e => mret (Some e)
          | Ok target =>
              u ← draw uuid_New;
              write_and_rename (target +:+ ".tmp." +:+ u) target data
          end
      end
  end.

Definition Get (ctx : option error) (operationID : string)
    : IO (result (option PersistentOperation)) :=
  match ctx with
  | Some e => mret (Err e)
  | None =>
      match getPath operationID with
      | Err e => mret (Err e)
      | Ok target =>
          data ← os_ReadFile target;
          match data with
          | Err e => mret (if errors_Is e os_ErrNotExist then Ok None else Err e)
          | Ok data => mret (op <-? decode_operation data; Ok (Some op))
          end
      end
  end.

Definition quarantinePathDurably (now : Z) (name : string) : IO (option error) :=
  try os_Rename_quarantine name (name +:+ "." +:+ pretty (UnixNano now) +:+ ".corrupt")
    catch (fun e => mret (Some e));
  try os_OpenDir catch (fun e => mret (Some (EWrap "failed to open quarantine dir for sync: " e)));
  try quarantine_Sync
    catch (fun e => _ ← file_Close; mret (Some (EWrap "failed to sync quarantine dir: " e)));
  _ ← file_Close;
  try os_OpenDir catch (fun e => mret (Some (EWrap "failed to open operations dir for sync: " e)));
  try dir_Sync
    catch (fun e => _ ← file_Close; mret (Some (EWrap "failed to sync operations dir: " e)));
  _ ← file_Close;
  mret None.

(** What the scan makes of the content of a file. *)
Inductive verdict := Corrupt | Inactive | Keep (op : PersistentOperation).

Definition inspect (name data : string) : verdict :=
  match decode_operation data with
  | Err _ => Corrupt
  | Ok op =>
      match uuid_Parse (OperationID op) with
      | Some _ => Corrupt
      | None =>
          if negb (String.eqb name (record_name (OperationID op))) then Corrupt else
          match Parse_RFC3339 (UpdatedAt op) with
          | None => Corrupt
          | Some _ => if negb (Active op) then Inactive else Keep op
          end
      end
  end.

(** The loop over the directory; [k] counts the looks at the context. *)
Fixpoint scan (ctx : nat -> option error) (now : Z) (k : nat) (es : list (string * bool))
    (allOps : list PersistentOperation) : IO (result (list PersistentOperation)) :=
  match es with
  | [] => mret (Ok allOps)
  | (name, isDir) :: es =>
      match ctx k with
      | Some e => mret (Err e)
      | None =>
          if isDir || negb (has_suffix ".json" name) then scan ctx now (S k) es allOps else
          data ← os_ReadFile name;
          match data with
          | Err _ => scan ctx now (S k) es allOps
          | Ok data =>
              match inspect name data with
              | Corrupt => _ ← quarantinePathDurably now name; scan ctx now (S k) es allOps
              | Inactive => scan ctx now (S k) es allOps
              | Keep op => scan ctx now (S k) es (allOps ++ [op])
              end
          end
      end
  end.

(** [ti.After(tj)], a zero time where [UpdatedAt] does not parse. *)
Definition updated_after (a b : PersistentOperation) : bool :=
  default zero_time (Parse_RFC3339 (UpdatedAt b)) <? default zero_time (Parse_RFC3339 (UpdatedAt a)).

Definition limit_ops (limit : Z) (ops : list PersistentOperation) : list PersistentOperation :=
  if (0 <? limit) && (limit <? Z.of_nat (length ops)) then take (Z.to_nat limit) ops else ops.

Definition GetActive (ctx : nat -> option error) (now limit : Z)
    : IO (result (list PersistentOperation)) :=
  match ctx 0%nat with
  | Some e => mret (Err e)
  | None =>
      es ← os_ReadDir;
      match es with
      | Err e => mret (Err e)
      | Ok es =>
          allOps ← scan ctx now 1 es [];
          mret (allOps <-? allOps; Ok (limit_ops limit (sort_Slice updated_after allOps)))
      end
  end.

Definition deletePathDurably (name : string) : IO (option error) :=
  err ← os_Remove name;
  match err with
  | Some e => if errors_Is e os_ErrNotExist then sync_parent "failed to sync directory: "
              else mret (Some e)
  | None => sync_parent "failed to sync directory: "
  end.

Definition Delete (ctx : option error) (operationID : string) : IO (option error) :=
  match ctx with
  | Some e => mret (Some e)
  | None =>
      match getPath operationID with
      | Err e => mret (Some e)
      | Ok name => deletePathDurably name
      end
  end.

(** ** The records of a directory *)

(** The active record a file holds, if it holds one. *)
Definition record_in (name : string) (data : string) : option PersistentOperation :=
  match inspect name data with Keep op => Some op | _ => None end.

Definition record_of (e : string * file) : option (string * PersistentOperation) :=
  op ← record_in e.1 (f_data e.2); Some (OperationID op, op).

Definition records (l : listing) : gmap string PersistentOperation :=
  list_to_map (omap record_of (map_to_list l)).

End Store.
