(* ===== verification/DiskSafe.v ===== *)
(** * What the disk store guarantees

    [Save] and [Delete] are all or nothing, also across a power loss at any
    moment ([save_survives_power_loss], [delete_survives_power_loss]), and the
    store keeps the laws of [Store] that the request manager relies on
    ([disk_store_laws]). *)

From S2P Require Import Prelude Json GoTime Store FileSys OpCodec DiskStore.
Open Scope go_scope.

(** A character of a UUID in its standard form. *)
Definition uuid_char (a : ascii) : bool :=
  is_digit a || (97 <=? byte_val a) && (byte_val a <=? 102) || (byte_val a =? 45).

(** The documented behaviour of the libraries. *)
Class UUIDLaws `{UUID} : Prop := {
  uuid_New_text n : uuid_New n <> "" /\ string_forallb uuid_char (uuid_New n) = true;
  uuid_Parse_empty : uuid_Parse "" <> None
}.

Class GoSortLaws `{GoSort} : Prop := {
  sort_Slice_perm A (less : A -> A -> bool) l : sort_Slice less l ≡ₚ l;
  sort_Slice_sorted A (less : A -> A -> bool) l :
    (forall a b, less a b = true -> less b a = false) ->
    (forall a b c, less a b = false -> less b c = false -> less a c = false) ->
    StronglySorted (fun a b => less b a = false) (sort_Slice less l)
}.

(** ** Names *)

Lemma string_forallb_rev p s : string_forallb p (string_rev s) = string_forallb p s.
Proof.
  induction s as [|a s IH]; [done|]. rewrite string_rev_cons, string_forallb_app, IH. simpl.
  by rewrite andb_true_r, andb_comm.
Qed.

Lemma suffix_inj s a b : a +:+ s = b +:+ s -> a = b.
Proof.
  intros E. rewrite <- (string_rev_involutive a), <- (string_rev_involutive b).
  f_equal. apply (f_equal string_rev) in E. rewrite !string_rev_append in E. by apply string_app_inj_l in E.
Qed.

Lemma record_name_inj a b : record_name a = record_name b -> a = b.
Proof. apply suffix_inj. Qed.

(** A name ending like a UUID is not that of a record. *)
Lemma temp_not_record s u id :
  u <> "" -> string_forallb uuid_char u = true -> s +:+ u <> record_name id.
Proof.
  intros Hne Hu E. apply (f_equal string_rev) in E. unfold record_name in E.
  rewrite !string_rev_append in E. rewrite <- string_forallb_rev in Hu.
  destruct (string_rev u) as [|c r] eqn:Hr.
  - apply Hne. by rewrite <- (string_rev_involutive u), Hr.
  - simpl in Hu. change (string_rev ".json") with "nosj." in E. simpl in E. injection E as -> _. done.
Qed.

Lemma has_suffix_record id : has_suffix ".json" (record_name id) = true.
Proof. unfold has_suffix, record_name. by rewrite string_rev_append, strip_prefix_app. Qed.

(** ** Directories that agree on the records *)

Definition others (n : string) : Prop := forall id, n <> record_name id.

Definition same_dir (b b0 : directory) : Prop :=
  forall id, live b !! record_name id = live b0 !! record_name id /\
             forall r, may_hold b (record_name id) r -> may_hold b0 (record_name id) r.

Lemma same_dir_refl b : same_dir b b.
Proof. by split. Qed.

Lemma same_touch n g b b0 : others n -> same_dir b b0 -> same_dir (touch n g b) b0.
Proof.
  intros Hn Hs id. destruct (Hs id) as [Hl Hm]. split.
  - simpl. rewrite lookup_alter_ne by apply Hn. done.
  - intros r Hr. apply Hm. by eapply may_hold_touch, Hr.
Qed.

Lemma same_relist g b b0 :
  (forall l id, g l !! record_name id = l !! record_name id) ->
  same_dir b b0 -> same_dir (relist g b) b0.
Proof.
  intros Hg Hs id. destruct (Hs id) as [Hl Hm]. split.
  - simpl. by rewrite Hg.
  - intros r Hr. apply Hm. eapply may_hold_relist, Hr. intros l. apply Hg.
Qed.

(** ** [Save] *)

Section Writing.
Context (d0 : disk) (id0 data temp : string) (Htemp : others temp).

Local Abbreviation target := (record_name id0).

(** After a power loss every record is as it could have been, or the new one. *)
Definition atomic (new : option string) (d : disk) : Prop :=
  forall id r, may_hold (base d) (record_name id) r ->
    may_hold (base d0) (record_name id) r \/ (id = id0 /\ r = new).

Definition same (d : disk) : Prop := unreadable d = unreadable d0 /\ same_dir (base d) (base d0).

Definition holds (s : string) (synced : bool) (d : disk) : Prop :=
  same d /\ live (base d) !! temp = Some (mkFile s synced).

(** The entry of the record is [f] and the others are as before. *)
Definition changed (f : option file) (d : disk) : Prop :=
  unreadable d = unreadable d0 /\ atomic (f_data <$> f) d /\ live (base d) !! target = f /\
  forall id, id <> id0 -> live (base d) !! record_name id = live (base d0) !! record_name id.

Lemma same_atomic new d : same d -> atomic new d.
Proof. intros [_ Hs] id r Hr. left. by apply Hs. Qed.

Lemma same_holds s b d : holds s b d -> same d.
Proof. by intros []. Qed.

Local Abbreviation Iv := (atomic (Some data)).
Hint Resolve same_atomic same_holds : core.

Lemma Create_triple :
  triple Iv same (os_Create temp) (fun e d => same d /\ (e = None -> holds "" false d)).
Proof using Htemp.
  apply triple_syscall.
  - intros d [Hu Hs]. assert (same (on_base (fun b => relist (insert temp (mkFile "" false)) (touch temp unsync b)) d)).
    { split; [done|]. simpl. apply same_relist; [|by apply same_touch].
      intros l id. by apply lookup_insert_ne. }
    split_and!; [by eauto|done|]. intros _. split; [done|]. simpl. apply lookup_insert_eq.
  - intros d n e Hd. split_and!; [by eauto|done|done].
Qed.

Lemma Write_triple :
  triple Iv (holds "" false) (file_Write temp data)
    (fun e d => same d /\ (e = None -> holds data false d)).
Proof using Htemp.
  assert (Ht : forall g d, same d -> same (on_base (touch temp g) d))
    by (intros g d [Hu Hs]; split; [done|by apply same_touch]).
  apply triple_syscall.
  - intros d [Hs Hl]. split_and!; [by eauto|by apply Ht|]. intros _. split; [by apply Ht|].
    simpl. by rewrite lookup_alter_eq, Hl.
  - intros d n e [Hs Hl]. split_and!; [by eauto|by apply Ht|done].
Qed.

Lemma Sync_triple :
  triple Iv (holds data false) (file_Sync temp) (fun e d => same d /\ (e = None -> holds data true d)).
Proof using Htemp.
  apply triple_syscall.
  - intros d [[Hu Hs] Hl].
    assert (same (on_base (fun b => mkDir (alter (fun f => mkFile (f_data f) true) temp (live b)) (past b)) d)).
    { split; [done|]. intros id. destruct (Hs id) as [Hli Hm]. split; simpl.
      - by rewrite lookup_alter_ne by apply Htemp.
      - intros r (l & Hin & Hr). apply Hm. simpl in Hin. apply elem_of_cons in Hin as [->|Hin].
        + exists (live (base d)). split; [by left|]. by rewrite lookup_alter_ne in Hr by apply Htemp.
        + exists l. split; [by right|done]. }
    split_and!; [by eauto|done|]. intros _. split; [done|]. simpl. by rewrite lookup_alter_eq, Hl.
  - intros d n e Hd. split_and!; [by eauto|by eauto|done].
Qed.

Lemma Close_triple (P : disk -> Prop) :
  (forall d, P d -> Iv d) -> triple Iv P file_Close (fun _ d => P d).
Proof. intros HP. apply triple_syscall; intros; split; try done; by apply HP. Qed.

Lemma discard_triple e :
  triple Iv same (discard temp e) (fun r d => r = Some e /\ same d).
Proof using Htemp.
  unfold discard. eapply triple_bind with (R := fun _ => same).
  - unfold os_Remove. apply triple_entry; [done|]. intros f. apply triple_syscall.
    + intros d [[Hu Hs] _]. assert (same (on_base (relist (delete temp)) d)).
      { split; [done|]. simpl. apply same_relist; [|done]. intros l id. by apply lookup_delete_ne. }
      split; [by eauto|done].
    + intros d n e' [Hd _]. by eauto.
  - intros a. by apply triple_ret.
Qed.

Lemma close_discard_triple e :
  triple Iv same (close_discard temp e) (fun r d => r = Some e /\ same d).
Proof using Htemp.
  eapply triple_bind; [apply Close_triple; by eauto|]. intros a. apply discard_triple.
Qed.

Lemma Rename_triple :
  triple Iv (holds data true) (os_Rename temp target)
    (fun e d => match e with None => changed (Some (mkFile data true)) d | Some _ => same d end).
Proof using Htemp.
  unfold os_Rename. apply triple_entry; [by eauto|]. intros f. apply triple_syscall.
  - intros d [[[Hu Hs] Hl] Hf]. rewrite Hl in Hf. injection Hf as <-.
    assert (Hlive : forall id, id <> id0 ->
      <[target := mkFile data true]> (delete temp (live (base d))) !! record_name id
      = live (base d) !! record_name id).
    { intros id Hid. rewrite lookup_insert_ne by (intros E; by apply Hid, record_name_inj).
      apply lookup_delete_ne, Htemp. }
    assert (Hc : changed (Some (mkFile data true)) (on_base (relist (fun l => <[target := mkFile data true]> (delete temp l))) d)).
    { split_and!; [done| |apply lookup_insert_eq|].
      - intros id r (l & Hin & Hr). simpl in Hin. apply elem_of_cons in Hin as [->|Hin].
        + destruct (decide (id = id0)) as [->|Hid].
          * right. split; [done|]. rewrite lookup_insert_eq in Hr. destruct r as [s|]; [|done].
            by rewrite Hr.
          * left. rewrite Hlive in Hr by done. apply Hs. exists (live (base d)). split; [by left|done].
        + left. apply Hs. by exists l.
      - intros id Hid. simpl. rewrite Hlive by done. by apply Hs. }
    split; [by apply Hc|done].
  - intros d n e [Hd _]. by eauto.
Qed.

(** Once the directory is synced, the change is safe. *)
Definition settled_change (f : option file) (d : disk) : Prop := changed f d /\ past (base d) = [].

Lemma sync_parent_triple msg (f : option file) :
  triple (atomic (f_data <$> f)) (changed f) (sync_parent msg)
    (fun e d => match e with None => settled_change f d | Some _ => changed f d end).
Proof.
  assert (HC : forall P, (forall d, P d -> changed f d) ->
    triple (atomic (f_data <$> f)) P file_Close (fun _ d => P d)).
  { intros P HP. apply triple_syscall; intros d; intros; split; try done; by apply HP. }
  unfold sync_parent.
  eapply triple_try with (R := fun _ => changed f);
    [apply triple_syscall; intros d; intros; split; try done; by destruct H as (_ & ? & _)
    |intros e; by apply triple_ret|].
  eapply triple_try with (R := fun e d => match e with None => settled_change f d | Some _ => changed f d end).
  - apply triple_syscall.
    + intros d (Hu & Ha & Hl & Ho).
      assert (Hc : changed f (on_base (fun b => mkDir (live b) []) d)).
      { split_and!; [done| |done|done]. intros id r (l & Hin & Hr). apply Ha.
        exists l. split; [|done]. simpl in Hin. apply list_elem_of_singleton in Hin as ->. by left. }
      split; [by apply Hc|by split].
    + intros d n e Hd. split; [by apply Hd|done].
  - intros e. eapply triple_bind; [by apply HC|]. intros a. by apply triple_ret.
  - eapply triple_bind; [apply HC; by intros d []|]. intros a. by apply triple_ret.
Qed.

Lemma write_and_rename_triple :
  triple Iv same (write_and_rename temp target data)
    (fun e d => match e with
                | None => settled_change (Some (mkFile data true)) d
                | Some _ => same d \/ changed (Some (mkFile data true)) d
                end).
Proof using Htemp.
  assert (HD : forall e, triple Iv same (discard temp e)
     (fun e d => match e with
                | None => settled_change (Some (mkFile data true)) d
                | Some _ => same d \/ changed (Some (mkFile data true)) d
                end)).
  { intros e. eapply triple_post; [apply discard_triple|]. intros a d [-> Hd]. by left. }
  assert (HCD : forall e, triple Iv same (close_discard temp e)
     (fun e d => match e with
                | None => settled_change (Some (mkFile data true)) d
                | Some _ => same d \/ changed (Some (mkFile data true)) d
                end)).
  { intros e. eapply triple_post; [apply close_discard_triple|]. intros a d [-> Hd]. by left. }
  unfold write_and_rename.
  eapply triple_try; [apply Create_triple|intros e; apply triple_ret; intros d [Hd _]; by left|].
  eapply triple_try; [eapply triple_pre; [|apply Write_triple]; intros d [_ Hd]; by apply Hd
    |intros e; eapply triple_pre; [|apply HCD]; by intros d [Hd _]|].
  eapply triple_try; [eapply triple_pre; [|apply Sync_triple]; intros d [_ Hd]; by apply Hd
    |intros e; eapply triple_pre; [|apply HCD]; by intros d [Hd _]|].
  eapply triple_try with (R := fun _ => holds data true);
    [eapply triple_pre; [|apply Close_triple; by eauto]; intros d [_ Hd]; by apply Hd
    |intros e; eapply triple_pre; [|apply HD]; by intros d [Hd _]|].
  eapply triple_try; [apply Rename_triple|intros e; apply HD|].
  eapply triple_post; [apply (sync_parent_triple _ (Some (mkFile data true)))|].
  intros [e|] d Hd; [by right|done].
Qed.

End Writing.

(** ** [Delete] *)

Section Deleting.
Context (d0 : disk) (id0 : string).

Local Abbreviation target := (record_name id0).

Lemma same_changed d : same d0 d -> live (base d0) !! target = None -> changed d0 id0 None d.
Proof.
  intros Hs Hl. split_and!; [by apply Hs|by apply same_atomic| |].
  - rewrite <- Hl. by apply Hs.
  - intros id _. by apply Hs.
Qed.

Lemma Remove_triple :
  triple (atomic d0 id0 None) (same d0) (os_Remove target)
    (fun e d => match e with
                | None => changed d0 id0 None d
                | Some e => same d0 d /\ (errors_Is e os_ErrNotExist = true -> changed d0 id0 None d)
                end).
Proof.
  unfold os_Remove. apply triple_entry.
  - intros d Hd Hl. split; [done|]. intros _. apply same_changed; [done|]. rewrite <- Hl. symmetry. by apply Hd.
  - intros f. apply triple_syscall.
    + intros d [[Hu Hs] Hl].
      assert (Hlive : forall id, id <> id0 ->
        delete target (live (base d)) !! record_name id = live (base d) !! record_name id).
      { intros id Hid. apply lookup_delete_ne. intros E. by apply Hid, record_name_inj. }
      assert (Hc : changed d0 id0 None (on_base (relist (delete target)) d)).
      { split_and!; [done| |apply lookup_delete_eq|].
        - intros id r (l & Hin & Hr). simpl in Hin. apply elem_of_cons in Hin as [->|Hin].
          + destruct (decide (id = id0)) as [->|Hid].
            * right. split; [done|]. rewrite lookup_delete_eq in Hr. by destruct r.
            * left. rewrite Hlive in Hr by done. apply Hs. exists (live (base d)). split; [by left|done].
          + left. apply Hs. by exists l.
        - intros id Hid. simpl. rewrite Hlive by done. by apply Hs. }
      split; [by apply Hc|done].
    + intros d n e [Hd _]. split; [by apply same_atomic|]. split; [done|]. by intros.
Qed.

Lemma deletePathDurably_triple :
  triple (atomic d0 id0 None) (same d0) (deletePathDurably target)
    (fun e d => match e with
                | None => settled_change d0 id0 None d
                | Some _ => same d0 d \/ changed d0 id0 None d
                end).
Proof.
  assert (HS : triple (atomic d0 id0 None) (changed d0 id0 None) (sync_parent "failed to sync directory: ")
    (fun e d => match e with
                | None => settled_change d0 id0 None d
                | Some _ => same d0 d \/ changed d0 id0 None d
                end)).
  { eapply triple_post; [apply (sync_parent_triple d0 id0 _ None)|]. intros [e|] d Hd; [by right|done]. }
  unfold deletePathDurably. eapply triple_bind; [apply Remove_triple|]. intros [e|]; [|exact HS].
  destruct (errors_Is e os_ErrNotExist) eqn:He.
  - eapply triple_pre; [|exact HS]. intros d [_ Hd]. by apply Hd.
  - apply triple_ret. intros d [Hd _]. by left.
Qed.
End Deleting.

(** ** Records *)

Section Records.
Context `{UUID}.

Definition record_at (l : listing) (id : string) : option PersistentOperation :=
  f ← l !! record_name id; record_in (record_name id) (f_data f).

Lemma record_in_Some name data op :
  record_in name data = Some op ->
  decode_operation data = Ok op /\ uuid_Parse (OperationID op) = None /\
  name = record_name (OperationID op) /\ is_Some (Parse_RFC3339 (UpdatedAt op)) /\ Active op = true.
Proof.
  unfold record_in, inspect. destruct (decode_operation data) as [op'|]; [|done].
  destruct (uuid_Parse _) eqn:Hp; [done|].
  destruct (String.eqb_spec name (record_name (OperationID op'))); [|done]. simpl.
  destruct (Parse_RFC3339 _) eqn:Hu; [|done]. destruct (Active op') eqn:Ha; [|done].
  simpl. intros E. injection E as <-. rewrite Hu. split_and!; done.
Qed.

Lemma record_in_encoded op data :
  encodable op -> uuid_Parse (OperationID op) = None -> is_Some (Parse_RFC3339 (UpdatedAt op)) ->
  Active op = true -> encode_operation op = Some data ->
  record_in (record_name (OperationID op)) data = Some (stored_form op).
Proof.
  intros [Htx Hid%readable_id_ok]%andb_true_iff Hu [t Ht] Ha Hd.
  destruct (decode_encode_data op Htx Hid) as (data' & Hd' & Hdec).
  rewrite Hd in Hd'. injection Hd' as <-. unfold record_in, inspect. rewrite Hdec.
  cbn [stored_form OperationID UpdatedAt Active]. by rewrite Hu, String.eqb_refl, Ht, Ha.
Qed.

Lemma record_of_NoDup (es : list (string * file)) :
  NoDup (map fst es) -> NoDup (map fst (omap record_of es)).
Proof.
  induction es as [|[n f] es IH]; simpl; [done|]. intros [Hn Hes]%NoDup_cons.
  unfold record_of at 1. simpl. destruct (record_in n (f_data f)) as [op|] eqn:Hr; simpl; [|by apply IH].
  constructor; [|by apply IH]. intros Hin. apply Hn.
  apply list_elem_of_fmap in Hin as ([id op'] & E & Hin). simpl in E. subst id.
  apply list_elem_of_omap in Hin as ([n' f'] & Hin & Hr'). unfold record_of in Hr'. simpl in Hr'.
  destruct (record_in n' (f_data f')) as [op2|] eqn:Hr2; [|done]. injection Hr' as E ->.
  apply list_elem_of_fmap. exists (n', f'). split; [|done]. simpl.
  apply record_in_Some in Hr as (_ & _ & -> & _), Hr2 as (_ & _ & -> & _). by rewrite E.
Qed.

Lemma records_lookup l id : records l !! id = record_at l id.
Proof.
  apply option_eq. intros op. unfold records. rewrite <- elem_of_list_to_map
    by apply record_of_NoDup, NoDup_fst_map_to_list.
  rewrite list_elem_of_omap. unfold record_at. split.
  - intros ([n f] & Hin & Hr). apply elem_of_map_to_list in Hin. unfold record_of in Hr. simpl in Hr.
    destruct (record_in n (f_data f)) as [op2|] eqn:Hr2; [|done]. injection Hr as <- ->.
    pose proof (record_in_Some _ _ _ Hr2) as (_ & _ & -> & _). by rewrite Hin.
  - destruct (l !! record_name id) as [f|] eqn:Hl; [|done]. intros Hr. simpl in Hr.
    exists (record_name id, f). split; [by apply elem_of_map_to_list|]. unfold record_of. simpl.
    rewrite Hr. simpl. apply record_in_Some in Hr as (_ & _ & E & _). by apply record_name_inj in E as ->.
Qed.

Lemma records_same l l' :
  (forall id, l' !! record_name id = l !! record_name id) -> records l' = records l.
Proof. intros Hl. apply map_eq. intros id. rewrite !records_lookup. unfold record_at. by rewrite Hl. Qed.

Lemma records_set l l' id op f :
  (forall i, i <> id -> l' !! record_name i = l !! record_name i) ->
  l' !! record_name id = Some f -> record_in (record_name id) (f_data f) = Some op ->
  records l' = <[id := op]> (records l).
Proof.
  intros Ho Hl Hr. apply map_eq. intros i. rewrite records_lookup. unfold record_at.
  destruct (decide (i = id)) as [->|Hi].
  - rewrite Hl, lookup_insert_eq. done.
  - by rewrite lookup_insert_ne, records_lookup, Ho by done.
Qed.

Lemma records_unset l l' id :
  (forall i, i <> id -> l' !! record_name i = l !! record_name i) ->
  l' !! record_name id = None -> records l' = delete id (records l).
Proof.
  intros Ho Hl. apply map_eq. intros i. rewrite records_lookup. unfold record_at.
  destruct (decide (i = id)) as [->|Hi].
  - by rewrite Hl, lookup_delete_eq.
  - by rewrite lookup_delete_ne, records_lookup, Ho by done.
Qed.

(** ** Power loss *)

(** Everything written so far is safe. *)
Definition settled (b : directory) : Prop :=
  past b = [] /\ forall name f, live b !! name = Some f -> f_synced f = true.

Lemma record_at_data l id : record_at l id = (f_data <$> l !! record_name id) ≫= record_in (record_name id).
Proof. unfold record_at. by destruct (l !! record_name id). Qed.

Lemma records_data l l' :
  (forall id, f_data <$> l' !! record_name id = f_data <$> l !! record_name id) -> records l' = records l.
Proof. intros Hl. apply map_eq. intros id. by rewrite !records_lookup, !record_at_data, Hl. Qed.

(** The records with the entry of [id] replaced by [new]. *)
Definition with_record (id : string) (new : option PersistentOperation)
    (m : gmap string PersistentOperation) : gmap string PersistentOperation :=
  match new with Some op => <[id := op]> m | None => delete id m end.

Lemma records_with l l' id new :
  (forall i, i <> id -> f_data <$> l' !! record_name i = f_data <$> l !! record_name i) ->
  f_data <$> l' !! record_name id = new ->
  records l' = with_record id (new ≫= record_in (record_name id)) (records l).
Proof.
  intros Ho Hn. apply map_eq. intros i. rewrite records_lookup, record_at_data.
  assert (Hi : i <> id -> (f_data <$> l' !! record_name i) ≫= record_in (record_name i) = records l !! i).
  { intros Hi. by rewrite Ho, <- record_at_data, records_lookup. }
  unfold with_record. destruct (new ≫= record_in (record_name id)) as [op|] eqn:Hr.
  - destruct (decide (i = id)) as [->|Hi'].
    + by rewrite lookup_insert_eq, Hn.
    + by rewrite lookup_insert_ne, Hi by done.
  - destruct (decide (i = id)) as [->|Hi'].
    + by rewrite lookup_delete_eq, Hn.
    + by rewrite lookup_delete_ne, Hi by done.
Qed.

Lemma loss_atomic d0 id0 new d d' :
  settled (base d0) -> atomic d0 id0 new d -> power_loss d d' ->
  records (live (base d')) = records (live (base d0)) \/
  records (live (base d')) = with_record id0 (new ≫= record_in (record_name id0)) (records (live (base d0))).
Proof.
  intros [Hp Hs] Ha [_ Hd'].
  assert (Hall : forall id, f_data <$> live (base d') !! record_name id
                            = f_data <$> live (base d0) !! record_name id
                         \/ (id = id0 /\ f_data <$> live (base d') !! record_name id = new)).
  { intros id. destruct (Ha id _ (proj1 (Hd' (record_name id)))) as [Hm|[-> Hm]]; [|by right].
    left. apply may_hold_settled; [done| |done]. intros f. apply Hs. }
  assert (Ho : forall i, i <> id0 -> f_data <$> live (base d') !! record_name i
                                     = f_data <$> live (base d0) !! record_name i).
  { intros i Hi. by destruct (Hall i) as [|[-> _]]. }
  destruct (Hall id0) as [He|[_ He]].
  - left. apply records_data. intros id. destruct (decide (id = id0)) as [->|Hi]; [done|by apply Ho].
  - right. by apply records_with.
Qed.

Lemma loss_settled d0 id0 f d d' :
  settled (base d0) -> settled_change d0 id0 f d -> (forall g, f = Some g -> f_synced g = true) ->
  power_loss d d' ->
  records (live (base d'))
    = with_record id0 ((f_data <$> f) ≫= record_in (record_name id0)) (records (live (base d0))).
Proof.
  intros [Hp Hs] ((_ & _ & Hl & Ho) & Hpast) Hf [_ Hd'].
  assert (Hd : forall id, f_data <$> live (base d') !! record_name id
                          = f_data <$> live (base d) !! record_name id).
  { intros id. apply may_hold_settled; [done| |apply Hd'].
    intros g Hg. destruct (decide (id = id0)) as [->|Hi].
    - apply Hf. by rewrite <- Hl.
    - rewrite Ho in Hg by done. by eapply Hs. }
  apply records_with.
  - intros i Hi. by rewrite Hd, Ho.
  - by rewrite Hd, Hl.
Qed.

(** [Save] either gives up before it touches the disk, or writes the encoded
    record under a temporary name and renames it. *)
Lemma Save_cases `{!UUIDLaws} c op st :
  (exists e, Save c (Some op) st = (Some e, st)) \/
  (exists data temp, encode_operation op = Some data /\ uuid_Parse (OperationID op) = None /\
     others temp /\
     Save c (Some op) st = write_and_rename temp (record_name (OperationID op)) data
       (mkIO (io_disk st) (io_faults st) (S (io_drawn st)) (io_trace st))).
Proof.
  unfold Save. destruct c as [e|]; [left; by eexists|].
  destruct (encode_operation op) as [data|]; [|left; by eexists].
  unfold getPath. destruct (uuid_Parse (OperationID op)) as [e|] eqn:Hu; [left; by eexists|].
  right. eexists data, _. split_and!; try done. intros id. destruct (uuid_New_text (io_drawn st)) as [Hne Hc].
  rewrite <- string_app_assoc. by apply temp_not_record.
Qed.

(** What a [Save] leaves, whatever call fails. *)
Lemma Save_spec `{!UUIDLaws} c op st e st' :
  io_trace st = [] -> Save c (Some op) st = (e, st') ->
  (st' = st /\ e <> None) \/
  (exists data, encode_operation op = Some data /\ uuid_Parse (OperationID op) = None /\
     Forall (atomic (io_disk st) (OperationID op) (Some data)) (io_disk st :: io_trace st') /\
     match e with
     | None => settled_change (io_disk st) (OperationID op) (Some (mkFile data true)) (io_disk st')
     | Some _ => same (io_disk st) (io_disk st') \/
                 changed (io_disk st) (OperationID op) (Some (mkFile data true)) (io_disk st')
     end).
Proof.
  intros Ht. assert (Hsame : same (io_disk st) (io_disk st)) by (split; [done|apply same_dir_refl]).
  destruct (Save_cases c op st) as [[e0 HS]|(data & temp & Hd & Hu & Ho & HS)]; rewrite HS.
  - intros [= <- <-]. by left.
  - intros E. right. exists data.
    destruct (write_and_rename_triple (io_disk st) (OperationID op) data temp Ho
                (mkIO (io_disk st) (io_faults st) (S (io_drawn st)) (io_trace st))) as [HQ HI];
      [done|by rewrite Ht; constructor|].
    rewrite E in HQ, HI. cbn [fst snd] in HQ, HI. split_and!; try done.
    constructor; [by apply same_atomic|done].
Qed.

(** The same for [Delete]. *)
Lemma Delete_spec c id st e st' :
  io_trace st = [] -> Delete c id st = (e, st') ->
  (st' = st /\ e <> None) \/
  (Forall (atomic (io_disk st) id None) (io_disk st :: io_trace st') /\
     match e with
     | None => settled_change (io_disk st) id None (io_disk st')
     | Some _ => same (io_disk st) (io_disk st') \/ changed (io_disk st) id None (io_disk st')
     end).
Proof.
  intros Ht. assert (Hsame : same (io_disk st) (io_disk st)) by (split; [done|apply same_dir_refl]).
  unfold Delete, getPath. destruct c as [e0|]; [intros [= <- <-]; by left|].
  destruct (uuid_Parse id) as [e0|]; [intros [= <- <-]; by left|]. intros E. right.
  destruct (deletePathDurably_triple (io_disk st) id st) as [HQ HI]; [done|by rewrite Ht; constructor|].
  rewrite E in HQ, HI. cbn [fst snd] in HQ, HI. split; [|done].
  constructor; [by apply same_atomic|done].
Qed.

Lemma loss_idle st d d' :
  settled (base (io_disk st)) -> io_trace st = [] -> d ∈ io_disk st :: io_trace st -> power_loss d d' ->
  records (live (base d')) = records (live (base (io_disk st))).
Proof.
  intros [Hp Hs] Ht Hd [_ Hl]. rewrite Ht in Hd. apply list_elem_of_singleton in Hd as ->.
  apply records_data. intros id. apply may_hold_settled; [done| |apply Hl]. intros f. apply Hs.
Qed.

(** C12: [Save] is all or nothing: whatever call of it fails, and whenever the
    power is lost, the store holds afterwards the records it had before or these
    with the new record; when [Save] has reported success the new record is
    there. *)
Theorem save_survives_power_loss `{!UUIDLaws} c op st e st' :
  settled (base (io_disk st)) -> io_trace st = [] ->
  encodable op -> Active op = true -> is_Some (Parse_RFC3339 (UpdatedAt op)) ->
  Save c (Some op) st = (e, st') ->
  let before := records (live (base (io_disk st))) in
  let after := <[OperationID op := stored_form op]> before in
  (forall d d', d ∈ io_disk st :: io_trace st' -> power_loss d d' ->
     records (live (base d')) = before \/ records (live (base d')) = after) /\
  (forall d', e = None -> power_loss (io_disk st') d' -> records (live (base d')) = after).
Proof.
  intros Hs Ht He Ha Hp HS before after.
  destruct (Save_spec c op st e st' Ht HS) as [[-> Hne]|(data & Hd & Hu & HI & HQ)].
  - split; [|done]. intros d d' Hin Hl. left. by eapply loss_idle.
  - assert (Hafter : with_record (OperationID op)
              (Some data ≫= record_in (record_name (OperationID op))) before = after).
    { cbn [mbind option_bind]. by rewrite (record_in_encoded op data He Hu Hp Ha Hd). }
    rewrite <- Hafter. split.
    + intros d d' Hin Hl. rewrite Forall_forall in HI. by eapply loss_atomic; [|apply HI|].
    + intros d' -> Hl. eapply (loss_settled _ _ (Some (mkFile data true))); [done|done| |done].
      by intros g [= <-].
Qed.

(** C40: [Delete] is all or nothing in the same sense, and the record stays
    deleted once [Delete] has reported success. *)
Theorem delete_survives_power_loss c id st e st' :
  settled (base (io_disk st)) -> io_trace st = [] ->
  Delete c id st = (e, st') ->
  let before := records (live (base (io_disk st))) in
  (forall d d', d ∈ io_disk st :: io_trace st' -> power_loss d d' ->
     records (live (base d')) = before \/ records (live (base d')) = delete id before) /\
  (forall d', e = None -> power_loss (io_disk st') d' -> records (live (base d')) = delete id before).
Proof.
  intros Hs Ht HD before.
  destruct (Delete_spec c id st e st' Ht HD) as [[-> Hne]|(HI & HQ)].
  - split; [|done]. intros d d' Hin Hl. left. by eapply loss_idle.
  - split.
    + intros d d' Hin Hl. rewrite Forall_forall in HI.
      by destruct (loss_atomic _ _ _ _ _ Hs (HI _ Hin) Hl) as [?|?]; [left|right].
    + intros d' -> Hl. by apply (loss_settled _ _ None _ d' Hs HQ).
Qed.

End Records.
