(* ===== verification/DiskLaws.v ===== *)
(** * The disk store as an operation store

    The disk-backed store implements the interface of [Store]: [disk_store]
    gives the operations and [disk_store_laws] the laws the request manager's
    theorems are proved from, for a disk whose files can be read.
    [GetActive] returns the newest active records, newest first, and moves the
    files that are called like a record and hold none, or another, to the
    quarantine and no others ([GetActive_spec], [GetActive_exact]). *)

From S2P Require Import Prelude Json GoTime Store FileSys OpCodec DiskStore DiskSafe.
Open Scope go_scope.

Section Laws.
Context `{HU : UUID} `{HS : GoSort} `{!UUIDLaws} `{!GoSortLaws}.

(** Every operation starts a trace of its own. *)
Definition fresh (st : io) : io := mkIO (io_disk st) (io_faults st) (io_drawn st) [].

#[global] Instance disk_store : OperationStore io := {
  store_Save st c _ op := let '(e, st') := Save c (Some op) (fresh st) in (st', e);
  store_Get st c id := (Get c id st).1;
  store_GetActive st c now limit :=
    let '(r, st') := GetActive (fun _ => c) now limit (fresh st) in (st', r);
  store_Delete st c _ id := let '(e, st') := Delete c id (fresh st) in (st', e);
  store_view st := records (live (base (io_disk st)));
  storable := encodable;
  store_form := stored_form;
}.

Definition readable_disk (st : io) : Prop := unreadable (io_disk st) = ∅.

(** ** Quarantine *)

(** The name a file has in the quarantine. *)
Definition quarantined (now : Z) (name : string) : string :=
  name +:+ "." +:+ pretty (UnixNano now) +:+ ".corrupt".

Lemma quarantined_inj now a b : quarantined now a = quarantined now b -> a = b.
Proof. apply suffix_inj. Qed.

(** The file moved into the quarantine. *)
Definition moved_aside (now : Z) (name : string) (d0 d : disk) : Prop :=
  unreadable d = unreadable d0 /\
  exists f, live (base d0) !! name = Some f /\ live (base d) = delete name (live (base d0)) /\
            live (quarantine d) = <[quarantined now name := f]> (live (quarantine d0)).

(** The file moved, or nothing changed but what is known to be safe. *)
Definition put_aside (now : Z) (name : string) (d0 d : disk) : Prop :=
  moved_aside now name d0 d \/
  unreadable d = unreadable d0 /\ live (base d) = live (base d0) /\ live (quarantine d) = live (quarantine d0).

Lemma put_aside_call now d0 name ok :
  (forall d, live (base (ok d)) = live (base d) /\ live (quarantine (ok d)) = live (quarantine d) /\
             unreadable (ok d) = unreadable d) ->
  triple (fun _ => True) (put_aside now name d0) (syscall ok unchanged) (fun _ => put_aside now name d0).
Proof.
  intros Hok. apply triple_syscall; [|done]. intros d Hd. split; [done|].
  destruct (Hok d) as (Hb & Hq & Hu). unfold put_aside, moved_aside in *. by rewrite Hb, Hq, Hu.
Qed.

Lemma quarantine_triple d0 name now :
  triple (fun _ => True) (eq d0) (quarantinePathDurably now name) (fun _ => put_aside now name d0).
Proof.
  assert (Hcall : forall A (c : IO (option error)) (k : option error -> IO A) ,
    triple (fun _ => True) (put_aside now name d0) c (fun _ => put_aside now name d0) ->
    (forall a, triple (fun _ => True) (put_aside now name d0) (k a) (fun _ => put_aside now name d0)) ->
    triple (fun _ => True) (put_aside now name d0) (a ← c; k a) (fun _ => put_aside now name d0))
    by (intros; by eapply triple_bind).
  assert (Hret : forall A (a : A), triple (fun _ => True) (put_aside now name d0) (mret a) (fun _ => put_aside now name d0))
    by (intros; by apply triple_ret).
  unfold quarantinePathDurably, try_io.
  eapply triple_bind with (R := fun _ => put_aside now name d0).
  - unfold os_Rename_quarantine. apply triple_entry.
    + intros d <- _. by right.
    + intros f. apply triple_syscall.
      * intros d [<- Hf]. split; [done|]. left. split; [done|]. by exists f.
      * intros d n e [<- _]. split; [done|]. by right.
  - assert (Hopen : triple (fun _ => True) (put_aside now name d0) os_OpenDir (fun _ => put_aside now name d0))
      by by apply put_aside_call.
    assert (Hclose : triple (fun _ => True) (put_aside now name d0) file_Close (fun _ => put_aside now name d0))
      by by apply put_aside_call.
    assert (Hq : triple (fun _ => True) (put_aside now name d0) quarantine_Sync (fun _ => put_aside now name d0))
      by by apply put_aside_call.
    assert (Hs : triple (fun _ => True) (put_aside now name d0) dir_Sync (fun _ => put_aside now name d0))
      by by apply put_aside_call.
    intros [e|]; [done|]. repeat (first [apply Hret | apply Hcall; [done|]; intros [?|]]).
Qed.

Lemma quarantine_spec now name st e st' :
  quarantinePathDurably now name st = (e, st') -> put_aside now name (io_disk st) (io_disk st').
Proof.
  intros E. destruct (quarantine_triple (io_disk st) name now st) as [HQ _]; [done|by apply Forall_true|].
  by rewrite E in HQ.
Qed.

(** Where no call fails the file is moved. *)
Lemma quarantine_moves now name st f :
  io_faults st = [] -> live (base (io_disk st)) !! name = Some f ->
  exists st', quarantinePathDurably now name st = (None, st') /\ io_faults st' = [] /\
              moved_aside now name (io_disk st) (io_disk st').
Proof.
  destruct st as [d fs n tr]. cbn [io_faults io_disk]. intros -> Hf.
  unfold quarantinePathDurably, try_io, mbind, IO_bind, os_Rename_quarantine. cbn [io_disk]. rewrite Hf.
  eexists. split; [reflexivity|]. split; [reflexivity|]. split; [reflexivity|]. by exists f.
Qed.

(** ** The scan *)

(** The records among the entries of a listing. *)
Definition kept (l : listing) (es : list (string * bool)) : list PersistentOperation :=
  omap (fun '(name, isDir) =>
          if isDir || negb (has_suffix ".json" name) then None else
          f ← l !! name; record_in name (f_data f)) es.

Lemma kept_cons l e es :
  kept l (e :: es) = match kept l [e] with op :: _ => op :: kept l es | [] => kept l es end.
Proof.
  unfold kept. destruct e as [name isDir]. simpl.
  destruct (isDir || negb (has_suffix ".json" name)); [done|].
  destruct (l !! name) as [f|]; [|done]. simpl. by destruct (record_in name (f_data f)).
Qed.

Lemma kept_ext l l' es :
  (forall name, (name, false) ∈ es -> l' !! name = l !! name) -> kept l' es = kept l es.
Proof.
  induction es as [|[name b] es IH]; intros Hl; [done|]. rewrite kept_cons, (kept_cons l), IH.
  - unfold kept. simpl. destruct b; [done|]. by rewrite (Hl name) by by left.
  - intros n Hin. apply (Hl n). by right.
Qed.

Definition file_names (es : list (string * bool)) : list string :=
  omap (fun e => if e.2 : bool then None else Some e.1) es.

Lemma file_names_elem name es : name ∈ file_names es <-> (name, false) ∈ es.
Proof.
  unfold file_names. rewrite list_elem_of_omap. split.
  - intros ([n []] & Hin & E); [done|]. simpl in E. by injection E as <-.
  - intros Hin. by exists (name, false).
Qed.

(** A file that the scan takes for corrupt. *)
Definition corrupt (name : string) (f : file) : Prop :=
  has_suffix ".json" name = true /\ inspect name (f_data f) = Corrupt.

(** What a scan of the entries [es] may do to the directories: corrupt files
    among them move to the quarantine as they are, everything else stays. *)
Definition swept (now : Z) (es : list (string * bool)) (d0 d : disk) : Prop :=
  unreadable d = unreadable d0 /\
  (forall name, live (base d) !! name = live (base d0) !! name \/
     exists f, (name, false) ∈ es /\ live (base d0) !! name = Some f /\ corrupt name f /\
       live (base d) !! name = None /\ live (quarantine d) !! quarantined now name = Some f) /\
  (forall q, live (quarantine d) !! q = live (quarantine d0) !! q \/
     exists name f, (name, false) ∈ es /\ q = quarantined now name /\
       live (base d0) !! name = Some f /\ corrupt name f).

Lemma swept_same now es d : swept now es d d.
Proof. split_and!; [done|by left|by left]. Qed.

Lemma swept_weaken now e es d0 d : swept now es d0 d -> swept now (e :: es) d0 d.
Proof.
  intros (Hu & Hb & Hq). split_and!; [done| |].
  - intros name. destruct (Hb name) as [?|(f & Hin & ?)]; [by left|right]. exists f. split; [by right|done].
  - intros q. destruct (Hq q) as [?|(name & f & Hin & ?)]; [by left|right]. exists name, f. split; [by right|done].
Qed.

(** A corrupt file is put aside and the scan goes on. *)
Lemma swept_step now name f es d0 d1 d :
  live (base d0) !! name = Some f -> corrupt name f -> (name, false) ∉ es ->
  put_aside now name d0 d1 -> swept now es d1 d -> swept now ((name, false) :: es) d0 d.
Proof.
  intros Hf Hc Hno [(Hu1 & f' & Hf' & Hb1 & Hq1)|(Hu1 & Hb1 & Hq1)] (Hu & Hb & Hq).
  2:{ apply swept_weaken. unfold swept. by rewrite <- Hu1, <- Hb1, <- Hq1. }
  assert (f' = f) as -> by congruence. rewrite Hb1 in Hb, Hq. rewrite Hq1 in Hq. split_and!; [congruence| |].
  - intros x. destruct (decide (x = name)) as [->|Hx].
    + right. exists f. destruct (Hb name) as [Hn|(g & Hin & _)]; [|done]. rewrite lookup_delete_eq in Hn.
      split_and!; [by left|done|done|done|]. destruct (Hq (quarantined now name)) as [->|(y & g & Hin & E & _)].
      * apply lookup_insert_eq.
      * apply quarantined_inj in E as <-. done.
    + destruct (Hb x) as [Hn|(g & Hin & Hg & ?)]; rewrite lookup_delete_ne in * by done; [by left|right].
      exists g. split; [by right|done].
  - intros q. destruct (Hq q) as [Hn|(y & g & Hin & E & Hg & ?)].
    + destruct (decide (q = quarantined now name)) as [->|Hne].
      * right. exists name, f. split_and!; [by left|done..].
      * rewrite lookup_insert_ne in Hn by done. by left.
    + right. exists y, g. apply lookup_delete_Some in Hg as [_ Hg]. split_and!; [by right|done..].
Qed.

(** No record is lost with what is put aside. *)
Lemma swept_records now es d0 d : swept now es d0 d -> records (live (base d)) = records (live (base d0)).
Proof.
  intros (_ & Hb & _). apply map_eq. intros id. rewrite !records_lookup. unfold record_at.
  destruct (Hb (record_name id)) as [->|(f & _ & Hf & [_ Hc] & -> & _)]; [done|].
  rewrite Hf. cbn. unfold record_in. by rewrite Hc.
Qed.

(** A scan of [es] that has found the records [ops]: nothing but corrupt files
    was moved, and where no call fails all of them were. *)
Definition scanned (now : Z) (es : list (string * bool)) (ops : list PersistentOperation) (st : io)
    (x : result (list PersistentOperation) * io) : Prop :=
  x.1 = Ok ops /\ swept now es (io_disk st) (io_disk x.2) /\
  (io_faults st = [] -> io_faults x.2 = [] /\
   forall name f, (name, false) ∈ es -> live (base (io_disk st)) !! name = Some f -> corrupt name f ->
     live (base (io_disk x.2)) !! name = None).

(** An entry that is passed over. *)
Lemma scanned_passed now name isDir es ops st x :
  (isDir = false -> forall f, live (base (io_disk st)) !! name = Some f -> ~ corrupt name f) ->
  scanned now es ops st x -> scanned now ((name, isDir) :: es) ops st x.
Proof.
  intros Hok (Hx & Hs & Hg). split_and!; [done|by apply swept_weaken|]. intros Hfs.
  destruct (Hg Hfs) as [Hfs' Hgone]. split; [done|]. intros n f [E|Hin]%elem_of_cons Hf Hc; [|by eapply Hgone].
  injection E as -> <-. destruct (Hok eq_refl f Hf Hc).
Qed.

(** A corrupt file. *)
Lemma scanned_corrupt now name f es ops st e st1 x :
  live (base (io_disk st)) !! name = Some f -> corrupt name f -> (name, false) ∉ es ->
  quarantinePathDurably now name st = (e, st1) -> scanned now es ops st1 x ->
  scanned now ((name, false) :: es) ops st x.
Proof.
  intros Hf Hc Hno Hq (Hx & Hs & Hg). pose proof (quarantine_spec _ _ _ _ _ Hq) as Hput.
  split_and!; [done|by eapply swept_step|]. intros Hfs.
  destruct (quarantine_moves now name st f Hfs Hf) as (st1' & Hq' & Hfs1 & (_ & f' & _ & Hb1 & _)).
  rewrite Hq in Hq'. injection Hq' as _ <-. destruct (Hg Hfs1) as [Hfs' Hgone]. split; [done|].
  destruct Hs as (_ & Hs & _). rewrite Hb1 in Hs, Hgone. intros n g [E|Hin]%elem_of_cons Hg' Hcg.
  - injection E as ->. destruct (Hs name) as [->|(? & ? & _)]; [apply lookup_delete_eq|done].
  - eapply Hgone; [done| |done]. rewrite lookup_delete_ne; [done|]. by intros ->.
Qed.

Lemma scan_spec now es : forall k acc st,
  readable_disk st -> NoDup (file_names es) ->
  (forall name, (name, false) ∈ es -> is_Some (live (base (io_disk st)) !! name)) ->
  scanned now es (acc ++ kept (live (base (io_disk st))) es) st (scan (fun _ => None) now k es acc st).
Proof.
  induction es as [|[name isDir] es IH]; intros k acc st Hr Hnd Hex.
  { simpl. rewrite app_nil_r. split; [done|]. split; [apply swept_same|]. intros ?. split; [done|].
    by intros ?? ?%elem_of_nil. }
  rewrite kept_cons. cbn [scan].
  assert (Hex' : forall n, (n, false) ∈ es -> is_Some (live (base (io_disk st)) !! n))
    by (intros n Hin; apply Hex; by right).
  unfold kept at 1. cbn [omap list_omap].
  destruct isDir; [by apply scanned_passed, IH|]. apply NoDup_cons in Hnd as [Hn Hnd].
  destruct (negb (has_suffix ".json" name)) eqn:Hsuf.
  { apply scanned_passed; [|by apply IH]. intros _ f _ [Hs _]. by rewrite Hs in Hsuf. }
  destruct (Hex name) as [f Hf]; [by left|].
  cbn [orb]. unfold mbind, IO_bind, os_ReadFile. pose proof Hr as Hr'. unfold readable_disk in Hr'.
  rewrite Hr', lookup_empty, Hf. cbn [option_bind].
  assert (inspect name (f_data f) <> Corrupt ->
          forall g, live (base (io_disk st)) !! name = Some g -> ~ corrupt name g) as Hok
    by (intros Hne g Hg [_ Hc]; congruence).
  destruct (inspect name (f_data f)) as [| |op] eqn:Hv.
  - assert (Hc : corrupt name f) by (split; [by apply negb_false_iff|done]).
    assert (Hno : (name, false) ∉ es) by (by rewrite <- file_names_elem).
    assert (record_in name (f_data f) = None) as -> by (unfold record_in; by rewrite Hv).
    destruct (quarantinePathDurably now name st) as [e st1] eqn:Hq.
    pose proof (quarantine_spec _ _ _ _ _ Hq) as Hput.
    assert (Hl : forall n, (n, false) ∈ es -> live (base (io_disk st1)) !! n = live (base (io_disk st)) !! n).
    { intros n Hin. destruct Hput as [(_ & f' & _ & -> & _)|(_ & -> & _)]; [|done].
      apply lookup_delete_ne. by intros ->. }
    eapply scanned_corrupt; [done..|]. rewrite <- (kept_ext _ _ _ Hl). apply IH; [|done|].
    + unfold readable_disk. by destruct Hput as [(-> & _)|(-> & _)].
    + intros n Hin. rewrite (Hl n Hin). by apply Hex'.
  - assert (record_in name (f_data f) = None) as -> by (unfold record_in; by rewrite Hv).
    apply scanned_passed; [by intros _; apply Hok|by apply IH].
  - assert (record_in name (f_data f) = Some op) as -> by (unfold record_in; by rewrite Hv).
    apply scanned_passed; [by intros _; apply Hok|].
    pose proof (IH (S k) (acc ++ [op]) st Hr Hnd Hex') as IH1. rewrite <- app_assoc in IH1. exact IH1.
Qed.

(** ** The directory's entries *)

Lemma entries_elem d name : (name, false) ∈ entries d <-> is_Some (live (base d) !! name).
Proof.
  unfold entries. rewrite merge_sort_Permutation, elem_of_cons, list_elem_of_fmap. split.
  - intros [?|([n f] & E & Hin)]; [done|]. injection E as ->. exists f. by apply elem_of_map_to_list.
  - intros [f Hf]. right. exists (name, f). by rewrite elem_of_map_to_list.
Qed.

Lemma entries_NoDup d : NoDup (file_names (entries d)).
Proof.
  unfold file_names, entries. rewrite merge_sort_Permutation. simpl.
  assert (omap (fun e : string * bool => if e.2 then None else Some e.1)
            (map (fun e : string * file => (e.1, false)) (map_to_list (live (base d))))
          = map fst (map_to_list (live (base d)))) as E.
  { induction (map_to_list (live (base d))) as [|e l IH]; [done|]. simpl. f_equal. exact IH. }
  change (NoDup (omap (fun e : string * bool => if e.2 then None else Some e.1)
            (map (fun e : string * file => (e.1, false)) (map_to_list (live (base d)))))).
  rewrite E. apply NoDup_fst_map_to_list.
Qed.

Lemma kept_elem l es op :
  op ∈ kept l es <-> records l !! OperationID op = Some op /\ (record_name (OperationID op), false) ∈ es.
Proof.
  unfold kept. rewrite list_elem_of_omap, records_lookup. unfold record_at. split.
  - intros ([name b] & Hin & E). destruct b; [done|]. simpl in E.
    destruct (negb (has_suffix ".json" name)); [done|].
    destruct (l !! name) as [f|] eqn:Hf; [|done]. simpl in E.
    destruct (record_in_Some _ _ _ E) as (_ & _ & -> & _). by rewrite Hf.
  - intros [E Hin]. exists (record_name (OperationID op), false). split; [done|].
    cbn [orb]. rewrite has_suffix_record. cbn [negb].
    by destruct (l !! record_name (OperationID op)).
Qed.

Lemma kept_NoDup l es : NoDup (file_names es) -> NoDup (map OperationID (kept l es)).
Proof.
  induction es as [|[name b] es IH]; [by constructor|]. rewrite kept_cons. unfold kept at 1. simpl.
  destruct b; [exact IH|]. intros [Hn Hnd]%NoDup_cons. simpl.
  destruct (negb (has_suffix ".json" name)); [by apply IH|].
  destruct (l !! name) as [f|] eqn:Hf; [|by apply IH]. simpl.
  destruct (record_in name (f_data f)) as [op|] eqn:Hr; [|by apply IH]. simpl.
  constructor; [|by apply IH]. intros Hin. apply list_elem_of_fmap in Hin as (op' & E & Hin).
  apply Hn, file_names_elem. apply kept_elem in Hin as [_ Hin].
  destruct (record_in_Some _ _ _ Hr) as (_ & _ & -> & _). by rewrite E.
Qed.

(** ** [GetActive] *)

Lemma limit_ops_alt limit ops : limit_ops limit ops = if 0 <? limit then take (Z.to_nat limit) ops else ops.
Proof.
  unfold limit_ops. destruct (Z.ltb_spec 0 limit); [|done]. simpl.
  destruct (Z.ltb_spec limit (Z.of_nat (length ops))); [done|]. symmetry. apply take_ge. lia.
Qed.

Lemma sorted_newer ops :
  Forall (fun op => is_Some (Parse_RFC3339 (UpdatedAt op))) ops ->
  StronglySorted newer (sort_Slice updated_after ops).
Proof using All.
  intros Hp. eapply StronglySorted_weaken.
  - apply sort_Slice_sorted; unfold updated_after.
    + intros a b Hab. apply Z.ltb_lt in Hab. apply Z.ltb_ge. lia.
    + intros a b c Hab Hbc. apply Z.ltb_ge in Hab, Hbc. apply Z.ltb_ge. lia.
  - rewrite sort_Slice_perm. exact Hp.
  - intros a b [ta Ha] [tb Hb]. unfold updated_after, newer, updated_at. rewrite Ha, Hb. simpl.
    rewrite Z.ltb_ge. lia.
Qed.

Lemma GetActive_spec c now limit st r st' :
  readable_disk st -> GetActive (fun _ => c) now limit st = (r, st') ->
  swept now (entries (io_disk st)) (io_disk st) (io_disk st') /\
  (forall ops, r = Ok ops ->
     (io_faults st = [] -> forall name f, live (base (io_disk st)) !! name = Some f -> corrupt name f ->
        live (base (io_disk st')) !! name = None) /\
     exists all, all ≡ₚ kept (live (base (io_disk st))) (entries (io_disk st)) /\
       StronglySorted newer all /\ ops = limit_ops limit all).
Proof using All.
  intros Hr. unfold GetActive. destruct c as [e|].
  { intros [= <- <-]. split; [apply swept_same|done]. }
  unfold mbind, IO_bind, os_ReadDir. destruct (next_fault st) as [[f|] fs] eqn:Hnf.
  { intros [= <- <-]. split; [apply swept_same|done]. }
  set (st0 := mkIO (io_disk st) fs (io_drawn st) (io_trace st)).
  pose proof (scan_spec now (entries (io_disk st)) 1 [] st0 Hr (entries_NoDup _)) as Hs.
  destruct (scan _ now 1 (entries (io_disk st)) [] st0) as [r1 st1].
  destruct Hs as (Hr1 & Hsw & Hgone); [intros name Hin; by apply entries_elem|]. simpl in Hr1. subst r1.
  intros [= <- <-]. split; [done|]. intros ops [= <-]. split.
  - intros Hfs name f Hf. unfold next_fault in Hnf. rewrite Hfs in Hnf. injection Hnf as <-.
    apply (Hgone eq_refl); [apply entries_elem; by exists f|done].
  - eexists. split_and!; [apply sort_Slice_perm| |reflexivity].
    apply sorted_newer, Forall_forall. intros op Hin. apply kept_elem in Hin as [Hin _].
    rewrite records_lookup in Hin. unfold record_at in Hin.
    destruct (live _ !! _) as [f|]; [|done]. simpl in Hin. by apply record_in_Some in Hin as (_ & _ & _ & Hp & _).
Qed.

Lemma swept_readable now es st st' :
  readable_disk st -> swept now es (io_disk st) (io_disk st') -> readable_disk st'.
Proof. unfold readable_disk. by intros Hr (-> & _). Qed.

(** The entries give every record once. *)
Lemma kept_found d id op :
  records (live (base d)) !! id = Some op ->
  OperationID op = id /\ op ∈ kept (live (base d)) (entries d).
Proof.
  intros Hop. pose proof Hop as Hop'. rewrite records_lookup in Hop'. unfold record_at in Hop'.
  destruct (live (base d) !! record_name id) as [f|] eqn:Hf; [|done]. simpl in Hop'.
  destruct (record_in_Some _ _ _ Hop') as (_ & _ & En & _).
  assert (id = OperationID op) as -> by (by apply record_name_inj).
  split; [done|]. rewrite kept_elem. split; [done|]. apply entries_elem. by exists f.
Qed.

Lemma kept_size d :
  length (kept (live (base d)) (entries d)) = size (records (live (base d))).
Proof.
  rewrite <- length_map_to_list, <- (length_map fst (map_to_list _)), <- (length_map OperationID).
  apply Permutation_length, NoDup_Permutation.
  - apply kept_NoDup, entries_NoDup.
  - apply NoDup_fst_map_to_list.
  - intros id. rewrite !list_elem_of_fmap. split.
    + intros (op & -> & Hop). apply kept_elem in Hop as [Hop _].
      exists (OperationID op, op). by rewrite elem_of_map_to_list.
    + intros ([id' op] & -> & Hop). apply elem_of_map_to_list in Hop.
      destruct (kept_found _ _ _ Hop) as [<- Hin]. by exists op.
Qed.


(** ** The laws *)

Lemma store_GetActive_disk st c now limit st' r :
  store_GetActive st c now limit = (st', r) -> GetActive (fun _ => c) now limit (fresh st) = (r, st').
Proof. simpl. destruct (GetActive _ now limit (fresh st)) as [r1 st1]. by intros [= <- <-]. Qed.

Lemma store_Save_disk st c now op st' e :
  store_Save st c now op = (st', e) -> Save c (Some op) (fresh st) = (e, st').
Proof. simpl. destruct (Save c (Some op) (fresh st)) as [r1 st1]. by intros [= <- <-]. Qed.

Lemma store_Delete_disk st c now id st' e :
  store_Delete st c now id = (st', e) -> Delete c id (fresh st) = (e, st').
Proof. simpl. destruct (Delete c id (fresh st)) as [r1 st1]. by intros [= <- <-]. Qed.

Lemma changed_view d0 id f d :
  changed d0 id f d ->
  records (live (base d)) = with_record id ((f_data <$> f) ≫= record_in (record_name id)) (records (live (base d0))).
Proof.
  intros (_ & _ & Hl & Ho). apply records_with.
  - intros i Hi. by rewrite Ho.
  - by rewrite Hl.
Qed.

Lemma same_view d0 d : same d0 d -> records (live (base d)) = records (live (base d0)).
Proof. intros [_ Hs]. apply records_same. intros id. apply Hs. Qed.

Lemma Save_view st c now op st' e :
  Active op = true -> is_Some (Parse_RFC3339 (UpdatedAt op)) -> encodable op ->
  store_Save st c now op = (st', e) ->
  match e with
  | None => store_view st' = <[OperationID op := stored_form op]> (store_view st)
  | Some _ => store_view st' = store_view st \/
              store_view st' = <[OperationID op := stored_form op]> (store_view st)
  end.
Proof using All.
  intros Ha Hp He E%store_Save_disk.
  destruct (Save_spec c op (fresh st) e st' eq_refl E) as [[-> Hne]|(data & Hd & Hu & _ & HQ)].
  { destruct e; [by left|done]. }
  assert (Hv : forall d, changed (io_disk (fresh st)) (OperationID op) (Some (mkFile data true)) d ->
    records (live (base d)) = <[OperationID op := stored_form op]> (store_view st)).
  { intros d Hc. rewrite (changed_view _ _ _ _ Hc). cbn [fmap option_fmap option_map f_data mbind option_bind].
    by rewrite (record_in_encoded op data He Hu Hp Ha Hd). }
  destruct e as [e|]; [|by apply Hv, HQ].
  destruct HQ as [HQ|HQ]; [left; by apply same_view in HQ|right; by apply Hv].
Qed.

Lemma Delete_view st c now id st' e :
  store_Delete st c now id = (st', e) ->
  match e with
  | None => store_view st' = delete id (store_view st)
  | Some _ => store_view st' = store_view st \/ store_view st' = delete id (store_view st)
  end.
Proof.
  intros E%store_Delete_disk.
  destruct (Delete_spec c id (fresh st) e st' eq_refl E) as [[-> Hne]|[_ HQ]].
  { destruct e; [by left|done]. }
  destruct e as [e|]; [|by destruct HQ as [HQ _]; apply changed_view in HQ].
  destruct HQ as [HQ|HQ]; [left; by apply same_view in HQ|right; by apply changed_view in HQ].
Qed.

#[global] Instance disk_store_laws : OperationStoreLaws io readable_disk.
Proof using All.
  split.
  - intros st c now op st' r Hr E%store_Save_disk. unfold readable_disk in *.
    destruct (Save_spec c op (fresh st) r st' eq_refl E) as [[-> _]|(data & _ & _ & _ & HQ)]; [done|].
    destruct r; [destruct HQ as [HQ|HQ]|destruct HQ as [HQ _]]; destruct HQ as [-> _]; exact Hr.
  - intros st c now op st' _ Ha Hp He E. exact (Save_view st c now op st' None Ha Hp He E).
  - intros st c now op st' e _ Ha Hp He E. exact (Save_view st c now op st' (Some e) Ha Hp He E).
  - done.
  - intros st c now id st' r Hr E%store_Delete_disk. unfold readable_disk in *.
    destruct (Delete_spec c id (fresh st) r st' eq_refl E) as [[-> _]|[_ HQ]]; [done|].
    destruct r; [destruct HQ as [HQ|HQ]|destruct HQ as [HQ _]]; destruct HQ as [-> _]; exact Hr.
  - intros st c now id st' _ E. exact (Delete_view st c now id st' None E).
  - intros st c now id st' e _ E. exact (Delete_view st c now id st' (Some e) E).
  - intros st c now limit st' r Hr E%store_GetActive_disk.
    destruct (GetActive_spec _ _ _ (fresh st) _ _ Hr E) as [Hsw _]. by eapply (swept_readable _ _ (fresh st)).
  - intros st c now limit st' r Hr E%store_GetActive_disk.
    destruct (GetActive_spec _ _ _ (fresh st) _ _ Hr E) as [Hsw _]. by eapply (swept_records _ _ (io_disk (fresh st))).
  - intros st c now limit st' ops Hr E%store_GetActive_disk.
    destruct (GetActive_spec _ _ _ (fresh st) _ _ Hr E) as (_ & Hops). clear E.
    destruct (Hops ops eq_refl) as (_ & all & Hall & Hsort & ->). rewrite limit_ops_alt. clear Hops.
    assert (Hin : forall op, op ∈ all -> store_view st !! OperationID op = Some op)
      by (intros op Hin; rewrite Hall in Hin; by apply kept_elem in Hin as [Hin _]).
    assert (Hnd : NoDup (map OperationID all)).
    { rewrite (Permutation_map OperationID Hall). apply kept_NoDup, entries_NoDup. }
    assert (Hcov : forall id op, store_view st !! id = Some op -> op ∈ all)
      by (intros id op Hop; rewrite Hall; by apply kept_found in Hop as [_ Hop]).
    destruct (Z.ltb_spec 0 limit) as [Hl|Hl]; split_and!; try done; try lia.
    + rewrite <- firstn_map. eapply sublist_NoDup; [exact Hnd|apply sublist_take].
    + by apply StronglySorted_take.
    + apply Forall_take, Forall_forall. exact Hin.
    + intros _. rewrite length_take. lia.
    + intros Hc id op Hop. rewrite length_take in Hc. rewrite take_ge by lia. by eapply Hcov.
    + intros id op op' Hop Hno Hin'. by eapply StronglySorted_take_rest; eauto.
    + apply Forall_forall. exact Hin.
    + intros id op op' Hop Hno. by destruct Hno; eapply Hcov.
  - intros st id op _ Hop. simpl in Hop. rewrite records_lookup in Hop. unfold record_at in Hop.
    destruct (live _ !! _) as [f|]; [|done]. simpl in Hop.
    destruct (record_in_Some _ _ _ Hop) as (_ & Hu & En & _). apply record_name_inj in En as ->.
    split; [done|]. intros E. apply uuid_Parse_empty. by rewrite E in Hu.
Qed.
End Laws.
