(* ===== verification/DiskDemo.v ===== *)
(** * A disk, concretely

    An instance of the libraries the disk store uses and a few runs of the
    store, one with a failing call; the theorems of [OpCodec], [DiskSafe] and
    [DiskLaws] at these inputs. *)

From S2P Require Import Prelude Json GoTime Store FileSys OpCodec DiskStore DiskSafe DiskLaws.
Open Scope go_scope.

Module DemoDisk.

(** The standard form of a UUID. *)
#[global] Instance uuid : UUID := {
  uuid_Parse s := if Nat.eqb (String.length s) 36 && string_forallb uuid_char s then None
                  else Some (ENew "invalid UUID length");
  uuid_New _ := "00000000-0000-4000-8000-000000000000"
}.

#[global] Instance uuid_laws : UUIDLaws.
Proof. by split. Qed.

(** Insertion sort. *)
Fixpoint insert_sorted {A} (less : A -> A -> bool) (x : A) (l : list A) : list A :=
  match l with
  | [] => [x]
  | y :: l => if less x y then x :: y :: l else y :: insert_sorted less x l
  end.

#[global] Instance insertion_sort : GoSort := {
  sort_Slice A less l := foldl (fun acc x => insert_sorted less x acc) [] l
}.

Lemma insert_perm {A} less (x : A) l : insert_sorted less x l ≡ₚ x :: l.
Proof.
  induction l as [|y l IH]; simpl; [done|]. destruct (less x y); [done|].
  rewrite IH. apply Permutation_swap.
Qed.

#[global] Instance insertion_sort_laws : GoSortLaws.
Proof.
  split.
  - intros A less l. simpl. assert (Hf : forall acc, foldl (fun acc x => insert_sorted less x acc) acc l ≡ₚ l ++ acc).
    { induction l as [|x l IH]; intros acc; simpl; [done|]. rewrite IH, insert_perm.
      symmetry. apply Permutation_middle. }
    by rewrite Hf, app_nil_r.
  - intros A less l Has Htr. simpl.
    assert (Hins : forall x acc, StronglySorted (fun a b => less b a = false) acc ->
              StronglySorted (fun a b => less b a = false) (insert_sorted less x acc)).
    { intros x acc Hs. induction Hs as [|y acc Hs IH Hy]; simpl; [by repeat constructor|].
      destruct (less x y) eqn:E.
      - constructor; [by constructor|]. constructor; [by apply Has|].
        eapply Forall_impl; [exact Hy|]. intros b Hb. by eapply Htr; [exact Hb|apply Has].
      - constructor; [done|]. rewrite insert_perm. by constructor. }
    assert (Hf : forall acc, StronglySorted (fun a b => less b a = false) acc ->
      StronglySorted (fun a b => less b a = false) (foldl (fun acc x => insert_sorted less x acc) acc l)).
    { induction l as [|x l IH]; intros acc Hacc; simpl; [done|]. by apply IH, Hins. }
    apply Hf. constructor.
Qed.

Definition id1 : string := "11111111-1111-4111-8111-111111111111".
Definition id2 : string := "22222222-2222-4222-8222-222222222222".
Definition op1 : PersistentOperation :=
  mkOp id1 "req-1" "7" "ap" "upgrade" "started" "running" true "boot" "2024-01-01T00:00:00Z" "2024-01-01T00:00:00Z".
Definition op2 : PersistentOperation :=
  mkOp id2 "req-2" (dq " 'a<b' ") "ap" "upgrade" "started" "running" true "" "2024-01-01T00:00:00Z" "2024-01-02T00:00:00Z".

Definition empty_disk : disk := mkDisk (mkDir ∅ []) (mkDir ∅ []) ∅.
Definition start_io (faults : list (option fault)) : io := mkIO empty_disk faults 0 [].

(** The disk with the first record on it. *)
Definition io1 : io := fresh (Save None (Some op1) (start_io [])).2.

(** The rename fails; the store is left as it was. *)
Definition rename_fails : list (option fault) := [None; None; None; None; Some (mkFault "EIO" 0)].

Example save_two : (Save None (Some op2) io1).1 = None /\
  (Save None (Some op2) (mkIO (io_disk io1) rename_fails 0 [])).1 = Some (ENew "EIO").
Proof. split; vm_compute; reflexivity. Qed.

Example scan_two :
  match GetActive (fun _ => None) 0 0 (fresh (Save None (Some op2) io1).2) with
  | (Ok ops, _) => map OperationID ops = [id2; id1] | _ => False end.
Proof. vm_compute. reflexivity. Qed.

(** The raw id is laid out anew, and what was read is read again as it is. *)
Lemma decode_encode_witness :
  match encode_operation op2 with
  | Some data =>
      exists id, decode_operation data = Ok (read_form op2 id) /\ id_value id = id_value (CloudRPCID op2) /\
        canonical (read_form op2 id) /\ CloudRPCID (read_form op2 id) <> CloudRPCID op2
  | None => False
  end.
Proof.
  pose proof (decode_encode op2) as Hd. destruct (encode_operation op2) as [data|] eqn:E; [|vm_compute in E; discriminate E].
  destruct (proj2 Hd ltac:(vm_compute; reflexivity)) as (id & Hr & Hv & Hc & _). exists id.
  split; [exact Hr|]. split; [exact Hv|]. split; [exact Hc|]. intros He. destruct Hc as [_ Hc]. rewrite He in Hc. vm_compute in Hc. discriminate Hc.
Defined.

(** A byte that is no UTF-8 comes back as a replacement character; an id that
    is no JSON text cannot be written. *)
Definition op_latin1 : PersistentOperation :=
  mkOp id1 "req-1" "7" (String (byte 233) "") "upgrade" "started" "running" true "" "2024-01-01T00:00:00Z" "2024-01-01T00:00:00Z".
Example latin1_read : match encode_operation op_latin1 with Some data => Target <$> (match decode_operation data with Ok op => Some op | _ => None end) | None => None end
  = Some replacement.
Proof. vm_compute. reflexivity. Qed.
Example bad_id_refused :
  encode_operation (mkOp id1 "req-1" "{" "ap" "upgrade" "started" "running" true "" "" "") = None.
Proof. vm_compute. reflexivity. Qed.

Lemma io1_settled : settled (base (io_disk io1)).
Proof.
  split; [vm_compute; reflexivity|]. intros name f Hf.
  assert (Hall : map_Forall (fun _ f => f_synced f = true) (live (base (io_disk io1)))).
  { apply (bool_decide_unpack _). vm_compute. done. }
  exact (Hall name f Hf).
Qed.

Lemma save_survives_power_loss_witness :
  let r := Save None (Some op2) io1 in
  r.1 = None /\
  forall d', power_loss (io_disk r.2) d' ->
    records (live (base d')) = <[id2 := stored_form op2]> (records (live (base (io_disk io1)))).
Proof.
  split; [vm_compute; reflexivity|]. intros d' Hd.
  destruct (Save None (Some op2) io1) as [e st'] eqn:E.
  refine (proj2 (save_survives_power_loss None op2 io1 e st' io1_settled _ _ _ _ E) d' _ Hd).
  - reflexivity.
  - vm_compute. reflexivity.
  - reflexivity.
  - vm_compute. by eexists.
  - apply (f_equal fst) in E. simpl in E. rewrite <- E. vm_compute. reflexivity.
Defined.

Lemma delete_survives_power_loss_witness :
  let r := Delete None id1 io1 in
  r.1 = None /\
  forall d', power_loss (io_disk r.2) d' ->
    records (live (base d')) = delete id1 (records (live (base (io_disk io1)))).
Proof.
  split; [vm_compute; reflexivity|]. intros d' Hd.
  destruct (Delete None id1 io1) as [e st'] eqn:E.
  refine (proj2 (delete_survives_power_loss None id1 io1 e st' io1_settled _ E) d' _ Hd).
  - reflexivity.
  - apply (f_equal fst) in E. simpl in E. rewrite <- E. vm_compute. reflexivity.
Defined.

(** A file that is called like a record and holds none. *)
Definition broken : file := mkFile "{" true.
Definition io_broken : io :=
  mkIO (on_base (relist (insert (record_name id2) broken)) (io_disk io1)) [] 0 [].


End DemoDisk.
