(* ===== verification/Manager.v ===== *)
(** * The request manager: state and operations

    [DefaultRequestManager] of pkg/reqmgr/manager.go.  Each operation is a
    function on the manager's state, one per critical section of [m.mu]; an
    operation that releases the mutex in the middle ([RespondAndRetain],
    [ReleaseOperationLock]) is split where it does and composed again at the
    end of the file.  [now] is the clock inside a critical section, [rpcID] and
    [operationID] the values of [uuid.New()].

    Beside the Go fields the state has what the Go program keeps elsewhere:
    the runtime timers created with [time.AfterFunc], the transaction objects
    that have left the map but that a suspended call may still point to, and
    whether an unlocked mutex was unlocked (a fatal error of the Go runtime).
    [pushed] is a history variable: the responses handed to the scheduler. *)

From S2P Require Import Prelude GoTime Scheduler Json Rpc RequestKey Transaction Cache Store.

Definition ErrTransactionNotFound : error := ESentinel "transaction not found".
Definition ErrDuplicateRequest : error := ESentinel "duplicate request already in progress".
Definition ErrStateLockBusy : error :=
  ESentinel "device is currently executing a state-changing operation".
Definition ErrOperationNotActive : error := ESentinel "operation is not active".
Definition ErrOperationReleaseInProgress : error :=
  ESentinel "operation release already in progress".
Definition ErrCapacityExceeded : error := ESentinel "request manager capacity exceeded".
Definition ErrHandoffInProgress : error :=
  ESentinel "handoff to persistent storage already in progress".

Record PendingReply := mkReply {
  pr_Payload : option string;
  pr_State : TransactionState
}.

Inductive LockOwnerState :=
| LockNone
| LockOwnedByRPC
| LockTransferPending
| LockOwnedByOperation.

#[global] Instance PendingReply_eq_dec : EqDecision PendingReply.
Proof. solve_decision. Defined.
#[global] Instance LockOwnerState_eq_dec : EqDecision LockOwnerState.
Proof. solve_decision. Defined.

(** A runtime timer: armed until it fires or is stopped; a fired timer has a
    goroutine that still has to call [Timeout]. *)
Inductive timer_status := TimerArmed | TimerStopped | TimerFired | TimerDone.
#[global] Instance timer_status_eq_dec : EqDecision timer_status.
Proof. solve_decision. Defined.

Record timer := mkTimer {
  tm_rpcID : string;
  tm_deadline : Z;
  tm_status : timer_status
}.

Record settings := mkSettings {
  dispatchTimeout : Z;
  cacheTTLConfig : CacheTTLConfig;
  maxConcurrentRequests : Z;
  sweeperTTL : Z;
  activeRecordLimit : Z;
  bootID : string
}.

(** [stateLock] and the fields that say who holds it. *)
Record lock_state := mkLock {
  stateLock : bool;
  activeStateTx : string;
  activeStateOwner : LockOwnerState;
  releasingOperationID : string
}.

Module RequestManager.

Section Manager.
Context {S : Type} `{OutboundScheduler S}.

Record t := mk {
  cfg : settings;
  transactionsByRPCID : gmap string Transaction;
  activeCloudRequests : gmap string string;
  pendingReplies : gmap string PendingReply;
  lock : lock_state;
  cache : gmap string TransactionCache.CacheEntry;
  scheduler : option S;
  timers : list timer;
  detached : gmap string Transaction;
  pushed : list (string * OutboundMessage);
  crashed : bool
}.

(** ** Field assignments *)

Definition set_transactions (x : gmap string Transaction) (m : t) : t :=
  mk (cfg m) x (activeCloudRequests m) (pendingReplies m) (lock m) (cache m) (scheduler m)
    (timers m) (detached m) (pushed m) (crashed m).
Definition set_active (x : gmap string string) (m : t) : t :=
  mk (cfg m) (transactionsByRPCID m) x (pendingReplies m) (lock m) (cache m) (scheduler m)
    (timers m) (detached m) (pushed m) (crashed m).
Definition set_pending (x : gmap string PendingReply) (m : t) : t :=
  mk (cfg m) (transactionsByRPCID m) (activeCloudRequests m) x (lock m) (cache m) (scheduler m)
    (timers m) (detached m) (pushed m) (crashed m).
Definition set_lock (x : lock_state) (m : t) : t :=
  mk (cfg m) (transactionsByRPCID m) (activeCloudRequests m) (pendingReplies m) x (cache m)
    (scheduler m) (timers m) (detached m) (pushed m) (crashed m).
Definition set_cache (x : gmap string TransactionCache.CacheEntry) (m : t) : t :=
  mk (cfg m) (transactionsByRPCID m) (activeCloudRequests m) (pendingReplies m) (lock m) x
    (scheduler m) (timers m) (detached m) (pushed m) (crashed m).
Definition set_timers (x : list timer) (m : t) : t :=
  mk (cfg m) (transactionsByRPCID m) (activeCloudRequests m) (pendingReplies m) (lock m) (cache m)
    (scheduler m) x (detached m) (pushed m) (crashed m).
Definition set_scheduler (x : option S) (m : t) : t :=
  mk (cfg m) (transactionsByRPCID m) (activeCloudRequests m) (pendingReplies m) (lock m) (cache m)
    x (timers m) (detached m) (pushed m) (crashed m).
Definition set_detached (x : gmap string Transaction) (m : t) : t :=
  mk (cfg m) (transactionsByRPCID m) (activeCloudRequests m) (pendingReplies m) (lock m) (cache m)
    (scheduler m) (timers m) x (pushed m) (crashed m).
Definition set_pushed (x : list (string * OutboundMessage)) (m : t) : t :=
  mk (cfg m) (transactionsByRPCID m) (activeCloudRequests m) (pendingReplies m) (lock m) (cache m)
    (scheduler m) (timers m) (detached m) x (crashed m).
Definition set_crashed (x : bool) (m : t) : t :=
  mk (cfg m) (transactionsByRPCID m) (activeCloudRequests m) (pendingReplies m) (lock m) (cache m)
    (scheduler m) (timers m) (detached m) (pushed m) x.

Definition GetBootID (m : t) : string := bootID (cfg m).
Definition SetBootID (id : string) (m : t) : t :=
  let c := cfg m in
  mk (mkSettings (dispatchTimeout c) (cacheTTLConfig c) (maxConcurrentRequests c) (sweeperTTL c)
        (activeRecordLimit c) id)
    (transactionsByRPCID m) (activeCloudRequests m) (pendingReplies m) (lock m) (cache m)
    (scheduler m) (timers m) (detached m) (pushed m) (crashed m).

(** ** The state mutex *)

(** [m.stateLock.TryLock()] followed by the two ownership assignments. *)
Definition acquire (owner : LockOwnerState) (id : string) (m : t) : option t :=
  if stateLock (lock m) then None
  else Some (set_lock (mkLock true id owner (releasingOperationID (lock m))) m).

(** [m.stateLock.Unlock()]. *)
Definition unlock_state (m : t) : t :=
  let l := lock m in
  let m' := set_lock (mkLock false (activeStateTx l) (activeStateOwner l) (releasingOperationID l)) m in
  if stateLock l then m' else set_crashed true m.

Definition set_owner (id : string) (owner : LockOwnerState) (m : t) : t :=
  set_lock (mkLock (stateLock (lock m)) id owner (releasingOperationID (lock m))) m.

Definition set_releasing (id : string) (m : t) : t :=
  set_lock (mkLock (stateLock (lock m)) (activeStateTx (lock m)) (activeStateOwner (lock m)) id) m.

(** ** Timers *)

Definition set_status (s : timer_status) (tm : timer) : timer :=
  mkTimer (tm_rpcID tm) (tm_deadline tm) s.

Definition stop_timer (tm : timer) : timer :=
  match tm_status tm with TimerArmed => set_status TimerStopped tm | _ => tm end.

(** [timer.Stop()] on a field that may be nil. *)
Definition Stop (h : option nat) (m : t) : t :=
  match h with
  | Some h => set_timers (alter stop_timer h (timers m)) m
  | None => m
  end.

(** [time.AfterFunc(d, func() { m.Timeout(rpcID) })]. *)
Definition AfterFunc (now d : Z) (rpcID : string) (m : t) : nat * t :=
  (length (timers m), set_timers (timers m ++ [mkTimer rpcID (now + d) TimerArmed]) m).

(** ** Transaction objects *)

(** Assign to the object a call points to, in the map or out of it. *)
Definition update_tx (rpcID : string) (f : Transaction -> Transaction) (m : t) : t :=
  match transactionsByRPCID m !! rpcID with
  | Some tx => set_transactions (<[rpcID := f tx]> (transactionsByRPCID m)) m
  | None => set_detached (alter f rpcID (detached m)) m
  end.

(** The object behind a pointer taken earlier. *)
Definition deref (rpcID : string) (m : t) : option Transaction :=
  match transactionsByRPCID m !! rpcID with
  | Some tx => Some tx
  | None => detached m !! rpcID
  end.

(** ** [terminalTransition] *)

(** Steps of the function, in its order. *)
Definition store_response (now : Z) (tx : Transaction) (payload : option string) (m : t) : t :=
  if state_eqb (tx_State tx) TxCompleted && tx_RespondToCloud tx then
    match payload with
    | Some p =>
        let ttl := TTLForMethod (cacheTTLConfig (cfg m)) (tx_Method tx) in
        set_cache (TransactionCache.Set_ (cache m) now (tx_RequestKey tx) p ttl) m
    | None => m
    end
  else m.

Definition drop_tx (rpcID : string) (tx : Transaction) (m : t) : t :=
  let m := set_pending (delete rpcID (pendingReplies m)) m in
  let m := if String.eqb (tx_RequestKey tx) "" then m
           else set_active (delete (tx_RequestKey tx) (activeCloudRequests m)) m in
  let m := set_detached (<[rpcID := tx]> (detached m)) m in
  set_transactions (delete rpcID (transactionsByRPCID m)) m.

Definition release_if_owner (rpcID : string) (m : t) : t :=
  if String.eqb (activeStateTx (lock m)) rpcID then unlock_state (set_owner "" LockNone m) else m.

Definition push_response (rpcID : string) (tx : Transaction) (payload : option string) (m : t) : t :=
  if tx_RespondToCloud tx && (0 <? len_opt payload) then
    match scheduler m with
    | Some s =>
        let msg := mkMsg (tx_CloudSessionID tx) PriorityHighest (default "" payload) in
        set_pushed (pushed m ++ [(rpcID, msg)]) (set_scheduler (Some (os_Push s msg).1) m)
    | None => m
    end
  else m.

Definition terminalTransition (m : t) (now : Z) (rpcID : string) (finalState : TransactionState)
    (payload : option string) : t * option error :=
  if negb (terminal finalState) then (m, Some ErrInvalidStateTransition) else
  match transactionsByRPCID m !! rpcID with
  | None => (m, Some ErrTransactionNotFound)
  | Some tx =>
      match validateTransition (tx_State tx) finalState with
      | Some err => (m, Some err)
      | None =>
          let tx := set_Payload payload (set_State finalState tx) in
          let m := store_response now tx payload m in
          let m := Stop (tx_ResponseTimer tx) (Stop (tx_DispatchTimer tx) m) in
          let tx := clear_timers tx in
          let m := drop_tx rpcID tx m in
          let m := release_if_owner rpcID m in
          (push_response rpcID tx payload m, None)
      end
  end.

(** ** Creation *)

Definition CreateTransaction (m : t) (now : Z) (rpcID sessionID cloudRPCID : string)
    (respondToCloud : bool) (method : string) (timeout : Z) (isStateChanging : bool)
    : t * result Transaction :=
  let isNotification := (len cloudRPCID =? 0) || String.eqb cloudRPCID "null" in
  if isNotification && respondToCloud then
    (m, Err (ENew "cannot request response for a notification (null/empty ID)")) else
  if String.eqb method "upgrade" && negb isStateChanging then
    (m, Err (ENew "upgrade must be state-changing")) else
  match CanonicalRequestKey sessionID cloudRPCID with
  | Err e => (m, Err e)
  | Ok reqKey =>
      match TransactionCache.Get (cache m) now reqKey with
      | Some cachedPayload => (m, Err (ECachedResponse cachedPayload))
      | None =>
          match activeCloudRequests m !! reqKey with
          | Some _ => (m, Err ErrDuplicateRequest)
          | None =>
              if maxConcurrentRequests (cfg m) <=? Z.of_nat (size (transactionsByRPCID m)) then
                (m, Err ErrCapacityExceeded) else
              let locked :=
                if isStateChanging then
                  if negb respondToCloud || isNotification then
                    Err (ENew "state-changing commands must have a non-null ID")
                  else match acquire LockOwnedByRPC rpcID m with
                       | None => Err ErrStateLockBusy
                       | Some m' => Ok m'
                       end
                else Ok m in
              match locked with
              | Err e => (m, Err e)
              | Ok m =>
                  let tx := mkTx rpcID sessionID cloudRPCID reqKey respondToCloud method TxCreated
                              None false now timeout (now + dispatchTimeout (cfg m)) zero_time
                              None None in
                  let hasValidID := negb isNotification && negb (String.eqb reqKey "") in
                  let m := if hasValidID
                           then set_active (<[reqKey := rpcID]> (activeCloudRequests m)) m else m in
                  (set_transactions (<[rpcID := tx]> (transactionsByRPCID m)) m, Ok tx)
              end
          end
      end
  end.

(** ** Non-terminal transitions *)

Definition mark (to : TransactionState) (m : t) (rpcID : string) : t * option error :=
  match transactionsByRPCID m !! rpcID with
  | None => (m, Some ErrTransactionNotFound)
  | Some tx =>
      match validateTransition (tx_State tx) to with
      | Some err => (m, Some err)
      | None => (update_tx rpcID (set_State to) m, None)
      end
  end.

Definition MarkPreparingDispatch := mark TxPreparingDispatch.
Definition MarkPendingPublish := mark TxPendingPublish.

Definition MarkInFlight (m : t) (now : Z) (rpcID : string) : t * option error :=
  match transactionsByRPCID m !! rpcID with
  | None => (m, Some ErrTransactionNotFound)
  | Some tx =>
      match validateTransition (tx_State tx) TxInFlight with
      | Some err => (m, Some err)
      | None =>
          let m := update_tx rpcID (set_State TxInFlight) m in
          match pendingReplies m !! rpcID with
          | Some pending =>
              let m := set_pending (delete rpcID (pendingReplies m)) m in
              terminalTransition m now rpcID (pr_State pending) (pr_Payload pending)
          | None =>
              let m := Stop (tx_DispatchTimer tx) m in
              let deadline := now + tx_TimeoutDuration tx in
              let '(h, m) := AfterFunc now (tx_TimeoutDuration tx) rpcID m in
              (update_tx rpcID (set_Response deadline (Some h)) m, None)
          end
      end
  end.

Definition recoverToInFlight (m : t) (rpcID : string) (tx : Transaction) : t * option error :=
  match validateTransition (tx_State tx) TxInFlight with
  | Some err => (m, Some err)
  | None => (update_tx rpcID (set_State TxInFlight) m, None)
  end.

(** ** Terminal operations *)

(** Keep a reply for later; only one is kept. *)
Definition buffer_reply (m : t) (rpcID : string) (r : PendingReply) : t * option error :=
  match pendingReplies m !! rpcID with
  | Some _ => (m, Some ErrAlreadyTerminal)
  | None => (set_pending (<[rpcID := r]> (pendingReplies m)) m, None)
  end.

Definition Complete (m : t) (now : Z) (rpcID : string) (response : option string) : t * option error :=
  match transactionsByRPCID m !! rpcID with
  | None => (m, Some ErrTransactionNotFound)
  | Some tx =>
      if preflight (tx_State tx) || tx_HandoffInProgress tx
      then buffer_reply m rpcID (mkReply response TxCompleted)
      else terminalTransition m now rpcID TxCompleted response
  end.

(** The common part of [Fail] and [Timeout]: a reply that was already buffered
    goes first if the transaction can be promoted to in-flight. *)
Definition finish_with (final : TransactionState) (m : t) (now : Z) (rpcID : string)
    (tx : Transaction) (payload : option string) : t * option error :=
  if tx_HandoffInProgress tx then buffer_reply m rpcID (mkReply payload final)
  else
    match pendingReplies m !! rpcID with
    | Some pending =>
        let m := set_pending (delete rpcID (pendingReplies m)) m in
        match recoverToInFlight m rpcID tx with
        | (m, None) =>
            ((terminalTransition m now rpcID (pr_State pending) (pr_Payload pending)).1,
             Some ErrAlreadyTerminal)
        | (m, Some _) => terminalTransition m now rpcID final payload
        end
    | None => terminalTransition m now rpcID final payload
    end.

Definition Fail (m : t) (now : Z) (rpcID : string) (errResponse : option string) : t * option error :=
  match transactionsByRPCID m !! rpcID with
  | None => (m, Some ErrTransactionNotFound)
  | Some tx => finish_with TxFailed m now rpcID tx errResponse
  end.

Definition buildTimeoutResponse (tx : Transaction) : option string :=
  if negb (tx_RespondToCloud tx) then None else
  let errObj := match NewInternalJSONRPCError ErrTimeout
                        "Command timed out waiting for device response" with
                | Ok e => Some e | Err _ => None end in
  json_Marshal_response (mkResponse JSONRPCVersion "" errObj (tx_CloudRPCID tx)).

Definition Timeout_ (m : t) (now : Z) (rpcID : string) : t * option error :=
  match transactionsByRPCID m !! rpcID with
  | None => (m, Some ErrTransactionNotFound)
  | Some tx => finish_with TxTimedOut m now rpcID tx (buildTimeoutResponse tx)
  end.

Definition dispatchTimeoutFail (m : t) (now : Z) (rpcID : string) : t :=
  match transactionsByRPCID m !! rpcID with
  | None => m
  | Some tx =>
      if preflight (tx_State tx) then
        match pendingReplies m !! rpcID with
        | Some pending =>
            let m := set_pending (delete rpcID (pendingReplies m)) m in
            match recoverToInFlight m rpcID tx with
            | (m, None) => (terminalTransition m now rpcID (pr_State pending) (pr_Payload pending)).1
            | (m, Some _) => (terminalTransition m now rpcID TxFailed None).1
            end
        | None => (terminalTransition m now rpcID TxFailed None).1
        end
      else m
  end.

Definition GetTransaction (m : t) (rpcID : string) : option Transaction :=
  transactionsByRPCID m !! rpcID.

(** ** [ReleaseOperationLock] *)

(** Its first critical section: the operation gives the lock up. *)
Definition release_begin (m : t) (operationID : string) : t * option error :=
  if String.eqb operationID "" then (m, Some ErrOperationNotActive) else
  if String.eqb (releasingOperationID (lock m)) operationID then
    (m, Some ErrOperationReleaseInProgress) else
  if negb (String.eqb (activeStateTx (lock m)) operationID)
     || negb (bool_decide (activeStateOwner (lock m) = LockOwnedByOperation)) then
    (m, Some ErrOperationNotActive) else
  (unlock_state (set_owner "" LockNone (set_releasing operationID m)), None).

(** Its second one, after the record was deleted or failed to be. *)
Definition release_end (m : t) (operationID : string) : t :=
  if String.eqb (releasingOperationID (lock m)) operationID then set_releasing "" m else m.

(** ** [RespondAndRetain] *)

(** Up to the disk write. *)
Definition retain_begin (m : t) (rpcID : string) : t * result Transaction :=
  match transactionsByRPCID m !! rpcID with
  | None => (m, Err ErrTransactionNotFound)
  | Some tx =>
      if negb (String.eqb (tx_Method tx) "upgrade") then
        (m, Err (ENew "only upgrade operations can be retained")) else
      if negb (state_eqb (tx_State tx) TxInFlight) && negb (state_eqb (tx_State tx) TxPendingPublish)
      then (m, Err ErrInvalidStateTransition) else
      if negb (String.eqb (activeStateTx (lock m)) rpcID) then
        (m, Err (ENew "transaction does not own the state lock")) else
      if tx_HandoffInProgress tx then (m, Err ErrHandoffInProgress) else
      let m := Stop (tx_ResponseTimer tx) m in
      let m := update_tx rpcID (set_Handoff true) m in
      (set_owner (activeStateTx (lock m)) LockTransferPending m, Ok tx)
  end.

(** The record written to the store. *)
Definition retained_operation (m : t) (now : Z) (operationID : string) (tx : Transaction)
    : PersistentOperation :=
  let now := Format_RFC3339 now in
  mkOp operationID (tx_RPCID tx) (tx_CloudRPCID tx) "system" "upgrade" "started" "started" true
    (GetBootID m) now now.

(** What the section after the disk write leads to: the result of the call, or
    the release of the operation's lock before a buffered reply is processed. *)
Inductive retain_next :=
| RetainDone (operationID : string) (err : option error)
| RetainRelease (pending : PendingReply).

Definition set_owner_if (rpcID id : string) (owner : LockOwnerState) (m : t) : t :=
  if String.eqb (activeStateTx (lock m)) rpcID then set_owner id owner m else m.

(** After a failed write. *)
Definition retain_failed (m : t) (now : Z) (rpcID : string) (e : error) : t * retain_next :=
  let m := update_tx rpcID (set_Handoff false) m in
  let m := set_owner_if rpcID (activeStateTx (lock m)) LockOwnedByRPC m in
  match pendingReplies m !! rpcID with
  | Some pending =>
      let m := set_pending (delete rpcID (pendingReplies m)) m in
      let '(m, err) := terminalTransition m now rpcID (pr_State pending) (pr_Payload pending) in
      (m, RetainDone "" err)
  | None =>
      match deref rpcID m with
      | None => (m, RetainDone "" (Some ErrTransactionNotFound))
      | Some tx =>
          let remaining := time_Sub (tx_ResponseDeadline tx) now in
          if remaining <=? 0 then
            let '(m, _) := terminalTransition m now rpcID TxTimedOut (buildTimeoutResponse tx) in
            (m, RetainDone "" (Some ErrAlreadyTerminal))
          else
            let '(h, m) := AfterFunc now remaining rpcID m in
            (update_tx rpcID (set_Response (tx_ResponseDeadline tx) (Some h)) m,
             RetainDone "" (Some (EWrap "failed to persist background operation: " e)))
      end
  end.

(** After a successful one. *)
Definition retain_saved (m : t) (now : Z) (rpcID operationID : string) (response : option string)
    : t * retain_next :=
  let m := set_owner_if rpcID operationID LockOwnedByOperation m in
  match pendingReplies m !! rpcID with
  | Some pending =>
      if String.eqb (activeStateTx (lock m)) operationID then (m, RetainRelease pending)
      else
        let m := set_pending (delete rpcID (pendingReplies m)) m in
        let '(m, err) := terminalTransition m now rpcID (pr_State pending) (pr_Payload pending) in
        (m, RetainDone "" err)
  | None =>
      let '(m, err) := terminalTransition m now rpcID TxCompleted response in
      (m, RetainDone operationID err)
  end.

Definition retain_finish (m : t) (now : Z) (rpcID operationID : string) (response : option string)
    (err : option error) : t * retain_next :=
  match err with
  | Some e => retain_failed m now rpcID e
  | None => retain_saved m now rpcID operationID response
  end.

(** After [ReleaseOperationLock] returned. *)
Definition retain_last (m : t) (now : Z) (rpcID : string) (pending : PendingReply) : t * option error :=
  let m := set_pending (delete rpcID (pendingReplies m)) m in
  terminalTransition m now rpcID (pr_State pending) (pr_Payload pending).

(** ** The operations that use the store, without interference *)

Section WithStore.
Context {St : Type} `{OperationStore St}.

Definition NewRequestManager (dispatchTimeout : Z) (ttl : CacheTTLConfig)
    (cache : option (gmap string TransactionCache.CacheEntry)) (scheduler : option S)
    (store : option St) (maxConcurrentRequests sweeperTTL activeRecordLimit : Z)
    (systemBootID : string) : result (t * St) :=
  match cache, store with
  | None, _ => Err (ENew "cache cannot be nil")
  | _, None => Err (ENew "store cannot be nil")
  | Some cache, Some store =>
      Ok (mk (mkSettings dispatchTimeout ttl maxConcurrentRequests sweeperTTL activeRecordLimit
                systemBootID)
            ∅ ∅ ∅ (mkLock false "" LockNone "") cache scheduler [] ∅ [] false, store)
  end.

Definition ReleaseOperationLock (m : t) (st : St) (ctx : option error) (now : Z) (operationID : string)
    : t * St * option error :=
  match release_begin m operationID with
  | (m, Some e) => (m, st, Some e)
  | (m, None) =>
      let '(st, err) := store_Delete st ctx now operationID in
      (release_end m operationID, st, err)
  end.

Definition RespondAndRetain (m : t) (st : St) (ctx : option error) (now : Z)
    (rpcID operationID : string) (response : option string) : t * St * (string * option error) :=
  match retain_begin m rpcID with
  | (m, Err e) => (m, st, ("", Some e))
  | (m, Ok tx) =>
      let '(st, err) := store_Save st ctx now (retained_operation m now operationID tx) in
      match retain_finish m now rpcID operationID response err with
      | (m, RetainDone op err) => (m, st, (op, err))
      | (m, RetainRelease pending) =>
          let '(m, st, _) := ReleaseOperationLock m st ctx now operationID in
          let '(m, err) := retain_last m now rpcID pending in
          (m, st, ("", err))
      end
  end.

(** The record belongs to an earlier boot of the host. *)
Definition stale_boot (m : t) (op : PersistentOperation) : bool :=
  negb (String.eqb (GetBootID m) "") && negb (String.eqb (BootID op) "")
  && negb (String.eqb (BootID op) (GetBootID m)).

Definition is_expired (m : t) (now : Z) (op : PersistentOperation) : bool :=
  match Parse_RFC3339 (UpdatedAt op) with
  | Some updatedAt => sweeperTTL (cfg m) <? time_Sub now updatedAt
  | None => true
  end.

(** The loop of [Start] over the active records: the manager and the ids of
    the records of earlier boots. *)
Definition start_record (now : Z) (acc : t * list string) (op : PersistentOperation)
    : t * list string :=
  let '(m, stale) := acc in
  if stale_boot m op then (m, stale ++ [OperationID op]) else
  if String.eqb (activeStateTx (lock m)) "" && negb (is_expired m now op) then
    match acquire LockOwnedByOperation (OperationID op) m with
    | Some m => (m, stale)
    | None => (m, stale)
    end
  else (m, stale).

Definition delete_all (ctx : option error) (now : Z) (ids : list string) (st : St) : St :=
  foldl (fun st id => (store_Delete st ctx now id).1) st ids.

(** [Start] up to the first run of the sweeper. *)
Definition Start (m : t) (st : St) (ctx : option error) (now : Z) : t * St :=
  match store_GetActive st ctx now (activeRecordLimit (cfg m)) with
  | (st, Err _) => (m, st)
  | (st, Ok ops) =>
      let '(m, stale) := foldl (start_record now) (m, []) ops in
      (m, delete_all ctx now stale st)
  end.

(** One record of the sweep. *)
Definition sweep_record (ctx : option error) (now : Z) (acc : t * St) (op : PersistentOperation)
    : t * St :=
  let '(m, st) := acc in
  let drop := (m, (store_Delete st ctx now (OperationID op)).1) in
  if stale_boot m op then drop else
  let isActive := String.eqb (activeStateTx (lock m)) (OperationID op) in
  let isHandoff := bool_decide (activeStateOwner (lock m) = LockTransferPending) in
  if is_expired m now op then
    if isActive then let '(m, st, _) := ReleaseOperationLock m st ctx now (OperationID op) in (m, st)
    else drop
  else if isHandoff then (m, st)
  else if negb isActive then drop
  else (m, st).

Definition sweepOrphanedOperations (m : t) (st : St) (ctx : option error) (now : Z) : t * St :=
  match store_GetActive st ctx now (activeRecordLimit (cfg m)) with
  | (st, Err _) => (m, st)
  | (st, Ok ops) => foldl (sweep_record ctx now) (m, st) ops
  end.

End WithStore.

End Manager.

Arguments t S : clear implicits.

End RequestManager.
