(* ===== verification/Handler.v ===== *)
(** * The frame handler

    cmd/ucentral-client/handler.go: an inbound WebSocket frame is checked,
    decoded, validated and admitted as a transaction ([HandleFrame]), which a
    goroutine of its own then dispatches over NATS ([executeTransaction]).

    [HandleFrame] changes the request manager in one critical section at most
    (the creation) and hands at most one message to the scheduler, which is
    the manager's; it is one function here.  [executeTransaction] takes the
    manager's lock several times: it is a step function on a program counter,
    so that other calls can come between its steps. *)

From S2P Require Import Prelude GoTime Scheduler Json Enums Rpc Commands Envelopes DeviceResult NatsClient Transaction Manager.
Import RequestManager.

(** ** Connection state *)

Record systemStateManager := mkSystemState { natsLink : LinkState; wsLink : LinkState }.

Definition UpdateNATSLink (state : LinkState) (s : systemStateManager) : systemStateManager :=
  mkSystemState state (wsLink s).
Definition UpdateWSLink (state : LinkState) (s : systemStateManager) : systemStateManager :=
  mkSystemState (natsLink s) state.
Definition GetSystemState (s : systemStateManager) : ConnectionState :=
  (DeriveConnectionState (wsLink s) (natsLink s)).1.

(** ** Configuration and frames *)

Record frameHandler := mkHandler {
  h_serial : string;
  h_target : string;
  dispatchBufferCap : Z;
  timeoutDispatch : Z;
  timeoutConfigure : Z;
  timeoutActionDefault : Z;
  timeoutActionExtended : Z;
  payloadLimitAbsolute : Z;
  payloadLimitConfigure : Z;
  payloadLimitScript : Z;
  payloadLimitCertUpdate : Z;
  payloadLimitDefault : Z
}.

Record InboundFrame := mkFrame { f_SessionID : string; f_Type : Z; f_Payload : string }.

Inductive FrameDisposition :=
| FrameAccepted
| FrameRejectedKeepConnection
| FrameFatalCloseConnection.

Definition getCommandAction (method : string) : CommandType * ActionType * bool :=
  if method =s "configure" then (CommandConfigure, "", true) else
  if method =s "reboot" then (CommandReboot, ActionReboot, true) else
  if method =s "factory" then (CommandAction, ActionFactory, true) else
  if method =s "leds" then (CommandAction, ActionLeds, true) else
  if method =s "upgrade" then (CommandUpgrade, ActionUpgrade, true) else
  if method =s "certupdate" then (CommandAction, ActionCertupdate, true) else
  if method =s "reenroll" then (CommandAction, ActionReenroll, true) else
  if method =s "script" then (CommandScript, ActionExecute, true) else
  if method =s "ping" then (CommandAction, ActionPing, false) else
  if method =s "trace" then (CommandAction, ActionTrace, false) else
  if method =s "telemetry" then (CommandAction, ActionTelemetry, false) else
  if method =s "rtty" then (CommandAction, ActionRTTY, false) else
  ("", "", false).

Definition getMethodPayloadLimit (h : frameHandler) (method : string) : Z :=
  if method =s "configure" then payloadLimitConfigure h else
  if method =s "certupdate" then payloadLimitCertUpdate h else
  if method =s "script" then payloadLimitScript h else payloadLimitDefault h.

Definition getTransactionTimeout (h : frameHandler) (method params : string) : Z :=
  if method =s "configure" then timeoutConfigure h else
  if one_of method ["upgrade"; "certupdate"; "script"] then timeoutActionExtended h else
  if method =s "trace" then
    match unmarshal decode_trace params with
    | Ok trace =>
        match tr_duration trace with
        | Some d => if 0 <? d then wrap_int (wrap_int (d * Second) + 30 * Second)
                    else timeoutActionExtended h
        | None => timeoutActionExtended h
        end
    | Err _ => timeoutActionExtended h
    end
  else timeoutActionDefault h.

(** ** The transaction handed to [executeTransaction] *)

Record launch := mkLaunch {
  l_tx : Transaction;
  l_command : CommandType;
  l_action : ActionType;
  l_params : string;
  l_uuid : string
}.

Section Handler.
Context {S : Type} `{OutboundScheduler S} `{GoLib}.
Context (lim : limits) (AllowedTraceUploadURL : option URL) (h : frameHandler).

(** ** Responses *)

Definition scheduler_Push (msg : OutboundMessage) (m : t S) : t S :=
  match scheduler m with
  | Some s => set_scheduler (Some (os_Push s msg).1) m
  | None => m
  end.

Definition internal_error (appCode : Z) (message : string) : option JSONRPCError :=
  match NewInternalJSONRPCError appCode message with Ok e => Some e | Err _ => None end.

Definition with_code (code : Z) (e : option JSONRPCError) : option JSONRPCError :=
  e ← e; Some (mkError code (err_message e) (err_data e)).

(** The message [pushResponse] builds; [None] when it cannot be marshalled (or
    [EnsureStatusInResult] panics, which no caller here makes it do). *)
Definition response_message (sessionID id result : string) (errObj : option JSONRPCError)
    : option OutboundMessage :=
  finalResult ← match errObj with None => EnsureStatusInResult result | Some _ => Some result end;
  respBytes ← json_Marshal_response (mkResponse JSONRPCVersion finalResult errObj id);
  Some (mkMsg sessionID PriorityHighest respBytes).

(** What became of a frame: the manager, the message handed to the scheduler,
    the disposition and the transaction to execute. *)
Record handled := mkHandled {
  hd_mgr : t S;
  hd_pushed : option OutboundMessage;
  hd_disposition : FrameDisposition;
  hd_launch : option launch
}.

(** [pushResponse] and the end of the handler. *)
Definition push_and_return (m : t S) (msg : option OutboundMessage) (d : FrameDisposition) : handled :=
  mkHandled (match msg with Some msg => scheduler_Push msg m | None => m end) msg d None.

Definition drop_frame (m : t S) : handled := push_and_return m None FrameRejectedKeepConnection.

(** Reject a frame with an error response. *)
Definition reject_with (m : t S) (sessionID id : string) (e : option JSONRPCError) : handled :=
  push_and_return m (response_message sessionID id "" e) FrameRejectedKeepConnection.

(** The same for a request: a notification gets no response. *)
Definition reject_request (m : t S) (isNotification : bool) (sessionID id : string)
    (e : option JSONRPCError) : handled :=
  if isNotification then drop_frame m else reject_with m sessionID id e.

(** ** [HandleFrame] *)

Definition is_notification (id : string) : bool := (len id =? 0) || String.eqb id "null".

(** The bounded first parse: method and id of a frame, empty where the frame
    has none. *)
Definition extract_meta (frame : string) : string * string :=
  match parse_json frame with
  | Some v =>
      match struct_members v with
      | Some ms => ((fld ["method"; "id"] "method" dec_string "" ms).1,
                    (fld ["method"; "id"] "id" dec_raw "" ms).1)
      | None => ("", "")
      end
  | None => ("", "")
  end.

Definition extract_id (frame : string) : string :=
  match parse_json frame with
  | Some v =>
      match struct_members v with Some ms => (fld ["id"] "id" dec_raw "" ms).1 | None => "" end
  | None => ""
  end.

(** The parameters of a request: the configuration version for [configure],
    0 for the others, or the validation error. *)
Definition validate_params (command : CommandType) (action : ActionType) (params : string)
    : result string :=
  if command =s CommandConfigure then
    match unmarshal decode_configure params with
    | Err e => Err e
    | Ok cfgReq =>
        match ValidateAndGetUUID lim configure_fuel cfgReq with
        | Err e => Err e
        | Ok effUUID => Ok (if 0 <? effUUID then pretty effUUID else "0")
        end
    end
  else
    match ValidateCommandPayload lim AllowedTraceUploadURL command action params with
    | Some e => Err e
    | None => Ok "0"
    end.

Definition busy : option JSONRPCError := Some (mkError ErrInternal "Device is busy" "").

(** The answer to a request that was not admitted. *)
Definition admission_failed (m : t S) (isNotification : bool) (sessionID id : string) (e : error)
    : handled :=
  match errors_As_cached e with
  | Some payload =>
      push_and_return m (Some (mkMsg sessionID PriorityHighest payload)) FrameAccepted
  | None =>
      reject_request m isNotification sessionID id
        (if errors_Is e ErrCapacityExceeded || errors_Is e ErrStateLockBusy
            || errors_Is e ErrDuplicateRequest then busy
         else internal_error ErrAppFailure ("Transaction creation failed: " +:+ error_msg e))
  end.

(** From the validated request on. *)
Definition handle_valid (st : systemStateManager) (m : t S) (now : Z) (rpcID : string)
    (frame : InboundFrame) (rpcReq : JSONRPCRequest) : handled :=
  let id := req_id rpcReq in
  let session := f_SessionID frame in
  let isNotification := is_notification id in
  let refused := reject_request m isNotification session id in
  let '(command, action, isStateChanging) := getCommandAction (req_method rpcReq) in
  if command =s "" then
    refused (Some (mkError ErrMethodNotFound ("Method " +:+ req_method rpcReq +:+ " not found") "")) else
  match validate_params command action (req_params rpcReq) with
  | Err e => refused (Some (mkError ErrInvalidParams ("Invalid parameters: " +:+ error_msg e) ""))
  | Ok uuidVal =>
      if isNotification && (isStateChanging || (req_method rpcReq =s ActionRTTY)) then drop_frame m else
      if GetSystemState st =s StateNATSDegraded then
        refused (internal_error ErrServiceUnavailable "Local NATS service is unavailable") else
      let timeout := getTransactionTimeout h (req_method rpcReq) (req_params rpcReq) in
      match CreateTransaction m now rpcID session id (negb isNotification) (req_method rpcReq)
              timeout isStateChanging with
      | (m, Err e) => admission_failed m isNotification session id e
      | (m, Ok tx) =>
          mkHandled m None FrameAccepted
            (Some (mkLaunch tx command action (req_params rpcReq) uuidVal))
      end
  end.

Definition HandleFrame (st : systemStateManager) (m : t S) (now : Z) (rpcID : string)
    (frame : InboundFrame) : handled :=
  let payload := f_Payload frame in
  let session := f_SessionID frame in
  if payloadLimitAbsolute h <? len payload then drop_frame m else
  let '(method, metaID) := extract_meta payload in
  let limit := getMethodPayloadLimit h method in
  if limit <? len payload then
    reject_request m (is_notification metaID) session metaID
      (with_code ErrInvalidParams
         (internal_error ErrValidationFailed ("Payload size exceeds method limit of " +:+ pretty limit)))
  else
    match decode_request payload with
    | Err _ =>
        reject_with m session (ValidResponseID (extract_id payload))
          (Some (mkError ErrParse "Parse error" ""))
    | Ok rpcReq =>
        match JSONRPCRequest_Validate rpcReq with
        | Some e =>
            reject_with m session (ValidResponseID (req_id rpcReq))
              (Some (mkError ErrInvalidRequest ("Invalid request: " +:+ error_msg e) ""))
        | None => handle_valid st m now rpcID frame rpcReq
        end
    end.

(** ** [executeTransaction] *)

(** [failTransactionWithCode]: the response and the call of [Fail]. *)
Definition failure_response (tx : Transaction) (appCode : Z) (message : string) : option string :=
  json_Marshal_response (mkResponse JSONRPCVersion "" (internal_error appCode message) (tx_CloudRPCID tx)).

Definition failTransactionWithCode (m : t S) (now : Z) (tx : Transaction) (appCode : Z)
    (message : string) : t S * option error :=
  Fail m now (tx_RPCID tx) (failure_response tx appCode message).

(** Where the goroutine is; [XFail] remembers whether a slot of the dispatch
    buffer is held. *)
Inductive exec_pc :=
| XAcquire
| XPrepare
| XPending
| XDispatch
| XInFlight
| XFail (held : bool) (appCode : Z) (message : string)
| XDone.

(** What the goroutine finds when it runs: the clock, the NATS client (nil
    while there is none) and the state of the dispatch context. *)
Record exec_env := mkEnv {
  e_now : Z;
  e_client : option NATSClient;
  e_ctx : option error
}.

(** The goroutine's state: its counter, the used slots of the dispatch buffer
    it shares with the others, and the manager. *)
Definition exec_state : Type := exec_pc * Z * t S.

Definition nats_unavailable : string := "Local NATS service is unavailable".

Definition dispatch `{AgentClient} (env : exec_env) (n : NATSClient) (l : launch) : option error :=
  let rpc := tx_RPCID (l_tx l) in
  submission_error
    (if l_command l =s CommandConfigure then
       SubmitConfigure lim n (e_ctx env)
         (mkConfigureCommand EnvelopeVersion rpc (h_target h) (l_uuid l) (l_params l) (e_now env))
     else
       ExecuteAction lim AllowedTraceUploadURL n (e_ctx env)
         (mkActionCommand EnvelopeVersion rpc (h_target h) (l_command l) (l_action l) (l_params l)
            (e_now env))).

Definition dispatch_failure (e : error) : exec_pc :=
  if errors_Is e context_DeadlineExceeded
  then XFail true ErrServiceUnavailable "Local NATS dispatch timed out (service unavailable)"
  else XFail true ErrAppFailure ("NATS dispatch failed: " +:+ error_msg e).

Definition exec_step `{AgentClient} (env : exec_env) (l : launch) (x : exec_state) : exec_state :=
  let '(pc, used, m) := x in
  let tx := l_tx l in
  let rpc := tx_RPCID tx in
  let mark_failed what e := XFail true ErrAppFailure (what +:+ error_msg e) in
  match pc with
  | XAcquire =>
      if used <? dispatchBufferCap h then (XPrepare, used + 1, m)
      else (XFail false ErrServiceUnavailable nats_unavailable, used, m)
  | XPrepare =>
      match MarkPreparingDispatch m rpc with
      | (m, None) => (XPending, used, m)
      | (m, Some e) => (mark_failed "failed to enter preparing dispatch: " e, used, m)
      end
  | XPending =>
      match MarkPendingPublish m rpc with
      | (m, None) => (XDispatch, used, m)
      | (m, Some e) => (mark_failed "failed to enter pending publish: " e, used, m)
      end
  | XDispatch =>
      match e_client env with
      | None => (XFail true ErrServiceUnavailable nats_unavailable, used, m)
      | Some n =>
          match dispatch env n l with
          | Some e => (dispatch_failure e, used, m)
          | None => (XInFlight, used, m)
          end
      end
  | XInFlight => (XDone, used - 1, (MarkInFlight m (e_now env) rpc).1)
  | XFail held appCode message =>
      (XDone, if held then used - 1 else used,
       (failTransactionWithCode m (e_now env) tx appCode message).1)
  | XDone => x
  end.

(** Without interference: the environment of each step is given. *)
Definition run_exec `{AgentClient} (l : launch) (envs : list exec_env) (x : exec_state) : exec_state :=
  foldl (fun x env => exec_step env l x) x envs.

End Handler.

Arguments handled S : clear implicits.
