(* ===== verification/WsClient.v ===== *)
(** * The WebSocket client: connecting

    pkg/websocket/client.go up to the session loops: the client, the connect
    handshake, [Close] and the reconnect loop with its backoff.  The reader and
    the writer of a session are in WsReader and WsWriter.

    [ReconnectLoop] runs alone (a flag refuses a second run), so it is a
    function: of the client and of what every pass of its loop meets, an
    [attempt].  The result is the sequence of its visible actions ([event]):
    calls of [onStateChange], dials, frames sent, sessions and waits. *)

From S2P Require Import Prelude GoTime Float64 Scheduler Json Enums Rpc Commands Envelopes DeviceResult Config Capabilities.
Open Scope go_scope.

Definition defaultCompressionThresholdBytes : Z := 2048.
Definition defaultMaxFrameSize : Z := 11 * 1024 * 1024.
Definition defaultConnectTimeout : Z := 10 * Second.
Definition defaultWriteTimeout : Z := 10 * Second.
Definition defaultPongTimeout : Z := 60 * Second.
Definition defaultPingInterval : Z := 30 * Second.
Definition defaultStableSessionThreshold : Z := 60 * Second.
Definition initialBackoff : Z := 2 * Second.
Definition maxBackoff : Z := 60 * Second.

(** The client.  A connection is named by the generation it was opened with;
    [ws_cancel] says whether a cancel function is stored. *)
Record WSClient := mkWS {
  ws_running : bool;
  ws_conn : option Z;
  ws_generation : Z;
  ws_cancel : bool;
  ws_config : CloudConfig;
  ws_pendingMsg : option OutboundMessage
}.

Definition set_link (conn : option Z) (generation : Z) (cancel : bool) (c : WSClient) : WSClient :=
  mkWS (ws_running c) conn generation cancel (ws_config c) (ws_pendingMsg c).

Definition set_running (b : bool) (c : WSClient) : WSClient :=
  mkWS b (ws_conn c) (ws_generation c) (ws_cancel c) (ws_config c) (ws_pendingMsg c).

Definition with_compression (n : Z) (c : CloudConfig) : CloudConfig :=
  mkCloud (c_URL c) (ConnectTimeoutSeconds c) (WriteTimeoutSeconds c) (PingIntervalSeconds c)
    (PongTimeoutSeconds c) (StableSessionThresholdSeconds c) n (MaxFrameSizeBytes c)
    (MaxConsecutiveFrameErrors c) (c_TLS c).

(** The scheduler and the metadata provider are only checked not to be nil. *)
Definition NewWSClient (cfg : CloudConfig) (scheduler_nil metaProvider_nil : bool) : result WSClient :=
  refuse scheduler_nil with "scheduler cannot be nil";
  refuse metaProvider_nil with "metadata provider cannot be nil";
  Ok (mkWS false None 0 false
        (if CompressionThresholdBytes cfg =? 0
         then with_compression defaultCompressionThresholdBytes cfg else cfg) None).

(** ** Durations and sizes from the configuration *)

(** [time.Duration(n) * time.Second] when [n] is positive. *)
Definition seconds_or (n default : Z) : Z := if 0 <? n then wrap_int (n * Second) else default.

Definition connectTimeout (c : CloudConfig) : Z :=
  seconds_or (ConnectTimeoutSeconds c) defaultConnectTimeout.
Definition maxFrameSize (c : CloudConfig) : Z :=
  if 0 <? MaxFrameSizeBytes c then MaxFrameSizeBytes c else defaultMaxFrameSize.
Definition stableThreshold (c : CloudConfig) : Z :=
  let threshold := wrap_int (StableSessionThresholdSeconds c * Second) in
  if threshold <=? 0 then defaultStableSessionThreshold else threshold.

Definition compressed (c : CloudConfig) (payload : string) : bool :=
  CompressionThresholdBytes c <=? len payload.

Definition session_id (generation : Z) : string := "sess-" +:+ pretty generation.

(** ** The backoff *)

(** [rand.Float64()], from the 63 random bits it draws. *)
Definition rand_Float64 (int63 : Z) : float64 :=
  float64_div (float64_of_int (Z.land int63 (2 ^ 53 - 1))) (float64_of_int (2 ^ 53)).

Definition retry_jitter (backoff int63 : Z) : Z :=
  float64_trunc (float64_mul (rand_Float64 int63) (float64_of_int backoff)).

Definition retry_wait (backoff int63 : Z) : Z :=
  let jitteredBackoff := wrap_int (initialBackoff + retry_jitter backoff int63) in
  if maxBackoff <? jitteredBackoff then maxBackoff else jitteredBackoff.

Definition next_backoff (backoff : Z) : Z :=
  let backoff := wrap_int (backoff * 2) in
  if maxBackoff <? backoff then maxBackoff else backoff.

(** ** One pass of the loop *)

Record attempt := mkAttempt {
  (** The context is done at the top of the loop. *)
  a_cancelled : bool;
  a_ReadFile : reader;
  a_LoadX509KeyPair : string -> string -> result (list string);
  a_DialContext : option error;
  a_ConnectParams : result CloudConnectParams;
  a_SetWriteDeadline : option error;
  a_WriteMessage : option error;
  (** How long the reader and the writer ran. *)
  a_lasted : Z;
  a_random : Z;
  (** The context is done before the wait is over. *)
  a_stopped : bool
}.

Record tls_config := mkTLS {
  tls_ServerName : string;
  tls_RootCAs : option string;
  tls_Certificates : option (list string)
}.

Inductive event :=
| EvState (state : LinkState)
| EvDial (url : string) (tls : option tls_config) (timeout : Z)
| EvConnected (generation readLimit : Z)
| EvSend (compress : bool) (payload : string)
| EvClose
| EvSession (sessionID : string) (lasted : Z)
| EvWait (d : Z).

Inductive after := Again (backoff : Z) | Return (e : option error).

Inductive tls_outcome :=
| TlsReady (tls : option tls_config)
| TlsRetry
| TlsFatal (e : error).

Inductive HandshakeResult := HandshakeAccepted | HandshakeRetryableFailure | HandshakeRejected.

Section Reconnect.
Context `{GoLib} `{ConfigLib}.

Definition waitForRetry (a : attempt) (backoff : Z) : list event * after :=
  ([EvWait (retry_wait backoff (a_random a))],
   if a_stopped a then Return None else Again (next_backoff backoff)).

(** Preparing [dialer.TLSClientConfig]. *)
Definition load_ca (a : attempt) (t : CloudTLSConfig) (k : option string -> tls_outcome) : tls_outcome :=
  if is_empty (t_CAFile t) then k None else
  match a_ReadFile a (t_CAFile t) with
  | Err _ => TlsRetry
  | Ok caCert =>
      if negb (AppendCertsFromPEM caCert)
      then TlsFatal (ENew "ws: fatal: failed to parse any valid certificates from CA file")
      else k (Some caCert)
  end.

Definition load_pair (a : attempt) (t : CloudTLSConfig) (k : option (list string) -> tls_outcome)
    : tls_outcome :=
  let hasCert := negb (is_empty (t_ClientCertFile t)) || negb (is_empty (t_ClientKeyFile t)) in
  if negb hasCert then k None else
  if is_empty (t_ClientCertFile t) || is_empty (t_ClientKeyFile t)
  then TlsFatal (ENew "ws: fatal: incomplete client certificate configuration")
  else match a_LoadX509KeyPair a (t_ClientCertFile t) (t_ClientKeyFile t) with
       | Err _ => TlsRetry
       | Ok cert => k (Some cert)
       end.

Definition tls_setup (a : attempt) (t : CloudTLSConfig) : tls_outcome :=
  if is_empty (t_CAFile t) && is_empty (t_ClientCertFile t) && is_empty (t_ClientKeyFile t)
     && is_empty (t_ServerName t)
  then TlsReady None
  else load_ca a t (fun ca => load_pair a t (fun cert =>
         TlsReady (Some (mkTLS (t_ServerName t) ca cert)))).

(** The text of the connect request: the keys of a map are written in order. *)
Definition connect_params_object (p : CloudConnectParams) (serial : string) : string :=
  json_map (list_to_map
    [ ("serial", json_string serial); ("uuid", json_int (cp_UUID p));
      ("firmware", json_string (cp_Firmware p));
      ("capabilities", json_map (marshal_any <$> default ∅ (cp_Capabilities p))) ]).

Definition connect_request (p : CloudConnectParams) (serial : string) : string :=
  json_object [ Some ("jsonrpc", json_string "2.0"); Some ("method", json_string "connect");
                Some ("params", connect_params_object p serial) ].

(** The deadline of [handshakeCtx] always exists, and a request of these types
    can always be marshalled. *)
Definition performConnectHandshake (a : attempt) (c : CloudConfig) : list event * HandshakeResult :=
  match a_ConnectParams a with
  | Err _ => ([], HandshakeRetryableFailure)
  | Ok params =>
      let serial := trim_space (cp_Serial params) in
      if is_empty serial then ([], HandshakeRejected) else
      match a_SetWriteDeadline a with
      | Some _ => ([], HandshakeRetryableFailure)
      | None =>
          let payload := connect_request params serial in
          match a_WriteMessage a with
          | Some _ => ([], HandshakeRetryableFailure)
          | None => ([EvSend (compressed c payload) payload], HandshakeAccepted)
          end
      end
  end.

(** [Close]: the stored cancel function is called and dropped, the socket
    closed. *)
Definition Close (c : WSClient) : WSClient * list event :=
  (set_link None (ws_generation c) false c,
   match ws_conn c with Some _ => [EvClose] | None => [] end).

(** After the handshake: the session, its end, and what comes next.  The
    teardown goroutine closes the socket and clears [conn] if it is still the
    one of this session. *)
Definition run_session (a : attempt) (backoff : Z) (c : WSClient) : WSClient * list event * after :=
  let ended := set_link None (ws_generation c) (ws_cancel c) c in
  let session := [EvState LinkConnected; EvSession (session_id (ws_generation c)) (a_lasted a);
                  EvState LinkConnecting] in
  if stableThreshold (ws_config c) <? a_lasted a then (ended, session, Again initialBackoff) else
  let '(evs, k) := waitForRetry a backoff in (ended, session ++ evs, k).

(** From the open connection on. *)
Definition run_connected (a : attempt) (backoff : Z) (c : WSClient) : WSClient * list event * after :=
  let generation := wrap_uint64 (ws_generation c + 1) in
  let c := set_link (Some generation) generation true c in
  let connected := EvConnected generation (maxFrameSize (ws_config c)) in
  match performConnectHandshake a (ws_config c) with
  | (_, HandshakeRejected) =>
      let '(c, evs) := Close c in
      (c, connected :: evs, Return (Some (ENew "ws: fatal: handshake rejected")))
  | (_, HandshakeRetryableFailure) =>
      let '(c, evs) := Close c in
      let '(evs', k) := waitForRetry a backoff in
      (c, connected :: evs ++ evs', k)
  | (sent, HandshakeAccepted) =>
      let '(c, evs, k) := run_session a backoff c in (c, connected :: sent ++ evs, k)
  end.

Definition reconnect_pass (a : attempt) (backoff : Z) (c : WSClient) : WSClient * list event * after :=
  if a_cancelled a then (c, [], Return None) else
  let retry pre := let '(evs, k) := waitForRetry a backoff in (c, pre ++ evs, k) in
  match tls_setup a (c_TLS (ws_config c)) with
  | TlsFatal e => (c, [], Return (Some e))
  | TlsRetry => retry []
  | TlsReady tls =>
      let dial := EvDial (c_URL (ws_config c)) tls (connectTimeout (ws_config c)) in
      match a_DialContext a with
      | Some _ => retry [dial]
      | None => let '(c, evs, k) := run_connected a backoff c in (c, dial :: evs, k)
      end
  end.

(** The loop, over the passes it makes; [None] while it runs on. *)
Fixpoint reconnect (atts : list attempt) (backoff : Z) (c : WSClient)
    : WSClient * list event * option (option error) :=
  match atts with
  | [] => (c, [], None)
  | a :: atts =>
      match reconnect_pass a backoff c with
      | (c, evs, Return e) => (c, evs, Some e)
      | (c, evs, Again backoff) =>
          let '(c, evs', r) := reconnect atts backoff c in (c, evs ++ evs', r)
      end
  end.

Definition ReconnectLoop (handler_nil : bool) (atts : list attempt) (c : WSClient)
    : WSClient * list event * option (option error) :=
  if ws_running c then (c, [], Some (Some (ENew "ws: ReconnectLoop is already running"))) else
  let stop (r : WSClient * list event * option (option error)) :=
    match r with (c, evs, Some e) => (set_running false c, evs, Some e) | _ => r end in
  let c := set_running true c in
  stop (if handler_nil then (c, [], Some (Some (ENew "ws: frame handler cannot be nil"))) else
        let '(c, evs, r) := reconnect atts initialBackoff c in
        (c, EvState LinkConnecting :: evs, r)).

End Reconnect.

(** ** The backoff stays in its range *)

Lemma rand_Float64_within r : within (rand_Float64 r) 1.
Proof.
  apply float64_div_unit. change (2 ^ 53 - 1) with (Z.ones 53). rewrite Z.land_ones by lia.
  apply Z.mod_pos_bound. lia.
Qed.

Definition backoff_ok (b : Z) : Prop := initialBackoff <= b <= maxBackoff.

Lemma retry_jitter_range b r : backoff_ok b -> 0 <= retry_jitter b r <= b.
Proof.
  unfold backoff_ok, initialBackoff, maxBackoff, Second. intros Hb.
  apply float64_trunc_within; [lia|].
  apply float64_mul_within; [lia|apply rand_Float64_within|apply float64_of_int_within; lia].
Qed.

Lemma retry_wait_range b r :
  backoff_ok b -> initialBackoff <= retry_wait b r <= Z.min maxBackoff (initialBackoff + b).
Proof.
  intros Hb. pose proof (retry_jitter_range b r Hb) as Hj. unfold retry_wait.
  revert Hb. unfold backoff_ok, initialBackoff, maxBackoff, Second. intros Hb.
  rewrite wrap_int_small by (unfold min_int64, max_int64; lia). destruct (Z.ltb_spec (60 * 1000000000) (2 * 1000000000 + retry_jitter b r)); lia.
Qed.

(** The backoff after [n] waits: doubled each time up to the maximum. *)
Definition schedule (n : nat) : Z := Z.min maxBackoff (initialBackoff * 2 ^ Z.of_nat n).

Lemma schedule_ok n : backoff_ok (schedule n).
Proof.
  unfold backoff_ok, schedule, initialBackoff, maxBackoff, Second.
  assert (0 < 2 ^ Z.of_nat n) by lia. lia.
Qed.

Lemma next_backoff_schedule n : next_backoff (schedule n) = schedule (S n).
Proof.
  pose proof (schedule_ok n) as Hs. unfold next_backoff.
  rewrite wrap_int_small
    by (revert Hs; unfold backoff_ok, initialBackoff, maxBackoff, Second, min_int64, max_int64; lia).
  unfold schedule. rewrite Nat2Z.inj_succ, Z.pow_succ_r by lia.
  unfold initialBackoff, maxBackoff, Second. set (p := 2 ^ Z.of_nat n).
  assert (0 < p) by (unfold p; lia).
  destruct (Z.ltb_spec (60 * 1000000000) (Z.min (60 * 1000000000) (2 * 1000000000 * p) * 2)); lia.
Qed.

(** ** What the loop does, as a language of events

    [phase] is where the client stands between two events; [PIdle] is the only
    one in which it may dial. *)
Inductive phase := PIdle | PDialled | PSocket | PSent | PUp | PEnded (stable : bool) | PMustWait.

Definition phase_step (c : CloudConfig) (s : option (phase * Z)) (e : event) : option (phase * Z) :=
  match s, e with
  | Some (PIdle, g), EvDial url _ timeout =>
      if String.eqb url (c_URL c) && (timeout =? connectTimeout c) then Some (PDialled, g) else None
  | Some ((PIdle | PDialled | PMustWait), g), EvWait _ => Some (PIdle, g)
  | Some (PDialled, g), EvConnected g' limit =>
      if (g' =? wrap_uint64 (g + 1)) && (limit =? maxFrameSize c) then Some (PSocket, g') else None
  | Some (PSocket, g), EvSend z payload =>
      if Bool.eqb z (compressed c payload) then Some (PSent, g) else None
  | Some (PSocket, g), EvClose => Some (PMustWait, g)
  | Some (PSent, g), EvState l => if String.eqb l LinkConnected then Some (PUp, g) else None
  | Some (PUp, g), EvSession id lasted =>
      if String.eqb id (session_id g) then Some (PEnded (stableThreshold c <? lasted), g) else None
  | Some (PEnded stable, g), EvState l =>
      if String.eqb l LinkConnecting then Some (if stable then PIdle else PMustWait, g) else None
  | _, _ => None
  end.

Definition phases (c : CloudConfig) (s : option (phase * Z)) (evs : list event) : option (phase * Z) :=
  foldl (phase_step c) s evs.

(** The waits, [n] of them since the start or the last stable session. *)
Fixpoint waits_ok (threshold : Z) (n : nat) (evs : list event) : Prop :=
  match evs with
  | [] => True
  | EvWait d :: evs =>
      initialBackoff <= d <= Z.min maxBackoff (initialBackoff + schedule n) /\ waits_ok threshold (S n) evs
  | EvSession _ lasted :: evs => waits_ok threshold (if threshold <? lasted then O else n) evs
  | _ :: evs => waits_ok threshold n evs
  end.

(** The waits counted so far. *)
Definition waited (threshold : Z) : nat -> list event -> nat :=
  foldl (fun n e => match e with
                    | EvWait _ => S n
                    | EvSession _ lasted => if threshold <? lasted then O else n
                    | _ => n
                    end).

Lemma waits_ok_app threshold n evs evs' :
  waits_ok threshold n (evs ++ evs') <->
  waits_ok threshold n evs /\ waits_ok threshold (waited threshold n evs) evs'.
Proof.
  revert n. induction evs as [|e evs IH]; intros n; [by cbn; tauto|].
  destruct e; cbn; rewrite IH; tauto.
Qed.

Section ReconnectLaws.
Context `{GoLib} `{ConfigLib}.

(** What is sent first on every connection: a connect request with a serial. *)
Definition introduces (e : event) : Prop :=
  match e with
  | EvSend _ payload =>
      exists params serial, serial = trim_space (cp_Serial params) /\ serial <> "" /\
        payload = connect_request params serial
  | _ => True
  end.

(** Why the loop may give up. *)
Definition fatal_cause (c : CloudConfig) (a : attempt) : Prop :=
  is_empty (t_ClientCertFile (c_TLS c)) <> is_empty (t_ClientKeyFile (c_TLS c))
  \/ (exists ca, a_ReadFile a (t_CAFile (c_TLS c)) = Ok ca /\ AppendCertsFromPEM ca = false)
  \/ (exists params, a_ConnectParams a = Ok params /\ trim_space (cp_Serial params) = "").

Definition stop_cause (c : CloudConfig) (a : attempt) (e : option error) : Prop :=
  match e with None => a_cancelled a || a_stopped a = true | Some _ => fatal_cause c a end.

(** A pass from [PIdle], after [n] waits. *)
Record pass_ok (a : attempt) (n : nat) (c c' : WSClient) (evs : list event) (k : after) : Prop := {
  pass_config : ws_config c' = ws_config c;
  pass_phases : exists p,
    phases (ws_config c) (Some (PIdle, ws_generation c)) evs = Some (p, ws_generation c') /\
    forall b, k = Again b -> p = PIdle;
  pass_introduces : Forall introduces evs;
  pass_waits : waits_ok (stableThreshold (ws_config c)) n evs;
  pass_backoff b : k = Again b -> b = schedule (waited (stableThreshold (ws_config c)) n evs);
  pass_stop e : k = Return e -> stop_cause (ws_config c) a e
}.

Lemma tls_setup_fatal a c e : tls_setup a (c_TLS c) = TlsFatal e -> fatal_cause c a.
Proof.
  unfold tls_setup, fatal_cause. destruct (_ && _ && _ && _); [done|].
  assert (forall ca, load_pair a (c_TLS c) (fun cert => TlsReady (Some (mkTLS (t_ServerName (c_TLS c)) ca cert)))
                     = TlsFatal e ->
          is_empty (t_ClientCertFile (c_TLS c)) <> is_empty (t_ClientKeyFile (c_TLS c))) as Hpair.
  { intros ca. unfold load_pair.
    destruct (is_empty (t_ClientCertFile _)), (is_empty (t_ClientKeyFile _)); cbn; try done.
    by destruct (a_LoadX509KeyPair _ _ _). }
  unfold load_ca. destruct (is_empty (t_CAFile (c_TLS c))); [eauto|].
  destruct (a_ReadFile a (t_CAFile (c_TLS c))) as [ca|] eqn:Hca; [|done].
  destruct (AppendCertsFromPEM ca) eqn:Hpem; cbn; eauto 6.
Qed.

Lemma waitForRetry_ok a n evs k :
  waitForRetry a (schedule n) = (evs, k) ->
  exists d, evs = [EvWait d]
  /\ initialBackoff <= d <= Z.min maxBackoff (initialBackoff + schedule n)
  /\ (forall b, k = Again b -> b = schedule (S n))
  /\ (forall e, k = Return e -> e = None /\ a_stopped a = true).
Proof.
  unfold waitForRetry. intros [= <- <-]. eexists. split; [done|].
  split; [apply retry_wait_range, schedule_ok|]. rewrite next_backoff_schedule.
  split; destruct (a_stopped a); naive_solver.
Qed.

Definition may_wait (p : phase) : bool :=
  match p with PIdle | PDialled | PMustWait => true | _ => false end.

(** A pass that ends with a wait. *)
Lemma pass_retry a n c c' pre evs k p :
  ws_config c' = ws_config c ->
  phases (ws_config c) (Some (PIdle, ws_generation c)) pre = Some (p, ws_generation c') ->
  may_wait p = true -> Forall introduces pre ->
  waits_ok (stableThreshold (ws_config c)) n pre ->
  waited (stableThreshold (ws_config c)) n pre = n ->
  waitForRetry a (schedule n) = (evs, k) -> pass_ok a n c c' (pre ++ evs) k.
Proof.
  intros Hc Hp Hw Hi Hok Hn Hr. apply waitForRetry_ok in Hr as (d & -> & Hd & Hb & Hs). split; [done|..].
  - exists PIdle. unfold phases in *. rewrite foldl_app, Hp. split; [|done]. by destruct p.
  - apply Forall_app_2; [done|]. by apply Forall_singleton.
  - apply waits_ok_app. rewrite Hn. by split.
  - intros b Hk. unfold waited in *. rewrite foldl_app, Hn. by apply Hb.
  - intros e Hk. apply Hs in Hk as [-> Hst]. cbn. rewrite Hst. apply orb_true_r.
Qed.

Ltac accept :=
  unfold phases;
  repeat first [progress cbn | rewrite String.eqb_refl | rewrite Z.eqb_refl | rewrite Bool.eqb_reflx];
  try done.

(** Both ends of a session: with and without a wait. *)
Lemma run_session_ok a n c0 c pre c' evs k :
  phases (ws_config c0) (Some (PIdle, ws_generation c0)) pre = Some (PSent, ws_generation c) ->
  ws_config c = ws_config c0 -> Forall introduces pre ->
  waits_ok (stableThreshold (ws_config c0)) n pre -> waited (stableThreshold (ws_config c0)) n pre = n ->
  run_session a (schedule n) c = (c', evs, k) -> pass_ok a n c0 c' (pre ++ evs) k.
Proof.
  intros Hp Hc Hi Hok Hn. unfold run_session. rewrite Hc.
  destruct (stableThreshold (ws_config c0) <? a_lasted a) eqn:Hst.
  - intros [= <- <- <-]. split; [done|..].
    + exists PIdle. unfold phases in *. rewrite foldl_app, Hp. cbn. by rewrite String.eqb_refl, Hst.
    + apply Forall_app_2; [done|]. by repeat constructor.
    + apply waits_ok_app. by split.
    + intros b [= <-]. unfold waited in *. rewrite foldl_app, Hn. cbn. by rewrite Hst.
    + done.
  - destruct (waitForRetry a (schedule n)) as [w k'] eqn:Hw. intros [= <- <- <-].
    change (EvState LinkConnected :: ?x :: ?y :: w) with ([EvState LinkConnected; x; y] ++ w).
    rewrite app_assoc. eapply (pass_retry _ _ _ _ _ _ _ PMustWait); [done|..| | | | |exact Hw].
    + unfold phases in *. rewrite foldl_app, Hp. cbn. by rewrite String.eqb_refl, Hst.
    + done.
    + apply Forall_app_2; [done|]. by repeat constructor.
    + apply waits_ok_app. by split.
    + unfold waited in *. rewrite foldl_app, Hn. cbn. by rewrite Hst.
Qed.

Lemma handshake_accepted a c sent :
  performConnectHandshake a c = (sent, HandshakeAccepted) ->
  exists payload, sent = [EvSend (compressed c payload) payload] /\ introduces (EvSend (compressed c payload) payload).
Proof.
  unfold performConnectHandshake. destruct (a_ConnectParams a) as [params|]; [|done].
  destruct (is_empty (trim_space (cp_Serial params))) eqn:Hs; [done|].
  destruct (a_SetWriteDeadline a), (a_WriteMessage a); try done. intros [= <-].
  eexists. split; [done|]. exists params, (trim_space (cp_Serial params)).
  split; [reflexivity|]. split; [by apply String.eqb_neq|reflexivity].
Qed.

Lemma handshake_rejected a c sent :
  performConnectHandshake a c = (sent, HandshakeRejected) -> fatal_cause c a.
Proof.
  unfold performConnectHandshake, fatal_cause. destruct (a_ConnectParams a) as [params|]; [|done].
  destruct (is_empty (trim_space (cp_Serial params))) eqn:Hs.
  - intros _. right; right. exists params. split; [done|]. by apply String.eqb_eq.
  - by destruct (a_SetWriteDeadline a), (a_WriteMessage a).
Qed.

Lemma reconnect_pass_ok a n c c' evs k :
  reconnect_pass a (schedule n) c = (c', evs, k) -> pass_ok a n c c' evs k.
Proof.
  unfold reconnect_pass. destruct (a_cancelled a) eqn:Hcan.
  { intros [= <- <- <-]. split; [done|by exists PIdle|done..|]. intros e [= <-]. by cbn; rewrite Hcan. }
  destruct (tls_setup a _) as [tls| |e] eqn:Htls.
  2: { destruct (waitForRetry a _) as [w k'] eqn:Hw. intros [= <- <- <-].
       eapply (pass_retry _ _ _ _ [] _ _ PIdle); [done..|exact Hw]. }
  2: { intros [= <- <- <-]. split; [done|by exists PIdle|done..|].
       intros e' [= <-]. exact (tls_setup_fatal _ _ _ Htls). }
  set (dial := EvDial _ tls _). destruct (a_DialContext a).
  { destruct (waitForRetry a _) as [w k'] eqn:Hw. intros [= <- <- <-].
    eapply (pass_retry _ _ _ _ [dial] _ _ PDialled); [done|accept|done|by repeat constructor|done..|exact Hw]. }
  destruct (run_connected a (schedule n) c) as [[c1 evs1] k1] eqn:Hrun. intros [= <- <- <-].
  revert Hrun. unfold run_connected. set (c0 := set_link _ _ _ _).
  set (con := EvConnected _ _).
  destruct (performConnectHandshake a _) as [sent [| |]] eqn:Hh; cbn [Close].
  - apply handshake_accepted in Hh as (payload & -> & Hi). set (send := EvSend _ payload) in *.
    destruct (run_session a (schedule n) c0) as [[c2 evs2] k2] eqn:Hs. intros [= <- <- <-].
    eapply (run_session_ok a n c c0 [dial; con; send]); [accept|done|by repeat constructor|done..|exact Hs].
  - destruct (waitForRetry a _) as [w k'] eqn:Hw. intros [= <- <- <-].
    eapply (pass_retry a n c _ [dial; con; EvClose] _ _ PMustWait);
      [done|accept|done|by repeat constructor|done..|exact Hw].
  - intros [= <- <- <-]. split; [done| |by repeat constructor|done..|].
    + exists PMustWait. split; [accept|done].
    + intros e [= <-]. exact (handshake_rejected _ _ _ Hh).
Qed.

Record loop_ok (atts : list attempt) (n : nat) (c c' : WSClient) (evs : list event)
    (r : option (option error)) : Prop := {
  loop_phases : exists p,
    phases (ws_config c) (Some (PIdle, ws_generation c)) evs = Some (p, ws_generation c');
  loop_introduces : Forall introduces evs;
  loop_waits : waits_ok (stableThreshold (ws_config c)) n evs;
  loop_stop e : r = Some e -> Exists (fun a => stop_cause (ws_config c) a e) atts
}.

Lemma reconnect_ok atts n c c' evs r :
  reconnect atts (schedule n) c = (c', evs, r) -> loop_ok atts n c c' evs r.
Proof.
  revert n c c' evs r. induction atts as [|a atts IH]; intros n c c' evs r; cbn [reconnect].
  { intros [= <- <- <-]. split; [by exists PIdle|done..]. }
  destruct (reconnect_pass a (schedule n) c) as [[c1 evs1] k] eqn:Hp.
  apply reconnect_pass_ok in Hp as [Hc (p & Hph & Hidle) Hi Hw Hb Hs]. destruct k as [b|e].
  - rewrite (Hb b eq_refl). set (n' := waited _ _ _) in *.
    assert (p = PIdle) as -> by (by apply (Hidle b)). destruct (reconnect atts (schedule n') c1) as [[c2 evs2] r2] eqn:Hr.
    intros [= <- <- <-]. apply IH in Hr as [(q & Hq) Hi' Hw' Hs']. rewrite Hc in *. split.
    + exists q. unfold phases in *. by rewrite foldl_app, Hph.
    + by apply Forall_app_2.
    + apply waits_ok_app. by split.
    + intros e He. apply Exists_cons. right. by apply Hs'.
  - intros [= <- <- <-]. split; [by exists p|done..|]. intros e' [= <-]. apply Exists_cons. left. by apply Hs.
Qed.

Lemma ReconnectLoop_inv atts c c' evs r :
  ReconnectLoop false atts c = (c', evs, r) -> ws_running c = false ->
  exists evs', evs = EvState LinkConnecting :: evs' /\ loop_ok atts 0 c c' evs' r
  /\ ws_running c' = negb (bool_decide (is_Some r)).
Proof.
  unfold ReconnectLoop. intros Hr Hrun. rewrite Hrun in Hr. revert Hr. cbn zeta.
  change initialBackoff with (schedule 0).
  destruct (reconnect atts (schedule 0) (set_running true c)) as [[c1 evs1] r1] eqn:E.
  assert (ws_running c1 = true) as Hrun1.
  { assert (ws_running (set_running true c) = true) as Ht by done. revert Ht E.
    generalize (set_running true c), (schedule 0). clear. revert c1 evs1 r1.
    induction atts as [|a atts IH]; intros c1 evs1 r1 c b Hc; cbn [reconnect]; [by intros [= <- <- <-]|].
    destruct (reconnect_pass a b c) as [[c2 evs2] k] eqn:Hp.
    assert (ws_running c2 = true) as Hc2.
    { revert Hp. unfold reconnect_pass, run_connected, run_session, Close, waitForRetry.
      repeat case_match; intros; simplify_eq; done. }
    destruct k as [b'|e]; [|by intros [= <- <- <-]].
    destruct (reconnect atts b' c2) as [[c3 evs3] r3] eqn:Hr. intros [= <- <- <-]. by eapply IH. }
  apply reconnect_ok in E as [Hp Hi Hw Hs].
  destruct r1; intros [= <- <- <-]; (eexists; split; [done|]; split; [by split|done]).
Qed.

(** C15: whatever the network, the files and the context do, the loop first
    reports the link as connecting and then follows the protocol of [phases]:
    it dials the configured address only when idle, idle it is only at the
    start, after a wait or after a stable session; a connection counts as
    connected and runs a session only after the connect request with a
    non-blank serial has been sent on it; the session has the identifier of a
    new generation; and its end is reported before anything else happens. *)
Theorem reconnect_protocol atts c c' evs r :
  ReconnectLoop false atts c = (c', evs, r) -> ws_running c = false ->
  exists evs' p, evs = EvState LinkConnecting :: evs'
  /\ phases (ws_config c) (Some (PIdle, ws_generation c)) evs' = Some (p, ws_generation c')
  /\ Forall introduces evs'.
Proof.
  intros Hl Hr. apply ReconnectLoop_inv in Hl as (evs' & -> & [[p Hp] Hi _ _] & _); [|done]. eauto.
Qed.

(** C24: every wait between two attempts lasts at least the initial backoff and
    at most the maximum; before that bound, it is at most the initial backoff
    plus the one doubled with every wait since the last stable session,
    whatever random number the jitter is made from. *)
Theorem reconnect_backoff atts c c' evs r :
  ReconnectLoop false atts c = (c', evs, r) -> ws_running c = false ->
  waits_ok (stableThreshold (ws_config c)) 0 evs.
Proof.
  intros Hl Hr. apply ReconnectLoop_inv in Hl as (evs' & -> & [_ _ Hw _] & _); done.
Qed.

(** the loop ends only for a reason: without an error when the context is
    done, with one when a pass meets an incomplete certificate pair, a CA file
    without a certificate or a blank serial; every other failure is retried. *)
Theorem reconnect_stops atts c c' evs e :
  ReconnectLoop false atts c = (c', evs, Some e) -> ws_running c = false ->
  ws_running c' = false /\ exists a, a ∈ atts /\ stop_cause (ws_config c) a e.
Proof.
  intros Hl Hr. apply ReconnectLoop_inv in Hl as (evs' & -> & [_ _ _ Hs] & ->); [|done].
  split; [done|]. specialize (Hs e eq_refl). apply Exists_exists in Hs as (a & Ha & Hc). eauto.
Qed.

End ReconnectLaws.
