(* ===== verification/WsReader.v ===== *)
(** * The WebSocket client: reading

    [startReaderLoop] of pkg/websocket/client.go: frames are read one by one
    up to a size limit and handed to a [FrameHandler]; a run of consecutive
    handler errors ends the session.

    The handler is a parameter of the loop; at the end of the file it is the
    [HandleFrame] of the client, and the two are verified together. *)

From S2P Require Import Prelude GoTime Scheduler Json Enums Rpc Commands Envelopes DeviceResult Config Transaction Manager Handler Capabilities WsClient.
Open Scope go_scope.

(** [FrameDisposition] is an integer, and a handler may return any. *)
Definition disposition_code (d : FrameDisposition) : Z :=
  match d with FrameAccepted => 0 | FrameRejectedKeepConnection => 1 | FrameFatalCloseConnection => 2 end.

Definition pongTimeout (c : CloudConfig) : Z := seconds_or (PongTimeoutSeconds c) defaultPongTimeout.
Definition pingInterval (c : CloudConfig) : Z := seconds_or (PingIntervalSeconds c) defaultPingInterval.
Definition readDeadlineDuration (c : CloudConfig) : Z := wrap_int (pingInterval c + pongTimeout c).
Definition maxErrors (c : CloudConfig) : Z :=
  if 0 <? MaxConsecutiveFrameErrors c then MaxConsecutiveFrameErrors c else 20.

(** [io.ReadAll(io.LimitReader(r, n))], where [r] yields [content] and then
    ends, or fails with [err]. *)
Definition read_limited (n : Z) (content : string) (err : option error) : result string :=
  if n <=? 0 then Ok "" else
  if n <=? len content then Ok (String.substring 0 (Z.to_nat n) content) else
  match err with Some e => Err e | None => Ok content end.

Definition too_large : error := ENew "decompressed websocket message exceeds limit".
Definition fatal_disposition : error := ENew "handler requested fatal socket termination".
Definition too_many_errors : error := ENew "ws: fatal: exceeded maximum consecutive frame handler errors".
Definition invalid_disposition (d : Z) : error := ENew ("invalid frame disposition: " +:+ pretty d).
Definition ErrCloseSent : error := ESentinel "websocket: close sent".

Section Reader.
(** The handler: its state, and what else a call of it depends on. *)
Context {H E : Type} (handle : E -> H -> InboundFrame -> H * Z * option error).

(** What the loop meets: the context done; a ping or a pong handled while it
    waits for a frame; an error of the socket (the deadline passing included);
    a frame, whose content may break off with an error. *)
Inductive input :=
| InDone (e : error)
| InPong (now : Z)
| InPing (write : option error)
| InSocket (e : error)
| InFrame (env : E) (msgType : Z) (content : string) (err : option error).

Record reader_state := mkReader {
  rd_handler : H;
  rd_errors : Z;
  rd_deadline : Z;
  (** The frames handed to the handler. *)
  rd_frames : list InboundFrame
}.

(** The disposition and the error of the handler: the new error count, or why
    the loop ends. *)
Definition judge (c : CloudConfig) (errors : Z) (disp : Z) (err : option error) : result Z :=
  if disp =? disposition_code FrameFatalCloseConnection then Err fatal_disposition else
  match err with
  | Some _ =>
      let errors := wrap_int (errors + 1) in
      if maxErrors c <=? errors then Err too_many_errors else Ok errors
  | None =>
      if (disp =? disposition_code FrameAccepted) || (disp =? disposition_code FrameRejectedKeepConnection)
      then Ok 0 else Err (invalid_disposition disp)
  end.

(** The payload of a frame, if the loop goes on with it. *)
Definition read_frame (c : CloudConfig) (content : string) (err : option error) : result string :=
  payload <-? wrap_err "failed to read decompressed frame: "
                (read_limited (wrap_int (maxFrameSize c + 1)) content err);
  if maxFrameSize c <? len payload then Err too_large else Ok payload.

(** One step of the loop; an error ends it. *)
Definition reader_step (c : CloudConfig) (sessID : string) (r : reader_state) (i : input)
    : reader_state * option error :=
  match i with
  | InDone e | InSocket e => (r, Some e)
  | InPong now =>
      (mkReader (rd_handler r) (rd_errors r) (now + readDeadlineDuration c) (rd_frames r), None)
  | InPing write =>
      (r, match write with
          | Some e => if bool_decide (e = ErrCloseSent) then None else Some e
          | None => None
          end)
  | InFrame env msgType content err =>
      match read_frame c content err with
      | Err e => (r, Some e)
      | Ok payload =>
          let frame := mkFrame sessID msgType payload in
          let '(h, disp, herr) := handle env (rd_handler r) frame in
          let r' errors := mkReader h errors (rd_deadline r) (rd_frames r ++ [frame]) in
          match judge c (rd_errors r) disp herr with
          | Ok errors => (r' errors, None)
          | Err e => (r' (rd_errors r), Some e)
          end
      end
  end.

Fixpoint reader_loop (c : CloudConfig) (sessID : string) (r : reader_state) (ins : list input)
    : reader_state * option error :=
  match ins with
  | [] => (r, None)
  | i :: ins =>
      match reader_step c sessID r i with
      | (r, Some e) => (r, Some e)
      | (r, None) => reader_loop c sessID r ins
      end
  end.

Definition startReaderLoop (c : CloudConfig) (generation now : Z) (h : H) (ins : list input)
    : reader_state * option error :=
  reader_loop c (session_id generation) (mkReader h 0 (now + readDeadlineDuration c) []) ins.

(** ** Correctness *)

(** A frame the loop hands on, and its payload. *)
Definition fits (c : CloudConfig) (i : input) : bool :=
  match i with InFrame _ _ content None => len content <=? maxFrameSize c | _ => true end.

(** The configured limit leaves room for the extra byte that is read. *)
Definition limit_ok (c : CloudConfig) : Prop := maxFrameSize c < max_int64.

Lemma maxFrameSize_pos c : 0 < maxFrameSize c.
Proof. unfold maxFrameSize, defaultMaxFrameSize. destruct (Z.ltb_spec 0 (MaxFrameSizeBytes c)); lia. Qed.

Lemma substring_length n s : n <= len s -> 0 <= n -> len (String.substring 0 (Z.to_nat n) s) = n.
Proof.
  intros Hn Hpos. unfold len in *. revert Hn. rewrite <- (Z2Nat.id n) at 1 3 by done.
  generalize (Z.to_nat n). clear. intros k. revert s.
  induction k as [|k IH]; intros [|a s] Hk; cbn -[Z.of_nat] in *; try lia.
  rewrite !Nat2Z.inj_succ in *. specialize (IH s). lia.
Qed.

(** Reading one byte more than allowed is enough to see every oversize. *)
Lemma read_frame_exact c content err :
  limit_ok c ->
  read_frame c content err =
  if maxFrameSize c <? len content then Err too_large else
  match err with
  | Some e => Err (EWrap "failed to read decompressed frame: " e)
  | None => Ok content
  end.
Proof.
  unfold limit_ok. intros Hl. pose proof (maxFrameSize_pos c) as Hp. unfold read_frame, read_limited.
  rewrite wrap_int_small by (unfold min_int64; lia).
  replace (maxFrameSize c + 1 <=? 0) with false by lia.
  destruct (Z.leb_spec (maxFrameSize c + 1) (len content)) as [Hlong|Hshort]; cbn.
  - rewrite substring_length by lia.
    replace (maxFrameSize c <? maxFrameSize c + 1) with true by lia.
    by replace (maxFrameSize c <? len content) with true by lia.
  - replace (maxFrameSize c <? len content) with false by lia. destruct err; cbn; [done|].
    by replace (maxFrameSize c <? len content) with false by lia.
Qed.

(** The frames among the inputs, as they are handed on. *)
Fixpoint frames_of (sessID : string) (ins : list input) : list InboundFrame :=
  match ins with
  | [] => []
  | InFrame _ msgType content _ :: ins => mkFrame sessID msgType content :: frames_of sessID ins
  | _ :: ins => frames_of sessID ins
  end.

(** The handler run over all of them: its last state and its verdicts. *)
Fixpoint handle_all (sessID : string) (h : H) (ins : list input) : H * list (Z * option error) :=
  match ins with
  | [] => (h, [])
  | InFrame env msgType content _ :: ins =>
      let '(h, disp, err) := handle env h (mkFrame sessID msgType content) in
      let '(h, vs) := handle_all sessID h ins in (h, (disp, err) :: vs)
  | _ :: ins => handle_all sessID h ins
  end.

(** An input that does not end the session by itself. *)
Definition harmless (c : CloudConfig) (i : input) : bool :=
  match i with
  | InDone _ | InSocket _ => false
  | InPong _ => true
  | InPing w => match w with Some e => bool_decide (e = ErrCloseSent) | None => true end
  | InFrame _ _ content err => (len content <=? maxFrameSize c) && negb (bool_decide (is_Some err))
  end.

Fixpoint judge_all (c : CloudConfig) (errors : Z) (vs : list (Z * option error)) : result Z :=
  match vs with
  | [] => Ok errors
  | v :: vs => errors <-? judge c errors v.1 v.2; judge_all c errors vs
  end.

(** Over harmless inputs the verdicts of the handler decide. *)
Lemma reader_loop_judge c sessID r ins :
  limit_ok c -> forallb (harmless c) ins = true ->
  let '(h, vs) := handle_all sessID (rd_handler r) ins in
  match judge_all c (rd_errors r) vs with
  | Ok errors =>
      exists deadline, reader_loop c sessID r ins =
        (mkReader h errors deadline (rd_frames r ++ frames_of sessID ins), None)
  | Err e => (reader_loop c sessID r ins).2 = Some e
  end.
Proof.
  intros Hl. revert r. induction ins as [|i ins IH]; intros r; cbn [forallb handle_all frames_of].
  { intros _. exists (rd_deadline r). rewrite app_nil_r. by destruct r. }
  intros [Hi Hins]%andb_true_iff. destruct i as [e|now|w|e|env ty content err]; try done.
  - exact (IH (mkReader _ _ _ _) Hins).
  - cbn [reader_loop reader_step]. cbn in Hi.
    destruct w as [e|]; [rewrite Hi|]; by apply IH.
  - cbn in Hi. apply andb_true_iff in Hi as [Hlen Herr]. destruct err as [|]; [done|]. clear Herr.
    cbn [reader_loop reader_step]. rewrite read_frame_exact by done.
    replace (maxFrameSize c <? len content) with false by lia.
    destruct (handle env (rd_handler r) _) as [[h disp] herr] eqn:Hh.
    destruct (handle_all sessID h ins) as [h' vs] eqn:Hall. cbn [judge_all fst snd].
    destruct (judge c (rd_errors r) disp herr) as [errors|e]; [|done]. cbn.
    specialize (IH (mkReader h errors (rd_deadline r) (rd_frames r ++ [mkFrame sessID ty content])) Hins).
    cbn [rd_handler rd_errors rd_frames] in IH. rewrite Hall in IH. by rewrite <- app_assoc in IH.
Qed.

(** What every run of the loop hands on: frames of this session, in order,
    within the limit. *)
Lemma reader_loop_frames c sessID r ins :
  limit_ok c ->
  exists fs, rd_frames (reader_loop c sessID r ins).1 = rd_frames r ++ fs
  /\ fs `prefix_of` frames_of sessID ins
  /\ Forall (fun f => f_SessionID f = sessID /\ len (f_Payload f) <= maxFrameSize c) fs.
Proof.
  intros Hl. revert r. induction ins as [|i ins IH]; intros r; cbn [reader_loop frames_of].
  { exists []. by rewrite app_nil_r. }
  assert (forall r', rd_frames r' = rd_frames r ->
    exists fs, rd_frames (reader_loop c sessID r' ins).1 = rd_frames r ++ fs
    /\ fs `prefix_of` frames_of sessID ins
    /\ Forall (fun f => f_SessionID f = sessID /\ len (f_Payload f) <= maxFrameSize c) fs) as Hsame
    by (intros r' <-; apply IH).
  assert (forall l, exists fs, rd_frames r = rd_frames r ++ fs /\ fs `prefix_of` l
    /\ Forall (fun f => f_SessionID f = sessID /\ len (f_Payload f) <= maxFrameSize c) fs) as Hnil
    by (intros l; exists []; rewrite app_nil_r; split_and!; [done|apply prefix_nil|constructor]).
  destruct i as [e|now|w|e|env ty content err]; cbn [reader_step]; [apply Hnil|by apply Hsame| |apply Hnil|].
  { destruct w as [e|]; [destruct (bool_decide _)|]; [by apply Hsame|apply Hnil|by apply Hsame]. }
  rewrite read_frame_exact by done.
  destruct (Z.ltb_spec (maxFrameSize c) (len content)) as [|Hlen]; [apply Hnil|].
  destruct err as [e|]; [apply Hnil|].
  destruct (handle env (rd_handler r) _) as [[h disp] herr].
  set (f := mkFrame sessID ty content).
  destruct (judge c (rd_errors r) disp herr) as [errors|e].
  - destruct (IH (mkReader h errors (rd_deadline r) (rd_frames r ++ [f]))) as (fs & Hfs & Hpre & Hall).
    exists (f :: fs). rewrite Hfs. cbn. rewrite <- app_assoc. split_and!; [done|by apply prefix_cons|by constructor].
  - exists [f]. cbn. split_and!; [done|apply prefix_cons, prefix_nil|by repeat constructor].
Qed.

End Reader.

(** ** The error budget *)

Definition failed (v : Z * option error) : Prop := is_Some v.2.
Definition keeps (v : Z * option error) : Prop :=
  v.1 = disposition_code FrameAccepted \/ v.1 = disposition_code FrameRejectedKeepConnection.

#[export] Instance failed_dec v : Decision (failed v).
Proof. unfold failed. apply _. Defined.

(** [n] consecutive failures. *)
Definition error_run (n : Z) (vs : list (Z * option error)) : Prop :=
  exists pre run post, vs = pre ++ run ++ post /\ Z.of_nat (length run) = n /\ Forall failed run.

(** [n] consecutive failures, [k] of them already seen. *)
Fixpoint overruns (n k : Z) (vs : list (Z * option error)) : bool :=
  match vs with
  | [] => false
  | v :: vs => if decide (failed v) then (n <=? k + 1) || overruns n (k + 1) vs else overruns n 0 vs
  end.

Definition leading_run (n k : Z) (vs : list (Z * option error)) : Prop :=
  exists run post, vs = run ++ post /\ k + Z.of_nat (length run) = n /\ Forall failed run.

Lemma error_run_cons n v vs : 0 < n ->
  error_run n (v :: vs) <-> leading_run n 0 (v :: vs) \/ error_run n vs.
Proof.
  intros Hn. split.
  - intros ([|w pre] & run & post & He & Hl & Hf).
    + left. by exists run, post.
    + right. injection He as -> ->. by exists pre, run, post.
  - intros [(run & post & -> & Hl & Hf)|(pre & run & post & -> & Hl & Hf)].
    + by exists [], run, post.
    + by exists (v :: pre), run, post.
Qed.

Lemma leading_run_cons n k v vs : k < n ->
  leading_run n k (v :: vs) <-> failed v /\ leading_run n (k + 1) vs.
Proof.
  intros Hk. split.
  - intros ([|w run] & post & He & Hl & Hf); [cbn in Hl; lia|].
    injection He as -> ->. apply Forall_cons in Hf as [Hv Hf]. split; [done|].
    exists run, post. split_and!; [done| |done]. cbn in Hl. lia.
  - intros [Hv (run & post & -> & Hl & Hf)]. exists (v :: run), post.
    split_and!; [done| |by constructor]. cbn. lia.
Qed.

Lemma leading_run_le n k k' vs : k <= k' <= n -> leading_run n k vs -> leading_run n k' vs.
Proof.
  intros Hk (run & post & -> & Hl & Hf). exists (take (Z.to_nat (n - k')) run), (drop (Z.to_nat (n - k')) run ++ post).
  split_and!; [by rewrite app_assoc, take_drop| |by apply Forall_take].
  rewrite length_take. lia.
Qed.

Lemma overruns_spec n k vs : 0 <= k < n ->
  overruns n k vs = true <-> leading_run n k vs \/ error_run n vs.
Proof.
  revert k. induction vs as [|v vs IH]; intros k Hk; cbn [overruns].
  - split; [done|]. intros [([|] & ? & ? & Hl & _)|(pre & run & post & He & Hl & _)]; cbn in *; try done; [lia|].
    symmetry in He. apply app_eq_nil in He as [_ [-> _]%app_eq_nil]. cbn in Hl. lia.
  - rewrite error_run_cons, !leading_run_cons by lia. destruct (decide (failed v)) as [Hv|Hv].
    + rewrite orb_true_iff, Z.leb_le. destruct (Z.le_gt_cases n (k + 1)) as [Hle|Hgt].
      * split; [|by left]. intros _. left. split; [done|]. exists [], vs. split_and!; [done|cbn; lia|done].
      * rewrite IH by lia. split; [intros [?|[?|?]]; [lia|tauto|tauto]|].
        intros [[_ ?]|[[_ Hlead]|?]]; [tauto| |tauto]. right; left.
        eapply leading_run_le; [|exact Hlead]. lia.
    + rewrite IH by lia. split; [|tauto].
      intros [Hlead|?]; [|tauto]. right. right. destruct Hlead as (run & post & -> & Hl & Hf).
      by exists [], run, post.
Qed.

Lemma maxErrors_pos c : 0 < maxErrors c.
Proof. unfold maxErrors. destruct (Z.ltb_spec 0 (MaxConsecutiveFrameErrors c)); lia. Qed.

Lemma judge_all_overruns c k vs :
  maxErrors c <= max_int64 -> Forall keeps vs -> 0 <= k < maxErrors c ->
  match judge_all c k vs with
  | Ok _ => overruns (maxErrors c) k vs = false
  | Err e => e = too_many_errors /\ overruns (maxErrors c) k vs = true
  end.
Proof.
  intros Hmax Hvs. revert k. induction Hvs as [|[d e] vs Hv Hvs IH]; intros k Hk; [done|].
  cbn [judge_all overruns fst snd]. unfold judge.
  replace (d =? disposition_code FrameFatalCloseConnection) with false by (destruct Hv as [Hv|Hv]; cbn in *; lia).
  destruct (decide (failed (d, e))) as [[e' He]|Hf]; cbn in *.
  - subst e. rewrite wrap_int_small by (unfold min_int64; lia).
    destruct (Z.leb_spec (maxErrors c) (k + 1)); cbn; [done|]. by apply IH; lia.
  - destruct e as [e|]; [destruct Hf; by eexists|].
    replace ((d =? 0) || (d =? 1)) with true by (destruct Hv as [Hv|Hv]; cbn in *; lia).
    cbn. apply IH. pose proof (maxErrors_pos c). lia.
Qed.

(** as long as the socket delivers frames within the size limit and the
    handler's dispositions keep the connection, the loop ends exactly when the
    handler has failed on [maxErrors] frames in a row, and then says so; any
    frame handled without an error starts the count afresh. *)
Theorem reader_error_budget {H E} (handle : E -> H -> InboundFrame -> H * Z * option error)
    c generation now h ins vs :
  limit_ok c -> maxErrors c <= max_int64 -> forallb (harmless c) ins = true ->
  (handle_all handle (session_id generation) h ins).2 = vs -> Forall keeps vs ->
  (error_run (maxErrors c) vs /\ (startReaderLoop handle c generation now h ins).2 = Some too_many_errors)
  \/ (~ error_run (maxErrors c) vs /\ (startReaderLoop handle c generation now h ins).2 = None).
Proof.
  intros Hl Hmax Hins Hvs Hk. unfold startReaderLoop.
  set (r := mkReader h 0 _ []). pose proof (maxErrors_pos c) as Hpos.
  pose proof (reader_loop_judge handle c (session_id generation) r ins Hl Hins) as Hloop.
  cbn [rd_handler rd_errors r] in Hloop.
  destruct (handle_all handle (session_id generation) h ins) as [h' vs']. cbn in Hvs. subst vs'.
  pose proof (judge_all_overruns c 0 vs Hmax Hk ltac:(lia)) as Hj.
  pose proof (overruns_spec (maxErrors c) 0 vs ltac:(lia)) as Hspec.
  assert (leading_run (maxErrors c) 0 vs -> error_run (maxErrors c) vs) as Hlead
    by (intros (run & post & -> & ? & ?); by exists [], run, post).
  destruct (judge_all c 0 vs) as [n|e].
  - right. destruct Hloop as [d ->]. split; [|done]. intros Hrun. by rewrite (proj2 Hspec (or_intror Hrun)) in Hj.
  - left. destruct Hj as [-> Ho]. split; [|done]. apply Hspec in Ho as [?|?]; auto.
Qed.

(** ** The reader and the client's handler together *)

Section Client.
Context {S : Type} `{OutboundScheduler S} `{GoLib}.
Context (lim : limits) (AllowedTraceUploadURL : option URL) (h : frameHandler).
Import RequestManager.

(** What [HandleFrame] finds: the link states, the clock and a fresh uuid. *)
Record handler_env := mkHandlerEnv { he_state : systemStateManager; he_now : Z; he_rpcID : string }.

(** [HandleFrame] never returns an error; the requests to execute are collected. *)
Definition client_handle (env : handler_env) (x : t S * list launch) (f : InboundFrame)
    : (t S * list launch) * Z * option error :=
  let r := HandleFrame lim AllowedTraceUploadURL h (he_state env) x.1 (he_now env) (he_rpcID env) f in
  (hd_mgr r, x.2 ++ match hd_launch r with Some l => [l] | None => [] end, disposition_code (hd_disposition r), None).

Lemma HandleFrame_not_fatal st m now rpcID f :
  hd_disposition (HandleFrame lim AllowedTraceUploadURL h st m now rpcID f) <> FrameFatalCloseConnection.
Proof.
  unfold HandleFrame, handle_valid, admission_failed, reject_request, reject_with, drop_frame, push_and_return.
  repeat case_match; cbn; done.
Qed.

Lemma client_handle_all sessID x ins :
  Forall (fun v => keeps v /\ v.2 = None) (handle_all client_handle sessID x ins).2.
Proof.
  revert x. induction ins as [|i ins IH]; intros x; cbn [handle_all]; [constructor|].
  destruct i as [| | | |env ty content err]; try apply IH.
  destruct (client_handle env x _) as [[x' d] e] eqn:E.
  specialize (IH x'). destruct (handle_all client_handle sessID x' ins) as [x'' vs]. constructor; [|done].
  unfold client_handle in E. injection E as <- <- <-. split; [|done]. unfold keeps. cbn [fst].
  pose proof (HandleFrame_not_fatal (he_state env) x.1 (he_now env) (he_rpcID env) (mkFrame sessID ty content)) as Hn.
  destruct (hd_disposition _); [by left|by right|done].
Qed.

(** C29: nothing the cloud puts in a frame ends the session: reading any frames
    within the size limit, with pings and pongs between them, the loop runs on
    with no error counted and has handed every frame, in order, to the frame
    handler. *)
Theorem reader_survives_cloud c generation now m ins :
  limit_ok c -> forallb (harmless c) ins = true ->
  exists deadline,
    startReaderLoop client_handle c generation now (m, []) ins =
    (mkReader (handle_all client_handle (session_id generation) (m, []) ins).1 0 deadline
       (frames_of (session_id generation) ins), None).
Proof.
  intros Hl Hins. unfold startReaderLoop. set (r := mkReader (m, []) 0 _ []).
  pose proof (reader_loop_judge client_handle c (session_id generation) r ins Hl Hins) as Hloop.
  pose proof (client_handle_all (session_id generation) (m, []) ins) as Hvs.
  cbn [rd_handler rd_errors rd_frames r app] in Hloop.
  destruct (handle_all client_handle (session_id generation) (m, []) ins) as [x vs]. cbn [snd] in Hvs.
  assert (judge_all c 0 vs = Ok 0) as Hj.
  { clear Hloop. induction Hvs as [|[d e] vs [Hk He] Hvs IH]; [done|]. cbn in He. subst e.
    cbn [judge_all fst snd]. unfold judge. by destruct Hk as [Hk|Hk]; cbn in Hk; subst d. }
  rewrite Hj in Hloop. exact Hloop.
Qed.

End Client.
