(* ===== verification/WsWriter.v ===== *)
(** * The WebSocket client: writing

    [startWriterLoop] of pkg/websocket/client.go: a goroutine (the feeder)
    takes messages from the scheduler and offers them to the loop (the
    writer), which writes them to the socket and acknowledges each; a message
    the session could not send goes into the one slot [pendingMsg] of the
    client, from which the next session takes it first.

    Feeder and writer are two program counters that meet on the channels
    [msgCh] and [ackCh]; an execution is any interleaving of the moves of all
    sessions, producers pushing to the scheduler in between.  A session begins
    when the writers before it have ended ([g.Wait]); the feeders before it,
    plain goroutines, need not have. *)

From S2P Require Import Prelude GoTime Scheduler Config Capabilities WsClient.

(** ** The state of a session *)

Inductive feeder :=
| FdStart
| FdOffer (m : OutboundMessage) (retained : bool)
| FdOfferError (e : error)
| FdAwaitAck
| FdNext
| FdExit.

Inductive writer :=
| WrSelect
| WrWrite (m : OutboundMessage)
| WrAck
| WrExit (e : error).

Record session := mkSession {
  ss_id : string;
  ss_done : bool;
  ss_feeder : feeder;
  ss_writer : writer
}.

Definition set_feeder (f : feeder) (s : session) : session :=
  mkSession (ss_id s) (ss_done s) f (ss_writer s).
Definition set_writer (w : writer) (s : session) : session :=
  mkSession (ss_id s) (ss_done s) (ss_feeder s) w.
(** The loop returns an error: the group's context is cancelled. *)
Definition end_writer (e : error) (s : session) : session :=
  mkSession (ss_id s) true (ss_feeder s) (WrExit e).

(** Why a message left the client without being written. *)
Inductive discard :=
| Stale (sess : string)        (* priority 0, met by a session it does not belong to *)
| SessionOver (sess : string)  (* priority 0, held by a session that ended *)
| SlotTaken.                   (* the slot was in use *)

Record shared (S : Type) := mkShared {
  sh_scheduler : S;
  sh_pendingMsg : option OutboundMessage;
  (** What was written, by which session, and whether compressed. *)
  sh_wire : list (string * bool * OutboundMessage);
  sh_discarded : list (discard * OutboundMessage);
  (** The messages the feeders got from the scheduler, in order. *)
  sh_dequeued : list OutboundMessage
}.
Arguments mkShared {S} _ _ _ _ _.
Arguments sh_scheduler {S} _.
Arguments sh_pendingMsg {S} _.
Arguments sh_wire {S} _.
Arguments sh_discarded {S} _.
Arguments sh_dequeued {S} _.

Section Moves.
Context {S : Type} `{OutboundScheduler S} (c : CloudConfig).

Definition set_slot (slot : option OutboundMessage) (g : shared S) : shared S :=
  mkShared (sh_scheduler g) slot (sh_wire g) (sh_discarded g) (sh_dequeued g).
Definition drop_message (why : discard) (m : OutboundMessage) (g : shared S) : shared S :=
  mkShared (sh_scheduler g) (sh_pendingMsg g) (sh_wire g) (sh_discarded g ++ [(why, m)]) (sh_dequeued g).
Definition written (sess : string) (m : OutboundMessage) (g : shared S) : shared S :=
  mkShared (sh_scheduler g) (sh_pendingMsg g) (sh_wire g ++ [(sess, compressed c (Payload m), m)])
    (sh_discarded g) (sh_dequeued g).
Definition dequeued (s : S) (m : OutboundMessage) (g : shared S) : shared S :=
  mkShared s (sh_pendingMsg g) (sh_wire g) (sh_discarded g) (sh_dequeued g ++ [m]).
Definition set_scheduler (s : S) (g : shared S) : shared S :=
  mkShared s (sh_pendingMsg g) (sh_wire g) (sh_discarded g) (sh_dequeued g).

(** [if c.pendingMsg == nil { c.pendingMsg = &msg }] *)
Definition put_back (m : OutboundMessage) (g : shared S) : shared S :=
  match sh_pendingMsg g with
  | None => set_slot (Some m) g
  | Some _ => drop_message SlotTaken m g
  end.

(** A message the session can no longer send: kept unless of priority 0. *)
Definition retain (sess : string) (m : OutboundMessage) (g : shared S) : shared S :=
  if Priority m =? PriorityHighest then drop_message (SessionOver sess) m g else put_back m g.

(** The feeder's first step: drain the slot. *)
Definition feeder_start (g : shared S) : shared S * feeder :=
  match sh_pendingMsg g with
  | Some m => (set_slot None g, FdOffer m true)
  | None => (g, FdNext)
  end.

(** The context is done before the writer took the message. *)
Definition feeder_give_up (sess : string) (m : OutboundMessage) (retained : bool) (g : shared S) : shared S :=
  if retained then put_back m g else retain sess m g.

(** One pass of [c.scheduler.Next(ctx)]. *)
Definition feeder_next (done : bool) (g : shared S) : shared S * feeder :=
  match os_Next (sh_scheduler g) (if done then Some context_Canceled else None) with
  | NextMessage m s => (dequeued s m g, FdOffer m false)
  | NextCancelled e => (g, FdOfferError e)
  | NextWait s => (set_scheduler s g, FdNext)
  end.

(** The writer got a message: is it a stale response? *)
Definition stale (sess : string) (m : OutboundMessage) : bool :=
  (Priority m =? PriorityHighest) && negb (String.eqb (SessionID m) sess).

Definition writer_receive (sess : string) (m : OutboundMessage) (g : shared S) : shared S * writer :=
  if stale sess m then (drop_message (Stale sess) m g, WrAck) else (g, WrWrite m).

Definition write_failed (e : error) : error := ENew ("failed to write outbound message: " +:+ error_msg e).
Definition ping_failed (e : error) : error := ENew ("failed to write ping: " +:+ error_msg e).

(** ** Moves

    [MvHandOver] and [MvAck] are the two meetings on the channels. *)
Inductive move :=
| MvCancel
| MvStart
| MvNext
| MvHandOver
| MvGiveUp
| MvAck
| MvFeederStop
| MvWritten (err : option error)
| MvPing (err : option error)
| MvWriterStop.

Definition session_move (mv : move) (g : shared S) (s : session) : option (shared S * session) :=
  let done := ss_done s in
  match mv, ss_feeder s, ss_writer s with
  | MvCancel, _, _ => Some (g, mkSession (ss_id s) true (ss_feeder s) (ss_writer s))
  | MvStart, FdStart, _ => let '(g, f) := feeder_start g in Some (g, set_feeder f s)
  | MvNext, FdNext, _ => let '(g, f) := feeder_next done g in Some (g, set_feeder f s)
  | MvHandOver, FdOffer m _, WrSelect =>
      let '(g, w) := writer_receive (ss_id s) m g in
      Some (g, set_writer w (set_feeder FdAwaitAck s))
  | MvHandOver, FdOfferError e, WrSelect => Some (g, end_writer e (set_feeder FdExit s))
  | MvGiveUp, FdOffer m retained, _ =>
      if done then Some (feeder_give_up (ss_id s) m retained g, set_feeder FdExit s) else None
  | MvAck, FdAwaitAck, WrAck => Some (g, set_writer WrSelect (set_feeder FdNext s))
  | MvFeederStop, (FdAwaitAck | FdOfferError _), _ =>
      if done then Some (g, set_feeder FdExit s) else None
  | MvWritten None, _, WrWrite m => Some (written (ss_id s) m g, set_writer WrAck s)
  | MvWritten (Some e), _, WrWrite m => Some (retain (ss_id s) m g, end_writer (write_failed e) s)
  | MvPing None, _, WrSelect => Some (g, s)
  | MvPing (Some e), _, WrSelect => Some (g, end_writer (ping_failed e) s)
  | MvWriterStop, _, (WrSelect | WrAck) => if done then Some (g, end_writer context_Canceled s) else None
  | _, _, _ => None
  end.

(** ** Executions *)

Record world := mkWorld {
  w_shared : shared S;
  w_sessions : list session;
  w_generation : Z;
  (** The messages the scheduler took from its producers. *)
  w_accepted : list OutboundMessage
}.

Definition new_session (id : string) : session := mkSession id false FdStart WrSelect.

Definition writer_left (s : session) : Prop := exists e, ss_writer s = WrExit e.
Definition feeder_left (s : session) : Prop := ss_feeder s = FdExit.

(** [orderly]: the feeders of the sessions before have left, too, when a
    session begins.  A generation is also used up by a failed handshake. *)
Inductive wstep (orderly : bool) : world -> world -> Prop :=
| step_push w m s :
    os_Push (sh_scheduler (w_shared w)) m = (s, None) ->
    wstep orderly w (mkWorld (set_scheduler s (w_shared w)) (w_sessions w) (w_generation w)
                       (w_accepted w ++ [m]))
| step_generation w :
    wstep orderly w (mkWorld (w_shared w) (w_sessions w) (wrap_uint64 (w_generation w + 1)) (w_accepted w))
| step_open w :
    Forall writer_left (w_sessions w) ->
    (orderly = true -> Forall feeder_left (w_sessions w)) ->
    wstep orderly w
      (mkWorld (w_shared w) (w_sessions w ++ [new_session (session_id (w_generation w))])
         (w_generation w) (w_accepted w))
| step_move w mv i s g s' :
    w_sessions w !! i = Some s ->
    session_move mv (w_shared w) s = Some (g, s') ->
    wstep orderly w (mkWorld g (<[i := s']> (w_sessions w)) (w_generation w) (w_accepted w)).

Definition initial (s : S) : world := mkWorld (mkShared s None [] [] []) [] 0 [].

Definition reachable (orderly : bool) (s : S) (w : world) : Prop := rtc (wstep orderly) (initial s) w.

End Moves.
Arguments shared S : clear implicits.
Arguments world S : clear implicits.

(** ** Where the messages are *)

Definition feeder_hand (f : feeder) : list OutboundMessage :=
  match f with FdOffer m _ => [m] | _ => [] end.
Definition writer_hand (w : writer) : list OutboundMessage :=
  match w with WrWrite m => [m] | _ => [] end.
Definition in_hand (s : session) : list OutboundMessage :=
  feeder_hand (ss_feeder s) ++ writer_hand (ss_writer s).

Definition slot_msgs {S} (g : shared S) : list OutboundMessage :=
  match sh_pendingMsg g with Some m => [m] | None => [] end.

Definition wire_msgs {S} (g : shared S) : list OutboundMessage := (fun x => x.2) <$> sh_wire g.
Definition lost_msgs {S} (g : shared S) : list OutboundMessage := snd <$> sh_discarded g.

(** Held by the client outside the scheduler. *)
Definition held {S} (w : world S) : list OutboundMessage :=
  slot_msgs (w_shared w) ++ concat (in_hand <$> w_sessions w).

Section Conservation.
Context {S : Type} `{OutboundScheduler S} (Inv : S -> Prop) `{!OutboundSchedulerLaws S Inv} (c : CloudConfig).

Definition account (g : shared S) : list OutboundMessage :=
  os_contents (sh_scheduler g) ++ slot_msgs g ++ wire_msgs g ++ lost_msgs g.

Ltac settle := cbn; rewrite ?fmap_app; cbn; permute.

Lemma put_back_account m g : account (put_back m g) ≡ₚ m :: account g.
Proof.
  unfold account, put_back, slot_msgs, wire_msgs, lost_msgs.
  destruct g as [s [p|] w d q]; settle.
Qed.

Lemma retain_account id m g : account (retain id m g) ≡ₚ m :: account g.
Proof.
  unfold retain. destruct (_ =? _); [|apply put_back_account].
  unfold account, slot_msgs, wire_msgs, lost_msgs. settle.
Qed.

Lemma give_up_account id m r g : account (feeder_give_up id m r g) ≡ₚ m :: account g.
Proof. destruct r; [apply put_back_account|apply retain_account]. Qed.

Lemma written_account id m g : account (written c id m g) ≡ₚ m :: account g.
Proof. destruct g. unfold account, slot_msgs, wire_msgs, lost_msgs, written. settle. Qed.

Lemma feeder_start_account g g' f :
  feeder_start g = (g', f) -> account g ≡ₚ account g' ++ feeder_hand f.
Proof.
  destruct g as [s [p|] w d q]; intros [= <- <-];
    unfold account, slot_msgs, wire_msgs, lost_msgs; settle.
Qed.

Lemma feeder_next_account done g g' f :
  Inv (sh_scheduler g) -> feeder_next done g = (g', f) ->
  Inv (sh_scheduler g') /\ account g ≡ₚ account g' ++ feeder_hand f.
Proof using All.
  intros Hinv. unfold feeder_next.
  destruct done; [rewrite os_Next_cancelled; intros [= <- <-]; by rewrite app_nil_r|].
  destruct (os_Next (sh_scheduler g) None) as [m s|e|s] eqn:Hn.
  - apply os_Next_message in Hn as [Hs Hc]; [|done]. intros [= <- <-]. split; [done|].
    unfold account, slot_msgs, wire_msgs, lost_msgs. settle.
  - by apply os_Next_alive in Hn.
  - apply os_Next_wait in Hn as (Hs & H1 & H2); [|done]. intros [= <- <-]. split; [done|].
    unfold account. cbn. rewrite H1, H2. by rewrite app_nil_r.
Qed.

Lemma writer_receive_account id m g g' w :
  writer_receive id m g = (g', w) -> m :: account g ≡ₚ account g' ++ writer_hand w.
Proof.
  unfold writer_receive. destruct (stale id m); intros [= <- <-];
    unfold account, slot_msgs, wire_msgs, lost_msgs; destruct g; settle.
Qed.

Lemma put_back_scheduler m (g : shared S) : sh_scheduler (put_back m g) = sh_scheduler g.
Proof. unfold put_back. by destruct (sh_pendingMsg g). Qed.

Lemma retain_scheduler id m (g : shared S) : sh_scheduler (retain id m g) = sh_scheduler g.
Proof. unfold retain. destruct (_ =? _); [done|apply put_back_scheduler]. Qed.

(** The moves, by what they do. *)
Inductive moved (g : shared S) (s : session) : shared S -> session -> Prop :=
| mv_cancel : moved g s g (mkSession (ss_id s) true (ss_feeder s) (ss_writer s))
| mv_start g' f :
    ss_feeder s = FdStart -> feeder_start g = (g', f) -> moved g s g' (set_feeder f s)
| mv_next g' f :
    ss_feeder s = FdNext -> feeder_next (ss_done s) g = (g', f) -> moved g s g' (set_feeder f s)
| mv_hand_over m r g' w :
    ss_feeder s = FdOffer m r -> ss_writer s = WrSelect -> writer_receive (ss_id s) m g = (g', w) ->
    moved g s g' (set_writer w (set_feeder FdAwaitAck s))
| mv_error_over e :
    ss_feeder s = FdOfferError e -> ss_writer s = WrSelect -> moved g s g (end_writer e (set_feeder FdExit s))
| mv_give_up m r :
    ss_feeder s = FdOffer m r -> ss_done s = true ->
    moved g s (feeder_give_up (ss_id s) m r g) (set_feeder FdExit s)
| mv_ack :
    ss_feeder s = FdAwaitAck -> ss_writer s = WrAck ->
    moved g s g (set_writer WrSelect (set_feeder FdNext s))
| mv_feeder_stop :
    feeder_hand (ss_feeder s) = [] -> ss_feeder s <> FdStart -> ss_feeder s <> FdNext -> ss_done s = true ->
    moved g s g (set_feeder FdExit s)
| mv_written m :
    ss_writer s = WrWrite m -> moved g s (written c (ss_id s) m g) (set_writer WrAck s)
| mv_write_failed m e :
    ss_writer s = WrWrite m -> moved g s (retain (ss_id s) m g) (end_writer e s)
| mv_ping : moved g s g s
| mv_writer_stop e :
    ss_writer s = WrSelect \/ ss_writer s = WrAck -> moved g s g (end_writer e s).

Lemma session_move_moved mv g s g' s' : session_move c mv g s = Some (g', s') -> moved g s g' s'.
Proof.
  destruct mv as [| | | | | | |[e|]|[e|]|]; cbn.
  - intros [= <- <-]. constructor.
  - destruct (ss_feeder s) eqn:Hf; try done. destruct (feeder_start g) as [g1 f] eqn:E. intros [= <- <-].
    by apply mv_start.
  - destruct (ss_feeder s) eqn:Hf; try done. destruct (feeder_next _ g) as [g1 f] eqn:E. intros [= <- <-].
    by apply mv_next.
  - destruct (ss_feeder s) eqn:Hf; try done; destruct (ss_writer s) eqn:Hw; try done.
    + destruct (writer_receive _ m g) as [g1 w] eqn:E. intros [= <- <-]. by eapply mv_hand_over.
    + intros [= <- <-]. by apply mv_error_over.
  - destruct (ss_feeder s) eqn:Hf; try done. destruct (ss_done s) eqn:Hd; [|done]. intros [= <- <-].
    by apply mv_give_up.
  - destruct (ss_feeder s) eqn:Hf; try done; destruct (ss_writer s) eqn:Hw; try done. intros [= <- <-].
    by apply mv_ack.
  - destruct (ss_feeder s) eqn:Hf; try done; destruct (ss_done s) eqn:Hd; try done; intros [= <- <-];
      by apply mv_feeder_stop; rewrite ?Hf.
  - destruct (ss_feeder s), (ss_writer s) eqn:Hw; try done; intros [= <- <-]; by apply mv_write_failed.
  - destruct (ss_feeder s), (ss_writer s) eqn:Hw; try done; intros [= <- <-]; by apply mv_written.
  - destruct (ss_feeder s), (ss_writer s) eqn:Hw; try done; intros [= <- <-]; apply mv_writer_stop; auto.
  - destruct (ss_feeder s), (ss_writer s) eqn:Hw; try done; intros [= <- <-]; constructor.
  - destruct (ss_feeder s), (ss_writer s) eqn:Hw; try done; destruct (ss_done s); try done;
      intros [= <- <-]; apply mv_writer_stop; auto.
Qed.

(** A move neither creates nor loses a message. *)
Lemma moved_account g s g' s' :
  Inv (sh_scheduler g) -> moved g s g' s' ->
  Inv (sh_scheduler g') /\ account g ++ in_hand s ≡ₚ account g' ++ in_hand s'.
Proof using All.
  intros Hinv Hm. destruct s as [id done f w]. unfold in_hand.
  destruct Hm as [|g' f' Hf Hs|g' f' Hf Hn|m r g' w' Hf Hw Hr|e Hf Hw|m r Hf Hd|Hf Hw|Hh _ _ _|m Hw|m e Hw| |e Hw];
    cbn in *; subst; cbn; try done.
  - apply feeder_start_account in Hs as Ha. split; [|permute].
    destruct g as [? [|] ? ? ?]; by injection Hs as <- <-.
  - apply feeder_next_account in Hn as [Hi Ha]; [|done]. split; [done|permute].
  - split; [|apply writer_receive_account in Hr; permute].
    unfold writer_receive in *. destruct (stale id m); by injection Hr as <- <-.
  - pose proof (give_up_account id m r g). split; [|permute].
    destruct r; cbn; by rewrite ?put_back_scheduler, ?retain_scheduler.
  - by rewrite Hh.
  - pose proof (written_account id m g). split; [done|permute].
  - pose proof (retain_account id m g). split; [by rewrite retain_scheduler|permute].
  - by destruct Hw as [->| ->].
Qed.

(** ** Priority 0 belongs to its session *)

(** Why the session [s] may have discarded a message: it is a response for
    another session, or one that [s] held when it ended.  A message above
    priority 0 is only discarded when the slot is in use. *)
Definition discard_by (s : session) (d : discard * OutboundMessage) : Prop :=
  match d with
  | (Stale sess, m) => sess = ss_id s /\ Priority m = PriorityHighest /\ SessionID m <> ss_id s
  | (SessionOver sess, m) => sess = ss_id s /\ Priority m = PriorityHighest /\ ss_done s = true
  | (SlotTaken, m) => Priority m <> PriorityHighest
  end.
Definition discard_ok (l : list session) (d : discard * OutboundMessage) : Prop :=
  exists s, s ∈ l /\ discard_by s d.

(** A written message of priority 0 was written by its own session. *)
Definition wire_ok (x : string * bool * OutboundMessage) : Prop :=
  (Priority x.2 = PriorityHighest -> SessionID x.2 = x.1.1) /\ x.1.2 = compressed c (Payload x.2).

Definition above_zero (m : OutboundMessage) : Prop := Priority m <> PriorityHighest.

Definition disciplined (g : shared S) : Prop :=
  Forall wire_ok (sh_wire g) /\ Forall above_zero (slot_msgs g).
Definition writes_own (s : session) : Prop :=
  (forall m, ss_writer s = WrWrite m -> stale (ss_id s) m = false) /\
  (forall m, ss_feeder s = FdOffer m true -> above_zero m).

(** What a move of [s] adds to the discarded messages. *)
Definition discards (s : session) (g g' : shared S) : Prop :=
  exists ds, sh_discarded g' = sh_discarded g ++ ds /\ Forall (discard_by s) ds.

Lemma discards_none s g g' : sh_discarded g' = sh_discarded g -> discards s g g'.
Proof. intros E. exists []. by rewrite app_nil_r. Qed.

Lemma drop_discards s why m g : discard_by s (why, m) -> discards s g (drop_message why m g).
Proof. intros Hd. exists [(why, m)]. split; [done|by apply Forall_singleton]. Qed.

Lemma put_back_disciplined s m g :
  above_zero m -> disciplined g -> disciplined (put_back m g) /\ discards s g (put_back m g).
Proof.
  intros Hm [Hw Hs]. unfold put_back. destruct (sh_pendingMsg g) as [p|] eqn:Hp.
  - split; [|by apply drop_discards]. split; [done|exact Hs].
  - split; [|by apply discards_none]. split; [done|]. by apply Forall_singleton.
Qed.

Lemma retain_disciplined s m g :
  ss_done s = true -> disciplined g ->
  disciplined (retain (ss_id s) m g) /\ discards s g (retain (ss_id s) m g).
Proof.
  intros Hd Hg. unfold retain. destruct (Z.eqb_spec (Priority m) PriorityHighest); [|by apply put_back_disciplined].
  split; [exact Hg|by apply drop_discards].
Qed.

Lemma stale_other id m : stale id m = true -> SessionID m <> id.
Proof. unfold stale. intros [_ Hn%negb_true_iff]%andb_true_iff. by apply String.eqb_neq in Hn. Qed.

Lemma stale_true id m : stale id m = true -> Priority m = PriorityHighest.
Proof. unfold stale. intros [?%Z.eqb_eq _]%andb_true_iff. done. Qed.

Lemma stale_false id m : stale id m = false -> Priority m = PriorityHighest -> SessionID m = id.
Proof.
  unfold stale. intros [Hp|Hs]%andb_false_iff Hm; [apply Z.eqb_neq in Hp; done|].
  by apply negb_false_iff, String.eqb_eq in Hs.
Qed.

Lemma moved_disciplined g s g' s' :
  disciplined g -> writes_own s -> moved g s g' s' ->
  disciplined g' /\ discards s' g g' /\ writes_own s' /\
  ss_id s' = ss_id s /\ (ss_done s = true -> ss_done s' = true).
Proof.
  intros Hg [Hwr Hfd] Hm. unfold writes_own in *.
  destruct Hm as [|g' f' Hf Hst|g' f' Hf Hn|m r g' w' Hf Hw Hr|e Hf Hw|m r Hf Hd|Hf Hw|Hh _ _ _|m Hw|m e Hw| |e Hw];
    cbn in *; try (by split_and!; try apply discards_none).
  - unfold feeder_start in Hst. destruct Hg as [Hg Hs]. unfold slot_msgs in Hs.
    destruct (sh_pendingMsg g) as [p|] eqn:Hp; injection Hst as <- <-;
      (split_and!; [split; [done|]|by apply discards_none|done| |done|done]).
    + constructor.
    + intros m [= <-]. by rewrite Forall_singleton in Hs.
    + unfold slot_msgs. by rewrite Hp.
    + done.
  - unfold feeder_next in Hn. destruct (os_Next _ _); injection Hn as <- <-; by split_and!; try apply discards_none.
  - unfold writer_receive in Hr. destruct (stale (ss_id s) m) eqn:Hst; injection Hr as <- <-;
      (split_and!; [exact Hg| | |done|done|done]).
    + apply drop_discards. cbn. split_and!; [done|by eapply stale_true|by apply stale_other].
    + done.
    + by apply discards_none.
    + by intros m' [= <-].
  - destruct r.
    + destruct (put_back_disciplined (set_feeder FdExit s) m g (Hfd m Hf) Hg). by split_and!.
    + destruct (retain_disciplined (set_feeder FdExit s) m g Hd Hg). by split_and!.
  - destruct Hg as [Hg Hs]. split_and!; [split; [|exact Hs]|by apply discards_none|done..].
    apply Forall_app_2; [done|]. apply Forall_singleton. split; [|done]. cbn. by apply stale_false, Hwr.
  - destruct (retain_disciplined (end_writer e s) m g eq_refl Hg). by split_and!.
Qed.

Lemma discard_ok_mono l l' d :
  (forall s, s ∈ l -> exists s', s' ∈ l' /\ ss_id s' = ss_id s /\ (ss_done s = true -> ss_done s' = true)) ->
  discard_ok l d -> discard_ok l' d.
Proof.
  intros Hl (s & Hs & Hd). destruct (Hl s Hs) as (s' & Hs' & Hid & Hdone). exists s'. split; [done|].
  destruct d as [[] m]; cbn in *; rewrite ?Hid; naive_solver.
Qed.

(** ** The whole client *)

Lemma held_split (l : list session) i s :
  l !! i = Some s ->
  exists rest, forall s', concat (in_hand <$> <[i := s']> l) ≡ₚ in_hand s' ++ rest
                   /\ concat (in_hand <$> l) ≡ₚ in_hand s ++ rest.
Proof.
  intros Hi. exists (concat (in_hand <$> take i l ++ drop (Datatypes.S i) l)). intros s'.
  pose proof (lookup_lt_Some _ _ _ Hi). split.
  - rewrite insert_take_drop by done. rewrite !fmap_app, fmap_cons, !concat_app. cbn. permute.
  - rewrite <- (take_drop_middle l i s Hi) at 1. rewrite !fmap_app, fmap_cons, !concat_app. cbn. permute.
Qed.

Record world_ok (w : world S) : Prop := {
  wo_scheduler : Inv (sh_scheduler (w_shared w));
  wo_account : w_accepted w ≡ₚ account (w_shared w) ++ concat (in_hand <$> w_sessions w);
  wo_disciplined : disciplined (w_shared w);
  wo_discards : Forall (discard_ok (w_sessions w)) (sh_discarded (w_shared w));
  wo_own : Forall writes_own (w_sessions w)
}.

Lemma wstep_ok orderly w w' : world_ok w -> wstep c orderly w w' -> world_ok w'.
Proof using All.
  intros [Hi Ha Hd Hdi Ho] Hs. destruct Hs as [w m s Hp|w|w Hw Hf|w mv i s g s' Hl Hm].
  - apply os_Push_ok in Hp as [Hi' Hc]; [|done]. split; [done| |done|done|done].
    cbn. unfold account, slot_msgs, wire_msgs, lost_msgs in *. cbn. permute.
  - by split.
  - split; [done| |done| |]; cbn.
    + rewrite fmap_app, concat_app. cbn. by rewrite app_nil_r.
    + eapply Forall_impl; [exact Hdi|]. intros d. apply discard_ok_mono. intros s Hs. exists s.
      split; [by apply elem_of_app; left|done].
    + apply Forall_app_2; [done|]. by apply Forall_singleton.
  - apply session_move_moved in Hm. destruct (held_split _ _ _ Hl) as [rest Hrest].
    destruct (Hrest s') as [H1 H2]. pose proof (Forall_lookup_1 _ _ _ _ Ho Hl) as Hown.
    destruct (moved_disciplined _ _ _ _ Hd Hown Hm) as (Hd' & (ds & Hds & Hby) & Ho' & Hid & Hdone).
    apply moved_account in Hm as [Hi' Hacc]; [|done]. split; [done| |done| |]; cbn.
    + permute.
    + rewrite Hds. apply Forall_app_2.
      * eapply Forall_impl; [exact Hdi|]. intros d. apply discard_ok_mono. intros s1 Hs1.
        apply list_elem_of_lookup in Hs1 as [j Hj]. destruct (decide (j = i)) as [->|Hne].
        -- rewrite Hl in Hj. injection Hj as <-. exists s'. split; [|done].
           apply list_elem_of_lookup. exists i. apply list_lookup_insert_eq. by eapply lookup_lt_Some.
        -- exists s1. split; [|done]. apply list_elem_of_lookup. exists j. by rewrite list_lookup_insert_ne.
      * eapply Forall_impl; [exact Hby|]. intros d Hdd. exists s'. split; [|done].
        apply list_elem_of_lookup. exists i. apply list_lookup_insert_eq. by eapply lookup_lt_Some.
    + by apply Forall_insert.
Qed.

Lemma reachable_ok orderly s0 w :
  Inv s0 -> os_contents s0 = [] -> reachable c orderly s0 w -> world_ok w.
Proof using All.
  intros Hi Hc Hr.
  refine (rtc_ind_r world_ok (initial s0) _ (fun w w' _ Hs IH => wstep_ok orderly w w' IH Hs) w Hr).
  split; [done| |by split; constructor|constructor|constructor]. unfold account. cbn. by rewrite Hc.
Qed.


End Conservation.
