(* ===== verification/WsOrder.v ===== *)
(** * The WebSocket client: order across sessions

    What the single slot [pendingMsg] is worth.  When the feeder of a session
    has left before the next session begins, every message above priority 0 is
    written in the order in which the scheduler released it, across any number
    of broken sessions ([writer_in_order]).  The code does not wait for the
    feeder, and without that a message can be lost ([overlap_loses]). *)

From S2P Require Import Prelude GoTime Scheduler Config Capabilities WsClient WsWriter.

(** The messages worth keeping: all but those of priority 0. *)
Definition durable (l : list OutboundMessage) : list OutboundMessage :=
  filter (fun m => Priority m <> PriorityHighest) l.

#[global] Arguments durable : simpl never.

Lemma durable_app l k : durable (l ++ k) = durable l ++ durable k.
Proof. apply filter_app. Qed.

Lemma durable_urgent m : Priority m = PriorityHighest -> durable [m] = [].
Proof. intros Hm. unfold durable. by rewrite filter_cons_False, filter_nil by auto. Qed.

Section Orderly.
Context {S : Type} `{OutboundScheduler S} (c : CloudConfig).

(** How feeder, writer and slot of the running session fit together: at most
    one message is held, and the slot is used only while no other is. *)
Definition coupled (slot : option OutboundMessage) (s : session) : Prop :=
  match ss_feeder s, ss_writer s with
  | FdStart, (WrSelect | WrExit _) => True
  | FdOffer m retained, (WrSelect | WrExit _) =>
      slot = None /\ (retained = true -> Priority m <> PriorityHighest)
  | (FdNext | FdOfferError _), (WrSelect | WrExit _) => slot = None
  | (FdAwaitAck | FdExit), (WrWrite _ | WrAck) => slot = None
  | FdAwaitAck, WrExit _ => True
  | FdExit, (WrSelect | WrExit _) => True
  | _, _ => False
  end.

Definition kept (d : discard * OutboundMessage) : Prop := d.1 <> SlotTaken.

Record ordered (g : shared S) (s : session) : Prop := {
  or_coupled : coupled (sh_pendingMsg g) s;
  or_slot m : sh_pendingMsg g = Some m -> Priority m <> PriorityHighest;
  or_kept : Forall kept (sh_discarded g);
  or_order : durable (sh_dequeued g) = durable (wire_msgs g) ++ durable (slot_msgs g ++ in_hand s)
}.

Lemma retain_none id m (g : shared S) :
  sh_pendingMsg g = None ->
  retain id m g = if Priority m =? PriorityHighest then drop_message (SessionOver id) m g else set_slot (Some m) g.
Proof. intros Hg. unfold retain, put_back. by rewrite Hg. Qed.

(** Giving a message up while the slot is free. *)
Lemma retain_ordered id m (g : shared S) s s' :
  sh_pendingMsg g = None -> in_hand s = [m] -> in_hand s' = [] -> coupled (Some m) s' -> coupled None s' ->
  ordered g s -> ordered (retain id m g) s'.
Proof.
  intros Hg Hs Hs' Hc Hc' [_ _ Hk Ho]. rewrite retain_none by done. unfold slot_msgs, wire_msgs in *.
  rewrite Hg, Hs in Ho. destruct (Z.eqb_spec (Priority m) PriorityHighest) as [Hm|Hm].
  - split; cbn; [by rewrite Hg|by rewrite Hg| |].
    + apply Forall_app_2; [done|]. by apply Forall_singleton.
    + unfold slot_msgs, wire_msgs. cbn. rewrite Hg, Hs'. cbn [app] in *. by rewrite (durable_urgent m) in Ho.
  - split; cbn; [done|by intros m' [= <-]|done|]. unfold slot_msgs, wire_msgs. cbn. by rewrite Hs'.
Qed.

Lemma put_back_retain id m (g : shared S) : Priority m <> PriorityHighest -> put_back m g = retain id m g.
Proof. intros Hm. unfold retain. by destruct (Z.eqb_spec (Priority m) PriorityHighest). Qed.

(** The slot and the hands stay as they are. *)
Lemma ordered_same g s s' :
  in_hand s' = in_hand s -> coupled (sh_pendingMsg g) s' -> ordered g s -> ordered g s'.
Proof. intros Hh Hc [_ ? ? Ho]. split; [done..|]. by rewrite Hh. Qed.

Ltac places := unfold slot_msgs, wire_msgs, in_hand in *; cbn in *.

(** One lemma per move that shifts a message. *)
Lemma feeder_start_ordered g g' f' id d w :
  ordered g (mkSession id d FdStart w) -> feeder_start g = (g', f') ->
  ordered g' (mkSession id d f' w).
Proof.
  intros [Hc Hs1 Hk Ho] Hs. unfold coupled in Hc. cbn in Hc. unfold feeder_start in Hs. places.
  destruct (sh_pendingMsg g) as [p|] eqn:Hp; injection Hs as <- <-.
  - split; cbn; [unfold coupled; cbn|done|done|].
    + specialize (Hs1 p eq_refl). by destruct w.
    + places. by rewrite Ho; destruct w.
  - split; [rewrite Hp; unfold coupled; cbn; by destruct w|by rewrite Hp|done|].
    places. by rewrite Hp.
Qed.

Lemma feeder_next_ordered g g' f' id d w :
  ordered g (mkSession id d FdNext w) -> feeder_next d g = (g', f') ->
  ordered g' (mkSession id d f' w).
Proof.
  intros [Hc Hs1 Hk Ho] Hn. unfold coupled in Hc. cbn in Hc.
  assert (sh_pendingMsg g = None /\ writer_hand w = []) as [Hp Hw] by (by destruct w).
  places. rewrite Hp, Hw, app_nil_r in Ho.
  unfold feeder_next in Hn. destruct (os_Next _ _) as [m s|e|s]; injection Hn as <- <-.
  - split; cbn; [rewrite Hp; unfold coupled; cbn; by destruct w|by rewrite Hp|done|].
    places. by rewrite Hp, Hw, durable_app, Ho.
  - split; cbn; [rewrite Hp; unfold coupled; cbn; by destruct w|by rewrite Hp|done|].
    places. by rewrite Hp, Hw, Ho, app_nil_r.
  - split; cbn; [rewrite Hp; unfold coupled; cbn; by destruct w|by rewrite Hp|done|].
    places. by rewrite Hp, Hw, Ho, app_nil_r.
Qed.

Lemma writer_receive_ordered g g' id d m r w' :
  ordered g (mkSession id d (FdOffer m r) WrSelect) -> writer_receive id m g = (g', w') ->
  ordered g' (mkSession id d FdAwaitAck w').
Proof.
  intros [[Hp _] Hs1 Hk Ho] Hr. places. rewrite Hp in Ho.
  unfold writer_receive in Hr. destruct (stale id m) eqn:Hst; injection Hr as <- <-.
  - split; cbn; [by rewrite Hp|by rewrite Hp|apply Forall_app_2; [done|]; by apply Forall_singleton|].
    places. rewrite Hp. by rewrite durable_urgent in Ho by (by eapply stale_true).
  - split; [by rewrite Hp|by rewrite Hp|done|]. places. by rewrite Hp.
Qed.

(** While the writer holds a message, the slot is free and the feeder waits. *)
Lemma writing_coupled (g : shared S) id d f m :
  coupled (sh_pendingMsg g) (mkSession id d f (WrWrite m)) ->
  sh_pendingMsg g = None /\ feeder_hand f = [] /\ (f = FdAwaitAck \/ f = FdExit).
Proof. unfold coupled. cbn. destruct f; naive_solver. Qed.

Lemma written_ordered g id d f m :
  ordered g (mkSession id d f (WrWrite m)) -> ordered (written c id m g) (mkSession id d f WrAck).
Proof.
  intros [Hc Hs1 Hk Ho]. destruct (writing_coupled _ _ _ _ _ Hc) as (Hp & Hfh & Hff).
  places. rewrite Hp, Hfh in Ho.
  split; cbn; [rewrite Hp; unfold coupled; cbn; by destruct Hff as [->| ->]|by rewrite Hp|done|].
  places. rewrite Hp, Hfh, fmap_app, Ho. cbn. by rewrite durable_app, app_nil_r.
Qed.

Lemma moved_ordered g s g' s' : ordered g s -> moved c g s g' s' -> ordered g' s'.
Proof.
  intros Ho Hm. destruct s as [id d f w]. pose proof (or_coupled _ _ Ho) as Hc.
  destruct Hm as [|g' f' Hf Hs|g' f' Hf Hn|m r g' w' Hf Hw Hr|e Hf Hw|m r Hf Hd|Hf Hw|Hh Hn1 Hn2 _|m Hw|m e Hw| |e Hw];
    cbn in *; subst; unfold coupled in Hc; cbn in Hc.
  - by apply (ordered_same _ (mkSession id d f w)).
  - by eapply feeder_start_ordered.
  - by eapply feeder_next_ordered.
  - by eapply writer_receive_ordered.
  - by apply (ordered_same _ (mkSession id d (FdOfferError e) WrSelect)).
  - assert (writer_hand w = []) as Hw by (by destruct w).
    assert (sh_pendingMsg g = None /\ (r = true -> Priority m <> PriorityHighest)) as [Hp Hr] by (by destruct w).
    assert (feeder_give_up id m r g = retain id m g) as ->.
    { destruct r; [|done]. cbn. apply put_back_retain. auto. }
    apply (retain_ordered id m g (mkSession id true (FdOffer m r) w)); try exact Ho;
      unfold in_hand, coupled; cbn; rewrite ?Hw; try done; by destruct w.
  - by apply (ordered_same _ (mkSession id d FdAwaitAck WrAck)).
  - apply (ordered_same _ (mkSession id d f w)); [unfold in_hand; cbn; by rewrite Hh| |done].
    unfold coupled. cbn. destruct f, w; try done.
  - by apply written_ordered.
  - destruct (writing_coupled g id d f m (or_coupled _ _ Ho)) as (Hp & Hfh & Hff).
    apply (retain_ordered id m g (mkSession id d f (WrWrite m))); try exact Ho;
      unfold in_hand, coupled; cbn; rewrite ?Hfh; try done; by destruct Hff as [->| ->].
  - done.
  - apply (ordered_same _ (mkSession id d f w)); [unfold in_hand; cbn; by destruct Hw as [->| ->]| |done].
    unfold coupled. cbn. destruct f, Hw as [->| ->]; try done.
Qed.

(** ** Orderly executions *)

Definition finished (s : session) : Prop := feeder_left s /\ writer_left s.

Lemma finished_empty s : finished s -> in_hand s = [].
Proof. intros [Hf [e Hw]]. unfold feeder_left in Hf. unfold in_hand. by rewrite Hf, Hw. Qed.

Lemma moved_finished g s g' s' : finished s -> moved c g s g' s' -> g' = g /\ finished s'.
Proof.
  intros [Hf [e' He]]. unfold feeder_left in Hf. unfold finished, feeder_left, writer_left.
  destruct 1 as [|g' f' Hf' Hs|g' f' Hf' Hn|m r g' w' Hf' Hw Hr|e Hf' Hw|m r Hf' Hd|Hf' Hw|Hh Hn1 Hn2 _|m Hw|m e Hw| |e [Hw|Hw]];
    try congruence; cbn; eauto.
Qed.

(** All sessions but the last are finished, and the last is [ordered]. *)
Inductive in_order (w : world S) : Prop :=
| io_none :
    w_sessions w = [] -> ordered (w_shared w) (mkSession "" true FdExit (WrExit context_Canceled)) -> in_order w
| io_last pre s :
    w_sessions w = pre ++ [s] -> Forall finished pre -> ordered (w_shared w) s -> in_order w.

Lemma finished_hands l : Forall finished l -> concat (in_hand <$> l) = [].
Proof. induction 1 as [|s l Hs _ IH]; [done|]. cbn. by rewrite finished_empty, IH. Qed.

Lemma ordered_scheduler s' g s : ordered g s -> ordered (set_scheduler s' g) s.
Proof. by intros [? ? ? ?]. Qed.

Lemma wstep_in_order w w' : in_order w -> wstep c true w w' -> in_order w'.
Proof.
  intros Ho Hs. destruct Hs as [w m s Hp|w|w Hw Hf|w mv i s g s' Hl Hm].
  - destruct Ho; [apply io_none|eapply io_last]; eauto using ordered_scheduler.
  - destruct Ho; [by apply io_none|by eapply io_last].
  - assert (Forall finished (w_sessions w)) as Hfin.
    { specialize (Hf eq_refl). rewrite Forall_forall in *. intros s Hs. split; auto. }
    eapply io_last; [done|done|]. destruct Ho as [_ Ho|pre s Hpre _ Ho].
    + by eapply ordered_same; [..|exact Ho].
    + eapply ordered_same; [..|exact Ho]; [|done]. cbn. symmetry. apply finished_empty.
      rewrite Hpre in Hfin. by apply Forall_app in Hfin as [_ [? _]%Forall_cons].
  - apply session_move_moved in Hm. destruct Ho as [Hnil _|pre s0 Hpre Hfin Ho]; [by rewrite Hnil in Hl|].
    rewrite Hpre in Hl. destruct (decide (i < length pre)%nat) as [Hi|Hi].
    + rewrite lookup_app_l in Hl by done.
      apply moved_finished in Hm as [-> Hs']; [|by eapply Forall_lookup_1].
      eapply io_last; [|apply Forall_insert; [exact Hfin|exact Hs']|exact Ho]. cbn. rewrite Hpre. by rewrite insert_app_l.
    + assert (i = length pre) as ->.
      { apply lookup_lt_Some in Hl. rewrite length_app in Hl. cbn in Hl. lia. }
      rewrite lookup_app_r, Nat.sub_diag in Hl by done. injection Hl as ->.
      eapply io_last; [|exact Hfin|by eapply moved_ordered]. cbn. rewrite Hpre.
      by rewrite insert_app_r_alt, Nat.sub_diag by done.
Qed.

(** C8: if every session begins after the feeders before it have left, then at
    any moment the messages above priority 0 that the scheduler has released
    are, in this order, the ones written, over all sessions, and at most one
    more, held by the client; none is ever dropped. *)
Theorem writer_in_order s0 w :
  reachable c true s0 w ->
  durable (sh_dequeued (w_shared w)) = durable (wire_msgs (w_shared w)) ++ durable (held w)
  /\ (length (held w) <= 1)%nat
  /\ Forall kept (sh_discarded (w_shared w)).
Proof.
  intros Hr. assert (in_order w) as Ho.
  { refine (rtc_ind_r in_order (initial s0) _ (fun w w' _ Hs IH => wstep_in_order w w' IH Hs) w Hr).
    apply io_none; [done|]. split; [done..|constructor|done]. }
  assert (exists s, ordered (w_shared w) s /\ held w = slot_msgs (w_shared w) ++ in_hand s) as (s & Hs & ->).
  { destruct Ho as [Hnil Ho|pre s Hpre Hfin Ho]; (eexists; split; [exact Ho|]); unfold held.
    - by rewrite Hnil.
    - rewrite Hpre, fmap_app, concat_app, finished_hands by done. cbn. by rewrite app_nil_r. }
  destruct Hs as [Hc _ Hk Hord]. split_and!; [done| |done].
  unfold coupled, slot_msgs, in_hand in *. destruct (ss_feeder s), (ss_writer s); try done;
    destruct (sh_pendingMsg (w_shared w)); cbn in *; try lia; naive_solver.
Qed.

End Orderly.
