(* ===== verification/WsLive.v ===== *)
(** * The WebSocket client: responses are written

    Of the messages of priority 0 the scheduler takes for a session that stays
    open, as many are written as were taken ([urgent_written]): the feeder and
    the writer never wait for each other in vain, what is left from the
    sessions before is out of the way, and the scheduler lets no response wait
    for ever. *)

From S2P Require Import Prelude GoTime Scheduler Config Capabilities WsClient WsWriter.

Section Live.
Context {S : Type} `{OutboundScheduler S} (SInv : S -> Prop).
Context `{!OutboundSchedulerLaws S SInv} (c : CloudConfig).

Implicit Types (w : world S) (g : shared S) (s : session) (m : OutboundMessage).

#[local] Arguments count : simpl never.

(** ** Sessions that are open *)

(** Where feeder and writer of an open session can be. *)
Definition in_step s : Prop :=
  match ss_feeder s, ss_writer s with
  | (FdStart | FdNext | FdOffer _ _), WrSelect => True
  | FdAwaitAck, (WrWrite _ | WrAck) => True
  | _, _ => False
  end.

Definition session_ok s : Prop := ss_done s = false -> in_step s.

(** Only the last session can still have a writer. *)
Record sessions_ok w : Prop := {
  so_scheduler : SInv (sh_scheduler (w_shared w));
  so_sessions : Forall session_ok (w_sessions w);
  so_before i s : w_sessions w !! i = Some s -> (Datatypes.S i < length (w_sessions w))%nat -> writer_left s
}.

Lemma left_done s : session_ok s -> writer_left s -> ss_done s = true.
Proof.
  intros Hs [e He]. destruct (ss_done s) eqn:Hd; [done|]. specialize (Hs Hd). unfold in_step in Hs.
  rewrite He in Hs. by destruct (ss_feeder s).
Qed.

Lemma moved_session_ok g s g' s' :
  moved c g s g' s' -> session_ok s ->
  session_ok s' /\ ss_id s' = ss_id s /\ (ss_done s = true -> ss_done s' = true) /\ (writer_left s -> writer_left s').
Proof using All.
  unfold session_ok, in_step, writer_left. destruct s as [id d f w]. intros Hm Hok.
  destruct Hm as [|g' f' Hf Hs|g' f' Hf Hn|m r g' w' Hf Hw Hr|e Hf Hw|m r Hf Hd|Hf Hw|Hh Hn1 Hn2 Hd|m Hw|m e Hw| |e Hw];
    cbn in *; subst; split_and!; try done; try (by intros [? ?]); try (intros [? ?]; by destruct Hw).
  - intros Hd. specialize (Hok Hd). unfold feeder_start in Hs. destruct (sh_pendingMsg g); injection Hs as _ <-; by destruct w.
  - intros ->. specialize (Hok eq_refl). unfold feeder_next in Hn.
    destruct (os_Next _ None) as [m s|e|s] eqn:En; [| by apply os_Next_alive in En |];
      injection Hn as _ <-; by destruct w.
  - intros Hd. unfold writer_receive in Hr. by destruct (stale id m); injection Hr as _ <-.
  - by eexists.
Qed.

Lemma wstep_sessions_ok o w w' : sessions_ok w -> wstep c o w w' -> sessions_ok w'.
Proof using All.
  intros [Hi Hs Hb] Hw. destruct Hw as [w m s Hp|w|w Hw Hf|w mv i s g s' Hl Hm].
  - split; [|done|done]. by apply os_Push_ok in Hp as [? _].
  - by split.
  - split; cbn; [done|by apply Forall_app_2; [|apply Forall_singleton]|].
    intros i s Hl. rewrite length_app. cbn. intros Hlt. rewrite lookup_app_l in Hl by lia.
    by eapply Forall_lookup_1.
  - apply session_move_moved in Hm. pose proof (Forall_lookup_1 _ _ _ _ Hs Hl) as Hok.
    destruct (moved_session_ok _ _ _ _ Hm Hok) as (Hok' & _ & _ & Hleft).
    apply (moved_account SInv) in Hm as [Hi' _]; [|done]. split; cbn; [done|by apply Forall_insert|].
    intros j t Hj. rewrite length_insert. intros Hlt. apply list_lookup_insert_Some in Hj as [(<- & <- & _)|[_ Hj]]; eauto.
Qed.

(** The session at a place stays, and does not open again. *)
Lemma wstep_session o w w' i s :
  sessions_ok w -> wstep c o w w' -> w_sessions w !! i = Some s ->
  exists s', w_sessions w' !! i = Some s' /\ ss_id s' = ss_id s /\ (ss_done s = true -> ss_done s' = true).
Proof using All.
  intros [_ Hok _] Hw Hi. destruct Hw as [w m q Hp|w|w Hw Hf|w mv j t g t' Hl Hm]; cbn.
  - by exists s.
  - by exists s.
  - exists s. split; [by apply lookup_app_l_Some|done].
  - destruct (decide (j = i)) as [->|Hne]; [|exists s; by rewrite list_lookup_insert_ne].
    rewrite Hi in Hl. injection Hl as <-. apply session_move_moved in Hm.
    destruct (moved_session_ok _ _ _ _ Hm (Forall_lookup_1 _ _ _ _ Hok Hi)) as (_ & ? & ? & _).
    exists t'. split; [|done]. apply list_lookup_insert_eq. by eapply lookup_lt_Some.
Qed.

(** Over several steps. *)
Lemma steps_ok o w w' : rtc (wstep c o) w w' -> sessions_ok w -> sessions_ok w'.
Proof using All. induction 1 as [|w w1 w2 Hw _ IH]; [done|]. intros. by eapply IH, wstep_sessions_ok. Qed.

Lemma steps_session o w w' i s :
  rtc (wstep c o) w w' -> sessions_ok w -> w_sessions w !! i = Some s ->
  exists s', w_sessions w' !! i = Some s' /\ ss_id s' = ss_id s /\ (ss_done s = true -> ss_done s' = true).
Proof using All.
  intros Hr. revert s. induction Hr as [w|w w1 w2 Hw _ IH]; intros s Hok Hs; [by exists s|].
  destruct (wstep_session _ _ _ _ _ Hok Hw Hs) as (s1 & Hs1 & Hid & Hd).
  destruct (IH s1 (wstep_sessions_ok _ _ _ Hok Hw) Hs1) as (s2 & Hs2 & Hid2 & Hd2).
  exists s2. split_and!; [done|congruence|auto].
Qed.

(** The feeder sleeps in [Next]: nothing is queued. *)
Definition asleep w s : Prop := ss_feeder s = FdNext /\ os_contents (sh_scheduler (w_shared w)) = [].

(** Unless it does, an open session can move. *)
Lemma session_runs w i s :
  sessions_ok w -> w_sessions w !! i = Some s -> ss_done s = false ->
  asleep w s \/
  exists mv g s', session_move c mv (w_shared w) s = Some (g, s') /\ ss_done s' = false /\ s' <> s.
Proof using All.
  intros [Hi Hok _] Hs Hd. pose proof (Forall_lookup_1 _ _ _ _ Hok Hs Hd) as Hin. unfold in_step in Hin.
  unfold asleep. destruct s as [id d f wr]. cbn in *. subst d.
  assert (forall mv g f' wr', session_move c mv (w_shared w) (mkSession id false f wr) = Some (g, mkSession id false f' wr') ->
    f' <> f \/ wr' <> wr -> exists mv g s', session_move c mv (w_shared w) (mkSession id false f wr) = Some (g, s') /\
      ss_done s' = false /\ s' <> mkSession id false f wr) as Hmove.
  { intros mv g f' wr' Hm Hne. eexists mv, g, _. split; [exact Hm|]. split; [done|]. by intros [= -> ->]; destruct Hne. }
  destruct f; try done; destruct wr; try done.
  - right. destruct (feeder_start (w_shared w)) as [g f] eqn:Hf. apply (Hmove MvStart g f WrSelect); cbn; [by rewrite Hf|].
    left. unfold feeder_start in Hf. by destruct (sh_pendingMsg _); injection Hf as _ <-.
  - right. destruct (writer_receive id m (w_shared w)) as [g wr] eqn:Hw.
    apply (Hmove MvHandOver g FdAwaitAck wr); cbn; [by rewrite Hw|by left].
  - right. apply (Hmove (MvWritten None) (written c id m (w_shared w)) FdAwaitAck WrAck); [done|by right].
  - right. apply (Hmove MvAck (w_shared w) FdNext WrSelect); [done|by left].
  - destruct (os_Next (sh_scheduler (w_shared w)) None) as [x q|e|q] eqn:En; [|by apply os_Next_alive in En|].
    + right. apply (Hmove MvNext (dequeued q x (w_shared w)) (FdOffer x false) WrSelect); [|by left].
      cbn. unfold feeder_next. by rewrite En.
    + left. by apply os_Next_wait in En as (_ & ? & _).
Qed.

(** ** A message on its way *)

Context `{!OutboundSchedulerPrompt S SInv}.

(** The copies of a message that are queued, in the hands of the session, or
    written. *)
Definition copies w s m : nat :=
  count m (os_contents (sh_scheduler (w_shared w))) + count m (in_hand s) + count m (wire_msgs (w_shared w)).

(** How far feeder and writer are from the next call of [Next]. *)
Definition session_phase s : nat :=
  match ss_feeder s, ss_writer s with
  | FdStart, _ => 4
  | FdOffer _ _, _ => 3
  | FdAwaitAck, WrWrite _ => 2
  | FdAwaitAck, _ => 1
  | _, _ => 0
  end.

(** The nearest copy of a message is [k] moves from the wire, at most. *)
Inductive near m w s : nat -> Prop :=
| near_written : ss_writer s = WrWrite m -> near m w s 0
| near_offered r : ss_feeder s = FdOffer m r -> near m w s 1
| near_queued :
    m ∈ os_contents (sh_scheduler (w_shared w)) ->
    near m w s (2 + 5 * os_wait (sh_scheduler (w_shared w)) m + session_phase s).

Lemma count_elem m l : (0 < count m l)%nat <-> m ∈ l.
Proof. unfold count. rewrite list_elem_of_In, (count_occ_In (fun a b => decide (a = b))). done. Qed.

Lemma copies_near w s m : (count m (wire_msgs (w_shared w)) < copies w s m)%nat -> exists k, near m w s k.
Proof.
  unfold copies. intros Hlt. assert (0 < count m (os_contents (sh_scheduler (w_shared w))) \/ 0 < count m (in_hand s))%nat
    as [Hq%count_elem|Hh%count_elem] by lia; [by eexists; apply near_queued|].
  unfold in_hand in Hh. apply elem_of_app in Hh as [Hh|Hh].
  - destruct (ss_feeder s) eqn:Hf; try by apply elem_of_nil in Hh.
    apply list_elem_of_singleton in Hh as ->. eexists. by eapply near_offered.
  - destruct (ss_writer s) eqn:Hf; try by apply elem_of_nil in Hh.
    apply list_elem_of_singleton in Hh as ->. eexists. by eapply near_written.
Qed.

(** The message belongs to the session. *)
Definition urgent_for s m : Prop := Priority m = PriorityHighest /\ SessionID m = ss_id s.

Lemma urgent_fresh s m : urgent_for s m -> stale (ss_id s) m = false.
Proof. intros [Hp Hs]. unfold stale. by rewrite Hp, Hs, String.eqb_refl. Qed.

(** From [(w, s)] to [(w', s')]: nothing written is lost, as many copies are
    added as the scheduler took, and the nearest one is not farther off - nearer
    if the session has moved, or one has been written. *)
Record onward m w s w' s' : Prop := {
  ow_wire : (count m (wire_msgs (w_shared w)) <= count m (wire_msgs (w_shared w')))%nat;
  ow_copies : (count m (w_accepted w') + copies w s m <= count m (w_accepted w) + copies w' s' m)%nat;
  ow_taken : (count m (w_accepted w) <= count m (w_accepted w'))%nat;
  ow_near k : near m w s k ->
    (count m (wire_msgs (w_shared w)) < count m (wire_msgs (w_shared w')))%nat \/
    exists k', near m w' s' k' /\ ((k' < k)%nat \/ (k' <= k)%nat /\ s' = s)
}.

Lemma onward_trans m w1 s1 w2 s2 w3 s3 :
  onward m w1 s1 w2 s2 -> onward m w2 s2 w3 s3 -> onward m w1 s1 w3 s3.
Proof.
  intros [W1 C1 T1 N1] [W2 C2 T2 N2]. split; [lia..|]. intros k Hk.
  destruct (N1 k Hk) as [?|(k2 & Hk2 & L2)]; [left; lia|].
  destruct (N2 k2 Hk2) as [?|(k3 & Hk3 & L3)]; [left; lia|]. right. exists k3. split; [done|].
  destruct L2 as [?|[? ->]], L3 as [?|[? ->]]; [left; lia..|right; split; [lia|done]].
Qed.

Lemma near_same m w w' s k :
  sh_scheduler (w_shared w') = sh_scheduler (w_shared w) -> near m w s k -> near m w' s k.
Proof using Type.
  intros Es Hk. inversion Hk as [|r Hf|Hq]; subst; [by apply near_written|by eapply near_offered|].
  rewrite <- Es in Hq |- *. by apply near_queued.
Qed.

(** Nothing happens to the message and its session. *)
Lemma onward_idle m w w' s :
  sh_scheduler (w_shared w') = sh_scheduler (w_shared w) -> wire_msgs (w_shared w') = wire_msgs (w_shared w) ->
  w_accepted w' = w_accepted w -> onward m w s w' s.
Proof using Type.
  intros Es Ew Ea. split; unfold copies; rewrite ?Es, ?Ew, ?Ea; try lia.
  intros k Hk. right. exists k. split; [|by right]. by eapply near_same.
Qed.

(** The session gets on while a copy is queued. *)
Lemma queued_nearer m w s w' s' :
  sh_scheduler (w_shared w') = sh_scheduler (w_shared w) -> m ∈ os_contents (sh_scheduler (w_shared w)) ->
  (session_phase s' < session_phase s)%nat ->
  exists k', near m w' s' k' /\ (k' < 2 + 5 * os_wait (sh_scheduler (w_shared w)) m + session_phase s)%nat.
Proof using Type.
  intros Es Hq Hp. eexists. split; [apply near_queued; by rewrite Es|]. rewrite Es. lia.
Qed.

(** A move that leaves scheduler and wire alone: the session gets on, and what
    was in its hands stays there or is written next. *)
Lemma onward_move m l gen acc g s l' gen' g' s' :
  sh_scheduler g' = sh_scheduler g -> wire_msgs g' = wire_msgs g ->
  (count m (in_hand s) <= count m (in_hand s'))%nat -> (session_phase s' < session_phase s)%nat ->
  (m ∉ in_hand s \/ exists r, ss_feeder s = FdOffer m r /\ ss_writer s = WrSelect /\ ss_writer s' = WrWrite m) ->
  onward m (mkWorld g l gen acc) s (mkWorld g' l' gen' acc) s'.
Proof using Type.
  intros Es Ew Hh Hp Hm. split; unfold copies; cbn -[session_phase Nat.mul]; rewrite ?Es, ?Ew; try lia.
  intros k Hk. right. inversion Hk as [Hw|r Hf|Hq]; subst.
  - exfalso. destruct Hm as [Hm|(r & _ & Hw' & _)]; [|congruence].
    apply Hm. unfold in_hand. rewrite Hw. apply elem_of_app. right. by left.
  - destruct Hm as [Hm|(r' & _ & _ & Hw')].
    + destruct Hm. unfold in_hand. rewrite Hf. apply elem_of_app. left. by left.
    + exists 0%nat. split; [by apply near_written|left; lia].
  - destruct (queued_nearer m (mkWorld g l gen acc) s (mkWorld g' l' gen' acc) s' Es Hq Hp) as (k' & ? & ?).
    exists k'. auto.
Qed.

(** The moves of an open session that leave it open. *)
Lemma moved_onward m l gen acc g s l' gen' g' s' :
  SInv (sh_scheduler g) -> session_ok s -> ss_done s' = false -> urgent_for s m -> moved c g s g' s' ->
  onward m (mkWorld g l gen acc) s (mkWorld g' l' gen' acc) s'.
Proof using All.
  intros Hi Hok Hd' Hu Hm. pose proof (urgent_fresh _ _ Hu) as Hst. destruct s as [id d f wr].
  assert (d = false) as ->.
  { destruct d; [|done]. destruct (moved_session_ok _ _ _ _ Hm Hok) as (_ & _ & Hd & _). by rewrite Hd in Hd'. }
  specialize (Hok eq_refl). unfold in_step in Hok. cbn in Hok, Hst.
  destruct Hm as [|g' f' Hf Hs|g' f' Hf Hn|m0 r g' w' Hf Hw Hr|e Hf Hw|m0 r Hf Hd|Hf Hw|Hh Hn1 Hn2 Hd|m0 Hw|m0 e Hw| |e Hw];
    cbn in *; subst; try done.
  - destruct wr; try done. unfold feeder_start in Hs.
    destruct (sh_pendingMsg g); injection Hs as <- <-; apply onward_move; cbn; rewrite ?count_nil; try lia; try done; left; by apply not_elem_of_nil.
  - destruct wr; try done. unfold feeder_next in Hn. destruct (os_Next (sh_scheduler g) None) as [x q|e|q] eqn:En;
      [|by apply os_Next_alive in En|]; injection Hn as <- <-.
    + pose proof (os_Next_message _ _ _ Hi En) as [_ Hc]. rewrite permutation_count in Hc. specialize (Hc m).
      rewrite count_cons in Hc.
      split; unfold copies, in_hand; cbn; rewrite ?Hc, ?count_cons, ?count_nil; unfold wire_msgs; cbn; try lia.
      intros k Hk. right. inversion Hk as [|? |Hq]; subst; try done. cbn -[Nat.mul] in *.
      destruct (os_wait_next _ _ _ _ Hi (proj1 Hu) Hq En) as [->|[Hq' Hlt]].
      * exists 1%nat. split; [by eapply near_offered|left; lia].
      * eexists. split; [by apply near_queued|]. left. cbn -[Nat.mul]. lia.
    + pose proof (os_Next_wait _ _ Hi En) as (_ & Hc1 & Hc2).
      split; unfold copies, in_hand; cbn; rewrite ?Hc1, ?Hc2; unfold wire_msgs; cbn; try lia.
      intros k Hk. inversion Hk as [|? |Hq]; subst; try done. cbn in Hq. rewrite Hc1 in Hq. by apply elem_of_nil in Hq.
  - unfold writer_receive in Hr. destruct (decide (m0 = m)) as [->|Hne].
    + rewrite Hst in Hr. injection Hr as <- <-. apply onward_move; cbn; rewrite ?count_nil; try lia; try done. right. by exists r.
    + assert (m ∉ [m0]) as Hno by (rewrite list_elem_of_singleton; congruence).
      destruct (stale id m0); injection Hr as <- <-; apply onward_move; cbn; rewrite ?count_nil; try lia; try done; try (by left);
        rewrite count_cons; unfold single; case_decide; try done; cbn; lia.
  - apply onward_move; cbn; rewrite ?count_nil; try lia; try done. left. by apply not_elem_of_nil.
  - destruct f; try done. split; unfold copies, in_hand, wire_msgs; cbn; rewrite ?fmap_app, ?count_app; cbn;
      rewrite ?count_cons, ?count_nil; try lia.
    intros k Hk. unfold single.
    destruct (decide (m0 = m)) as [->|Hne]; [left; lia|]. right.
    inversion Hk as [[= Hw]| |Hq]; subst; try done.
    destruct (queued_nearer m (mkWorld g l gen acc) (mkSession id false FdAwaitAck (WrWrite m0))
      (mkWorld (written c id m0 g) l' gen' acc) (mkSession id false FdAwaitAck WrAck) eq_refl Hq ltac:(cbn; lia)) as (k' & ? & ?).
    exists k'. auto.
  - by apply onward_idle.
Qed.

(** What a session that is over still does - its feeder may linger - touches
    neither the scheduler nor the wire. *)
Lemma moved_over g s g' s' :
  ss_done s = true -> writer_left s -> moved c g s g' s' ->
  sh_scheduler g' = sh_scheduler g /\ wire_msgs g' = wire_msgs g.
Proof using All.
  intros Hd [e He] Hm.
  destruct Hm as [|g' f' Hf Hs|g' f' Hf Hn|m0 r g' w' Hf Hw Hr|e' Hf Hw|m0 r Hf Hd'|Hf Hw|Hh Hn1 Hn2 Hd'|m0 Hw|m0 e' Hw| |e' Hw];
    try done; try congruence.
  - unfold feeder_start in Hs. by destruct (sh_pendingMsg g); injection Hs as <- <-.
  - unfold feeder_next in Hn. rewrite Hd, os_Next_cancelled in Hn. by injection Hn as <- <-.
  - assert (forall g0, sh_scheduler (put_back m0 g0) = sh_scheduler g0 /\ wire_msgs (put_back m0 g0) = wire_msgs g0) as Hp.
    { intros g0. unfold put_back. by destruct (sh_pendingMsg g0). }
    destruct r; cbn; [apply Hp|]. unfold retain. destruct (_ =? _); [done|apply Hp].
Qed.

(** The wire only grows. *)
Lemma wstep_wire o w w' :
  wstep c o w w' -> exists l, sh_wire (w_shared w') = sh_wire (w_shared w) ++ l.
Proof using Type.
  assert (forall m g, sh_wire (put_back m g) = sh_wire g) as Hput.
  { intros m g. unfold put_back. by destruct (sh_pendingMsg g). }
  assert (forall id m g, sh_wire (retain id m g) = sh_wire g) as Hret.
  { intros id m g. unfold retain. by destruct (_ =? _). }
  destruct 1 as [w m s Hp|w|w Hw Hf|w mv i s g s' Hl Hm]; try (exists []; by rewrite app_nil_r).
  apply session_move_moved in Hm. cbn.
  destruct Hm as [|g' f' Hf Hs|g' f' Hf Hn|m r g' w' Hf Hw Hr|e Hf Hw|m r Hf Hd|Hf Hw|Hh Hn1 Hn2 _|m Hw|m e Hw| |e Hw];
    try (exists []; rewrite app_nil_r; done).
  - exists []. rewrite app_nil_r. unfold feeder_start in Hs. by destruct (sh_pendingMsg _); injection Hs as <- _.
  - exists []. rewrite app_nil_r. unfold feeder_next in Hn. by destruct (os_Next _ _); injection Hn as <- _.
  - exists []. rewrite app_nil_r. unfold writer_receive in Hr. by destruct (stale _ m); injection Hr as <- _.
  - exists []. rewrite app_nil_r. destruct r; cbn; [apply Hput|apply Hret].
  - by eexists.
Qed.

Lemma steps_wire o w w' :
  rtc (wstep c o) w w' -> exists l, sh_wire (w_shared w') = sh_wire (w_shared w) ++ l.
Proof using Type.
  induction 1 as [w|w w1 w2 Hw _ (l & IH)]; [exists []; by rewrite app_nil_r|].
  destruct (wstep_wire _ _ _ Hw) as [l1 Hl1]. exists (l1 ++ l). by rewrite IH, Hl1, app_assoc.
Qed.

(** Every step of the client takes an open session's messages onward. *)
Lemma wstep_onward o m w w' i s s' :
  sessions_ok w -> wstep c o w w' -> w_sessions w !! i = Some s -> w_sessions w' !! i = Some s' ->
  ss_done s' = false -> urgent_for s m -> onward m w s w' s'.
Proof using All.
  intros [Hi Hok Hb] Hw Hs Hs' Hd Hu. destruct Hw as [w x q Hp|w|w Hw Hf|w mv j t g t' Hl Hm]; cbn in *.
  - rewrite Hs in Hs'. injection Hs' as <-. pose proof (os_Push_ok _ _ _ Hi Hp) as [Hi' Hc].
    rewrite permutation_count in Hc. specialize (Hc m). rewrite count_cons in Hc.
    split; unfold copies; cbn; rewrite ?count_app, ?count_cons, ?count_nil, ?Hc; unfold wire_msgs; cbn; try lia.
    intros k Hk. right. inversion Hk as [|r Hf|Hq]; subst.
    + exists 0%nat. split; [by apply near_written|by right].
    + exists 1%nat. split; [by eapply near_offered|by right].
    + eexists. split; [apply near_queued; cbn|right; split; [|done]].
      * apply count_elem. rewrite Hc. apply count_elem in Hq. lia.
      * cbn -[Nat.mul]. pose proof (os_wait_push _ _ _ _ Hi (proj1 Hu) Hq Hp). lia.
  - rewrite Hs in Hs'. injection Hs' as <-. by apply onward_idle.
  - rewrite (lookup_app_l_Some _ _ _ _ Hs) in Hs'. injection Hs' as <-. by apply onward_idle.
  - apply session_move_moved in Hm. destruct (decide (j = i)) as [->|Hne].
    + rewrite Hs in Hl. injection Hl as <-. rewrite list_lookup_insert_eq in Hs' by (by eapply lookup_lt_Some).
      injection Hs' as <-. destruct w. apply moved_onward; try done. by eapply Forall_lookup_1.
    + rewrite list_lookup_insert_ne in Hs' by done. rewrite Hs in Hs'. injection Hs' as <-.
      assert (writer_left t) as Hlt.
      { apply (Hb j t Hl). pose proof (lookup_lt_Some _ _ _ Hl). pose proof (lookup_lt_Some _ _ _ Hs).
        destruct (decide (Datatypes.S j = length (w_sessions w))); [|lia].
        assert (writer_left s) as Hls by (apply (Hb i s Hs); lia).
        apply left_done in Hls; [congruence|by eapply Forall_lookup_1]. }
      destruct (moved_over _ _ _ _ (left_done t (Forall_lookup_1 _ _ _ _ Hok Hl) Hlt) Hlt Hm) as [Es Ew].
      by apply onward_idle.
Qed.

Lemma steps_onward o m w w' i s s' :
  rtc (wstep c o) w w' -> sessions_ok w -> w_sessions w !! i = Some s -> w_sessions w' !! i = Some s' ->
  ss_done s' = false -> urgent_for s m -> onward m w s w' s'.
Proof using All.
  intros Hr. revert s. induction Hr as [w|w w1 w2 Hw Hr IH]; intros s Hok Hs Hs' Hd Hu.
  - rewrite Hs in Hs'. injection Hs' as <-. by apply onward_idle.
  - destruct (wstep_session _ _ _ _ _ Hok Hw Hs) as (s1 & Hs1 & Hid & _).
    pose proof (wstep_sessions_ok _ _ _ Hok Hw) as Hok1.
    destruct (steps_session _ _ _ _ _ Hr Hok1 Hs1) as (s2 & Hs2 & _ & Hd2). rewrite Hs' in Hs2. injection Hs2 as <-.
    eapply onward_trans.
    + eapply wstep_onward; try done. destruct (ss_done s1); [by rewrite Hd2 in Hd|done].
    + apply IH; try done. destruct Hu. split; congruence.
Qed.

(** ** Executions *)

(** The states of the client one after the other; any number of steps is made
    between two of them. *)
Record wexecution (run : nat -> world S) : Prop := {
  wx_start : exists q, SInv q /\ reachable c false q (run 0%nat);
  wx_step n : rtc (wstep c false) (run n) (run (n + 1)%nat)
}.

(** An open session gets on, unless its feeder is found asleep. *)
Definition sessions_run (run : nat -> world S) : Prop :=
  forall n i s, w_sessions (run n) !! i = Some s -> ss_done s = false ->
  exists k, (n <= k)%nat /\ (w_sessions (run k) !! i <> Some s \/ asleep (run k) s).

(** It does so if the client comes to rest. *)
Lemma rest_sessions_run (run : nat -> world S) stop :
  (forall n s, (stop <= n)%nat -> s ∈ w_sessions (run n) -> ss_done s = false -> asleep (run n) s) ->
  sessions_run run.
Proof.
  intros Hrest n i s Hs Hd. exists (n + stop)%nat. split; [lia|].
  assert (ss_feeder s = FdNext \/ ss_feeder s <> FdNext) as [Hf|Hf] by (destruct (ss_feeder s); auto).
  2:{ left. intros Hi%list_elem_of_lookup_2. by destruct (Hrest (n + stop)%nat s ltac:(lia) Hi Hd). }
  destruct (w_sessions (run (n + stop)%nat) !! i) as [s'|] eqn:Hi; [|by left].
  destruct (ss_done s') eqn:Hd'; [left; congruence|right]. split; [done|].
  by destruct (Hrest (n + stop)%nat s' ltac:(lia) (list_elem_of_lookup_2 _ _ _ Hi) Hd').
Qed.

Section Run.
Context (run : nat -> world S).
Hypothesis Hrun : wexecution run.
Hypothesis Hfair : sessions_run run.

Lemma client_ok n : sessions_ok (run n).
Proof using -Hfair.
  induction n as [|n IH].
  - destruct (wx_start _ Hrun) as (q & Hi & Hr). apply (steps_ok _ _ _ Hr). by split; [|constructor|].
  - rewrite <- Nat.add_1_r. by eapply steps_ok; [apply wx_step|].
Qed.

Lemma client_steps n k : (n <= k)%nat -> rtc (wstep c false) (run n) (run k).
Proof using Hrun.
  induction 1 as [|k _ IH]; [done|]. etrans; [exact IH|]. rewrite <- Nat.add_1_r. by apply wx_step.
Qed.

(** The session at place [i] is over. *)
Definition closed i w : Prop := exists s, w_sessions w !! i = Some s /\ ss_done s = true.

(** It is, or it is still open and its messages have come onward. *)
Lemma client_onward m n k i s :
  (n <= k)%nat -> w_sessions (run n) !! i = Some s -> urgent_for s m ->
  closed i (run k) \/
  exists s', w_sessions (run k) !! i = Some s' /\ ss_done s' = false /\ urgent_for s' m /\ onward m (run n) s (run k) s'.
Proof using -Hfair.
  intros Hk Hs Hu. destruct (steps_session _ _ _ _ _ (client_steps n k Hk) (client_ok n) Hs) as (s' & Hs' & Hid & _).
  destruct (ss_done s') eqn:Hd; [left; by exists s'|right]. exists s'. split_and!; [done..| |].
  - destruct Hu. split; congruence.
  - eapply steps_onward; [by apply client_steps|apply client_ok|done..].
Qed.

Abbreviation on_wire m n := (count m (wire_msgs (w_shared (run n)))).

(** A copy that is on its way is written. *)
Lemma near_is_written m i k n s :
  w_sessions (run n) !! i = Some s -> urgent_for s m -> near m (run n) s k ->
  exists j, (n <= j)%nat /\ (closed i (run j) \/ (on_wire m n < on_wire m j)%nat).
Proof using All.
  revert n s. induction (lt_wf k) as [k _ IH]. intros n s Hs Hu Hk.
  destruct (ss_done s) eqn:Hd; [exists n; split; [done|left; by exists s]|].
  destruct (Hfair n i s Hs Hd) as (j & Hj & Hgo).
  destruct (client_onward m n j i s Hj Hs Hu) as [Hc|(s' & Hs' & Hd' & Hu' & Ho)]; [exists j; auto|].
  destruct (ow_near _ _ _ _ _ Ho k Hk) as [?|(k' & Hk' & [Hlt|[_ ->]])]; [exists j; auto|..].
  - destruct (IH k' Hlt j s' Hs' Hu' Hk') as (j' & Hj' & Hw). exists j'. split; [lia|].
    destruct Hw; [by left|right]. pose proof (ow_wire _ _ _ _ _ Ho). lia.
  - destruct Hgo as [Hne|[Hf He]]; [done|]. exfalso.
    inversion Hk' as [Hw|r Hof|Hq]; subst; [|congruence|rewrite He in Hq; by apply elem_of_nil in Hq].
    pose proof (Forall_lookup_1 _ _ _ _ (so_sessions _ (client_ok j)) Hs' Hd) as Hin. unfold in_step in Hin.
    by rewrite Hf, Hw in Hin.
Qed.

(** All that are there are. *)
Lemma copies_are_written m i T n s :
  w_sessions (run n) !! i = Some s -> urgent_for s m -> (T <= copies (run n) s m)%nat ->
  exists j, (n <= j)%nat /\ (closed i (run j) \/ (T <= on_wire m j)%nat).
Proof using All.
  remember (T - on_wire m n)%nat as left eqn:Hl. revert n s Hl. induction (lt_wf left) as [left _ IH].
  intros n s Hl Hs Hu HT. destruct (decide (T <= on_wire m n)%nat) as [|Hlt]; [exists n; auto|].
  destruct (copies_near (run n) s m) as [k Hk]; [lia|].
  destruct (near_is_written m i k n s Hs Hu Hk) as (j & Hj & [Hc|Hw]); [exists j; auto|].
  destruct (client_onward m n j i s Hj Hs Hu) as [Hc|(s' & Hs' & Hd' & Hu' & [_ Hcp Hta _])]; [exists j; auto|].
  destruct (IH (T - on_wire m j)%nat ltac:(lia) j s' eq_refl Hs' Hu' ltac:(lia)) as (j' & Hj' & Hend).
  exists j'. split; [lia|done].
Qed.

(** As many as were taken while the session was open. *)
Lemma taken_are_written m i n k s :
  (n <= k)%nat -> w_sessions (run n) !! i = Some s -> urgent_for s m ->
  exists j, (k <= j)%nat /\
    (closed i (run j) \/
     (count m (w_accepted (run k)) + on_wire m n <= count m (w_accepted (run n)) + on_wire m j)%nat).
Proof using All.
  intros Hk Hs Hu. destruct (client_onward m n k i s Hk Hs Hu) as [Hc|(s' & Hs' & Hd & Hu' & [_ Hcp _ _])]; [exists k; auto|].
  destruct (copies_are_written m i _ k s' Hs' Hu' (Nat.le_refl _)) as (j & Hj & [Hc|Hw]); [exists j; auto|].
  exists j. split; [done|right]. unfold copies in *. lia.
Qed.

End Run.

(** C9: Responses are delivered.  In an execution of the client in which open
    sessions are not starved, a session that does not end writes, for any two
    moments, as many copies of a message of priority 0 of its own as the
    scheduler takes between them: none waits for ever, whatever else is sent
    and whatever the sessions before have left behind. *)
Theorem urgent_written run m i n k s :
  wexecution run -> sessions_run run -> (n <= k)%nat ->
  w_sessions (run n) !! i = Some s -> Priority m = PriorityHighest -> SessionID m = ss_id s ->
  exists j, (k <= j)%nat /\
    (closed i (run j) \/
     (count m (w_accepted (run k)) + count m (wire_msgs (w_shared (run n)))
      <= count m (w_accepted (run n)) + count m (wire_msgs (w_shared (run j))))%nat).
Proof using All. intros Hrun Hfair Hk Hs Hp Hid. by eapply taken_are_written. Qed.

End Live.
