(* ===== verification/ManagerSteps.v ===== *)
(** * The request manager under concurrency

    The callers of the manager (the frame handler, the result consumer, the
    timers, the sweeper) run concurrently, each critical section of [m.mu]
    being atomic.  [step] is the relation of all interleavings: a call that
    leaves the mutex in the middle is a [frame] that waits for its next
    section, and the store, the scheduler's consumer, the cache sweeper and
    the clock take steps of their own.  [step] admits every call the program
    makes and some it does not make ([dispatchTimeoutFail], arbitrary
    releases), so what holds of it holds of the program. *)

From S2P Require Import Prelude GoTime Scheduler Json Rpc RequestKey Transaction Cache Store Manager.
Import RequestManager.

(** A call between two of its critical sections. *)
Inductive frame :=
| FSave (rpcID operationID : string) (tx : Transaction) (response : option string)
| FFinish (rpcID operationID : string) (response : option string) (err : option error)
| FRelease (rpcID operationID : string) (pending : PendingReply)
| FDelete (operationID : string) (k : option (string * PendingReply))
| FEnd (operationID : string) (k : option (string * PendingReply))
| FLast (rpcID : string) (pending : PendingReply).

(** [RespondAndRetain] of a transaction before its record is written and
    acted upon, and after. *)
Definition early (f : frame) : option (string * string) :=
  match f with
  | FSave r o _ _ | FFinish r o _ _ => Some (r, o)
  | _ => None
  end.

Definition late (f : frame) : option (string * PendingReply) :=
  match f with
  | FRelease r _ p | FLast r p => Some (r, p)
  | FDelete _ k | FEnd _ k => k
  | _ => None
  end.

Definition frame_rpc (f : frame) : option string :=
  match early f with
  | Some (r, _) => Some r
  | None => option_map fst (late f)
  end.

(** The calls with one critical section. *)
Inductive call :=
| CMarkPreparingDispatch (rpcID : string)
| CMarkPendingPublish (rpcID : string)
| CMarkInFlight (rpcID : string)
| CComplete (rpcID : string) (response : option string)
| CFail (rpcID : string) (errResponse : option string)
| CDispatchTimeout (rpcID : string).

Section Steps.
Context {S : Type} `{OutboundScheduler S} {St : Type} `{OperationStore St}.

Definition run_call (c : call) (now : Z) (m : t S) : t S :=
  match c with
  | CMarkPreparingDispatch id => (MarkPreparingDispatch m id).1
  | CMarkPendingPublish id => (MarkPendingPublish m id).1
  | CMarkInFlight id => (MarkInFlight m now id).1
  | CComplete id r => (Complete m now id r).1
  | CFail id r => (Fail m now id r).1
  | CDispatchTimeout id => dispatchTimeoutFail m now id
  end.

(** [issued] collects the identifiers [uuid.New()] has returned and those of
    the records found at the start. *)
Record world := mkWorld {
  mgr : t S;
  store : St;
  clock : Z;
  frames : list frame;
  issued : gset string
}.

Definition set_mgr (m : t S) (w : world) : world :=
  mkWorld m (store w) (clock w) (frames w) (issued w).

Definition fresh_id (id : string) (w : world) : Prop := id <> "" /\ id ∉ issued w.

(** A frame taken out of the list of suspended calls. *)
Inductive takes (f : frame) : list frame -> list frame -> Prop :=
| takes_intro l1 l2 : takes f (l1 ++ f :: l2) (l1 ++ l2).

Definition resume (f : option frame) (fr : list frame) : list frame :=
  match f with Some f => f :: fr | None => fr end.

(** A suspended call runs its next section, or its call of the store. *)
Inductive advance (w : world) : frame -> world -> list frame -> option frame -> Prop :=
| adv_save r o tx resp ctx st err fr :
    store_Save (store w) ctx (clock w) (retained_operation (mgr w) (clock w) o tx) = (st, err) ->
    advance w (FSave r o tx resp) (mkWorld (mgr w) st (clock w) fr (issued w)) fr
      (Some (FFinish r o resp err))
| adv_finish_done r o resp err m op e fr :
    retain_finish (mgr w) (clock w) r o resp err = (m, RetainDone op e) ->
    advance w (FFinish r o resp err) (mkWorld m (store w) (clock w) fr (issued w)) fr None
| adv_finish_release r o resp err m p fr :
    retain_finish (mgr w) (clock w) r o resp err = (m, RetainRelease p) ->
    advance w (FFinish r o resp err) (mkWorld m (store w) (clock w) fr (issued w)) fr
      (Some (FRelease r o p))
| adv_release_refused r o p m e fr :
    release_begin (mgr w) o = (m, Some e) ->
    advance w (FRelease r o p) (mkWorld m (store w) (clock w) fr (issued w)) fr (Some (FLast r p))
| adv_release r o p m fr :
    release_begin (mgr w) o = (m, None) ->
    advance w (FRelease r o p) (mkWorld m (store w) (clock w) fr (issued w)) fr
      (Some (FDelete o (Some (r, p))))
| adv_delete o k ctx st err fr :
    store_Delete (store w) ctx (clock w) o = (st, err) ->
    advance w (FDelete o k) (mkWorld (mgr w) st (clock w) fr (issued w)) fr (Some (FEnd o k))
| adv_end o k fr :
    advance w (FEnd o k) (mkWorld (release_end (mgr w) o) (store w) (clock w) fr (issued w)) fr
      (option_map (fun '(r, p) => FLast r p) k)
| adv_last r p fr :
    advance w (FLast r p)
      (mkWorld (retain_last (mgr w) (clock w) r p).1 (store w) (clock w) fr (issued w)) fr None.

Inductive step : world -> world -> Prop :=
| step_create w rpcID sessionID cloudRPCID respond method timeout changing m r :
    fresh_id rpcID w ->
    CreateTransaction (mgr w) (clock w) rpcID sessionID cloudRPCID respond method timeout changing
      = (m, r) ->
    step w (mkWorld m (store w) (clock w) (frames w) ({[rpcID]} ∪ issued w))
| step_call w c : step w (set_mgr (run_call c (clock w) (mgr w)) w)
| step_fire w h tm :
    timers (mgr w) !! h = Some tm -> tm_status tm = TimerArmed -> tm_deadline tm <= clock w ->
    step w (set_mgr (set_timers (<[h := set_status TimerFired tm]> (timers (mgr w))) (mgr w)) w)
| step_timeout w h tm m r :
    timers (mgr w) !! h = Some tm -> tm_status tm = TimerFired ->
    Timeout_ (mgr w) (clock w) (tm_rpcID tm) = (m, r) ->
    step w (set_mgr (set_timers (alter (set_status TimerDone) h (timers m)) m) w)
| step_retain w rpcID operationID response m tx :
    fresh_id operationID w ->
    retain_begin (mgr w) rpcID = (m, Ok tx) ->
    step w (mkWorld m (store w) (clock w) (FSave rpcID operationID tx response :: frames w)
              ({[operationID]} ∪ issued w))
| step_advance w f fr w' f' :
    takes f (frames w) fr -> advance w f w' fr f' ->
    step w (mkWorld (mgr w') (store w') (clock w') (resume f' fr) (issued w'))
| step_release w operationID m :
    release_begin (mgr w) operationID = (m, None) ->
    step w (mkWorld m (store w) (clock w) (FDelete operationID None :: frames w) (issued w))
| step_delete w ctx id st r :
    store_Delete (store w) ctx (clock w) id = (st, r) ->
    step w (mkWorld (mgr w) st (clock w) (frames w) (issued w))
| step_load w ctx limit st r :
    store_GetActive (store w) ctx (clock w) limit = (st, r) ->
    step w (mkWorld (mgr w) st (clock w) (frames w) (issued w))
| step_sweep_cache w :
    step w (set_mgr (set_cache (TransactionCache.sweepCache (cache (mgr w)) (clock w)) (mgr w)) w)
| step_consume w s ctx msg s' :
    scheduler (mgr w) = Some s -> os_Next s ctx = NextMessage msg s' \/ os_Next s ctx = NextWait s' ->
    step w (set_mgr (set_scheduler (Some s') (mgr w)) w)
| step_push w msg s :
    scheduler (mgr w) = Some s ->
    step w (set_mgr (set_scheduler (Some (os_Push s msg).1) (mgr w)) w)
| step_tick w now :
    clock w <= now -> step w (mkWorld (mgr w) (store w) now (frames w) (issued w)).

(** A manager that has just been built and may have taken the lock for an
    operation that survived a restart. *)
Definition initial (w : world) : Prop :=
  let m := mgr w in
  transactionsByRPCID m = ∅ /\ activeCloudRequests m = ∅ /\ pendingReplies m = ∅ /\
  cache m !! "" = None /\
  timers m = [] /\ detached m = ∅ /\ pushed m = [] /\ crashed m = false /\ frames w = [] /\
  "" ∉ issued w /\ zero_time < clock w /\
  ((stateLock (lock m) = false /\ activeStateTx (lock m) = "" /\
    activeStateOwner (lock m) = LockNone) \/
   (stateLock (lock m) = true /\ activeStateOwner (lock m) = LockOwnedByOperation /\
    activeStateTx (lock m) <> "" /\ activeStateTx (lock m) ∈ issued w)).

Definition reachable (w : world) : Prop := exists w0, initial w0 /\ rtc step w0 w.

End Steps.

Arguments world S St : clear implicits.
