(* ===== verification/Startup.v ===== *)
(** * Starting the daemon

    cmd/ucentral-client/main.go up to the launch of the goroutines: the
    environment variables, the payload limits and how they are clamped, the
    trace URL, and the components in the order in which they are built.

    Files, certificates, the agent library and the operation store's directory
    are parameters.  A constructor that panics makes the result [None]. *)

From S2P Require Import Prelude GoTime GoDuration Scheduler RingBuffer Json Enums Rpc Commands Envelopes Config Capabilities NatsClient NatsConnect Transaction Cache Store Manager Handler WsClient ManagerSteps.
Import RequestManager.
Open Scope go_scope.

(** ** Environment variables *)

Definition parseTimeoutEnv (getenv : environment) (envKey : string) (defaultVal : Z) : result Z :=
  let val := getenv envKey in
  if is_empty val then Ok defaultVal else
  match ParseDuration val with
  | None => Err (EWrap ("failed to parse environment variable " +:+ envKey +:+ ": ")
                   (ENew "time: invalid duration"))
  | Some d =>
      refuse d <=? 0 with "environment variable " +:+ envKey +:+
        " must represent a positive duration, got: " +:+ val;
      Ok d
  end.

Definition parseLimitEnv (getenv : environment) (envName : string) (defaultVal : Z) : result Z :=
  let valStr := getenv envName in
  if is_empty valStr then Ok defaultVal else
  match Atoi (trim_space valStr) with
  | Some val =>
      refuse val <=? 0 with "invalid limit for " +:+ envName +:+ ": must be a positive integer";
      Ok val
  | None => Err (ENew ("invalid limit for " +:+ envName +:+ ": must be a positive integer"))
  end.

(** A path from the environment, or the default. *)
Definition env_path (getenv : environment) (envKey default : string) : string :=
  if is_empty (getenv envKey) then default else getenv envKey.

(** ** Timeouts and payload limits *)

Record timeouts := mkTimeouts {
  to_Dispatch : Z; to_Configure : Z; to_ActionDefault : Z; to_ActionExtended : Z; to_SweeperTTL : Z }.

Record payload_limits := mkPayloadLimits {
  pl_Absolute : Z; pl_Configure : Z; pl_Script : Z; pl_CertUpdate : Z; pl_Default : Z }.

Definition parse_timeouts (getenv : environment) : result timeouts :=
  dispatch <-? parseTimeoutEnv getenv "OLG_TIMEOUT_DISPATCH" (5 * Second);
  configure <-? parseTimeoutEnv getenv "OLG_TIMEOUT_CONFIGURE" (30 * Second);
  default <-? parseTimeoutEnv getenv "OLG_TIMEOUT_ACTION_DEFAULT" (60 * Second);
  extended <-? parseTimeoutEnv getenv "OLG_TIMEOUT_ACTION_EXTENDED" (120 * Second);
  sweeper <-? parseTimeoutEnv getenv "OLG_OPERATION_SWEEPER_TTL" (15 * Minute);
  Ok (mkTimeouts dispatch configure default extended sweeper).

Definition parse_limits (getenv : environment) : result payload_limits :=
  absolute <-? parseLimitEnv getenv "OLG_PAYLOAD_LIMIT_ABSOLUTE" (12 * 1024 * 1024);
  configure <-? parseLimitEnv getenv "OLG_PAYLOAD_LIMIT_CONFIGURE" (10 * 1024 * 1024);
  script <-? parseLimitEnv getenv "OLG_PAYLOAD_LIMIT_SCRIPT" (1 * 1024 * 1024);
  certupdate <-? parseLimitEnv getenv "OLG_PAYLOAD_LIMIT_CERTUPDATE" (2 * 1024 * 1024);
  default <-? parseLimitEnv getenv "OLG_PAYLOAD_LIMIT_DEFAULT" (11 * 1024 * 1024);
  Ok (mkPayloadLimits absolute configure script certupdate default).

(** No method limit above the absolute one. *)
Definition clamp_methods (p : payload_limits) : payload_limits :=
  let clamp z := if pl_Absolute p <? z then pl_Absolute p else z in
  mkPayloadLimits (pl_Absolute p) (clamp (pl_Configure p)) (clamp (pl_Script p)) (clamp (pl_CertUpdate p))
    (clamp (pl_Default p)).

(** No limit above the size of a frame. *)
Definition clamp_limits (wsMaxFrame : Z) (p : payload_limits) : payload_limits :=
  let p := clamp_methods p in
  if (0 <? wsMaxFrame) && (wsMaxFrame <? pl_Absolute p)
  then clamp_methods (mkPayloadLimits wsMaxFrame (pl_Configure p) (pl_Script p) (pl_CertUpdate p) (pl_Default p))
  else p.

(** ** The components *)

Section Startup.
Context `{GoLib} `{ConfigLib} `{AgentLib} {St : Type} `{OperationStore St}.
(** [url.Parse], and opening the operation store at a directory. *)
Context (url_Parse : string -> result URL) (NewDiskOperationStore : string -> result St).

(** The identifier of this boot of the host, empty if it cannot be read. *)
Definition getSystemBootID : string :=
  match os_ReadFile_at "/proc/sys/kernel/random/boot_id" with
  | Ok data => trim_space data
  | Err _ => ""
  end.

Definition trace_url (getenv : environment) : result (option URL) :=
  let str := getenv "OLG_TRACE_UPLOAD_ALLOWED_URL" in
  if is_empty str then Ok None else
  u <-? wrap_err "invalid OLG_TRACE_UPLOAD_ALLOWED_URL: " (url_Parse str);
  refuse negb (String.eqb (u_Scheme u) "https")
    with "OLG_TRACE_UPLOAD_ALLOWED_URL must have https scheme, got: " +:+ u_Scheme u;
  refuse bool_decide (is_Some (u_User u)) with "OLG_TRACE_UPLOAD_ALLOWED_URL must not contain credentials";
  Ok (Some u).

Definition ttl_config (c : Config.CacheTTLConfig) : Cache.CacheTTLConfig :=
  let secs n := wrap_int (n * Second) in
  mkTTL (secs (ttl_Default c))
    (Some (list_to_map
       [ ("configure", secs (ttl_Configure c)); ("leds", secs (ttl_LEDs c)); ("reboot", secs (ttl_Reboot c));
         ("rtty", secs (ttl_RemoteAccess c)); ("factory", secs (ttl_Factory c));
         ("upgrade", secs (ttl_Upgrade c)); ("certupdate", secs (ttl_Certupdate c));
         ("reenroll", secs (ttl_Reenroll c)); ("script", secs (ttl_Script c)) ])).

Abbreviation manager := (RequestManager.t PriorityScheduler.t).

(** [AppComponents]; the published limits, the trace URL, the capability cache
    and the store, which other objects hold, are fields of their own. *)
Record AppComponents := mkApp {
  ap_ReqManager : manager;
  ap_Store : St;
  ap_NatsClient : option NATSClient;
  ap_WsClient : WSClient;
  ap_Timeouts : timeouts;
  ap_Payload : payload_limits;
  ap_Limits : limits;
  ap_TraceURL : option URL;
  ap_Provider : connectMetadataProvider;
  ap_natsLink : LinkState
}.

Definition initializeComponents (getenv : environment) (cfg : Config) (ttl : Config.CacheTTLConfig)
    : option (result AppComponents) :=
  match parse_timeouts getenv, parse_limits getenv, trace_url getenv,
        wrap_err "failed to initialize capability cache: "
          (NewCapabilityCache os_ReadFile_at
             (env_path getenv "OW_CAPABILITIES_FILE" "/etc/ucentral/capabilities.json")) with
  | Err e, _, _, _ => Some (Err e)
  | _, Err e, _, _ => Some (Err e)
  | _, _, Err e, _ => Some (Err e)
  | _, _, _, Err e => Some (Err e)
  | Ok tos, Ok lims, Ok trace, Ok capCache =>
      let payload := clamp_limits (MaxFrameSizeBytes (Cloud cfg)) lims in
      let q := Queues cfg in
      scheduler ← PriorityScheduler.NewPriorityScheduler (WSWriterCapacity q) (EmergencyCapacity q);
      _ ← TelemetryRingBuffer.NewTelemetryRingBuffer (TelemetryCapacity q);
      Some
        (store <-? wrap_err "failed to initialize operation store: "
                     (NewDiskOperationStore (env_path getenv "OLG_OPERATION_STORE_DIR" "./operations"));
         rm <-? wrap_err "failed to initialize RequestManager: "
                  (NewRequestManager (to_Dispatch tos) (ttl_config ttl) (Some ∅) (Some scheduler)
                     (Some store) (q_MaxConcurrentRequests q) (to_SweeperTTL tos) 1000 getSystemBootID);
         let '(natsClient, links) := NewNATSClient (n_Target (NATS cfg)) (NATS cfg) in
         ws <-? wrap_err "failed to initialize WSClient: " (NewWSClient (Cloud cfg) false false);
         Ok (mkApp rm.1 rm.2 (match natsClient with Ok n => Some n | Err _ => None end) ws tos payload
               (SetLimits (pl_Configure payload) (pl_CertUpdate payload) (pl_Script payload)) trace
               (mkProvider capCache (Serial cfg)) (default LinkConnecting (last links))))
  end.

(** The frame handler of [main]. *)
Definition main_handler (cfg : Config) (app : AppComponents) : frameHandler :=
  let t := ap_Timeouts app in let p := ap_Payload app in
  mkHandler (Serial cfg) (n_Target (NATS cfg)) (NATSPublishCapacity (Queues cfg))
    (to_Dispatch t) (to_Configure t) (to_ActionDefault t) (to_ActionExtended t)
    (pl_Absolute p) (pl_Configure p) (pl_Script p) (pl_CertUpdate p) (pl_Default p).

Definition set_serial (serial : string) (c : Config) : Config := mkConfig serial (Cloud c) (NATS c) (Queues c).

(** [main] until the components exist; an error is fatal. *)
Definition main_startup (getenv : environment) (configPath : string)
    : option (result (Config * AppComponents * frameHandler)) :=
  let checked :=
    cfg <-? LoadConfig configPath;
    cfg <-? wrap_err "Invalid configuration: " (Config_Validate cfg);
    serial <-? wrap_err "Failed to read serial from mapping file: "
                 (LoadSerialFromMapping (env_path getenv "OW_INTERFACE_MAP_FILE" "/etc/ucentral/interface_map.json"));
    let cfg := set_serial serial cfg in
    _ <-? Config_ValidateSerialBinding cfg;
    ttl <-? wrap_err "Invalid Cache TTL environment variables: " (LoadCacheTTLConfigFromEnv getenv);
    Ok (cfg, ttl) in
  match checked with
  | Err e => Some (Err e)
  | Ok (cfg, ttl) =>
      app ← initializeComponents getenv cfg ttl;
      Some (app <-? wrap_err "Initialization failed: " app; Ok (cfg, app, main_handler cfg app))
  end.

End Startup.
