(* ===== verification/StartupSafe.v ===== *)
(** * What a started daemon can rely on

    Start-up panics only for a telemetry queue too large to allocate, and it
    refuses every configuration that would make a component misbehave
    ([startup_sound]). *)

From S2P Require Import Prelude GoTime GoDuration Scheduler RingBuffer Json Enums Rpc Commands Envelopes Config Capabilities NatsClient NatsConnect Transaction Cache Store Manager Handler WsClient ManagerSteps Startup.
Import RequestManager.
Open Scope go_scope.

(** ** The environment *)

Lemma parseTimeoutEnv_pos getenv key d z : 0 < d -> parseTimeoutEnv getenv key d = Ok z -> 0 < z.
Proof.
  unfold parseTimeoutEnv. intros Hd. destruct (is_empty (getenv key)); [by intros [= <-]|].
  destruct (ParseDuration (getenv key)) as [v|]; [|done]. intros [Hv%Z.leb_gt [= <-]]%refuse_Ok. done.
Qed.

Lemma parseLimitEnv_pos getenv key d z : 0 < d -> parseLimitEnv getenv key d = Ok z -> 0 < z.
Proof.
  unfold parseLimitEnv. intros Hd. destruct (is_empty (getenv key)); [by intros [= <-]|].
  destruct (Atoi (trim_space (getenv key))) as [v|]; [|done]. intros [Hv%Z.leb_gt [= <-]]%refuse_Ok. done.
Qed.

Record timeouts_pos (t : timeouts) : Prop := {
  tp_dispatch : 0 < to_Dispatch t;
  tp_configure : 0 < to_Configure t;
  tp_default : 0 < to_ActionDefault t;
  tp_extended : 0 < to_ActionExtended t;
  tp_sweeper : 0 < to_SweeperTTL t
}.

Lemma parse_timeouts_pos getenv t : parse_timeouts getenv = Ok t -> timeouts_pos t.
Proof.
  unfold parse_timeouts.
  destruct (parseTimeoutEnv getenv "OLG_TIMEOUT_DISPATCH" _) as [a|] eqn:Ha; [|done].
  destruct (parseTimeoutEnv getenv "OLG_TIMEOUT_CONFIGURE" _) as [b|] eqn:Hb; [|done].
  destruct (parseTimeoutEnv getenv "OLG_TIMEOUT_ACTION_DEFAULT" _) as [c|] eqn:Hc; [|done].
  destruct (parseTimeoutEnv getenv "OLG_TIMEOUT_ACTION_EXTENDED" _) as [d|] eqn:Hd; [|done].
  destruct (parseTimeoutEnv getenv "OLG_OPERATION_SWEEPER_TTL" _) as [e|] eqn:He; [|done].
  apply parseTimeoutEnv_pos in Ha, Hb, Hc, Hd, He; [|done..]. intros [= <-]. by split.
Qed.

Record limits_pos (p : payload_limits) : Prop := {
  lp_absolute : 0 < pl_Absolute p;
  lp_configure : 0 < pl_Configure p;
  lp_script : 0 < pl_Script p;
  lp_certupdate : 0 < pl_CertUpdate p;
  lp_default : 0 < pl_Default p
}.

Lemma parse_limits_pos getenv p : parse_limits getenv = Ok p -> limits_pos p.
Proof.
  unfold parse_limits.
  destruct (parseLimitEnv getenv "OLG_PAYLOAD_LIMIT_ABSOLUTE" _) as [a|] eqn:Ha; [|done].
  destruct (parseLimitEnv getenv "OLG_PAYLOAD_LIMIT_CONFIGURE" _) as [b|] eqn:Hb; [|done].
  destruct (parseLimitEnv getenv "OLG_PAYLOAD_LIMIT_SCRIPT" _) as [c|] eqn:Hc; [|done].
  destruct (parseLimitEnv getenv "OLG_PAYLOAD_LIMIT_CERTUPDATE" _) as [d|] eqn:Hd; [|done].
  destruct (parseLimitEnv getenv "OLG_PAYLOAD_LIMIT_DEFAULT" _) as [e|] eqn:He; [|done].
  apply parseLimitEnv_pos in Ha, Hb, Hc, Hd, He; [|done..]. intros [= <-]. by split.
Qed.

(** ** Clamping *)

Definition within_absolute (p : payload_limits) : Prop :=
  pl_Configure p <= pl_Absolute p /\ pl_Script p <= pl_Absolute p /\
  pl_CertUpdate p <= pl_Absolute p /\ pl_Default p <= pl_Absolute p.

Lemma clamp_methods_ok p :
  limits_pos p -> limits_pos (clamp_methods p) /\ within_absolute (clamp_methods p)
  /\ pl_Absolute (clamp_methods p) = pl_Absolute p.
Proof.
  intros [Ha Hb Hc Hd He]. unfold clamp_methods, within_absolute. cbn.
  split_and!; [split; cbn|..]; repeat case_match; lia.
Qed.

Lemma clamp_limits_ok ws p :
  limits_pos p ->
  limits_pos (clamp_limits ws p) /\ within_absolute (clamp_limits ws p)
  /\ (0 < ws -> pl_Absolute (clamp_limits ws p) <= ws).
Proof.
  intros Hp. destruct (clamp_methods_ok p Hp) as (Hq & Hw & Ha). unfold clamp_limits.
  destruct ((0 <? ws) && (ws <? pl_Absolute (clamp_methods p))) eqn:E.
  - apply andb_true_iff in E as [E1%Z.ltb_lt E2%Z.ltb_lt].
    edestruct (clamp_methods_ok (mkPayloadLimits ws (pl_Configure (clamp_methods p)) (pl_Script (clamp_methods p))
      (pl_CertUpdate (clamp_methods p)) (pl_Default (clamp_methods p)))) as (Hr & Hwr & Har).
    { destruct Hq; by split. }
    split_and!; [exact Hr|exact Hwr|]. rewrite Har. cbn. lia.
  - split_and!; [done..|]. intros Hws. apply andb_false_iff in E as [E%Z.ltb_ge|E%Z.ltb_ge]; lia.
Qed.

(** ** The configuration *)

Record queues_pos (q : QueueConfig) : Prop := {
  qp_writer : 0 < WSWriterCapacity q;
  qp_emergency : 0 < EmergencyCapacity q;
  qp_publish : 0 < NATSPublishCapacity q;
  qp_results : 0 < CommandResultCapacity q;
  qp_telemetry : 0 < TelemetryCapacity q;
  qp_requests : 0 < q_MaxConcurrentRequests q
}.

Lemma QueueConfig_Validate_pos q q' : QueueConfig_Validate q = Ok q' -> queues_pos q'.
Proof.
  intros (H1%Z.leb_gt & (H2%Z.leb_gt & (H3%Z.leb_gt & (H4%Z.leb_gt & (H5%Z.leb_gt &
    (H6%Z.ltb_ge & [= <-])%refuse_Ok)%refuse_Ok)%refuse_Ok)%refuse_Ok)%refuse_Ok)%refuse_Ok.
  split; cbn; try done. unfold defaulted, DefaultMaxConcurrentRequests. case_match; lia.
Qed.

Section StartupLaws.
Context `{GoLib} `{ConfigLib} `{AgentLib} {St : Type} `{OperationStore St}.
Context (url_Parse : string -> result URL) (NewDiskOperationStore : string -> result St).

Lemma Config_Validate_inv c c' :
  Config_Validate c = Ok c' ->
  CloudConfig_Validate (Cloud c) = Ok (Cloud c') /\ NATSConfig_Validate (NATS c) = Ok (NATS c') /\
  QueueConfig_Validate (Queues c) = Ok (Queues c').
Proof.
  unfold Config_Validate. destruct (CloudConfig_Validate (Cloud c)); [|done].
  destruct (NATSConfig_Validate (NATS c)); [|done]. destruct (QueueConfig_Validate (Queues c)); [|done].
  by intros [= <-].
Qed.

Definition trace_ok (u : option URL) : Prop :=
  match u with None => True | Some u => u_Scheme u = "https" /\ u_User u = None end.

Lemma trace_url_ok getenv u : trace_url url_Parse getenv = Ok u -> trace_ok u.
Proof.
  unfold trace_url. destruct (is_empty _); [by intros [= <-]|].
  destruct (wrap_err _ (url_Parse _)) as [v|]; [|done]. intros (Hs & (Hu & [= <-])%refuse_Ok)%refuse_Ok.
  split; [by apply negb_false_iff, String.eqb_eq in Hs|].
  apply bool_decide_eq_false in Hu. by apply eq_None_not_Some.
Qed.

(** A configuration as [main] hands it on. *)
Record config_ok (c : Config) : Prop := {
  co_serial : trim_space (Serial c) <> "";
  co_bound : CloudTLSConfig_ValidateSerialBinding (c_TLS (Cloud c)) (Serial c) = Ok tt;
  co_pair : is_empty (t_ClientCertFile (c_TLS (Cloud c))) = false /\
            is_empty (t_ClientKeyFile (c_TLS (Cloud c))) = false;
  co_frame : 0 < MaxFrameSizeBytes (Cloud c);
  co_compression : 0 < CompressionThresholdBytes (Cloud c);
  co_url : server_scheme (c_URL (Cloud c)) "wss";
  co_target : ValidateNATSTarget (n_Target (NATS c)) = None;
  co_queues : queues_pos (Queues c)
}.

Lemma checkFile_nonempty path name r : checkFile path name = Ok r -> is_empty path = false.
Proof. unfold checkFile. by intros [? _]%refuse_Ok. Qed.

Lemma CloudTLSConfig_Validate_pair t r :
  CloudTLSConfig_Validate t = Ok r -> is_empty (t_ClientCertFile t) = false /\ is_empty (t_ClientKeyFile t) = false.
Proof.
  unfold CloudTLSConfig_Validate. destruct (checkFile (t_CAFile t) _); [|done].
  destruct (checkFile (t_ClientCertFile t) _) eqn:Hcert; [|done].
  destruct (checkFile (t_ClientKeyFile t) _) eqn:Hkey; [|done].
  intros _. by apply checkFile_nonempty in Hcert, Hkey.
Qed.

Lemma CloudConfig_Validate_tls c c' : CloudConfig_Validate c = Ok c' -> CloudTLSConfig_Validate (c_TLS c) = Ok tt.
Proof.
  unfold CloudConfig_Validate. intros Hc. repeat (apply refuse_Ok in Hc as [_ Hc]).
  by destruct (CloudTLSConfig_Validate (c_TLS c)) as [[]|].
Qed.

Lemma LoadSerialFromMapping_ok path serial :
  LoadSerialFromMapping path = Ok serial -> trim_space serial <> "".
Proof.
  unfold LoadSerialFromMapping. destruct (wrap_err _ (os_ReadFile_at path)); [|done].
  destruct (wrap_err _ (unmarshal decode_mapping _)) as [raw|]; [|done].
  intros [Hs [= <-]]%refuse_Ok. rewrite trim_space_idem. by apply String.eqb_neq.
Qed.

(** The checks of [main] before the components are built. *)
Lemma checked_ok c c' serial u path :
  Config_Validate c = Ok c' -> LoadSerialFromMapping path = Ok serial ->
  Config_ValidateSerialBinding (set_serial serial c') = Ok u -> config_ok (set_serial serial c').
Proof.
  intros (Hc & Hn & Hq)%Config_Validate_inv Hs%LoadSerialFromMapping_ok Hb.
  pose proof (CloudConfig_Validate_tls _ _ Hc) as Htls%CloudTLSConfig_Validate_pair.
  apply CloudConfig_Validate_inv in Hc as (Hu & Ht & _ & _ & _ & _ & _ & Hz & Hf & _).
  apply NATSConfig_Validate_inv in Hn as (_ & Htarget & _). apply QueueConfig_Validate_pos in Hq.
  unfold Config_ValidateSerialBinding in Hb. apply refuse_Ok in Hb as [_ Hb].
  split; cbn; try done; [by destruct u|by rewrite Ht].
Qed.

(** A daemon whose components exist. *)
Record daemon_ok (cfg : Config) (app : AppComponents (St := St)) (h : frameHandler) : Prop := {
  da_config : config_ok cfg;
  da_timeouts : timeouts_pos (ap_Timeouts app);
  da_limits : limits_pos (ap_Payload app) /\ within_absolute (ap_Payload app) /\
              pl_Absolute (ap_Payload app) <= MaxFrameSizeBytes (Cloud cfg);
  da_published : ap_Limits app = mkLimits (payloadLimitConfigure h) (payloadLimitCertUpdate h) (payloadLimitScript h);
  da_trace : trace_ok (ap_TraceURL app);
  da_handler : 0 < dispatchBufferCap h /\ h_serial h = Serial cfg /\ ValidateNATSTarget (h_target h) = None;
  (** The theorems on the concurrent manager apply to it. *)
  da_manager now : zero_time < now -> initial (mkWorld (ap_ReqManager app) (ap_Store app) now [] ∅);
  da_cache : cache (ap_ReqManager app) = ∅;
  da_scheduler : exists s, scheduler (ap_ReqManager app) = Some s /\ PriorityScheduler.wf s /\ os_contents s = [];
  da_client : ws_running (ap_WsClient app) = false /\ ws_config (ap_WsClient app) = Cloud cfg;
  (** Only a broken CA file can end its reconnect loop with an error. *)
  da_fatal read p a :
    mp_serial p = mp_serial (ap_Provider app) ->
    a_ConnectParams a = (ConnectParams read p).2 -> fatal_cause (Cloud cfg) a ->
    exists ca, a_ReadFile a (t_CAFile (c_TLS (Cloud cfg))) = Ok ca /\ AppendCertsFromPEM ca = false;
  da_link : ap_natsLink app = LinkConnected <-> is_Some (ap_NatsClient app);
  da_nats n : ap_NatsClient app = Some n -> n = mkClient (n_Target (NATS cfg)) true
}.

Lemma ConnectParams_serial read p q params :
  ConnectParams read p = (q, Ok params) -> cp_Serial params = mp_serial p.
Proof.
  unfold ConnectParams. destruct (GetCapabilities read (mp_cache p)) as [c [raw|]]; [|done].
  destruct (GetFirmware read c) as [c' [fw|]]; [|done]. destruct (unmarshal_map raw) as [caps|]; [|done].
  by intros [= <- <-].
Qed.

Lemma NewNATSClient_link name cfg n links :
  NewNATSClient name cfg = (n, links) ->
  default LinkConnecting (last links) = LinkConnected <->
  is_Some (match n with Ok n => Some n | Err _ => None end).
Proof.
  intros Hb%NewNATSClient_built. destruct n as [n|e]; [by destruct Hb as [_ ->]|]. rewrite Hb. cbn.
  split; [done|by intros []].
Qed.

Lemma NewWSClient_ok c ws : 0 < CompressionThresholdBytes c -> NewWSClient c false false = Ok ws ->
  ws_running ws = false /\ ws_config ws = c.
Proof. unfold NewWSClient. intros Hz [= <-]. cbn. split; [done|]. by destruct (Z.eqb_spec (CompressionThresholdBytes c) 0); [lia|]. Qed.

(** A telemetry queue that cannot be allocated. *)
Definition telemetry_too_large (q : QueueConfig) : Prop := maxAlloc < TelemetryCapacity q * slice_header.

Lemma initializeComponents_ok getenv cfg ttl :
  config_ok cfg ->
  match initializeComponents url_Parse NewDiskOperationStore getenv cfg ttl with
  | None => telemetry_too_large (Queues cfg)
  | Some (Err _) => True
  | Some (Ok app) => daemon_ok cfg app (main_handler cfg app)
  end.
Proof.
  intros Hcfg. destruct (co_queues _ Hcfg) as [Q1 Q2 Q3 Q4 Q5 Q6]. unfold initializeComponents.
  destruct (parse_timeouts getenv) as [tos|] eqn:Hto; [|done].
  destruct (parse_limits getenv) as [lims|] eqn:Hli; [|done].
  destruct (trace_url url_Parse getenv) as [trace|] eqn:Htr; [|done].
  destruct (wrap_err _ (NewCapabilityCache _ _)) as [caps|]; [|done].
  destruct (PriorityScheduler.NewPriorityScheduler _ _) as [s|] eqn:Hs.
  2: { unfold PriorityScheduler.NewPriorityScheduler in Hs. destruct (_ || _) eqn:E; [|done].
       apply orb_true_iff in E as [E%Z.leb_le|E%Z.leb_le]; lia. }
  destruct (TelemetryRingBuffer.NewTelemetryRingBuffer _) as [r|] eqn:Hr.
  2: { apply TelemetryRingBuffer.new_panics in Hr as [?|?]; [lia|done]. }
  cbn [mbind option_bind]. destruct (wrap_err _ (NewDiskOperationStore _)) as [st|]; [|done].
  cbn [NewRequestManager wrap_err fst snd].
  destruct (NewNATSClient (n_Target (NATS cfg)) (NATS cfg)) as [n links] eqn:Hn.
  destruct (NewWSClient (Cloud cfg) false false) as [ws|] eqn:Hw; [|done]. cbn [wrap_err].
  destruct (clamp_limits_ok (MaxFrameSizeBytes (Cloud cfg)) lims (parse_limits_pos _ _ Hli)) as (L1 & L2 & L3).
  split; cbn.
  - done.
  - by apply (parse_timeouts_pos getenv).
  - split_and!; [exact L1|exact L2|apply L3, Hcfg].
  - done.
  - by apply (trace_url_ok getenv).
  - split_and!; [done|done|apply Hcfg].
  - intros now Hnow. unfold initial. cbn. split_and!; try done. by left.
  - done.
  - exists s. split; [done|].
    split; [by apply (PriorityScheduler.new_wf (WSWriterCapacity (Queues cfg)) (EmergencyCapacity (Queues cfg)))|].
    unfold PriorityScheduler.NewPriorityScheduler in Hs. destruct (_ || _) in Hs; [done|]. by injection Hs as <-.
  - apply NewWSClient_ok; [apply Hcfg|done].
  - intros read p a Hserial Ha [Hp|[Hca|(params & Hp & Hb)]]; [|done|].
    + destruct (co_pair _ Hcfg) as [H1' H2']. congruence.
    + rewrite Ha in Hp. destruct (ConnectParams read _) as [q r'] eqn:E. cbn in Hp. subst r'.
      apply ConnectParams_serial in E. cbn in E, Hserial. rewrite E, Hserial in Hb. by destruct (co_serial _ Hcfg).
  - exact (NewNATSClient_link _ _ _ _ Hn).
  - destruct n as [n|]; [|done]. intros ? [= <-]. by apply NewNATSClient_built in Hn as [-> _].
Qed.

(** start-up panics only for a telemetry queue that is too large to allocate,
    and when it succeeds the daemon is sound: the
    serial is not blank and bound to the client certificate, every queue,
    timeout and limit is positive, no method limit exceeds the absolute one nor
    that one the size of a frame, the limits the validators use are the
    handler's, the trace URL is https without credentials, the request manager
    starts in an initial state of the concurrent model, the reconnect loop can
    fail only on a broken CA file, and the NATS link counts as connected
    exactly when there is a client. *)
Theorem startup_sound getenv configPath :
  match main_startup url_Parse NewDiskOperationStore getenv configPath with
  | None => exists c cfg, LoadConfig configPath = Ok c /\ Config_Validate c = Ok cfg /\ telemetry_too_large (Queues cfg)
  | Some (Err _) => True
  | Some (Ok (cfg, app, h)) => daemon_ok cfg app h
  end.
Proof.
  unfold main_startup. destruct (LoadConfig configPath) as [c|] eqn:Hc; [|done].
  destruct (Config_Validate c) as [c'|] eqn:Hv; [|done]. cbn [wrap_err].
  destruct (LoadSerialFromMapping _) as [serial|] eqn:Hs; [|done]. cbn [wrap_err].
  destruct (Config_ValidateSerialBinding (set_serial serial c')) as [u|] eqn:Hb; [|done].
  destruct (LoadCacheTTLConfigFromEnv getenv) as [ttl|]; [|done]. cbn [wrap_err].
  pose proof (initializeComponents_ok getenv (set_serial serial c') ttl (checked_ok _ _ _ _ _ Hv Hs Hb)) as Hi.
  destruct (initializeComponents _ _ _ _ _) as [[app|e]|]; cbn [mbind option_bind]; cbn [wrap_err]; [done..|].
  by exists c, c'.
Qed.

End StartupLaws.
