(* ===== verification/ManagerInv.v ===== *)
(** * The invariant of the request manager

    [inv x m uu fr]: what holds of the manager's state [m], of the identifiers
    [uu] issued so far and of the suspended calls [fr] between two critical
    sections.  Inside a section the clauses may fail for the one transaction
    [x] the section is about, if any.  One lemma per operation
    shows that it is kept. *)

From S2P Require Import Prelude GoTime Scheduler Json Rpc RequestKey Transaction Cache Store Manager ManagerSteps.
Import RequestManager.

Section Inv.
Context {S : Type} `{OutboundScheduler S}.

Implicit Types (m : t S) (tx : Transaction) (id : string) (fr : list frame) (uu : gset string).

(** In flight or about to be: the states a handoff can meet. *)
Definition dispatched (s : TransactionState) : bool :=
  match s with TxPendingPublish | TxInFlight => true | _ => false end.

(** A reply may be the transaction's end: a timeout only once it is in flight. *)
Definition reply_fits (tx : Transaction) (p : PendingReply) : Prop :=
  terminal (pr_State p) = true /\ (pr_State p = TxTimedOut -> tx_State tx = TxInFlight).

Record tx_ok m uu id tx : Prop := {
  tx_id : tx_RPCID tx = id;
  tx_id_nonempty : id <> "";
  tx_live : terminal (tx_State tx) = false;
  tx_issued : id ∈ uu;
  tx_key : tx_RespondToCloud tx = true -> tx_RequestKey tx <> "";
  tx_active : tx_RequestKey tx <> "" -> activeCloudRequests m !! tx_RequestKey tx = Some id;
  tx_deadline : preflight (tx_State tx) = true -> tx_ResponseDeadline tx = zero_time;
  tx_dispatch_timer : tx_DispatchTimer tx = None;
  tx_timer : forall h, tx_ResponseTimer tx = Some h ->
    exists tm, timers m !! h = Some tm /\ tm_rpcID tm = id;
}.

(** The clauses that a section may suspend for its own transaction. *)
Record tx_settled m fr id tx : Prop := {
  tx_pending : forall p, pendingReplies m !! id = Some p ->
    reply_fits tx p /\
    (preflight (tx_State tx) = true \/ tx_HandoffInProgress tx = true) /\
    (tx_HandoffInProgress tx = false -> pr_State p = TxCompleted);
  tx_armed : tx_State tx = TxInFlight -> tx_HandoffInProgress tx = false ->
    exists h tm, tx_ResponseTimer tx = Some h /\ timers m !! h = Some tm /\
      (tm_status tm = TimerArmed /\ tm_deadline tm <= tx_ResponseDeadline tx \/
       tm_status tm = TimerFired);
  tx_handoff : tx_HandoffInProgress tx = true ->
    dispatched (tx_State tx) = true /\ exists f, f ∈ fr /\ frame_rpc f = Some id;
}.

(** An identifier that no transaction has. *)
Record not_a_transaction (live past : gmap string Transaction) (o : string) : Prop := {
  op_nonempty : o <> "";
  op_not_live : live !! o = None;
  op_not_past : past !! o = None;
}.
Definition operation_id m := not_a_transaction (transactionsByRPCID m) (detached m).

(** A frame and the transaction it will touch. *)
Definition frame_ok (x : option string) m uu (f : frame) : Prop :=
  match early f with
  | Some (r, o) =>
      r ∈ uu /\ o ∈ uu /\ operation_id m o /\ is_Some (deref r m) /\
      (x <> Some r -> forall tx, transactionsByRPCID m !! r = Some tx ->
         tx_HandoffInProgress tx = true /\ activeStateTx (lock m) = r /\
         activeStateOwner (lock m) = LockTransferPending)
  | None =>
      match late f with
      | Some (r, p) =>
          r ∈ uu /\ terminal (pr_State p) = true /\
          (x <> Some r -> forall tx, transactionsByRPCID m !! r = Some tx ->
             tx_HandoffInProgress tx = true /\ activeStateTx (lock m) <> r /\ reply_fits tx p)
      | None => True
      end
  end.

Record lock_ok (x : option string) m uu : Prop := {
  lock_held : stateLock (lock m) = negb (bool_decide (activeStateOwner (lock m) = LockNone));
  lock_free : activeStateTx (lock m) = "" <-> activeStateOwner (lock m) = LockNone;
  lock_rpc : activeStateOwner (lock m) = LockOwnedByRPC -> x <> Some (activeStateTx (lock m)) ->
    exists tx, transactionsByRPCID m !! activeStateTx (lock m) = Some tx /\
               tx_HandoffInProgress tx = false;
  lock_transfer : activeStateOwner (lock m) = LockTransferPending -> x <> Some (activeStateTx (lock m)) ->
    exists tx, transactionsByRPCID m !! activeStateTx (lock m) = Some tx /\
               tx_HandoffInProgress tx = true;
  lock_operation : activeStateOwner (lock m) = LockOwnedByOperation ->
    activeStateTx (lock m) ∈ uu /\ operation_id m (activeStateTx (lock m));
}.

Record inv (x : option string) m uu fr : Prop := {
  inv_tx : forall id tx, transactionsByRPCID m !! id = Some tx -> tx_ok m uu id tx;
  inv_settled : forall id tx, transactionsByRPCID m !! id = Some tx -> x <> Some id -> tx_settled m fr id tx;
  inv_active : forall k id, activeCloudRequests m !! k = Some id ->
    k <> "" /\ exists tx, transactionsByRPCID m !! id = Some tx /\ tx_RequestKey tx = k;
  inv_pending : forall id p, pendingReplies m !! id = Some p ->
    x <> Some id -> is_Some (transactionsByRPCID m !! id);
  inv_names : "" ∉ uu;
  inv_cache : cache m !! "" = None;
  inv_timer : forall h tm, timers m !! h = Some tm ->
    tm_rpcID tm ∈ uu /\
    (forall tx, transactionsByRPCID m !! tm_rpcID tm = Some tx -> tx_State tx = TxInFlight);
  inv_detached : forall id tx, detached m !! id = Some tx ->
    transactionsByRPCID m !! id = None /\ terminal (tx_State tx) = true /\ id ∈ uu;
  inv_pushed : NoDup (map fst (pushed m)) /\
    forall id, id ∈ map fst (pushed m) -> is_Some (detached m !! id);
  inv_crashed : crashed m = false;
  inv_capacity : Z.of_nat (size (transactionsByRPCID m)) <= Z.max 0 (maxConcurrentRequests (cfg m));
  inv_lock : lock_ok x m uu;
  inv_frames : Forall (frame_ok x m uu) fr;
  inv_once : NoDup (omap frame_rpc fr);
}.

Lemma inv_weaken id m uu fr : inv None m uu fr -> inv (Some id) m uu fr.
Proof.
  intros I. split; try apply I.
  - intros. by apply I.
  - intros. by eapply I.
  - destruct (inv_lock _ _ _ _ I). split; auto.
  - eapply Forall_impl; [apply (inv_frames _ _ _ _ I)|]. intros f. unfold frame_ok.
    destruct (early f) as [[r o]|].
    + intros (? & ? & ? & ? & Hf). split_and!; auto.
    + destruct (late f) as [[r p]|]; [|done]. intros (? & ? & Hf). split_and!; auto.
Qed.

(** The known identifiers only grow, those of operations stay apart. *)
Definition same_ids m m' : Prop :=
  (forall i, deref i m = None -> deref i m' = None) /\
  (forall i, is_Some (deref i m) -> is_Some (deref i m')).

Lemma deref_None i m :
  deref i m = None <-> transactionsByRPCID m !! i = None /\ detached m !! i = None.
Proof.
  unfold deref. destruct (transactionsByRPCID m !! i); split; try done; [by intros [? _]|by intros [_ ?]].
Qed.

Lemma operation_id_deref m o : operation_id m o <-> o <> "" /\ deref o m = None.
Proof. rewrite deref_None. split; [by intros []|]. by intros (? & ? & ?). Qed.

Lemma same_ids_operation m m' o : same_ids m m' -> operation_id m o -> operation_id m' o.
Proof. rewrite !operation_id_deref. intros [Hs _] [? ?]. auto. Qed.

Lemma deref_live i tx m : transactionsByRPCID m !! i = Some tx -> deref i m = Some tx.
Proof. unfold deref. by intros ->. Qed.

Lemma same_ids_update id f m : same_ids m (update_tx id f m).
Proof.
  assert (Hiff : forall i, deref i m = None <-> deref i (update_tx id f m) = None).
  { intros i. rewrite !deref_None. unfold update_tx.
    destruct (transactionsByRPCID m !! id) eqn:Ht; simpl.
    - destruct (decide (i = id)) as [->|Hn]; [|by rewrite lookup_insert_ne].
      rewrite lookup_insert_eq, Ht. split; intros [? _]; done.
    - destruct (decide (i = id)) as [->|Hn]; [|by rewrite lookup_alter_ne].
      rewrite lookup_alter_eq. destruct (detached m !! id); simpl; (split; intros [? ?]; done). }
  split; [intros i; apply Hiff|]. intros i [t Ht].
  destruct (deref i (update_tx id f m)) eqn:Hd; [by eexists|]. apply Hiff in Hd. congruence.
Qed.

(** Inside a section: what may be done to the exempted transaction. *)

Lemma inv_update id tx f m uu fr :
  inv (Some id) m uu fr -> transactionsByRPCID m !! id = Some tx ->
  tx_RPCID (f tx) = tx_RPCID tx -> tx_RequestKey (f tx) = tx_RequestKey tx ->
  tx_RespondToCloud (f tx) = tx_RespondToCloud tx -> tx_DispatchTimer (f tx) = None ->
  (forall h, tx_ResponseTimer (f tx) = Some h ->
     exists tm, timers m !! h = Some tm /\ tm_rpcID tm = id) ->
  terminal (tx_State (f tx)) = false ->
  (preflight (tx_State (f tx)) = true -> tx_ResponseDeadline (f tx) = zero_time) ->
  (tx_State tx = TxInFlight -> tx_State (f tx) = TxInFlight) ->
  inv (Some id) (update_tx id f m) uu fr.
Proof.
  intros I Htx Hid Hkey Hresp Hdt Hrt Hlive Hdl Hfl.
  pose proof (same_ids_update id f m) as Hids. revert Hids. unfold update_tx. rewrite Htx.
  set (m' := set_transactions _ m). intros Hids.
  assert (Hne : forall i, i <> id -> transactionsByRPCID m' !! i = transactionsByRPCID m !! i)
    by (intros; by apply lookup_insert_ne).
  assert (Heq : transactionsByRPCID m' !! id = Some (f tx)) by apply lookup_insert_eq.
  pose proof (inv_tx _ _ _ _ I _ _ Htx) as T.
  assert (Hdom : forall i t, transactionsByRPCID m !! i = Some t ->
            exists t', transactionsByRPCID m' !! i = Some t' /\ tx_RequestKey t' = tx_RequestKey t).
  { intros i t Hi. destruct (decide (i = id)) as [->|]; [|rewrite Hne by done; by exists t].
    rewrite Heq. simplify_eq. by eexists. }
  split; try apply I.
  - intros i t Hi. destruct (decide (i = id)) as [->|Hn].
    + rewrite Heq in Hi. injection Hi as <-. destruct T. split; simpl; rewrite ?Hid, ?Hkey, ?Hresp; auto.
    + rewrite Hne in Hi by done. by destruct (inv_tx _ _ _ _ I _ _ Hi); split.
  - intros i t Hi Hn. rewrite Hne in Hi by congruence.
    by destruct (inv_settled _ _ _ _ I _ _ Hi Hn); split.
  - intros k i Hk. destruct (inv_active _ _ _ _ I _ _ Hk) as (? & t & Ht & <-).
    split; [done|]. by apply Hdom.
  - intros i p Hp Hn. destruct (inv_pending _ _ _ _ I _ _ Hp Hn) as [t Ht].
    apply Hdom in Ht as (t' & -> & _). done.
  - intros h tm Hh. destruct (inv_timer _ _ _ _ I _ _ Hh) as [Hu Hs]. split; [done|].
    intros t Ht. destruct (decide (tm_rpcID tm = id)) as [He|Hn].
    + rewrite He, Heq in Ht. injection Ht as <-. apply Hfl, Hs. by rewrite He.
    + rewrite Hne in Ht by done. by apply Hs.
  - intros i t Hi. destruct (inv_detached _ _ _ _ I _ _ Hi) as (Hnone & ? & ?).
    split; [|done]. rewrite Hne; [done|]. congruence.
  - simpl. rewrite map_size_insert_Some by done. apply I.
  - destruct (inv_lock _ _ _ _ I) as [A B C D E]. split; try done; simpl.
    + intros Ho Hn. rewrite Hne by congruence. by apply C.
    + intros Ho Hn. rewrite Hne by congruence. by apply D.
    + intros Ho. destruct (E Ho). split; [done|]. by eapply same_ids_operation.
  - eapply Forall_impl; [apply (inv_frames _ _ _ _ I)|]. intros g. unfold frame_ok.
    destruct (early g) as [[r o]|].
    + intros (? & ? & ? & ? & Hg). split_and!; try done.
      { by eapply same_ids_operation. } { by apply Hids. }
      intros Hn t. rewrite Hne by congruence.
      by apply Hg.
    + destruct (late g) as [[r p]|]; [|done]. intros (? & ? & Hg). split_and!; try done.
      intros Hn t. rewrite Hne by congruence. by apply Hg.
Qed.

Lemma inv_set_pending id p m uu fr :
  inv (Some id) m uu fr -> (forall i, i <> id -> p !! i = pendingReplies m !! i) ->
  inv (Some id) (set_pending p m) uu fr.
Proof.
  intros I Hp. split; try apply I.
  - intros i tx Hi. by destruct (inv_tx _ _ _ _ I _ _ Hi); split.
  - intros i tx Hi Hn. destruct (inv_settled _ _ _ _ I _ _ Hi Hn). split; try done.
    simpl. intros q. rewrite Hp by congruence. auto.
  - simpl. intros i q. destruct (decide (i = id)) as [->|Hn]; [done|].
    rewrite Hp by done. apply I.
  - by destruct (inv_lock _ _ _ _ I); split.
Qed.

Lemma inv_delete_pending id m uu fr :
  inv (Some id) m uu fr -> inv (Some id) (set_pending (delete id (pendingReplies m)) m) uu fr.
Proof. intros I. apply inv_set_pending; [done|]. intros. by apply lookup_delete_ne. Qed.

Lemma inv_set_cache x c m uu fr :
  inv x m uu fr -> c !! "" = None -> inv x (set_cache c m) uu fr.
Proof.
  intros I Hc. split; try apply I; try done.
  - intros i tx Hi. by destruct (inv_tx _ _ _ _ I _ _ Hi); split.
  - intros i tx Hi Hn. by destruct (inv_settled _ _ _ _ I _ _ Hi Hn); split.
  - by destruct (inv_lock _ _ _ _ I); split.
Qed.

Lemma inv_set_scheduler x s m uu fr : inv x m uu fr -> inv x (set_scheduler s m) uu fr.
Proof.
  intros I. split; try apply I; try done.
  - intros i tx Hi. by destruct (inv_tx _ _ _ _ I _ _ Hi); split.
  - intros i tx Hi Hn. by destruct (inv_settled _ _ _ _ I _ _ Hi Hn); split.
  - by destruct (inv_lock _ _ _ _ I); split.
Qed.

(** Timers may be added for a transaction in flight, and change their status
    as long as a settled transaction keeps one that is armed or has fired. *)
Definition timers_advance (x : option string) m (uu : gset string) (tms : list timer) : Prop :=
  (forall h tm, timers m !! h = Some tm ->
     exists tm', tms !! h = Some tm' /\ tm_rpcID tm' = tm_rpcID tm /\
       tm_deadline tm' = tm_deadline tm /\
       (tm_status tm' = tm_status tm \/ tm_status tm' = TimerFired \/ x = Some (tm_rpcID tm) \/
        forall tx, transactionsByRPCID m !! tm_rpcID tm = Some tx ->
          tx_HandoffInProgress tx = true)) /\
  (forall h tm', tms !! h = Some tm' ->
     (exists tm, timers m !! h = Some tm /\ tm_rpcID tm' = tm_rpcID tm) \/
     (tm_rpcID tm' ∈ uu /\
      forall tx, transactionsByRPCID m !! tm_rpcID tm' = Some tx -> tx_State tx = TxInFlight)).

Lemma inv_set_timers x tms m uu fr :
  inv x m uu fr -> timers_advance x m uu tms -> inv x (set_timers tms m) uu fr.
Proof.
  intros I [Hf Hb]. split; try apply I; try done.
  - intros i tx Hi. destruct (inv_tx _ _ _ _ I _ _ Hi). split; try done.
    intros h Hh. destruct (tx_timer0 h Hh) as (tm & Htm & Hr).
    destruct (Hf _ _ Htm) as (tm' & ? & ? & _). exists tm'. split; [done|congruence].
  - intros i tx Hi Hn. destruct (inv_settled _ _ _ _ I _ _ Hi Hn) as [A B C]. split; try done.
    intros Hs Hh. destruct (B Hs Hh) as (h & tm & Hrt & Htm & Hst).
    destruct (tx_timer _ _ _ _ (inv_tx _ _ _ _ I _ _ Hi) _ Hrt) as (? & ? & Hr). simplify_eq.
    destruct (Hf _ _ Htm) as (tm' & ? & Hr' & Hd & Hs'). exists h, tm'. split_and!; [done..|].
    destruct Hs' as [->|[->|[->|Hx]]]; [by rewrite Hd | by right | done |].
    specialize (Hx _ Hi). congruence.
  - simpl. intros h tm' Hh. destruct (Hb _ _ Hh) as [(tm & Htm & ->)|?]; [|done].
    by apply (inv_timer _ _ _ _ I _ _ Htm).
  - by destruct (inv_lock _ _ _ _ I); split.
Qed.

Lemma inv_Stop id h m uu fr :
  inv (Some id) m uu fr ->
  (forall k, h = Some k -> exists tm, timers m !! k = Some tm /\ tm_rpcID tm = id) ->
  inv (Some id) (Stop h m) uu fr.
Proof.
  intros I Hh. destruct h as [k|]; [|done]. destruct (Hh k eq_refl) as (tk & Hk & Hr).
  simpl. apply inv_set_timers; [done|].
  assert (Hstop : forall tm, tm_rpcID (stop_timer tm) = tm_rpcID tm /\
                        tm_deadline (stop_timer tm) = tm_deadline tm)
    by (intros tm; unfold stop_timer; by destruct (tm_status tm)).
  split.
  - intros j tm Hj. destruct (decide (j = k)) as [->|Hn].
    + exists (stop_timer tm). rewrite list_lookup_alter_eq, Hj. simplify_eq.
      destruct (Hstop tk) as [-> ->]. split_and!; auto.
    + exists tm. rewrite list_lookup_alter_ne by done. split_and!; auto.
  - intros j tm'. destruct (decide (j = k)) as [->|Hn].
    + rewrite list_lookup_alter_eq, Hk. simpl. intros [= <-]. left. exists tk. split; [done|].
      apply Hstop.
    + rewrite list_lookup_alter_ne by done. intros. left. by exists tm'.
Qed.

Lemma inv_AfterFunc id now d m uu fr :
  inv (Some id) m uu fr -> id ∈ uu ->
  (forall tx, transactionsByRPCID m !! id = Some tx -> tx_State tx = TxInFlight) ->
  inv (Some id) (AfterFunc now d id m).2 uu fr.
Proof.
  intros I Hu Hs. simpl. apply inv_set_timers; [done|]. split.
  - intros h tm Hh. exists tm. rewrite lookup_app_l by (by eapply lookup_lt_Some). auto.
  - intros h tm' Hh. apply lookup_app_Some in Hh as [Hh|[Hle Hh]]; [left; by exists tm'|].
    right. apply list_lookup_singleton_Some in Hh as [_ <-]. done.
Qed.

(** The owner may change hands while the exempted transaction holds the lock. *)

Lemma owner_held x m uu fr :
  inv x m uu fr -> activeStateTx (lock m) <> "" ->
  stateLock (lock m) = true /\ activeStateOwner (lock m) <> LockNone.
Proof.
  intros I Ha. destruct (inv_lock _ _ _ _ I) as [A B _ _ _]. rewrite B in Ha. rewrite A.
  split; [|done]. by rewrite bool_decide_eq_false_2.
Qed.

Lemma inv_set_owner id new owner m uu fr :
  inv (Some id) m uu fr -> id <> "" -> activeStateTx (lock m) = id ->
  (new = id /\ (owner = LockOwnedByRPC \/ owner = LockTransferPending) \/
   owner = LockOwnedByOperation /\ new ∈ uu /\ operation_id m new) ->
  inv (Some id) (set_owner new owner m) uu fr.
Proof.
  intros I Hid Ha Hnew.
  destruct (owner_held _ _ _ _ I ltac:(congruence)) as [Hheld Hown].
  split; try apply I.
  - intros i tx Hi. by destruct (inv_tx _ _ _ _ I _ _ Hi); split.
  - intros i tx Hi Hn. by destruct (inv_settled _ _ _ _ I _ _ Hi Hn); split.
  - split; simpl; rewrite ?Hheld.
    + by destruct Hnew as [(_ & [-> | ->])|(-> & _)].
    + destruct Hnew as [(-> & [-> | ->])|(-> & _ & [? _ _])]; split; done.
    + intros -> Hn. by destruct Hnew as [(-> & _)|(? & _)].
    + intros -> Hn. by destruct Hnew as [(-> & _)|(? & _)].
    + intros ->. destruct Hnew as [(_ & [? | ?])|(_ & ? & ?)]; done.
  - eapply Forall_impl; [apply (inv_frames _ _ _ _ I)|]. intros f. unfold frame_ok.
    destruct (early f) as [[r o]|].
    + intros (? & ? & ? & ? & Hf). split_and!; auto. intros Hn tx Htx.
      destruct (Hf Hn tx Htx) as (? & ? & ?). congruence.
    + destruct (late f) as [[r p]|]; [|done]. intros (? & ? & Hf). split_and!; auto.
      intros Hn tx Htx. destruct (Hf Hn tx Htx) as (? & ? & ?). split_and!; try done. simpl.
      destruct Hnew as [(-> & _)|(_ & _ & [_ Hnone _])]; [congruence|].
      intros ->. simpl in Htx. congruence.
Qed.

(** ** Leaving a section *)

Lemma inv_settle id m uu fr :
  inv (Some id) m uu fr ->
  (forall tx, transactionsByRPCID m !! id = Some tx -> tx_settled m fr id tx) ->
  (is_Some (pendingReplies m !! id) -> is_Some (transactionsByRPCID m !! id)) ->
  (activeStateTx (lock m) = id -> activeStateOwner (lock m) = LockOwnedByRPC ->
   exists tx, transactionsByRPCID m !! id = Some tx /\ tx_HandoffInProgress tx = false) ->
  (activeStateTx (lock m) = id -> activeStateOwner (lock m) = LockTransferPending ->
   exists tx, transactionsByRPCID m !! id = Some tx /\ tx_HandoffInProgress tx = true) ->
  (forall tx f, transactionsByRPCID m !! id = Some tx -> f ∈ fr -> frame_rpc f = Some id ->
     frame_ok None m uu f) ->
  inv None m uu fr.
Proof.
  intros I Hset Hpend Hrpc Htr Hfr. split; try apply I.
  - intros i tx Hi _. destruct (decide (i = id)) as [->|Hn]; [by apply Hset|].
    apply I; [done|congruence].
  - intros i p Hp _. destruct (decide (i = id)) as [->|Hn]; [apply Hpend; by exists p|].
    eapply I; [done|congruence].
  - destruct (inv_lock _ _ _ _ I) as [A B C D E]. split; try done.
    + intros Ho _. destruct (decide (activeStateTx (lock m) = id)) as [He|Hn].
      * rewrite He. by apply Hrpc.
      * apply C; [done|congruence].
    + intros Ho _. destruct (decide (activeStateTx (lock m) = id)) as [He|Hn].
      * rewrite He. by apply Htr.
      * apply D; [done|congruence].
  - pose proof (inv_frames _ _ _ _ I) as HF. rewrite Forall_forall in HF |- *.
    intros f Hf. specialize (HF f Hf). unfold frame_ok in *.
    destruct (early f) as [[r o]|] eqn:He.
    + destruct HF as (? & ? & ? & ? & HF). split_and!; auto. intros _ tx Htx.
      destruct (decide (r = id)) as [->|Hn]; [|apply HF; [congruence|done]].
      assert (frame_rpc f = Some id) as Hr by (unfold frame_rpc; by rewrite He).
      specialize (Hfr tx f Htx Hf Hr). rewrite He in Hfr.
      destruct Hfr as (_ & _ & _ & _ & Hfr). by apply Hfr.
    + destruct (late f) as [[r p]|] eqn:Hl; [|done]. destruct HF as (? & ? & HF).
      split_and!; auto. intros _ tx Htx.
      destruct (decide (r = id)) as [->|Hn]; [|apply HF; [congruence|done]].
      assert (frame_rpc f = Some id) as Hr by (unfold frame_rpc; by rewrite He, Hl).
      specialize (Hfr tx f Htx Hf Hr). rewrite He, Hl in Hfr.
      destruct Hfr as (_ & _ & Hfr). by apply Hfr.
Qed.

(** A transaction that is not in the map has nothing to settle. *)
Lemma inv_settle_gone id m uu fr :
  inv (Some id) m uu fr -> transactionsByRPCID m !! id = None ->
  pendingReplies m !! id = None -> activeStateTx (lock m) <> id -> inv None m uu fr.
Proof.
  intros I Hn Hp Ha. apply (inv_settle id); try done.
  - intros tx Htx. congruence.
  - rewrite Hp. by intros [].
  - intros tx f Htx. congruence.
Qed.

(** What leaving the map does to the state, field by field. *)
Record dropped id tx' m m' : Prop := {
  dr_live : transactionsByRPCID m' = delete id (transactionsByRPCID m);
  dr_detached : detached m' = <[id := tx']> (detached m);
  dr_active : forall k i, activeCloudRequests m' !! k = Some i <->
                activeCloudRequests m !! k = Some i /\ i <> id;
  dr_pending : pendingReplies m' = delete id (pendingReplies m);
  dr_lock : activeStateTx (lock m) = id /\ lock m' = mkLock false "" LockNone (releasingOperationID (lock m)) \/
            activeStateTx (lock m) <> id /\ lock m' = lock m;
  dr_others : cfg m' = cfg m /\ cache m' = cache m /\ timers m' = timers m /\
              pushed m' = pushed m /\ crashed m' = crashed m;
}.

(** The duplicate filter has the key of the transaction and of no other. *)
Lemma active_without id tx m uu fr k i :
  inv (Some id) m uu fr -> transactionsByRPCID m !! id = Some tx ->
  (if String.eqb (tx_RequestKey tx) "" then activeCloudRequests m
   else delete (tx_RequestKey tx) (activeCloudRequests m)) !! k = Some i <->
  activeCloudRequests m !! k = Some i /\ i <> id.
Proof.
  intros I Htx. pose proof (inv_tx _ _ _ _ I _ _ Htx) as T.
  assert (Hown : activeCloudRequests m !! k = Some id -> tx_RequestKey tx = k).
  { intros Hk. destruct (inv_active _ _ _ _ I _ _ Hk) as (_ & t & Ht & <-). congruence. }
  destruct (String.eqb_spec (tx_RequestKey tx) "") as [He|Hne].
  - split; [|by intros [? _]]. intros Hk. split; [done|]. intros ->.
    destruct (inv_active _ _ _ _ I _ _ Hk) as [? _]. rewrite (Hown Hk) in He. done.
  - rewrite lookup_delete_Some. split; intros [Hk Hi].
    + split; [done|]. intros ->. by apply Hk, Hown.
    + split; [|done]. intros <-. rewrite (tx_active _ _ _ _ T Hne) in Hk. congruence.
Qed.

Lemma drop_dropped id tx tx' m uu fr :
  inv (Some id) m uu fr -> transactionsByRPCID m !! id = Some tx ->
  tx_RequestKey tx' = tx_RequestKey tx ->
  dropped id tx' m (release_if_owner id (drop_tx id tx' m)).
Proof.
  intros I Htx Hkey. pose proof (fun k i => active_without id tx m uu fr k i I Htx) as Hact.
  pose proof (tx_id_nonempty _ _ _ _ (inv_tx _ _ _ _ I _ _ Htx)) as Hid.
  unfold release_if_owner, drop_tx, unlock_state, set_owner. rewrite Hkey.
  destruct (String.eqb_spec (activeStateTx (lock m)) id) as [Ha|Ha];
    destruct (String.eqb (tx_RequestKey tx) ""); simpl;
    (rewrite (proj2 (String.eqb_eq _ _) Ha) || rewrite (proj2 (String.eqb_neq _ _) Ha));
    try (destruct (owner_held _ _ _ _ I) as [-> _]; [congruence|]); by split; auto.
Qed.

Lemma dropped_operation_id id tx' m m' o :
  dropped id tx' m m' -> is_Some (transactionsByRPCID m !! id) -> operation_id m o -> operation_id m' o.
Proof.
  intros D [tx Htx] [? Ho ?]. assert (o <> id) by congruence.
  split; rewrite ?(dr_live _ _ _ _ D), ?(dr_detached _ _ _ _ D);
    [done|by rewrite lookup_delete_ne|by rewrite lookup_insert_ne].
Qed.

Lemma dropped_deref id tx' m m' i :
  dropped id tx' m m' -> is_Some (deref i m) -> is_Some (deref i m').
Proof.
  intros D. unfold deref. rewrite (dr_live _ _ _ _ D), (dr_detached _ _ _ _ D).
  destruct (decide (i = id)) as [->|Hn].
  - rewrite lookup_delete_eq, lookup_insert_eq. by eexists.
  - by rewrite lookup_delete_ne, lookup_insert_ne.
Qed.

Lemma dropped_live id tx' m m' i t :
  dropped id tx' m m' ->
  transactionsByRPCID m' !! i = Some t <-> i <> id /\ transactionsByRPCID m !! i = Some t.
Proof. intros D. rewrite (dr_live _ _ _ _ D), lookup_delete_Some. split; intros [? ?]; auto. Qed.

Lemma dropped_lock_ok id tx tx' m m' uu fr :
  inv (Some id) m uu fr -> transactionsByRPCID m !! id = Some tx -> dropped id tx' m m' ->
  lock_ok None m' uu.
Proof.
  intros I Htx Dr. destruct (inv_lock _ _ _ _ I) as [A B C D E].
  destruct (dr_lock _ _ _ _ Dr) as [[Ha Hl]|[Ha Hl]]; split; rewrite Hl; simpl; try done.
  - intros Ho _. destruct (C Ho) as (t & Ht & ?); [congruence|].
    exists t. rewrite (dropped_live _ _ _ _ _ _ Dr). auto.
  - intros Ho _. destruct (D Ho) as (t & Ht & ?); [congruence|].
    exists t. rewrite (dropped_live _ _ _ _ _ _ Dr). auto.
  - intros Ho. destruct (E Ho) as [? Hx]. split; [done|]. eapply dropped_operation_id; eauto.
Qed.

Lemma dropped_frame_ok id tx tx' m m' uu fr f :
  inv (Some id) m uu fr -> transactionsByRPCID m !! id = Some tx -> dropped id tx' m m' ->
  frame_ok (Some id) m uu f -> frame_ok None m' uu f.
Proof.
  intros I Htx Dr. unfold frame_ok.
  pose proof (fun o => dropped_operation_id _ _ _ _ o Dr (mk_is_Some _ _ Htx)) as Hop.
  pose proof (fun i => dropped_deref _ _ _ _ i Dr) as Hder.
  destruct (early f) as [[r o]|].
  - intros (? & ? & ? & ? & Hf). split_and!; auto.
    intros _ t (Hn & Ht)%(dropped_live _ _ _ _ _ _ Dr).
    destruct (Hf ltac:(congruence) t Ht) as (? & Ha & ?).
    destruct (dr_lock _ _ _ _ Dr) as [[? _]|[_ ->]]; [congruence|auto].
  - destruct (late f) as [[r p]|]; [|done]. intros (? & ? & Hf). split_and!; auto.
    intros _ t (Hn & Ht)%(dropped_live _ _ _ _ _ _ Dr).
    destruct (Hf ltac:(congruence) t Ht) as (? & Ha & ?). split_and!; try done.
    destruct (dr_lock _ _ _ _ Dr) as [[_ ->]|[_ ->]]; [simpl|done].
    pose proof (tx_id_nonempty _ _ _ _ (inv_tx _ _ _ _ I _ _ Ht)). congruence.
Qed.

Lemma dropped_detached id tx tx' m m' uu fr i t :
  inv (Some id) m uu fr -> transactionsByRPCID m !! id = Some tx -> dropped id tx' m m' ->
  terminal (tx_State tx') = true -> detached m' !! i = Some t ->
  transactionsByRPCID m' !! i = None /\ terminal (tx_State t) = true /\ i ∈ uu.
Proof.
  intros I Htx Dr Hterm. rewrite (dr_detached _ _ _ _ Dr), (dr_live _ _ _ _ Dr), lookup_insert_Some.
  intros [[<- <-]|[Hn Hd]].
  - rewrite lookup_delete_eq. split_and!; [done|done|apply (inv_tx _ _ _ _ I _ _ Htx)].
  - destruct (inv_detached _ _ _ _ I _ _ Hd) as (? & ? & ?). by rewrite lookup_delete_ne by done.
Qed.

Lemma inv_dropped id tx tx' m m' uu fr :
  inv (Some id) m uu fr -> transactionsByRPCID m !! id = Some tx -> dropped id tx' m m' ->
  terminal (tx_State tx') = true -> inv None m' uu fr.
Proof.
  intros I Htx Dr Hterm. pose proof (fun i t => dropped_live _ _ _ _ i t Dr) as Hne.
  destruct (dr_others _ _ _ _ Dr) as (Hcfg & Hcache & Htms & Hpush & Hcr).
  split; rewrite ?Hcfg, ?Hcache, ?Htms, ?Hpush, ?Hcr; try apply I.
  - intros i t (Hn & Hi)%Hne. destruct (inv_tx _ _ _ _ I _ _ Hi). split; rewrite ?Htms; try done.
    intros Hk. apply (dr_active _ _ _ _ Dr). auto.
  - intros i t (Hn & Hi)%Hne _. destruct (inv_settled _ _ _ _ I _ _ Hi ltac:(congruence)) as [A B C].
    split; rewrite ?Htms; try done. intros p. rewrite (dr_pending _ _ _ _ Dr), lookup_delete_ne by done.
    apply A.
  - intros k i (Hk & Hn)%(dr_active _ _ _ _ Dr). destruct (inv_active _ _ _ _ I _ _ Hk) as (? & t & Ht & ?).
    split; [done|]. exists t. split; [|done]. by apply Hne.
  - intros i p. rewrite (dr_pending _ _ _ _ Dr), lookup_delete_Some. intros [Hn Hp] _.
    destruct (inv_pending _ _ _ _ I _ _ Hp) as [t Ht]; [congruence|]. exists t. apply Hne. auto.
  - intros h tm Hh. destruct (inv_timer _ _ _ _ I _ _ Hh) as [Hu Hs]. split; [done|].
    intros t (? & Ht)%Hne. by apply Hs.
  - intros i t Hd. by eapply dropped_detached.
  - destruct (inv_pushed _ _ _ _ I) as [Hnd Hin]. split; [done|]. intros i Hi.
    rewrite (dr_detached _ _ _ _ Dr). destruct (decide (i = id)) as [->|Hn];
      [rewrite lookup_insert_eq; by eexists|]. rewrite lookup_insert_ne by done. by apply Hin.
  - pose proof (inv_capacity _ _ _ _ I).
    rewrite (dr_live _ _ _ _ Dr), map_size_delete_Some by (by exists tx). lia.
  - by eapply dropped_lock_ok.
  - eapply Forall_impl; [apply (inv_frames _ _ _ _ I)|]. intros f. by eapply dropped_frame_ok.
Qed.

Lemma inv_drop id tx tx' m uu fr :
  inv (Some id) m uu fr -> transactionsByRPCID m !! id = Some tx ->
  tx_RequestKey tx' = tx_RequestKey tx -> terminal (tx_State tx') = true ->
  inv None (release_if_owner id (drop_tx id tx' m)) uu fr.
Proof. intros I Htx Hkey Hterm. eapply inv_dropped; [done|done| |done]. by eapply drop_dropped. Qed.

Lemma inv_push id tx payload m uu fr :
  inv None m uu fr -> is_Some (detached m !! id) -> id ∉ map fst (pushed m) ->
  inv None (push_response id tx payload m) uu fr.
Proof.
  intros I Hd Hn. unfold push_response. destruct (_ && _); [|done].
  destruct (scheduler m) as [s|]; [|done].
  set (msg := mkMsg _ _ _). apply (inv_set_scheduler _ (Some (os_Push s msg).1)) in I.
  split; try apply I; try done.
  - intros i t Hi. by destruct (inv_tx _ _ _ _ I _ _ Hi); split.
  - intros i t Hi Hx. by destruct (inv_settled _ _ _ _ I _ _ Hi Hx); split.
  - simpl. destruct (inv_pushed _ _ _ _ I) as [Hnd Hin]. rewrite map_app. split.
    + apply NoDup_app. split_and!; [done| |by apply NoDup_singleton].
      intros i Hi. simpl. rewrite list_elem_of_singleton. congruence.
    + intros i. rewrite elem_of_app. simpl. rewrite list_elem_of_singleton.
      intros [Hi| ->]; [by apply Hin|done].
  - by destruct (inv_lock _ _ _ _ I); split.
Qed.

(** ** [terminalTransition] *)

Lemma store_response_inv x now tx payload m uu fr :
  inv x m uu fr -> (tx_RespondToCloud tx = true -> tx_RequestKey tx <> "") ->
  inv x (store_response now tx payload m) uu fr.
Proof.
  intros I Hk. unfold store_response. destruct (_ && _) eqn:Hb; [|done].
  destruct payload as [p|]; [|done]. apply andb_true_iff in Hb as [_ Hr].
  apply inv_set_cache; [done|]. unfold TransactionCache.Set_.
  rewrite lookup_insert_ne by (by apply Hk). apply I.
Qed.

Lemma store_response_fields now tx payload m :
  let m' := store_response now tx payload m in
  transactionsByRPCID m' = transactionsByRPCID m /\ timers m' = timers m /\
  lock m' = lock m /\ pushed m' = pushed m /\ detached m' = detached m /\
  pendingReplies m' = pendingReplies m.
Proof. unfold store_response. destruct (_ && _), payload; done. Qed.

Lemma drop_release_fields id tx m :
  let m' := release_if_owner id (drop_tx id tx m) in
  detached m' = <[id := tx]> (detached m) /\ pushed m' = pushed m /\
  transactionsByRPCID m' = delete id (transactionsByRPCID m).
Proof.
  unfold release_if_owner, drop_tx, unlock_state. simpl.
  destruct (String.eqb (tx_RequestKey tx) ""); simpl;
    destruct (String.eqb (activeStateTx (lock m)) id); simpl;
    try destruct (stateLock (lock m)); done.
Qed.

(** A legal terminal transition restores the whole invariant. *)
Lemma terminal_inv id tx m now final payload uu fr :
  inv (Some id) m uu fr -> transactionsByRPCID m !! id = Some tx -> terminal final = true ->
  validateTransition (tx_State tx) final = None ->
  inv None (terminalTransition m now id final payload).1 uu fr /\
  (terminalTransition m now id final payload).2 = None.
Proof.
  intros I Htx Hfin Hval. unfold terminalTransition. rewrite Hfin, Htx, Hval. cbn [negb fst snd].
  split; [|done]. pose proof (inv_tx _ _ _ _ I _ _ Htx) as T.
  set (tx1 := set_Payload payload (set_State final tx)).
  assert (I1 : inv (Some id) (store_response now tx1 payload m) uu fr).
  { apply store_response_inv; [done|]. apply T. }
  destruct (store_response_fields now tx1 payload m) as (F1 & F2 & F3 & F4 & F5 & _).
  set (m1 := store_response now tx1 payload m) in *.
  assert (Hdt : tx_DispatchTimer tx1 = None) by apply T. rewrite Hdt. cbn [Stop].
  assert (I2 : inv (Some id) (Stop (tx_ResponseTimer tx1) m1) uu fr).
  { apply inv_Stop; [done|]. rewrite F2. apply T. }
  set (m2 := Stop (tx_ResponseTimer tx1) m1) in *.
  assert (transactionsByRPCID m2 = transactionsByRPCID m1 /\ pushed m2 = pushed m1 /\
          detached m2 = detached m1) as (G1 & G2 & G3)
    by (unfold m2, Stop; by destruct (tx_ResponseTimer tx1)).
  destruct (drop_release_fields id (clear_timers tx1) m2) as (D1 & D2 & _).
  apply inv_push.
  - eapply inv_drop; [done|by rewrite G1, F1|done|done].
  - rewrite D1, lookup_insert_eq. by eexists.
  - rewrite D2, G2, F4. intros Hin. destruct (inv_pushed _ _ _ _ I) as [_ Hp].
    destruct (Hp _ Hin) as [t Ht]. destruct (inv_detached _ _ _ _ I _ _ Ht) as [? _]. congruence.
Qed.

Lemma terminal_missing id m now final payload :
  transactionsByRPCID m !! id = None -> (terminalTransition m now id final payload).1 = m.
Proof. intros Hn. unfold terminalTransition. rewrite Hn. by destruct (negb _). Qed.

(** ** The operations with one section *)

Lemma settled_frames id tx m uu fr :
  inv None m uu fr -> transactionsByRPCID m !! id = Some tx -> tx_HandoffInProgress tx = false ->
  forall f, f ∈ fr -> frame_rpc f <> Some id.
Proof.
  intros I Htx Hh f Hf Hr. pose proof (inv_frames _ _ _ _ I) as HF. rewrite Forall_forall in HF.
  specialize (HF f Hf). unfold frame_ok, frame_rpc in *.
  destruct (early f) as [[r o]|]; [|destruct (late f) as [[r p]|]; [|done]]; simpl in Hr;
    injection Hr as ->.
  - destruct HF as (_ & _ & _ & _ & HF). destruct (HF ltac:(done) tx Htx) as (? & _). congruence.
  - destruct HF as (_ & _ & HF). destruct (HF ltac:(done) tx Htx) as (? & _). congruence.
Qed.

(** From the section of [id] back to all, when its handoff flag and the lock
    are as they were. *)
Lemma inv_resettle id tx tx' m m' uu fr :
  inv None m uu fr -> inv (Some id) m' uu fr ->
  transactionsByRPCID m !! id = Some tx -> transactionsByRPCID m' !! id = Some tx' ->
  lock m' = lock m -> tx_HandoffInProgress tx' = tx_HandoffInProgress tx ->
  (tx_State tx = TxInFlight -> tx_State tx' = TxInFlight) ->
  tx_settled m' fr id tx' -> inv None m' uu fr.
Proof.
  intros I I' Htx Htx' Hl Hh Hs Hset. apply (inv_settle id); try done.
  - intros t Ht. simplify_eq. done.
  - intros Ha Ho. rewrite Hl in *. exists tx'. split; [done|]. rewrite Hh.
    destruct (lock_rpc _ _ _ (inv_lock _ _ _ _ I) Ho ltac:(done)) as (t & Ht & ?).
    rewrite Ha in Ht. congruence.
  - intros Ha Ho. rewrite Hl in *. exists tx'. split; [done|]. rewrite Hh.
    destruct (lock_transfer _ _ _ (inv_lock _ _ _ _ I) Ho ltac:(done)) as (t & Ht & ?).
    rewrite Ha in Ht. congruence.
  - intros t f Ht Hf Hr. pose proof (inv_frames _ _ _ _ I) as HF. rewrite Forall_forall in HF.
    specialize (HF f Hf). pose proof (inv_frames _ _ _ _ I') as HF'. rewrite Forall_forall in HF'.
    specialize (HF' f Hf). unfold frame_ok, frame_rpc in *. rewrite Hl.
    destruct (early f) as [[r o]|]; [|destruct (late f) as [[r p]|]; [|done]]; simpl in Hr;
      injection Hr as ->.
    + destruct HF as (? & ? & ? & ? & HF), HF' as (? & ? & ? & ? & _). split_and!; auto.
      intros _ t' Ht'. simplify_eq. rewrite Hh. by apply HF.
    + destruct HF as (? & ? & HF). split_and!; auto. intros _ t' Ht'. simplify_eq.
      rewrite Hh. destruct (HF ltac:(done) tx Htx) as (? & ? & [? ?]). split_and!; try done.
      split; auto.
Qed.

Lemma validate_live s s' : validateTransition s s' = None -> terminal s = false.
Proof. by destruct s. Qed.

Lemma update_tx_live id tx f m :
  transactionsByRPCID m !! id = Some tx ->
  update_tx id f m = set_transactions (<[id := f tx]> (transactionsByRPCID m)) m.
Proof. intros Htx. unfold update_tx. by rewrite Htx. Qed.

(** Entering a state of the map: the section of a live transaction that changes state. *)
Lemma inv_set_State id tx s m uu fr :
  inv (Some id) m uu fr -> transactionsByRPCID m !! id = Some tx -> terminal s = false ->
  (s = TxInFlight \/ preflight (tx_State tx) = true) ->
  (tx_State tx = TxInFlight -> s = TxInFlight) ->
  inv (Some id) (update_tx id (set_State s) m) uu fr.
Proof.
  intros I Htx Hs Hp Hfl. pose proof (inv_tx _ _ _ _ I _ _ Htx) as T.
  eapply inv_update; try done; try apply T. simpl.
  destruct Hp as [->|Hp]; [done|]. intros _. by apply T.
Qed.

Lemma mark_inv to m id uu fr :
  (to = TxPreparingDispatch \/ to = TxPendingPublish) ->
  inv None m uu fr -> inv None (mark to m id).1 uu fr.
Proof.
  intros Hto I. unfold mark. destruct (transactionsByRPCID m !! id) as [tx|] eqn:Htx; [|done].
  destruct (validateTransition _ _) eqn:Hv; [done|]. cbn [fst].
  assert (tx_State tx = TxCreated \/ tx_State tx = TxPreparingDispatch) as Hst
    by (destruct Hto as [-> | ->], (tx_State tx); try done; auto).
  destruct (inv_settled _ _ _ _ I _ _ Htx ltac:(done)) as [A B C].
  assert (tx_HandoffInProgress tx = false) as Hh.
  { destruct (tx_HandoffInProgress tx); [|done]. destruct (C eq_refl) as [Hd _].
    by destruct Hst as [Hs|Hs]; rewrite Hs in Hd. }
  rewrite (update_tx_live _ _ _ _ Htx).
  eapply (inv_resettle id tx (set_State to tx) m); try done.
  - rewrite <- (update_tx_live _ _ _ _ Htx). eapply inv_set_State; [by apply inv_weaken|done|..].
    + by destruct Hto as [-> | ->].
    + right. by destruct Hst as [-> | ->].
    + by destruct Hst as [-> | ->].
  - apply lookup_insert_eq.
  - by destruct Hst as [-> | ->].
  - split; simpl.
    + intros p Hp. destruct (A p Hp) as (Hf & _ & Hc). specialize (Hc Hh). split_and!; try done.
      * split; [by rewrite Hc|]. by rewrite Hc.
      * left. by destruct Hto as [-> | ->].
    + by destruct Hto as [-> | ->].
    + by rewrite Hh.
Qed.

Lemma buffer_inv id tx r m uu fr :
  inv None m uu fr -> transactionsByRPCID m !! id = Some tx -> reply_fits tx r ->
  (preflight (tx_State tx) = true \/ tx_HandoffInProgress tx = true) ->
  (tx_HandoffInProgress tx = false -> pr_State r = TxCompleted) ->
  inv None (buffer_reply m id r).1 uu fr.
Proof.
  intros I Htx Hr Hst Hc. unfold buffer_reply.
  destruct (pendingReplies m !! id) as [q|] eqn:Hp; [done|]. cbn [fst].
  destruct (inv_settled _ _ _ _ I _ _ Htx ltac:(done)) as [A B C].
  eapply (inv_resettle id tx tx m); try done.
  - apply inv_set_pending; [by apply inv_weaken|]. intros. by apply lookup_insert_ne.
  - split; simpl; try done. intros p. rewrite lookup_insert_eq. intros [= <-]. done.
Qed.

Lemma MarkInFlight_inv m now id uu fr :
  inv None m uu fr -> inv None (MarkInFlight m now id).1 uu fr.
Proof.
  intros I. unfold MarkInFlight. destruct (transactionsByRPCID m !! id) as [tx|] eqn:Htx; [|done].
  destruct (validateTransition _ _) eqn:Hv; [done|].
  pose proof (inv_tx _ _ _ _ I _ _ Htx) as T.
  destruct (inv_settled _ _ _ _ I _ _ Htx ltac:(done)) as [A B C].
  assert (I1 : inv (Some id) (update_tx id (set_State TxInFlight) m) uu fr)
    by (eapply inv_set_State; [by apply inv_weaken|done|done|by left|done]).
  rewrite (update_tx_live _ _ _ _ Htx) in *. cbn [pendingReplies set_transactions].
  set (m1 := set_transactions _ m) in *.
  assert (Htx1 : transactionsByRPCID m1 !! id = Some (set_State TxInFlight tx))
    by apply lookup_insert_eq.
  destruct (pendingReplies m !! id) as [p|] eqn:Hp.
  - destruct (A p eq_refl) as ([Hfit _] & _). eapply terminal_inv; [|exact Htx1|done|].
    + change (pendingReplies m) with (pendingReplies m1). by apply inv_delete_pending.
    + by destruct (pr_State p).
  - assert (tx_DispatchTimer tx = None) as -> by apply T. cbn [Stop].
    pose proof (inv_AfterFunc id now (tx_TimeoutDuration tx) m1 uu fr I1 (tx_issued _ _ _ _ T)) as I2.
    specialize (I2 ltac:(intros ?; by rewrite Htx1; intros [= <-])).
    destruct (AfterFunc now (tx_TimeoutDuration tx) id m1) as [h m2] eqn:Haf.
    unfold AfterFunc in Haf. injection Haf as <- <-. cbn [fst snd] in *.
    set (m2 := set_timers _ m1) in *. set (f := set_Response _ _).
    assert (Htx2 : transactionsByRPCID m2 !! id = Some (set_State TxInFlight tx)) by exact Htx1.
    assert (Hlast : timers m2 !! length (timers m1)
              = Some (mkTimer id (now + tx_TimeoutDuration tx) TimerArmed)).
    { unfold m2. cbn [timers set_timers]. by apply list_lookup_middle. }
    assert (I3 : inv (Some id) (update_tx id f m2) uu fr).
    { eapply inv_update; try done; [apply T|]. intros h [= <-]. by eexists. }
    rewrite (update_tx_live _ _ _ _ Htx2) in *. set (m3 := set_transactions _ m2) in *.
    eapply (inv_resettle id tx (f (set_State TxInFlight tx)) m m3); try done.
    + apply lookup_insert_eq.
    + split.
      * intros p Hp'. unfold m3, m2, m1 in Hp'. simpl in Hp'. congruence.
      * intros _ _. eexists _, _. split_and!; [done|exact Hlast|]. left. split; [done|]. simpl. lia.
      * simpl. intros Hh. destruct (C Hh) as [_ ?]. done.
Qed.

Lemma inflight_state tx :
  terminal (tx_State tx) = false -> preflight (tx_State tx) = false -> tx_State tx = TxInFlight.
Proof. by destruct (tx_State tx). Qed.

Lemma Complete_inv m now id r uu fr :
  inv None m uu fr -> inv None (Complete m now id r).1 uu fr.
Proof.
  intros I. unfold Complete. destruct (transactionsByRPCID m !! id) as [tx|] eqn:Htx; [|done].
  destruct (preflight (tx_State tx) || tx_HandoffInProgress tx) eqn:Hb.
  - eapply buffer_inv; [done|done|by split|by apply orb_true_iff|done].
  - apply orb_false_iff in Hb as [Hp _].
    pose proof (inflight_state _ (tx_live _ _ _ _ (inv_tx _ _ _ _ I _ _ Htx)) Hp) as Hs.
    eapply terminal_inv; [by apply inv_weaken|done|done|by rewrite Hs].
Qed.

(** A fast reply that was buffered before the transaction was in flight. *)
Lemma recover_inv id tx p m now uu fr :
  inv None m uu fr -> transactionsByRPCID m !! id = Some tx ->
  validateTransition (tx_State tx) TxInFlight = None -> terminal (pr_State p) = true ->
  inv None (terminalTransition
    (update_tx id (set_State TxInFlight) (set_pending (delete id (pendingReplies m)) m)) now id
    (pr_State p) (pr_Payload p)).1 uu fr.
Proof.
  intros I Htx Hv Hp. set (m1 := set_pending _ m).
  assert (Htx1 : transactionsByRPCID m1 !! id = Some tx) by exact Htx.
  eapply terminal_inv; [| |done|].
  - eapply inv_set_State; [apply inv_delete_pending; by apply inv_weaken|exact Htx1|done|by left|done].
  - rewrite (update_tx_live _ _ _ _ Htx1). apply lookup_insert_eq.
  - by destruct (pr_State p).
Qed.

Lemma finish_with_inv final m now id tx payload uu fr :
  inv None m uu fr -> transactionsByRPCID m !! id = Some tx ->
  (final = TxFailed \/ final = TxTimedOut /\ tx_State tx = TxInFlight) ->
  inv None (finish_with final m now id tx payload).1 uu fr.
Proof.
  intros I Htx Hfin. unfold finish_with.
  pose proof (tx_live _ _ _ _ (inv_tx _ _ _ _ I _ _ Htx)) as Hlive.
  assert (Hterm : terminal final = true) by (by destruct Hfin as [-> | [-> _]]).
  assert (Hval : validateTransition (tx_State tx) final = None).
  { destruct Hfin as [-> | [-> ->]]; [|done]. by destruct (tx_State tx). }
  destruct (tx_HandoffInProgress tx) eqn:Hh.
  - eapply buffer_inv; [done|done| |by right|by rewrite Hh].
    split; [done|]. by destruct Hfin as [-> | [-> ->]].
  - destruct (pendingReplies m !! id) as [p|] eqn:Hp.
    + destruct (tx_pending _ _ _ _ (inv_settled _ _ _ _ I _ _ Htx ltac:(done)) p Hp)
        as ([Hpt _] & _ & _).
      unfold recoverToInFlight. destruct (validateTransition _ TxInFlight) eqn:Hv; cbn [fst].
      * eapply terminal_inv; [apply inv_delete_pending; by apply inv_weaken|exact Htx|done|done].
      * by apply (recover_inv id tx).
    + eapply terminal_inv; [by apply inv_weaken|done|done|done].
Qed.

Lemma Fail_inv m now id r uu fr : inv None m uu fr -> inv None (Fail m now id r).1 uu fr.
Proof.
  intros I. unfold Fail. destruct (transactionsByRPCID m !! id) as [tx|] eqn:Htx; [|done].
  apply finish_with_inv; auto.
Qed.

Lemma dispatchTimeoutFail_inv m now id uu fr :
  inv None m uu fr -> inv None (dispatchTimeoutFail m now id) uu fr.
Proof.
  intros I. unfold dispatchTimeoutFail.
  destruct (transactionsByRPCID m !! id) as [tx|] eqn:Htx; [|done].
  pose proof (tx_live _ _ _ _ (inv_tx _ _ _ _ I _ _ Htx)) as Hlive.
  assert (Hval : validateTransition (tx_State tx) TxFailed = None) by (by destruct (tx_State tx)).
  destruct (preflight (tx_State tx)); [|done].
  destruct (pendingReplies m !! id) as [p|] eqn:Hp.
  - destruct (tx_pending _ _ _ _ (inv_settled _ _ _ _ I _ _ Htx ltac:(done)) p Hp)
      as ([Hpt _] & _ & _).
    unfold recoverToInFlight. destruct (validateTransition _ TxInFlight) eqn:Hv.
    + eapply terminal_inv; [apply inv_delete_pending; by apply inv_weaken|exact Htx|done|done].
    + by apply (recover_inv id tx).
  - eapply terminal_inv; [by apply inv_weaken|done|done|done].
Qed.

Lemma run_call_inv c now m uu fr : inv None m uu fr -> inv None (run_call c now m) uu fr.
Proof.
  destruct c; simpl; intros I.
  - by apply mark_inv; auto.
  - by apply mark_inv; auto.
  - by apply MarkInFlight_inv.
  - by apply Complete_inv.
  - by apply Fail_inv.
  - by apply dispatchTimeoutFail_inv.
Qed.

(** ** Timers *)

Lemma Stop_is h m : exists tms, Stop h m = set_timers tms m.
Proof. destruct h; [by eexists|]. exists (timers m). by destruct m. Qed.

(** What each part of [terminalTransition] leaves alone. *)
Lemma store_response_rest now tx payload m :
  let m' := store_response now tx payload m in
  transactionsByRPCID m' = transactionsByRPCID m /\
  activeCloudRequests m' = activeCloudRequests m /\
  pendingReplies m' = pendingReplies m /\ lock m' = lock m /\
  scheduler m' = scheduler m /\ pushed m' = pushed m /\ cfg m' = cfg m /\
  detached m' = detached m.
Proof. unfold store_response. destruct (_ && _), payload; done. Qed.

Lemma drop_release_rest id tx m :
  let m' := release_if_owner id (drop_tx id tx m) in
  transactionsByRPCID m' = delete id (transactionsByRPCID m) /\
  pendingReplies m' = delete id (pendingReplies m) /\
  activeCloudRequests m' = (if String.eqb (tx_RequestKey tx) "" then activeCloudRequests m
                            else delete (tx_RequestKey tx) (activeCloudRequests m)) /\
  cache m' = cache m /\ lock m' = lock (release_if_owner id m) /\
  scheduler m' = scheduler m /\ pushed m' = pushed m /\
  detached m' = <[id := tx]> (detached m) /\ cfg m' = cfg m.
Proof.
  unfold release_if_owner, drop_tx, unlock_state. simpl.
  destruct (String.eqb (tx_RequestKey tx) ""); simpl;
    destruct (String.eqb (activeStateTx (lock m)) id); simpl;
    try destruct (stateLock (lock m)); done.
Qed.

Lemma push_response_rest id tx payload m :
  let m' := push_response id tx payload m in
  transactionsByRPCID m' = transactionsByRPCID m /\
  pendingReplies m' = pendingReplies m /\
  activeCloudRequests m' = activeCloudRequests m /\
  cache m' = cache m /\ lock m' = lock m /\ detached m' = detached m /\ cfg m' = cfg m.
Proof. unfold push_response. by destruct (_ && _), (scheduler m). Qed.

Lemma release_lock_congr id m m' :
  lock m = lock m' -> lock (release_if_owner id m) = lock (release_if_owner id m').
Proof.
  intros Hl. unfold release_if_owner, unlock_state. rewrite Hl.
  destruct (String.eqb _ _); [|done]. cbn. rewrite Hl. by destruct (stateLock (lock m')); cbn; rewrite ?Hl.
Qed.

Lemma push_response_congr id tx tx' payload m m' :
  tx_RespondToCloud tx = tx_RespondToCloud tx' -> tx_CloudSessionID tx = tx_CloudSessionID tx' ->
  scheduler m = scheduler m' -> pushed m = pushed m' ->
  pushed (push_response id tx payload m) = pushed (push_response id tx' payload m') /\
  scheduler (push_response id tx payload m) = scheduler (push_response id tx' payload m').
Proof.
  intros Hr Hs Hc Hp. unfold push_response. rewrite Hr, Hs, Hc.
  destruct (_ && _); [|done]. destruct (scheduler m') eqn:E; simpl; rewrite Hp; split; congruence.
Qed.

(** What a legal terminal transition leaves behind. *)
Lemma terminal_spec id tx m now final payload :
  transactionsByRPCID m !! id = Some tx -> terminal final = true ->
  validateTransition (tx_State tx) final = None ->
  let m' := (terminalTransition m now id final payload).1 in
  transactionsByRPCID m' = delete id (transactionsByRPCID m) /\
  pendingReplies m' = delete id (pendingReplies m) /\
  activeCloudRequests m' = (if String.eqb (tx_RequestKey tx) "" then activeCloudRequests m
                            else delete (tx_RequestKey tx) (activeCloudRequests m)) /\
  cache m' = cache (store_response now (set_Payload payload (set_State final tx)) payload m) /\
  pushed m' = pushed (push_response id tx payload m) /\
  scheduler m' = scheduler (push_response id tx payload m) /\
  lock m' = lock (release_if_owner id m) /\
  detached m' !! id = Some (clear_timers (set_Payload payload (set_State final tx))) /\
  cfg m' = cfg m.
Proof.
  intros Htx Hfin Hval. unfold terminalTransition. rewrite Hfin, Htx, Hval. cbn [negb fst].
  set (tx1 := set_Payload payload (set_State final tx)).
  destruct (store_response_rest now tx1 payload m) as (S1 & S2 & S3 & S4 & S5 & S6 & S7 & S8).
  set (m1 := store_response now tx1 payload m) in *.
  set (m2 := Stop (tx_ResponseTimer tx1) (Stop (tx_DispatchTimer tx1) m1)).
  assert (exists tms, m2 = set_timers tms m1) as (tms & ->).
  { unfold m2. destruct (Stop_is (tx_DispatchTimer tx1) m1) as [t1 ->].
    destruct (Stop_is (tx_ResponseTimer tx1) (set_timers t1 m1)) as [t2 ->]. by exists t2. }
  destruct (drop_release_rest id (clear_timers tx1) (set_timers tms m1))
    as (D1 & D2 & D3 & D4 & D5 & D6 & D7 & D8 & D9).
  set (m3 := release_if_owner id _) in *. simpl in *.
  destruct (push_response_rest id (clear_timers tx1) payload m3)
    as (P1 & P2 & P3 & P4 & P5 & P6 & P7).
  destruct (push_response_congr id (clear_timers tx1) tx payload m3 m) as [Q1 Q2];
    [done|done|congruence|congruence|].
  rewrite P1, P2, P3, P4, P5, P6, P7, Q1, Q2, D1, D2, D3, D4, D5, D8, D9, S1, S2, S3, S7.
  rewrite lookup_insert_eq, (release_lock_congr id (set_timers tms m1) m) by exact S4.
  split_and!; done.
Qed.

Lemma Timeout_inv m now id uu fr :
  inv None m uu fr ->
  (forall tx, transactionsByRPCID m !! id = Some tx -> tx_State tx = TxInFlight) ->
  inv None (Timeout_ m now id).1 uu fr /\
  (forall tx, transactionsByRPCID (Timeout_ m now id).1 !! id = Some tx ->
     tx_HandoffInProgress tx = true).
Proof.
  intros I Hs. unfold Timeout_.
  destruct (transactionsByRPCID m !! id) as [tx|] eqn:Htx; [|split; [done|]; simpl; congruence].
  specialize (Hs tx eq_refl). split; [apply finish_with_inv; auto|].
  unfold finish_with. destruct (tx_HandoffInProgress tx) eqn:Hh.
  - unfold buffer_reply. intros t. destruct (pendingReplies m !! id); simpl; congruence.
  - destruct (pendingReplies m !! id) as [p|] eqn:Hp.
    + destruct (tx_pending _ _ _ _ (inv_settled _ _ _ _ I _ _ Htx ltac:(done)) p Hp)
        as (_ & Hx & _). rewrite Hs, Hh in Hx. by destruct Hx.
    + intros t. destruct (terminal_spec id tx m now TxTimedOut (buildTimeoutResponse tx))
        as (-> & _); [done|done|by rewrite Hs|]. by rewrite lookup_delete_eq.
Qed.

Lemma fire_inv m h tm uu fr :
  inv None m uu fr -> timers m !! h = Some tm ->
  inv None (set_timers (<[h := set_status TimerFired tm]> (timers m)) m) uu fr.
Proof.
  intros I Hh. apply inv_set_timers; [done|]. split.
  - intros j t Hj. destruct (decide (j = h)) as [->|Hn].
    + exists (set_status TimerFired tm). rewrite Hh in Hj. injection Hj as <-.
      rewrite list_lookup_insert_eq by (by eapply lookup_lt_Some). split_and!; auto.
    + exists t. rewrite list_lookup_insert_ne by done. split_and!; auto.
  - intros j t Hj. left. destruct (decide (j = h)) as [->|Hn].
    + rewrite list_lookup_insert_eq in Hj by (by eapply lookup_lt_Some).
      injection Hj as <-. by exists tm.
    + rewrite list_lookup_insert_ne in Hj by done. by exists t.
Qed.

Lemma done_inv m h tm uu fr :
  inv None m uu fr -> timers m !! h = Some tm ->
  (forall tx, transactionsByRPCID m !! tm_rpcID tm = Some tx -> tx_HandoffInProgress tx = true) ->
  inv None (set_timers (alter (set_status TimerDone) h (timers m)) m) uu fr.
Proof.
  intros I Hh Hx. apply inv_set_timers; [done|]. split.
  - intros j t Hj. destruct (decide (j = h)) as [->|Hn].
    + exists (set_status TimerDone tm). rewrite list_lookup_alter_eq, Hj. simplify_eq.
      split_and!; auto.
    + exists t. rewrite list_lookup_alter_ne by done. split_and!; auto.
  - intros j t Hj. left. destruct (decide (j = h)) as [->|Hn].
    + rewrite list_lookup_alter_eq, Hh in Hj. simpl in Hj. simplify_eq. by exists tm.
    + rewrite list_lookup_alter_ne in Hj by done. by exists t.
Qed.

(** The terminal operations keep the identity of every timer. *)
Definition same_timers (l1 l2 : list timer) : Prop :=
  forall h tm, l1 !! h = Some tm -> exists tm', l2 !! h = Some tm' /\ tm_rpcID tm' = tm_rpcID tm.

Lemma same_timers_refl l : same_timers l l.
Proof. intros h tm. by exists tm. Qed.

Lemma Stop_same h m : same_timers (timers m) (timers (Stop h m)).
Proof.
  destruct h as [k|]; [|apply same_timers_refl]. intros j tm Hj. simpl.
  destruct (decide (j = k)) as [->|Hn].
  - exists (stop_timer tm). rewrite list_lookup_alter_eq, Hj. split; [done|].
    unfold stop_timer. by destruct (tm_status tm).
  - exists tm. by rewrite list_lookup_alter_ne.
Qed.

Lemma same_timers_trans l1 l2 l3 : same_timers l1 l2 -> same_timers l2 l3 -> same_timers l1 l3.
Proof.
  intros H1 H2 h tm Hh. destruct (H1 _ _ Hh) as (t & Ht & <-).
  destruct (H2 _ _ Ht) as (t' & ? & <-). by exists t'.
Qed.

Lemma terminal_timers m now id final payload :
  same_timers (timers m) (timers (terminalTransition m now id final payload).1).
Proof.
  unfold terminalTransition. destruct (negb _); [apply same_timers_refl|].
  destruct (transactionsByRPCID m !! id) as [tx|]; [|apply same_timers_refl].
  destruct (validateTransition _ _); [apply same_timers_refl|]. cbn [fst].
  set (tx1 := set_Payload _ _). set (m1 := store_response _ _ _ m).
  assert (timers (push_response id (clear_timers tx1) payload
            (release_if_owner id (drop_tx id (clear_timers tx1)
               (Stop (tx_ResponseTimer tx1) (Stop (tx_DispatchTimer tx1) m1)))))
          = timers (Stop (tx_ResponseTimer tx1) (Stop (tx_DispatchTimer tx1) m1))) as ->.
  { unfold push_response, release_if_owner, drop_tx, unlock_state.
    repeat (case_match; simpl); done. }
  eapply same_timers_trans; [|eapply same_timers_trans; apply Stop_same].
  destruct (store_response_fields now tx1 payload m) as (_ & F & _). unfold m1. rewrite F.
  apply same_timers_refl.
Qed.

Lemma Timeout_timers m now id : same_timers (timers m) (timers (Timeout_ m now id).1).
Proof.
  unfold Timeout_. destruct (transactionsByRPCID m !! id) as [tx|] eqn:Htx;
    [|apply same_timers_refl].
  unfold finish_with, buffer_reply.
  destruct (tx_HandoffInProgress tx), (pendingReplies m !! id); try apply same_timers_refl;
    [|apply terminal_timers].
  unfold recoverToInFlight. destruct (validateTransition _ _); cbn [fst].
  - exact (terminal_timers (set_pending _ m) _ _ _ _).
  - eapply same_timers_trans; [|apply terminal_timers].
    rewrite (update_tx_live _ tx) by exact Htx. apply same_timers_refl.
Qed.

(** ** Creation *)

Lemma inv_issued x m uu i fr :
  i <> "" -> inv x m uu fr -> inv x m ({[i]} ∪ uu) fr.
Proof.
  intros Hn I. assert (Hu : uu ⊆ {[i]} ∪ uu) by set_solver.
  split; try apply I.
  - intros j tx Hi. destruct (inv_tx _ _ _ _ I _ _ Hi). split; auto.
  - pose proof (inv_names _ _ _ _ I). set_solver.
  - intros h tm Hh. destruct (inv_timer _ _ _ _ I _ _ Hh). auto.
  - intros j tx Hi. destruct (inv_detached _ _ _ _ I _ _ Hi) as (? & ? & ?). auto.
  - destruct (inv_lock _ _ _ _ I) as [A B C D E]. split; try done. intros Ho.
    destruct (E Ho). auto.
  - eapply Forall_impl; [apply (inv_frames _ _ _ _ I)|]. intros f. unfold frame_ok.
    destruct (early f) as [[r o]|].
    + intros (? & ? & ? & ? & ?). split_and!; auto.
    + destruct (late f) as [[r p]|]; [|done]. intros (? & ? & ?). split_and!; auto.
Qed.

Definition lock_taken (id : string) m (l : lock_state) : Prop :=
  l = lock m \/
  stateLock (lock m) = false /\ l = mkLock true id LockOwnedByRPC (releasingOperationID (lock m)).

(** An identifier not issued before is nowhere in the state. *)
Record unknown id m fr : Prop := {
  un_live : transactionsByRPCID m !! id = None;
  un_detached : detached m !! id = None;
  un_pending : pendingReplies m !! id = None;
  un_timer : forall h tm, timers m !! h = Some tm -> tm_rpcID tm <> id;
  un_owner : activeStateOwner (lock m) = LockOwnedByOperation -> activeStateTx (lock m) <> id;
  un_frame : forall f, f ∈ fr -> frame_rpc f <> Some id /\ forall r o, early f = Some (r, o) -> o <> id;
}.

Lemma fresh_unknown id m uu fr : inv None m uu fr -> id ∉ uu -> unknown id m fr.
Proof.
  intros I Hfresh.
  assert (Hnone : transactionsByRPCID m !! id = None).
  { apply eq_None_not_Some. intros [t Ht]. by destruct (inv_tx _ _ _ _ I _ _ Ht). }
  split; [done|..].
  - apply eq_None_not_Some. intros [t Ht]. by destruct (inv_detached _ _ _ _ I _ _ Ht) as (_ & _ & ?).
  - apply eq_None_not_Some. intros [q Hq].
    destruct (inv_pending _ _ _ _ I _ _ Hq ltac:(done)) as [t Ht]. congruence.
  - intros h tm Hm He. destruct (inv_timer _ _ _ _ I _ _ Hm). congruence.
  - intros Ho He. destruct (lock_operation _ _ _ (inv_lock _ _ _ _ I) Ho). congruence.
  - pose proof (inv_frames _ _ _ _ I) as HF. rewrite Forall_forall in HF.
    intros f Hf. specialize (HF f Hf). revert HF. unfold frame_ok, frame_rpc.
    destruct (early f) as [[r o]|]; [|destruct (late f) as [[r q]|]; [|done]]; simpl.
    + intros (? & ? & _). split; [congruence|]. intros ? ? [= <- <-]. congruence.
    + intros [? ?]. split; [congruence|done].
Qed.

(** The duplicate filter with the key of a new transaction. *)
Lemma active_with key id (act : gmap string string) k i :
  act !! key = None ->
  (if String.eqb key "" then act else <[key := id]> act) !! k = Some i <->
  act !! k = Some i \/ (k <> "" /\ k = key /\ i = id).
Proof.
  intros Hact. destruct (String.eqb_spec key "") as [He|Hne].
  - split; [by left|]. intros [?|(Hk & -> & _)]; [done|]. by rewrite He in Hk.
  - rewrite lookup_insert_Some. split.
    + intros [[<- <-]|[_ ?]]; [by right|by left].
    + intros [Hi|(_ & -> & ->)]; [|by left]. right. split; [|done]. intros <-. congruence.
Qed.

(** The state with the new transaction. *)
Definition with_tx id tx l m : t S :=
  set_transactions (<[id := tx]> (transactionsByRPCID m))
    (set_active (if String.eqb (tx_RequestKey tx) "" then activeCloudRequests m
                 else <[tx_RequestKey tx := id]> (activeCloudRequests m)) (set_lock l m)).

Lemma with_tx_old id tx l m fr i t :
  unknown id m fr -> transactionsByRPCID m !! i = Some t ->
  transactionsByRPCID (with_tx id tx l m) !! i = Some t.
Proof.
  intros U Hi. simpl. rewrite lookup_insert_ne; [done|]. intros <-.
  rewrite (un_live _ _ _ U) in Hi. done.
Qed.

Lemma with_tx_operation id tx l m fr o :
  unknown id m fr -> operation_id m o -> o <> id -> operation_id (with_tx id tx l m) o.
Proof. intros U [? ? ?] Hn. split; try done. simpl. by rewrite lookup_insert_ne. Qed.

Lemma with_tx_lock_ok id tx l m uu fr :
  inv None m uu fr -> unknown id m fr -> id <> "" -> tx_HandoffInProgress tx = false ->
  lock_taken id m l -> lock_ok None (with_tx id tx l m) uu.
Proof.
  intros I U Hid Hh Hlock. pose proof (fun i t => with_tx_old id tx l m fr i t U) as Hold.
  destruct (inv_lock _ _ _ _ I) as [A B C D E]. destruct Hlock as [->|[Hfree ->]].
  - split; simpl; try done.
    + intros Ho Hx. destruct (C Ho Hx) as (t & ? & ?). exists t. auto.
    + intros Ho Hx. destruct (D Ho Hx) as (t & ? & ?). exists t. auto.
    + intros Ho. destruct (E Ho). split; [done|].
      eapply with_tx_operation; [done|done|by apply (un_owner _ _ _ U)].
  - split; simpl; try done. intros _ _. exists tx. by rewrite lookup_insert_eq.
Qed.

Lemma with_tx_frame_ok id tx l m uu fr f :
  inv None m uu fr -> unknown id m fr -> lock_taken id m l -> f ∈ fr ->
  frame_ok None (with_tx id tx l m) uu f.
Proof.
  intros I U Hlock Hf. destruct (un_frame _ _ _ U f Hf) as [Hr Hro].
  pose proof (inv_frames _ _ _ _ I) as HF. rewrite Forall_forall in HF. specialize (HF f Hf).
  assert (Hl0 : activeStateTx l = activeStateTx (lock m) \/ activeStateTx l = id)
    by (destruct Hlock as [->|[_ ->]]; auto).
  unfold frame_ok, frame_rpc in *.
  destruct (early f) as [[r o]|]; [|destruct (late f) as [[r q]|]; [|done]]; simpl in *.
  - destruct HF as (? & ? & ? & Hd & HF). split_and!; auto.
    { eapply with_tx_operation; [done|done|by eapply Hro]. }
    { unfold deref in *. simpl. rewrite lookup_insert_ne by congruence. done. }
    intros _ t. rewrite lookup_insert_ne by congruence. intros Ht.
    destruct (HF ltac:(done) t Ht) as (? & Ha & ?). destruct Hlock as [->|[Hfree _]]; [done|].
    pose proof (tx_id_nonempty _ _ _ _ (inv_tx _ _ _ _ I _ _ Ht)).
    destruct (owner_held _ _ _ _ I ltac:(congruence)). congruence.
  - destruct HF as (? & ? & HF). split_and!; auto. intros _ t.
    rewrite lookup_insert_ne by congruence. intros Ht.
    destruct (HF ltac:(done) t Ht) as (? & Ha & ?). split_and!; try done.
    destruct Hl0 as [->| ->]; congruence.
Qed.

Lemma inv_new_tx id tx l m uu fr :
  inv None m uu fr -> id <> "" -> id ∉ uu -> tx_RPCID tx = id -> tx_State tx = TxCreated ->
  tx_HandoffInProgress tx = false -> tx_ResponseDeadline tx = zero_time ->
  tx_DispatchTimer tx = None -> tx_ResponseTimer tx = None ->
  (tx_RespondToCloud tx = true -> tx_RequestKey tx <> "") ->
  activeCloudRequests m !! tx_RequestKey tx = None ->
  Z.of_nat (size (transactionsByRPCID m)) < maxConcurrentRequests (cfg m) ->
  lock_taken id m l ->
  inv None (with_tx id tx l m) ({[id]} ∪ uu) fr.
Proof.
  intros I Hid Hfresh Hrpc Hst Hh Hdl Hdt Hrt Hkey Hact Hcap Hlock.
  pose proof (fresh_unknown _ _ _ _ I Hfresh) as U.
  pose proof (fun i t => with_tx_old id tx l m fr i t U) as Hold.
  pose proof (fun k i => active_with _ id _ k i Hact) as Hacts.
  apply (inv_issued _ _ _ id) in I; [|done].
  split; simpl; try apply I.
  - intros i t Hi. apply lookup_insert_Some in Hi as [[<- <-]|[_ Hi]].
    + split; simpl; auto; [by rewrite Hst|set_solver| |by rewrite Hrt].
      intros Hk. apply Hacts. by right.
    + destruct (inv_tx _ _ _ _ I _ _ Hi). split; try done. simpl. intros Hk.
      apply Hacts. left. auto.
  - intros i t Hi _. apply lookup_insert_Some in Hi as [[<- <-]|[_ Hi]].
    + split; simpl; [by rewrite (un_pending _ _ _ U)|by rewrite Hst|by rewrite Hh].
    + by destruct (inv_settled _ _ _ _ I _ _ Hi ltac:(done)); split.
  - intros k i Hk. apply Hacts in Hk as [Hk|(Hk & -> & ->)].
    + destruct (inv_active _ _ _ _ I _ _ Hk) as (? & t & ? & ?). split; [done|]. exists t. auto.
    + split; [done|]. exists tx. simpl. by rewrite lookup_insert_eq.
  - intros i p Hp _. destruct (inv_pending _ _ _ _ I _ _ Hp ltac:(done)) as [t Ht].
    exists t. auto.
  - intros h tm Hm. destruct (inv_timer _ _ _ _ I _ _ Hm) as [? Hs]. split; [done|].
    intros t. simpl. rewrite lookup_insert_ne by (apply not_eq_sym; by eapply (un_timer _ _ _ U)).
    apply Hs.
  - intros i t Hi. destruct (inv_detached _ _ _ _ I _ _ Hi) as (? & ? & ?). split; [|done].
    simpl. rewrite lookup_insert_ne; [done|]. intros <-.
    change (detached m !! id = Some t) in Hi. rewrite (un_detached _ _ _ U) in Hi. done.
  - simpl. rewrite map_size_insert_None by apply U. pose proof (inv_capacity _ _ _ _ I). lia.
  - by apply (with_tx_lock_ok _ _ _ _ _ fr).
  - apply Forall_forall. intros f Hf. by eapply with_tx_frame_ok.
Qed.

Lemma CreateTransaction_inv m now rpcID sessionID cloudRPCID respond method timeout changing m' r uu fr :
  inv None m uu fr -> rpcID <> "" -> rpcID ∉ uu ->
  CreateTransaction m now rpcID sessionID cloudRPCID respond method timeout changing = (m', r) ->
  inv None m' ({[rpcID]} ∪ uu) fr.
Proof.
  intros I Hid Hfresh.
  pose proof (inv_issued _ _ _ rpcID _ Hid I) as I'.
  unfold CreateTransaction.
  set (isN := (len cloudRPCID =? 0) || String.eqb cloudRPCID "null").
  destruct (isN && respond) eqn:Hn; [by intros [= <- <-]|].
  destruct (_ && negb changing); [by intros [= <- <-]|].
  destruct (CanonicalRequestKey sessionID cloudRPCID) as [key|] eqn:Hk; [|by intros [= <- <-]].
  pose proof (key_nonempty _ _ _ Hk) as Hkey. fold isN in Hkey.
  destruct (TransactionCache.Get (cache m) now key); [by intros [= <- <-]|].
  destruct (activeCloudRequests m !! key) eqn:Hact; [by intros [= <- <-]|].
  destruct (Z.leb_spec (maxConcurrentRequests (cfg m)) (Z.of_nat (size (transactionsByRPCID m))));
    [by intros [= <- <-]|].
  set (tx := mkTx rpcID sessionID cloudRPCID key respond method TxCreated None false now timeout
               (now + dispatchTimeout (cfg m)) zero_time None None).
  assert (Hrk : respond = true -> key <> "").
  { intros -> He. apply Hkey in He. rewrite He in Hn. done. }
  assert (Hb : negb isN && negb (String.eqb key "") = negb (String.eqb key "")).
  { destruct (String.eqb_spec key "") as [He|He]; simpl; [by rewrite andb_false_r|].
    rewrite andb_true_r. destruct isN; [|done]. destruct He. by apply Hkey. }
  assert (Hgo : forall l, lock_taken rpcID m l ->
    inv None (set_transactions (<[rpcID := tx]> (transactionsByRPCID (set_lock l m)))
      (if negb (String.eqb key "")
       then set_active (<[key := rpcID]> (activeCloudRequests m)) (set_lock l m)
       else set_lock l m)) ({[rpcID]} ∪ uu) fr).
  { intros l Hl. pose proof (inv_new_tx rpcID tx l m uu fr I Hid Hfresh) as Hnew. simpl in Hnew.
    specialize (Hnew ltac:(done) ltac:(done) ltac:(done) ltac:(done) ltac:(done) ltac:(done) Hrk Hact
                  ltac:(lia) Hl).
    unfold with_tx in Hnew. simpl in Hnew. destruct (String.eqb key ""); done. }
  assert (Hsame : set_lock (lock m) m = m) by (by destruct m).
  destruct changing.
  - destruct (negb respond || isN); [by intros [= <- <-]|]. unfold acquire.
    destruct (stateLock (lock m)) eqn:Hs; [by intros [= <- <-]|]. rewrite Hb.
    intros [= <- <-]. specialize (Hgo (mkLock true rpcID LockOwnedByRPC (releasingOperationID (lock m)))).
    specialize (Hgo ltac:(by right)). by destruct (negb (String.eqb key "")).
  - rewrite Hb. intros [= <- <-]. specialize (Hgo (lock m) ltac:(by left)). rewrite Hsame in Hgo.
    by destruct (negb (String.eqb key "")).
Qed.


(** ** Releases and handoffs *)

(** Fields that only a release touches. *)
Lemma inv_releasing x o m uu fr : inv x m uu fr -> inv x (set_releasing o m) uu fr.
Proof.
  intros I. split; try apply I.
  - intros i tx Hi. by destruct (inv_tx _ _ _ _ I _ _ Hi); split.
  - intros i tx Hi Hx. by destruct (inv_settled _ _ _ _ I _ _ Hi Hx); split.
  - by destruct (inv_lock _ _ _ _ I); split.
Qed.

Lemma release_end_inv x o m uu fr : inv x m uu fr -> inv x (release_end m o) uu fr.
Proof. intros I. unfold release_end. destruct (String.eqb _ _); [by apply inv_releasing|done]. Qed.

Lemma release_begin_inv m o uu fr :
  inv None m uu fr -> inv None (release_begin m o).1 uu fr.
Proof.
  intros I. unfold release_begin. destruct (String.eqb_spec o "") as [|Ho]; [done|].
  destruct (String.eqb _ _); [done|].
  destruct (String.eqb_spec (activeStateTx (lock m)) o) as [Ha|]; [|done].
  destruct (bool_decide_reflect (activeStateOwner (lock m) = LockOwnedByOperation)) as [Hop|];
    [|done].
  cbn [negb orb fst]. apply (inv_releasing _ o) in I.
  destruct (lock_operation _ _ _ (inv_lock _ _ _ _ I) Hop) as [_ Hnone]. simpl in Hnone.
  destruct (owner_held _ _ _ _ I ltac:(simpl; congruence)) as [Hheld _]. simpl in Hheld.
  unfold unlock_state. simpl. rewrite Hheld.
  split; simpl; try apply I.
  - intros i tx Hi. by destruct (inv_tx _ _ _ _ I _ _ Hi); split.
  - intros i tx Hi Hx. by destruct (inv_settled _ _ _ _ I _ _ Hi Hx); split.
  - by split.
  - eapply Forall_impl; [apply (inv_frames _ _ _ _ I)|]. intros f. unfold frame_ok. simpl.
    destruct (early f) as [[r p]|].
    + intros (? & ? & ? & ? & HF). split_and!; auto. intros _ t Ht.
      destruct (HF ltac:(done) t Ht) as (_ & <- & ?). congruence.
    + destruct (late f) as [[r p]|]; [|done]. intros (? & ? & HF). split_and!; auto.
      intros _ t Ht. destruct (HF ltac:(done) t Ht) as (? & ? & ?). split_and!; try done.
      apply not_eq_sym, (tx_id_nonempty _ _ _ _ (inv_tx _ _ _ _ I _ _ Ht)).
Qed.

(** Suspended calls are a bag. *)
Lemma inv_perm x m uu fr fr' : fr ≡ₚ fr' -> inv x m uu fr -> inv x m uu fr'.
Proof.
  intros Hp I. split; try apply I.
  - intros i tx Hi Hx. destruct (inv_settled _ _ _ _ I _ _ Hi Hx) as [A B C]. split; try done.
    intros Hh. destruct (C Hh) as (? & f & Hf & ?). split; [done|]. exists f.
    by rewrite <- Hp.
  - rewrite <- Hp. apply I.
  - rewrite <- Hp. apply I.
Qed.

(** A suspended call of [id] is taken up inside the section of [id]. *)
Lemma inv_take f id m uu fr :
  inv None m uu (f :: fr) -> frame_rpc f = Some id -> inv (Some id) m uu fr.
Proof.
  intros I Hf. apply (inv_weaken id) in I. split; try apply I.
  - intros i tx Hi Hx. destruct (inv_settled _ _ _ _ I _ _ Hi Hx) as [A B C]. split; try done.
    intros Hh. destruct (C Hh) as (? & g & Hg & Hr). split; [done|]. exists g.
    apply elem_of_cons in Hg as [->|?]; [congruence|done].
  - pose proof (inv_frames _ _ _ _ I) as HF. by inversion HF.
  - pose proof (inv_once _ _ _ _ I) as HN. simpl in HN. rewrite Hf in HN. by inversion HN.
Qed.

(** The call is suspended again. *)
Lemma inv_suspend f x m uu fr :
  inv x m uu fr -> frame_ok x m uu f ->
  (forall id, frame_rpc f = Some id -> id ∉ omap frame_rpc fr) -> inv x m uu (f :: fr).
Proof.
  intros I Hok Hn. split; try apply I.
  - intros i tx Hi Hx. destruct (inv_settled _ _ _ _ I _ _ Hi Hx) as [A B C]. split; try done.
    intros Hh. destruct (C Hh) as (? & g & Hg & Hr). split; [done|]. exists g.
    split; [by right|done].
  - constructor; [done|apply I].
  - simpl. destruct (frame_rpc f) as [id|]; [|apply I]. constructor; [by apply Hn|apply I].
Qed.

Lemma inv_not_suspended f id m uu fr :
  inv None m uu (f :: fr) -> frame_rpc f = Some id -> id ∉ omap frame_rpc fr.
Proof.
  intros I Hf. pose proof (inv_once _ _ _ _ I) as HN. simpl in HN. rewrite Hf in HN.
  by inversion HN.
Qed.

(** A transaction in a handoff, at the end of its section: what is left to
    check when it still is in the map with a suspended call of its own. *)
Lemma inv_suspend_live f id tx m uu fr :
  inv (Some id) m uu fr -> transactionsByRPCID m !! id = Some tx ->
  id ∉ omap frame_rpc fr -> frame_rpc f = Some id -> frame_ok None m uu f ->
  tx_settled m (f :: fr) id tx ->
  (activeStateTx (lock m) = id -> activeStateOwner (lock m) = LockTransferPending) ->
  tx_HandoffInProgress tx = true -> inv None m uu (f :: fr).
Proof.
  intros I Htx Hn Hf Hok Hset Hlock Hh.
  assert (I' : inv (Some id) m uu (f :: fr)).
  { apply inv_suspend; [done| |congruence]. unfold frame_ok in *.
    destruct (early f) as [[r o]|].
    - destruct Hok as (? & ? & ? & ? & ?). split_and!; auto.
    - destruct (late f) as [[r p]|]; [|done]. destruct Hok as (? & ? & ?). split_and!; auto. }
  apply (inv_settle id); try done.
  - intros t Ht. by simplify_eq.
  - intros Ha Ho. rewrite (Hlock Ha) in Ho. done.
  - intros Ha Ho. by exists tx.
  - intros t g Ht Hg Hr. apply elem_of_cons in Hg as [->|Hg]; [done|].
    destruct Hn. apply list_elem_of_omap. by exists g.
Qed.

Lemma fresh_operation_id x m uu fr o : inv x m uu fr -> o <> "" -> o ∉ uu -> operation_id m o.
Proof.
  intros I Ho Hn. split; [done|..].
  - destruct (transactionsByRPCID m !! o) eqn:Ht; [|done].
    by destruct (inv_tx _ _ _ _ I _ _ Ht).
  - destruct (detached m !! o) eqn:Ht; [|done].
    by destruct (inv_detached _ _ _ _ I _ _ Ht) as (? & ? & ?).
Qed.

Lemma retain_begin_inv m id o tx0 m' resp uu fr :
  inv None m uu fr -> o <> "" -> o ∉ uu -> retain_begin m id = (m', Ok tx0) ->
  inv None m' ({[o]} ∪ uu) (FSave id o tx0 resp :: fr).
Proof.
  intros I Ho Hofresh. unfold retain_begin.
  destruct (transactionsByRPCID m !! id) as [tx|] eqn:Htx; [|done].
  destruct (negb (String.eqb _ _)); [done|].
  destruct (_ && _) eqn:Hst; [done|].
  destruct (String.eqb_spec (activeStateTx (lock m)) id) as [Ha|]; [|done]. cbn [negb].
  destruct (tx_HandoffInProgress tx) eqn:Hh; [done|].
  pose proof (inv_tx _ _ _ _ I _ _ Htx) as T.
  assert (Hd : dispatched (tx_State tx) = true) by (by destruct (tx_State tx)).
  assert (Hno : id ∉ omap frame_rpc fr).
  { intros Hin. apply list_elem_of_omap in Hin as (f & Hf & Hr).
    by apply (settled_frames id tx m uu fr I Htx Hh f Hf). }
  pose proof (tx_pending _ _ _ _ (inv_settled _ _ _ _ I _ _ Htx ltac:(done))) as Hpend.
  assert (Hou : o <> id) by (intros ->; by destruct T).
  pose proof (fresh_operation_id _ _ _ _ _ I Ho Hofresh) as Hop.
  apply (inv_issued _ _ _ o) in I; [|done].
  apply (inv_weaken id) in I.
  assert (I1 : inv (Some id) (Stop (tx_ResponseTimer tx) m) ({[o]} ∪ uu) fr)
    by (apply inv_Stop; [done|apply T]).
  destruct (Stop_is (tx_ResponseTimer tx) m) as [tms Htms].
  pose proof (Stop_same (tx_ResponseTimer tx) m) as Hsame. rewrite Htms in *. cbn [timers] in Hsame.
  set (m1 := set_timers tms m) in *.
  assert (Htx1 : transactionsByRPCID m1 !! id = Some tx) by done.
  assert (I2 : inv (Some id) (update_tx id (set_Handoff true) m1) ({[o]} ∪ uu) fr).
  { eapply inv_update; try done; try apply T. intros h Hr. simpl in Hr.
    destruct (tx_timer _ _ _ _ T _ Hr) as (t & Ht & <-). by apply Hsame in Ht. }
  rewrite (update_tx_live _ _ _ _ Htx1) in *. set (m2 := set_transactions _ m1) in *.
  intros [= <- <-].
  change (lock m2) with (lock m). rewrite Ha.
  eapply inv_suspend_live with (tx := set_Handoff true tx); try done.
  - apply inv_set_owner; auto; apply T.
  - apply lookup_insert_eq.
  - simpl. split_and!; [apply elem_of_union_r, T|set_solver| | |].
    + destruct Hop. split; [done| |done]. simpl. by rewrite lookup_insert_ne.
    + unfold deref. simpl. rewrite lookup_insert_eq. by eexists.
    + intros _ t Ht. simpl in Ht. rewrite lookup_insert_eq in Ht. injection Ht as <-. done.
  - split.
    + intros p Hp. destruct (Hpend p Hp) as (Hf & _ & _). split_and!; [done|by right|done].
    + done.
    + intros _. split; [done|]. eexists. split; [by left|done].
Qed.

(** ** The end of a handoff *)

Lemma reply_legal tx p :
  dispatched (tx_State tx) = true -> reply_fits tx p ->
  validateTransition (tx_State tx) (pr_State p) = None.
Proof. intros Hd [Ht Hx]. destruct (tx_State tx), (pr_State p); try done; by specialize (Hx eq_refl). Qed.

Lemma inv_update_past id f x m uu fr :
  inv x m uu fr -> transactionsByRPCID m !! id = None ->
  (forall tx, tx_State (f tx) = tx_State tx) -> inv x (update_tx id f m) uu fr.
Proof.
  intros I Hn Hf. pose proof (same_ids_update id f m) as Hids. revert Hids.
  unfold update_tx. rewrite Hn. set (m' := set_detached _ m). intros Hids.
  split; try apply I.
  - intros i tx Hi. by destruct (inv_tx _ _ _ _ I _ _ Hi); split.
  - intros i tx Hi Hx. by destruct (inv_settled _ _ _ _ I _ _ Hi Hx); split.
  - intros i tx. simpl. destruct (decide (i = id)) as [->|Hni].
    + rewrite lookup_alter_eq. destruct (detached m !! id) as [t|] eqn:Ht; [|done].
      intros [= <-]. rewrite Hf. by apply (inv_detached _ _ _ _ I).
    + rewrite lookup_alter_ne by done. apply (inv_detached _ _ _ _ I).
  - destruct (inv_pushed _ _ _ _ I) as [? Hin]. split; [done|]. intros i Hi. simpl.
    destruct (decide (i = id)) as [->|Hni]; [|rewrite lookup_alter_ne by done; by apply Hin].
    rewrite lookup_alter_eq. destruct (Hin _ Hi) as [t ->]. by eexists.
  - destruct (inv_lock _ _ _ _ I) as [A B C D E]. split; try done. intros Ho.
    destruct (E Ho). split; [done|]. by eapply same_ids_operation.
  - eapply Forall_impl; [apply (inv_frames _ _ _ _ I)|]. intros g. unfold frame_ok.
    destruct (early g) as [[r o]|].
    + intros (? & ? & ? & ? & Hg). split_and!; try done.
      { by eapply same_ids_operation. } by apply Hids.
    + destruct (late g) as [[r p]|]; done.
Qed.

(** The lock of a transaction that has left the map is not its own. *)
Lemma gone_owner id m uu fr :
  inv None m uu fr -> transactionsByRPCID m !! id = None -> is_Some (deref id m) ->
  activeStateTx (lock m) <> id \/ id = "".
Proof.
  intros I Hn Hd. destruct (decide (id = "")) as [|Hid]; [by right|left]. intros Ha.
  destruct (inv_lock _ _ _ _ I) as [A B C D E].
  destruct (activeStateOwner (lock m)).
  - by rewrite (proj2 B eq_refl) in Ha.
  - destruct (C eq_refl ltac:(done)) as (t & Ht & _). congruence.
  - destruct (D eq_refl ltac:(done)) as (t & Ht & _). congruence.
  - destruct (E eq_refl) as [_ [_ ? Hp]]. rewrite Ha in Hp. unfold deref in Hd.
    rewrite Hn, Hp in Hd. by destruct Hd.
Qed.

Lemma retain_last_inv f id p m now uu fr :
  inv None m uu (f :: fr) -> early f = None -> late f = Some (id, p) ->
  inv None (retain_last m now id p).1 uu fr.
Proof.
  intros I He Hl. assert (Hf : frame_rpc f = Some id) by (unfold frame_rpc; by rewrite He, Hl).
  pose proof (inv_frames _ _ _ _ I) as HF. rewrite Forall_cons in HF. destruct HF as [HF _].
  unfold frame_ok in HF. rewrite He, Hl in HF. destruct HF as (Hu & Hterm & HF).
  specialize (HF ltac:(done)). pose proof (inv_take _ _ _ _ _ I Hf) as I1.
  unfold retain_last. destruct (transactionsByRPCID m !! id) as [tx|] eqn:Htx.
  - destruct (HF tx eq_refl) as (Hh & Ha & Hfit).
    destruct (tx_handoff _ _ _ _ (inv_settled _ _ _ _ I _ _ Htx ltac:(done)) Hh) as [Hd _].
    eapply terminal_inv; [by apply inv_delete_pending|exact Htx|done|by apply reply_legal].
  - rewrite terminal_missing by done.
    destruct (inv_lock _ _ _ _ I) as [A B C D E].
    apply (inv_settle id); try done.
    + by apply inv_delete_pending.
    + intros t Ht. simpl in Ht. congruence.
    + simpl. rewrite lookup_delete_eq. by intros [].
    + simpl. intros Ha Ho. destruct (C Ho ltac:(done)) as (t & Ht & ?). rewrite Ha in Ht. by exists t.
    + simpl. intros Ha Ho. destruct (D Ho ltac:(done)) as (t & Ht & ?). rewrite Ha in Ht. by exists t.
    + simpl. intros t g Ht. congruence.
Qed.

(** What is known of a call that resumes after the disk write. *)
Record resumed id o m uu fr : Prop := {
  re_inv : inv (Some id) m uu fr;
  re_nonempty : id <> "";
  re_issued : id ∈ uu;
  re_op_issued : o ∈ uu;
  re_op : operation_id m o;
  re_known : is_Some (deref id m);
  re_none : id ∉ omap frame_rpc fr;
  re_live : forall tx, transactionsByRPCID m !! id = Some tx ->
    tx_HandoffInProgress tx = true /\ dispatched (tx_State tx) = true /\
    activeStateTx (lock m) = id /\
    (forall p, pendingReplies m !! id = Some p -> reply_fits tx p);
  re_gone : transactionsByRPCID m !! id = None ->
    activeStateTx (lock m) <> id /\ pendingReplies m !! id = None;
}.

Lemma inv_resume f id o m uu fr :
  inv None m uu (f :: fr) -> early f = Some (id, o) -> resumed id o m uu fr.
Proof.
  intros I He. assert (Hf : frame_rpc f = Some id) by (unfold frame_rpc; by rewrite He).
  pose proof (inv_frames _ _ _ _ I) as HF. rewrite Forall_cons in HF. destruct HF as [HF _].
  unfold frame_ok in HF. rewrite He in HF. destruct HF as (Hu & Ho & Hop & Hd & HF).
  assert (Hid : id <> "") by (intros ->; by apply (inv_names _ _ _ _ I)).
  split; try done.
  - by eapply inv_take.
  - by eapply inv_not_suspended.
  - intros tx Htx. destruct (HF ltac:(done) tx Htx) as (Hh & Ha & _).
    destruct (inv_settled _ _ _ _ I _ _ Htx ltac:(done)) as [A B C]. destruct (C Hh) as [? _].
    split_and!; try done. intros p Hp. by destruct (A p Hp).
  - intros Hn. split.
    + by destruct (gone_owner _ _ _ _ I Hn Hd).
    + destruct (pendingReplies m !! id) eqn:Hp; [|done].
      destruct (inv_pending _ _ _ _ I _ _ Hp ltac:(done)) as [t Ht]. congruence.
Qed.

(** The write succeeded. *)
Lemma retain_saved_inv f id o resp m now m' next uu fr :
  inv None m uu (f :: fr) -> early f = Some (id, o) ->
  retain_saved m now id o resp = (m', next) ->
  match next with
  | RetainDone _ _ => inv None m' uu fr
  | RetainRelease p => inv None m' uu (FRelease id o p :: fr)
  end.
Proof.
  intros I He. destruct (inv_resume _ _ _ _ _ _ I He) as [I1 Hid Hu Hou Hop Hd Hno Hlive Hgone].
  unfold retain_saved, set_owner_if.
  destruct (transactionsByRPCID m !! id) as [tx|] eqn:Htx.
  - destruct (Hlive tx eq_refl) as (Hh & Hds & Ha & Hfit).
    rewrite (proj2 (String.eqb_eq _ _) Ha). set (m1 := set_owner o LockOwnedByOperation m).
    assert (I2 : inv (Some id) m1 uu fr) by (apply inv_set_owner; auto).
    change (pendingReplies m1) with (pendingReplies m).
    change (activeStateTx (lock m1)) with o. rewrite String.eqb_refl.
    destruct (pendingReplies m !! id) as [p|] eqn:Hp.
    + intros [= <- <-]. specialize (Hfit p eq_refl).
      assert (Hoi : o <> id) by (intros ->; destruct Hop; congruence).
      eapply (inv_suspend_live _ id tx); try done.
      * unfold frame_ok. simpl. split_and!; [done|apply Hfit|]. intros _ t Ht.
        rewrite Htx in Ht. injection Ht as <-. done.
      * split.
        -- intros q Hq. simpl in Hq. rewrite Hp in Hq. injection Hq as <-.
           split_and!; [done|by right|by rewrite Hh].
        -- by rewrite Hh.
        -- intros _. split; [done|]. eexists. split; [by left|done].
    + destruct (terminal_inv id tx m1 now TxCompleted resp uu fr I2 Htx eq_refl) as [I3 _].
      { by destruct (tx_State tx). }
      destruct (terminalTransition m1 now id TxCompleted resp) as [m2 e]. by intros [= <- <-].
  - destruct (Hgone eq_refl) as [Ha Hp]. rewrite (proj2 (String.eqb_neq _ _) Ha), Hp.
    pose proof (terminal_missing id m now TxCompleted resp Htx) as Hm.
    destruct (terminalTransition m now id TxCompleted resp) as [m2 e]. simpl in Hm. subst m2.
    intros [= <- <-]. by apply (inv_settle_gone id).
Qed.

(** The write failed: the transaction, if it is still there, has its lock back
    and no handoff. *)
Definition taken_back (id : string) (m : t S) : t S :=
  let m := update_tx id (set_Handoff false) m in
  set_owner_if id (activeStateTx (lock m)) LockOwnedByRPC m.

Lemma taken_back_live id o tx m uu fr :
  resumed id o m uu fr -> transactionsByRPCID m !! id = Some tx ->
  let m' := taken_back id m in
  inv (Some id) m' uu fr /\ transactionsByRPCID m' !! id = Some (set_Handoff false tx) /\
  pendingReplies m' = pendingReplies m /\ timers m' = timers m /\
  lock m' = mkLock (stateLock (lock m)) id LockOwnedByRPC (releasingOperationID (lock m)).
Proof.
  intros R Htx. destruct (re_live _ _ _ _ _ R tx Htx) as (Hh & Hd & Ha & _).
  pose proof (inv_tx _ _ _ _ (re_inv _ _ _ _ _ R) _ _ Htx) as T.
  unfold taken_back, set_owner_if.
  assert (I1 : inv (Some id) (update_tx id (set_Handoff false) m) uu fr)
    by (eapply inv_update; try done; try apply T; apply R).
  rewrite (update_tx_live _ _ _ _ Htx) in *. set (m1 := set_transactions _ m) in *.
  change (lock m1) with (lock m). rewrite Ha, String.eqb_refl. split_and!; try done.
  - apply inv_set_owner; auto; apply R.
  - apply lookup_insert_eq.
Qed.

(** Restarting the response timer. *)
Lemma retry_inv id tx m now uu fr :
  inv (Some id) m uu fr -> transactionsByRPCID m !! id = Some tx ->
  tx_HandoffInProgress tx = false -> tx_State tx = TxInFlight ->
  pendingReplies m !! id = None -> activeStateOwner (lock m) = LockOwnedByRPC ->
  id ∉ omap frame_rpc fr ->
  let remaining := time_Sub (tx_ResponseDeadline tx) now in
  0 < remaining ->
  inv None (update_tx id (set_Response (tx_ResponseDeadline tx) (Some (AfterFunc now remaining id m).1))
              (AfterFunc now remaining id m).2) uu fr.
Proof.
  intros I Htx Hh Hs Hp Ho Hno remaining Hr. pose proof (inv_tx _ _ _ _ I _ _ Htx) as T.
  pose proof (inv_AfterFunc id now remaining m uu fr I (tx_issued _ _ _ _ T)) as I2.
  specialize (I2 ltac:(intros ?; by rewrite Htx; intros [= <-])).
  unfold AfterFunc in *. cbn [fst snd] in *. set (m2 := set_timers _ m) in *.
  set (g := set_Response _ _).
  assert (Htx2 : transactionsByRPCID m2 !! id = Some tx) by exact Htx.
  assert (Hlast : timers m2 !! length (timers m)
            = Some (mkTimer id (now + remaining) TimerArmed)) by by apply list_lookup_middle.
  assert (I3 : inv (Some id) (update_tx id g m2) uu fr).
  { eapply inv_update; try done; try apply T. intros h [= <-]. by eexists. }
  rewrite (update_tx_live _ _ _ _ Htx2) in *. set (m3 := set_transactions _ m2) in *.
  assert (Htx3 : transactionsByRPCID m3 !! id = Some (g tx)) by apply lookup_insert_eq.
  apply (inv_settle id); try done; try by rewrite Htx3.
  - intros t Ht. rewrite Htx3 in Ht. injection Ht as <-. split.
    + intros p Hq. simpl in Hq. congruence.
    + intros _ _. eexists _, _. split_and!; [done|exact Hlast|]. left. split; [done|].
      simpl. unfold remaining, time_Sub in *.
      pose proof (proj1 (sat_duration_pos _) Hr). unfold sat_duration, min_int64 in *. lia.
    + simpl. by rewrite Hh.
  - intros _ _. by exists (g tx).
  - simpl. intros _ Hx. congruence.
  - intros t f Ht Hf Hrf. destruct Hno. apply list_elem_of_omap. by exists f.
Qed.

(** A transaction that had not been published when the write failed: it stays
    as it was before the handoff. *)
Lemma back_inv id tx m uu fr :
  inv (Some id) m uu fr -> transactionsByRPCID m !! id = Some tx ->
  tx_HandoffInProgress tx = false -> preflight (tx_State tx) = true ->
  pendingReplies m !! id = None -> activeStateOwner (lock m) = LockOwnedByRPC ->
  id ∉ omap frame_rpc fr -> inv None m uu fr.
Proof.
  intros I Htx Hh Hs Hp Ho Hno. apply (inv_settle id); try done.
  - intros t Ht. rewrite Htx in Ht. injection Ht as <-. split.
    + congruence.
    + intros Hx. by rewrite Hx in Hs.
    + by rewrite Hh.
  - intros _ _. by exists tx.
  - congruence.
  - intros t f Ht Hf Hrf. destruct Hno. apply list_elem_of_omap. by exists f.
Qed.

Lemma retain_failed_live id o tx e m now m' next uu fr :
  zero_time < now -> resumed id o m uu fr -> transactionsByRPCID m !! id = Some tx ->
  retain_failed m now id e = (m', next) -> inv None m' uu fr.
Proof.
  intros Hnow R Htx. destruct (taken_back_live _ _ _ _ _ _ R Htx) as (I1 & Ht1 & Hp1 & _ & Hl1).
  destruct (re_live _ _ _ _ _ R tx Htx) as (Hh & Hd & Ha & Hfit).
  unfold retain_failed. fold (taken_back id m). set (m1 := taken_back id m) in *.
  rewrite Hp1. destruct (pendingReplies m !! id) as [p|] eqn:Hp.
  - specialize (Hfit p eq_refl). rewrite <- Hp1.
    destruct (terminal_inv id (set_Handoff false tx)
                (set_pending (delete id (pendingReplies m1)) m1) now (pr_State p) (pr_Payload p) uu fr)
      as [I2 _]; [by apply inv_delete_pending|done|apply Hfit|by apply reply_legal|].
    destruct (terminalTransition _ _ _ _ _). by intros [= <- <-].
  - rewrite (deref_live _ _ _ Ht1). change (tx_ResponseDeadline (set_Handoff false tx))
      with (tx_ResponseDeadline tx).
    assert (Hpend : pendingReplies m1 !! id = None) by congruence.
    assert (Hown : activeStateOwner (lock m1) = LockOwnedByRPC) by (by rewrite Hl1).
    pose proof (re_none _ _ _ _ _ R) as Hno.
    destruct (Z.leb_spec (time_Sub (tx_ResponseDeadline tx) now) 0) as [Hle|Hgt].
    + destruct (preflight (tx_State tx)) eqn:Hpre.
      * unfold terminalTransition. rewrite Ht1. simpl.
        destruct (tx_State tx) eqn:Hst; try done; simpl; intros [= <- <-];
          (eapply back_inv; [done|exact Ht1|done| |done|done|done]; simpl; by rewrite Hst).
      * destruct (terminal_inv id (set_Handoff false tx) m1 now TxTimedOut
                    (buildTimeoutResponse (set_Handoff false tx)) uu fr I1 Ht1 eq_refl) as [I2 _].
        { simpl. by destruct (tx_State tx). }
        destruct (terminalTransition _ _ _ _ _). by intros [= <- <-].
    + pose proof (inv_tx _ _ _ _ I1 _ _ Ht1) as T1.
      assert (tx_State tx = TxInFlight) as Hst.
      { destruct (preflight (tx_State tx)) eqn:Hpre; [|by destruct (tx_State tx)].
        pose proof (tx_deadline _ _ _ _ T1 Hpre) as Hz. simpl in Hz. rewrite Hz in Hgt.
        unfold time_Sub in Hgt. apply (proj1 (sat_duration_pos _)) in Hgt. lia. }
      pose proof (retry_inv id (set_Handoff false tx) m1 now uu fr I1 Ht1 eq_refl Hst Hpend Hown Hno)
        as HI. simpl in HI. specialize (HI Hgt). by intros [= <- <-].
Qed.

Lemma retain_failed_gone id o e m now m' next uu fr :
  resumed id o m uu fr -> transactionsByRPCID m !! id = None ->
  retain_failed m now id e = (m', next) -> inv None m' uu fr.
Proof.
  intros R Htx. destruct (re_gone _ _ _ _ _ R Htx) as [Ha Hp].
  assert (I0 : inv None m uu fr) by (apply (inv_settle_gone id); try done; apply R).
  unfold retain_failed. fold (taken_back id m).
  assert (I1 : inv None (update_tx id (set_Handoff false) m) uu fr) by by apply inv_update_past.
  assert (Hm : taken_back id m = update_tx id (set_Handoff false) m).
  { unfold taken_back, set_owner_if, update_tx. rewrite Htx. cbn [lock set_detached].
    by rewrite (proj2 (String.eqb_neq _ _) Ha). }
  rewrite Hm. clear Hm.
  assert (Hf : transactionsByRPCID (update_tx id (set_Handoff false) m) !! id = None /\
               pendingReplies (update_tx id (set_Handoff false) m) = pendingReplies m).
  { unfold update_tx. by rewrite Htx. }
  set (m1 := update_tx _ _ m) in *. destruct Hf as [Ht1 Hp1]. rewrite Hp1, Hp.
  destruct (deref id m1) as [tx|] eqn:Hd; [|by intros [= <- <-]].
  destruct (Z.leb_spec (time_Sub (tx_ResponseDeadline tx) now) 0) as [Hle|Hgt].
  - pose proof (terminal_missing id m1 now TxTimedOut (buildTimeoutResponse tx) Ht1) as Hm.
    destruct (terminalTransition _ _ _ _ _). simpl in Hm. subst. by intros [= <- <-].
  - unfold AfterFunc. intros [= <- <-].
    apply inv_update_past; [|done|done]. apply inv_set_timers; [done|]. split.
    + intros h tm Hh. exists tm. rewrite lookup_app_l by (by eapply lookup_lt_Some). auto.
    + intros h tm' Hh. apply lookup_app_Some in Hh as [Hh|[Hle Hh]]; [left; by exists tm'|].
      right. apply list_lookup_singleton_Some in Hh as [_ <-]. simpl. split; [apply R|].
      intros t Ht. congruence.
Qed.

Lemma retain_failed_next id e m now m' next :
  retain_failed m now id e = (m', next) -> exists err, next = RetainDone "" err.
Proof.
  unfold retain_failed. destruct (pendingReplies _ !! id).
  - destruct (terminalTransition _ _ _ _ _). intros [= <- <-]. by eexists.
  - destruct (deref id _); [|intros [= <- <-]; by eexists].
    destruct (_ <=? 0); [destruct (terminalTransition _ _ _ _ _)|]; intros [= <- <-]; by eexists.
Qed.

Lemma retain_failed_inv f id o e m now m' next uu fr :
  zero_time < now -> inv None m uu (f :: fr) -> early f = Some (id, o) ->
  retain_failed m now id e = (m', next) ->
  inv None m' uu fr /\ exists err, next = RetainDone "" err.
Proof.
  intros Hnow I He Hr. split; [|by eapply retain_failed_next].
  pose proof (inv_resume _ _ _ _ _ _ I He) as R.
  destruct (transactionsByRPCID m !! id) as [tx|] eqn:Htx.
  - by eapply retain_failed_live.
  - by eapply retain_failed_gone.
Qed.

End Inv.
