(* ===== verification/ManagerSafety.v ===== *)
(** * Safety of the request manager

    The invariant holds in every state the interleavings of [ManagerSteps]
    reach; the theorems read off what it means for the program: the state lock
    has one owner and is never unlocked twice, every request is answered at
    most once and its resources go with it, the number of requests is bounded
    and a request in flight always has a way to its end. *)

From S2P Require Import Prelude GoTime Scheduler Json Rpc RequestKey Transaction Cache Store Manager ManagerSteps ManagerInv.
Import RequestManager.

Section Safety.
Context {S : Type} `{OutboundScheduler S} {St : Type} `{OperationStore St}.

Implicit Types (w : world S St).

Definition winv w : Prop := zero_time < clock w /\ inv None (mgr w) (issued w) (frames w).

Lemma takes_perm f fr fr' : takes f fr fr' -> fr ≡ₚ f :: fr'.
Proof. destruct 1. symmetry. apply Permutation_middle. Qed.

(** A suspended call without a transaction of its own may go. *)
Lemma inv_forget f x (m : t S) uu fr : inv x m uu (f :: fr) -> frame_rpc f = None -> inv x m uu fr.
Proof.
  intros I Hf. split; try apply I.
  - intros i tx Hi Hx. destruct (inv_settled _ _ _ _ I _ _ Hi Hx) as [A B C]. split; try done.
    intros Hh. destruct (C Hh) as (? & g & Hg & Hr). split; [done|]. exists g.
    apply elem_of_cons in Hg as [->|?]; [congruence|done].
  - pose proof (inv_frames _ _ _ _ I) as HF. by inversion HF.
  - pose proof (inv_once _ _ _ _ I) as HN. simpl in HN. by rewrite Hf in HN.
Qed.

(** A suspended call may be replaced by one about the same transaction. *)
Lemma inv_swap f f' x (m : t S) uu fr :
  inv x m uu (f :: fr) -> early f' = early f -> late f' = late f -> inv x m uu (f' :: fr).
Proof.
  intros I He Hl. assert (Hr : frame_rpc f' = frame_rpc f) by (unfold frame_rpc; by rewrite He, Hl).
  split; try apply I.
  - intros i tx Hi Hx. destruct (inv_settled _ _ _ _ I _ _ Hi Hx) as [A B C]. split; try done.
    intros Hh. destruct (C Hh) as (? & g & Hg & Hgr). split; [done|].
    apply elem_of_cons in Hg as [->|Hg].
    + exists f'. split; [by left|congruence].
    + exists g. split; [by right|done].
  - pose proof (inv_frames _ _ _ _ I) as HF. inversion HF; subst. constructor; [|done].
    unfold frame_ok in *. by rewrite He, Hl.
  - pose proof (inv_once _ _ _ _ I) as HN. simpl in *. by rewrite Hr.
Qed.

Lemma advance_inv w f w' fr f' :
  winv w -> takes f (frames w) fr -> advance w f w' fr f' ->
  issued w' = issued w /\ clock w' = clock w /\ inv None (mgr w') (issued w) (resume f' fr).
Proof.
  intros [Hc I] Ht%takes_perm Ha. apply (inv_perm _ _ _ _ _ Ht) in I. clear Ht.
  destruct Ha; simpl; split_and!; try done.
  - by eapply inv_swap.
  - destruct err as [e'|]; simpl in H1.
    + eapply retain_failed_inv; [..|done]; done.
    + eapply (retain_saved_inv _ r o resp) in I; [|done|exact H1]. done.
  - destruct err as [e'|]; simpl in H1.
    + by eapply retain_failed_inv in H1 as (_ & ? & ?).
    + eapply (retain_saved_inv _ r o resp) in I; [|done|exact H1]. done.
  - apply (f_equal fst) in H1. simpl in H1. subst m.
    eapply inv_swap; [by apply release_begin_inv|done|done].
  - apply (f_equal fst) in H1. simpl in H1. subst m.
    eapply inv_swap; [by apply release_begin_inv|done|done].
  - by eapply inv_swap.
  - apply (release_end_inv _ o) in I. destruct k as [[r p]|]; simpl.
    + by eapply inv_swap.
    + by eapply inv_forget.
  - by eapply retain_last_inv.
Qed.

Lemma step_inv w w' : step w w' -> winv w -> winv w'.
Proof.
  intros Hs [Hc I]. destruct Hs; unfold winv, set_mgr; simpl; try (split; [done|]).
  - destruct H1. by eapply CreateTransaction_inv.
  - by apply run_call_inv.
  - by apply fire_inv.
  - destruct (Timeout_inv (mgr w) (clock w) (tm_rpcID tm) (issued w) (frames w) I) as [I' Hg].
    { apply (inv_timer _ _ _ _ I _ _ H1). }
    destruct (Timeout_timers (mgr w) (clock w) (tm_rpcID tm) _ _ H1) as (tm' & Ht & Hr).
    rewrite H3 in *. simpl in *. eapply done_inv; [done|exact Ht|by rewrite Hr].
  - destruct H1. by eapply retain_begin_inv.
  - destruct (advance_inv w f w' fr f' (conj Hc I)) as (-> & -> & ?); done.
  - apply (f_equal fst) in H1. simpl in H1. subst m.
    apply inv_suspend; [by apply release_begin_inv|done|done].
  - done.
  - done.
  - apply inv_set_cache; [done|].
    destruct (TransactionCache.sweepCache _ _ !! "") eqn:Hs; [|done].
    apply TransactionCache.sweepCache_lookup in Hs as [Hs _].
    rewrite (inv_cache _ _ _ _ I) in Hs. done.
  - by apply inv_set_scheduler.
  - by apply inv_set_scheduler.
  - split; [lia|done].
Qed.

Lemma initial_inv w : initial w -> winv w.
Proof.
  intros (Ht & Ha & Hp & Hc & Htm & Hd & Hpu & Hcr & Hf & Hi & Hz & Hl). split; [done|].
  split; rewrite ?Ht, ?Ha, ?Hp, ?Htm, ?Hd, ?Hpu, ?Hf; try done.
  - split; [by constructor|]. intros id Hin. by apply elem_of_nil in Hin.
  - rewrite map_size_empty. lia.
  - destruct Hl as [(Hl & Ha' & Ho)|(Hl & Ho & Ha' & Hu)]; split; rewrite ?Hl, ?Ha', ?Ho; try done.
    intros _. split; [done|]. split; [done|by rewrite Ht|by rewrite Hd].
  - constructor.
Qed.

Lemma reachable_inv w : reachable w -> winv w.
Proof.
  intros (w0 & Hi & Hs). apply initial_inv in Hi. induction Hs as [|w0 w1 w2 H1 _ IH]; [done|].
  apply IH. by eapply step_inv.
Qed.

(** ** What the invariant says of the program *)

Definition live w id tx : Prop := transactionsByRPCID (mgr w) !! id = Some tx.

(** C4: In every reachable state the state mutex is held exactly while someone
    owns it, and the owner is who the code says: a transaction of the map (not
    in a handoff), a transaction whose [RespondAndRetain] is between its
    sections and will run on, or an operation that is no transaction.  The
    mutex has never been unlocked while it was free, which would crash the
    daemon. *)
Theorem state_lock_ownership w :
  reachable w ->
  crashed (mgr w) = false /\
  stateLock (lock (mgr w)) = negb (bool_decide (activeStateOwner (lock (mgr w)) = LockNone)) /\
  let holder := activeStateTx (lock (mgr w)) in
  match activeStateOwner (lock (mgr w)) with
  | LockNone => holder = ""
  | LockOwnedByRPC => exists tx, live w holder tx /\ tx_HandoffInProgress tx = false
  | LockTransferPending => exists tx f, live w holder tx /\ tx_HandoffInProgress tx = true /\
      f ∈ frames w /\ option_map fst (early f) = Some holder
  | LockOwnedByOperation => holder <> "" /\ transactionsByRPCID (mgr w) !! holder = None
  end.
Proof.
  intros [_ I]%reachable_inv. pose proof (inv_lock _ _ _ _ I) as [A B C D E].
  split_and!; [apply I|done|]. destruct (activeStateOwner (lock (mgr w))).
  - by apply B.
  - by apply C.
  - destruct (D eq_refl ltac:(done)) as (tx & Htx & Hh). exists tx.
    destruct (tx_handoff _ _ _ _ (inv_settled _ _ _ _ I _ _ Htx ltac:(done)) Hh) as (_ & f & Hf & Hr).
    exists f. split_and!; try done. unfold frame_rpc in Hr.
    destruct (early f) as [[r o]|] eqn:He; [done|].
    destruct (late f) as [[r p]|] eqn:Hl; [|done]. injection Hr as ->.
    pose proof (inv_frames _ _ _ _ I) as HF. rewrite Forall_forall in HF. specialize (HF f Hf).
    unfold frame_ok in HF. rewrite He, Hl in HF. destruct HF as (_ & _ & HF).
    by destruct (HF ltac:(done) tx Htx) as (_ & [] & _).
  - destruct (E eq_refl) as [_ [? ? _]]. done.
Qed.

(** C5: Over any execution at most one response is handed to the scheduler for
    a transaction, whatever replies, failures and timeouts race for it, and
    only when the transaction has reached a terminal state and left the map. *)
Theorem at_most_one_response w :
  reachable w ->
  NoDup (map fst (pushed (mgr w))) /\
  forall id msg, (id, msg) ∈ pushed (mgr w) ->
    transactionsByRPCID (mgr w) !! id = None /\
    exists tx, detached (mgr w) !! id = Some tx /\ terminal (tx_State tx) = true.
Proof.
  intros [_ I]%reachable_inv. destruct (inv_pushed _ _ _ _ I) as [Hnd Hin]. split; [done|].
  intros id msg Hm. destruct (Hin id) as [tx Htx].
  { apply list_elem_of_fmap. by exists (id, msg). }
  destruct (inv_detached _ _ _ _ I _ _ Htx) as (? & ? & _). split; [done|]. by exists tx.
Qed.

(** C22: The two maps of the manager agree in every reachable state: the
    duplicate filter [activeCloudRequests] holds exactly the keys of the
    transactions in the map, each pointing to its own transaction, so no two
    requests in progress have the same key; every transaction in the map is
    non-terminal; and there are never more than [maxConcurrentRequests]. *)
Theorem request_registry w :
  reachable w -> 0 <= maxConcurrentRequests (cfg (mgr w)) ->
  (forall k id, activeCloudRequests (mgr w) !! k = Some id <->
     k <> "" /\ exists tx, live w id tx /\ tx_RequestKey tx = k) /\
  (forall id tx, live w id tx -> tx_RPCID tx = id /\ terminal (tx_State tx) = false) /\
  Z.of_nat (size (transactionsByRPCID (mgr w))) <= maxConcurrentRequests (cfg (mgr w)).
Proof.
  intros [_ I]%reachable_inv Hmax. split_and!.
  - intros k id. split; [apply (inv_active _ _ _ _ I)|].
    intros (Hk & tx & Htx & <-). by apply (inv_tx _ _ _ _ I _ _ Htx).
  - intros id tx Htx. by destruct (inv_tx _ _ _ _ I _ _ Htx).
  - pose proof (inv_capacity _ _ _ _ I). lia.
Qed.

(** No request in flight can wait forever: in every reachable state it has
    a response timer that is armed for its deadline at the latest, or has
    fired with its [Timeout] call still to run, unless its [RespondAndRetain]
    is under way; and that [Timeout] call removes it and answers it. *)
Theorem inflight_request_is_timed w id tx :
  reachable w -> live w id tx -> tx_State tx = TxInFlight -> tx_HandoffInProgress tx = false ->
  (exists h tm, tx_ResponseTimer tx = Some h /\ timers (mgr w) !! h = Some tm /\
     tm_rpcID tm = id /\
     (tm_status tm = TimerArmed /\ tm_deadline tm <= tx_ResponseDeadline tx \/
      tm_status tm = TimerFired)) /\
  transactionsByRPCID (Timeout_ (mgr w) (clock w) id).1 !! id = None /\
  pushed (Timeout_ (mgr w) (clock w) id).1
  = pushed (push_response id tx (buildTimeoutResponse tx) (mgr w)).
Proof.
  intros [_ I]%reachable_inv Htx Hs Hh.
  pose proof (inv_settled _ _ _ _ I _ _ Htx ltac:(done)) as [A B _].
  pose proof (inv_tx _ _ _ _ I _ _ Htx) as T. split.
  - destruct (B Hs Hh) as (h & tm & Hr & Ht & Hst). exists h, tm. split_and!; try done.
    destruct (tx_timer _ _ _ _ T _ Hr) as (? & ? & ?). congruence.
  - unfold live in Htx. unfold Timeout_, finish_with. rewrite Htx, Hh.
    assert (pendingReplies (mgr w) !! id = None) as ->.
    { destruct (pendingReplies (mgr w) !! id) as [p|] eqn:Hp; [|done].
      destruct (A p eq_refl) as (_ & Hx & _). rewrite Hs, Hh in Hx. by destruct Hx. }
    destruct (terminal_spec id tx (mgr w) (clock w) TxTimedOut (buildTimeoutResponse tx) Htx)
      as (-> & _ & _ & _ & -> & _); [done|by rewrite Hs|].
    by rewrite lookup_delete_eq.
Qed.

(** A handoff ends: while the flag of a transaction is set, exactly one
    suspended [RespondAndRetain] call belongs to it, and meanwhile replies and
    timeouts are buffered, never lost: [Complete] or [Fail] either stores the
    reply or reports that another one came first. *)
Theorem handoff_has_owner w id tx r :
  reachable w -> live w id tx -> tx_HandoffInProgress tx = true ->
  (exists f, f ∈ frames w /\ frame_rpc f = Some id /\
     forall g, g ∈ frames w -> frame_rpc g = Some id -> g = f) /\
  match Complete (mgr w) (clock w) id r with
  | (m, None) => pendingReplies m !! id = Some (mkReply r TxCompleted) /\ live w id tx
  | (m, Some e) => m = mgr w /\ e = ErrAlreadyTerminal /\ is_Some (pendingReplies m !! id)
  end.
Proof.
  intros [_ I]%reachable_inv Htx Hh. split.
  - destruct (tx_handoff _ _ _ _ (inv_settled _ _ _ _ I _ _ Htx ltac:(done)) Hh)
      as (_ & f & Hf & Hr). exists f. split_and!; try done.
    intros g Hg Hgr. pose proof (inv_once _ _ _ _ I) as HN.
    apply list_elem_of_split in Hf as (l1 & l2 & Hl). rewrite Hl in HN, Hg.
    rewrite omap_app in HN. simpl in HN. rewrite Hr in HN.
    apply NoDup_app in HN as (_ & Hd & HN). apply NoDup_cons in HN as [Hn2 _].
    rewrite elem_of_app, elem_of_cons in Hg. destruct Hg as [Hg|[->|Hg]]; [|done|].
    + exfalso. apply (Hd id); [|by left]. apply list_elem_of_omap. by exists g.
    + destruct Hn2. apply list_elem_of_omap. by exists g.
  - unfold live in Htx. unfold Complete. rewrite Htx, Hh, orb_true_r. unfold buffer_reply.
    destruct (pendingReplies (mgr w) !! id) eqn:Hp; simpl.
    + rewrite Hp. split_and!; [done|done|by eexists].
    + by rewrite lookup_insert_eq.
Qed.

End Safety.
