(* ===== verification/ManagerProgress.v ===== *)
(** * Requests only move forward

    [progress i m m']: the transaction [i] of [m'], if it is still there, was
    there in [m], has come no further from its end, and a reply buffered for
    it during a handoff is still buffered unless it is in flight.  Every step
    of the concurrent manager is progress ([step_progress]); a request that
    will be answered without further help ([settled]) therefore stays one
    ([step_settled]). *)

From S2P Require Import Prelude GoTime Scheduler Json Rpc RequestKey Transaction Cache Store Manager ManagerSteps ManagerInv ManagerSafety.
Import RequestManager.

Section Progress.
Context {S : Type} `{OutboundScheduler S} {St : Type} `{OperationStore St}.

Implicit Types (w : world S St) (m : t S) (tx : Transaction).

Definition rank tx : nat := remaining_steps (tx_State tx).

Definition buffered m (i : string) tx : Prop :=
  tx_HandoffInProgress tx = true /\ is_Some (pendingReplies m !! i).

Definition progress (i : string) m m' : Prop :=
  forall tx', transactionsByRPCID m' !! i = Some tx' ->
  exists tx, transactionsByRPCID m !! i = Some tx /\ (rank tx' <= rank tx)%nat /\
    (buffered m i tx -> buffered m' i tx' \/ (rank tx' <= 1)%nat).

Lemma progress_refl i m : progress i m m.
Proof. intros tx Htx. exists tx. split_and!; [done|lia|by left]. Qed.

Lemma progress_trans i m1 m2 m3 : progress i m1 m2 -> progress i m2 m3 -> progress i m1 m3.
Proof.
  intros H1 H2 tx3 H3. destruct (H2 tx3 H3) as (tx2 & Ht2 & Hr2 & Hb2).
  destruct (H1 tx2 Ht2) as (tx1 & Ht1 & Hr1 & Hb1). exists tx1. split_and!; [done|lia|].
  intros Hb. destruct (Hb1 Hb) as [Hb'|Hb']; [by apply Hb2|right; lia].
Qed.

(** Changes that leave the transaction and its buffered reply alone. *)
Lemma progress_same i m m' :
  transactionsByRPCID m' !! i = transactionsByRPCID m !! i ->
  pendingReplies m' !! i = pendingReplies m !! i -> progress i m m'.
Proof.
  intros Ht Hp tx Htx. exists tx. rewrite <- Ht. split_and!; [done|lia|].
  intros [Hh Hb]. left. split; [done|]. by rewrite Hp.
Qed.

Lemma progress_gone i m m' : transactionsByRPCID m' !! i = None -> progress i m m'.
Proof. intros Hn tx. by rewrite Hn. Qed.

Lemma update_pending id f m : pendingReplies (update_tx id f m) = pendingReplies m.
Proof. unfold update_tx. by destruct (transactionsByRPCID m !! id). Qed.

(** An assignment to a transaction that keeps its handoff. *)
Lemma progress_update i id f m :
  (forall tx, transactionsByRPCID m !! id = Some tx ->
     (rank (f tx) <= rank tx)%nat /\ (buffered m id tx -> tx_HandoffInProgress (f tx) = true \/ (rank (f tx) <= 1)%nat)) ->
  progress i m (update_tx id f m).
Proof.
  intros Hf tx'. unfold update_tx. destruct (transactionsByRPCID m !! id) as [tx|] eqn:Htx; simpl.
  2:{ intros Hi. exists tx'. split_and!; [done|lia|by left]. }
  destruct (decide (i = id)) as [->|Hne].
  - rewrite lookup_insert_eq. intros [= <-]. destruct (Hf tx eq_refl) as [Hr Hb]. exists tx.
    split_and!; [done|done|]. intros B. destruct (Hb B) as [Hh|]; [|by right]. left. split; [done|by apply B].
  - rewrite lookup_insert_ne by done. intros Hi. exists tx'. split_and!; [done|lia|by left].
Qed.

Lemma terminal_progress i m now id final payload :
  progress i m (terminalTransition m now id final payload).1.
Proof.
  destruct (transactionsByRPCID m !! id) as [tx|] eqn:Htx;
    [|rewrite terminal_missing by done; apply progress_refl].
  destruct (terminal final) eqn:Hf; [|unfold terminalTransition; rewrite Hf; apply progress_refl].
  destruct (validateTransition (tx_State tx) final) eqn:Hv;
    [unfold terminalTransition; rewrite Hf, Htx, Hv; apply progress_refl|].
  destruct (terminal_spec id tx m now final payload Htx Hf Hv) as (Ht & Hp & _).
  destruct (decide (i = id)) as [->|Hne].
  - apply progress_gone. by rewrite Ht, lookup_delete_eq.
  - apply progress_same; [by rewrite Ht, lookup_delete_ne|by rewrite Hp, lookup_delete_ne].
Qed.

(** A legal terminal transition removes the transaction. *)
Lemma terminal_gone m now id final payload tx :
  transactionsByRPCID m !! id = Some tx -> terminal final = true ->
  validateTransition (tx_State tx) final = None ->
  transactionsByRPCID (terminalTransition m now id final payload).1 !! id = None.
Proof.
  intros Htx Hf Hv. destruct (terminal_spec id tx m now final payload Htx Hf Hv) as (-> & _).
  apply lookup_delete_eq.
Qed.

(** Taking the buffered reply of a transaction: nothing is lost if it was not
    in a handoff, or is in flight, or the transaction goes. *)
Lemma progress_take i id m :
  (forall tx, transactionsByRPCID m !! id = Some tx ->
     tx_HandoffInProgress tx = false \/ (rank tx <= 1)%nat) ->
  progress i m (set_pending (delete id (pendingReplies m)) m).
Proof.
  intros Hid tx Htx. simpl in Htx. exists tx. split_and!; [done|lia|]. intros [Hh Hb].
  destruct (decide (i = id)) as [->|Hne].
  - destruct (Hid tx Htx) as [Hh'|Hr]; [congruence|by right].
  - left. split; [done|]. simpl. by rewrite lookup_delete_ne.
Qed.

(** The same when the transaction goes. *)
Lemma progress_end i id m0 m now final payload :
  (forall j, j <> id -> transactionsByRPCID m0 !! j = transactionsByRPCID m !! j) ->
  (forall j, j <> id -> pendingReplies m0 !! j = pendingReplies m !! j) ->
  (forall tx, transactionsByRPCID m0 !! id = Some tx ->
     terminal final = true /\ validateTransition (tx_State tx) final = None) ->
  progress i m (terminalTransition m0 now id final payload).1.
Proof.
  intros Ht Hp Hv. destruct (decide (i = id)) as [->|Hne].
  - apply progress_gone. destruct (transactionsByRPCID m0 !! id) as [tx|] eqn:Htx.
    + destruct (Hv tx eq_refl). by eapply terminal_gone.
    + by rewrite terminal_missing.
  - eapply progress_trans; [|apply terminal_progress]. apply progress_same; [by apply Ht|by apply Hp].
Qed.

Lemma validate_rank s s' : validateTransition s s' = None -> (remaining_steps s' < remaining_steps s)%nat.
Proof. intros Hv. by apply allowed_decreases, validateTransition_allowed. Qed.

(** ** The calls *)

Lemma mark_progress i to m id : progress i m (mark to m id).1.
Proof.
  unfold mark. destruct (transactionsByRPCID m !! id) as [tx|] eqn:Htx; [|apply progress_refl].
  destruct (validateTransition _ _) eqn:Hv; [apply progress_refl|].
  apply progress_update. intros tx0. rewrite Htx. intros [= <-]. apply validate_rank in Hv.
  split; [unfold rank; simpl; lia|]. intros [Hh _]. by left.
Qed.

Lemma buffer_progress i m id r : progress i m (buffer_reply m id r).1.
Proof.
  unfold buffer_reply. destruct (pendingReplies m !! id) eqn:Hp; [apply progress_refl|].
  intros tx Htx. exists tx. split_and!; [done|lia|]. intros [Hh Hb]. left. split; [done|]. simpl.
  destruct (decide (i = id)) as [->|]; [rewrite lookup_insert_eq; by eexists|by rewrite lookup_insert_ne].
Qed.

Lemma inflight_progress i id m :
  (forall tx, transactionsByRPCID m !! id = Some tx -> validateTransition (tx_State tx) TxInFlight = None) ->
  progress i m (update_tx id (set_State TxInFlight) m).
Proof.
  intros Hv. apply progress_update. intros tx Htx. pose proof (validate_rank _ _ (Hv tx Htx)).
  unfold rank. simpl in *. split; [lia|]. intros _. by right.
Qed.

Lemma update_low id f m tx :
  (forall tx, (rank (f tx) <= 1)%nat) -> transactionsByRPCID (update_tx id f m) !! id = Some tx ->
  (rank tx <= 1)%nat.
Proof.
  intros Hf. unfold update_tx. destruct (transactionsByRPCID m !! id) eqn:Htx; simpl; [|by rewrite Htx].
  rewrite lookup_insert_eq. by intros [= <-].
Qed.

Lemma MarkInFlight_progress i m now id : progress i m (MarkInFlight m now id).1.
Proof.
  unfold MarkInFlight. destruct (transactionsByRPCID m !! id) as [tx|] eqn:Htx; [|apply progress_refl].
  destruct (validateTransition _ _) eqn:Hv; [apply progress_refl|].
  set (m1 := update_tx id (set_State TxInFlight) m).
  assert (H1 : progress i m m1) by (apply inflight_progress; intros tx0; rewrite Htx; by intros [= <-]).
  eapply progress_trans; [exact H1|]. destruct (pendingReplies m1 !! id) as [p|] eqn:Hp.
  - eapply progress_trans; [|apply terminal_progress]. apply progress_take. intros tx0 Ht0. right.
    unfold m1 in Ht0. eapply update_low, Ht0. done.
  - destruct (Stop_is (tx_DispatchTimer tx) m1) as [tms ->]. unfold AfterFunc. cbv beta iota zeta. cbn [fst].
    eapply progress_trans; [|apply progress_update; intros tx0 _; split; [done|by intros [? _]; left]].
    by apply progress_same.
Qed.

(** A reply that was buffered before the handoff, or the final state asked for. *)
Lemma recover_progress i m now id tx p final payload m1 e :
  transactionsByRPCID m !! id = Some tx -> tx_HandoffInProgress tx = false ->
  recoverToInFlight (set_pending (delete id (pendingReplies m)) m) id tx = (m1, e) ->
  progress i m (terminalTransition m1 now id (pr_State p) (pr_Payload p)).1 /\
  progress i m (terminalTransition m1 now id final payload).1.
Proof.
  intros Htx Hh. set (m0 := set_pending _ m).
  assert (Hq0 : progress i m m0)
    by (apply progress_take; intros tx0; rewrite Htx; intros [= <-]; by left).
  unfold recoverToInFlight. destruct (validateTransition _ _) eqn:Hv; intros [= <- _].
  - split; (eapply progress_trans; [exact Hq0|apply terminal_progress]).
  - assert (Hq1 : progress i m0 (update_tx id (set_State TxInFlight) m0)).
    { apply inflight_progress. intros tx0. simpl. rewrite Htx. by intros [= <-]. }
    split; (eapply progress_trans; [exact Hq0|]; eapply progress_trans; [exact Hq1|apply terminal_progress]).
Qed.

Lemma finish_with_progress i final m now id tx payload :
  transactionsByRPCID m !! id = Some tx -> progress i m (finish_with final m now id tx payload).1.
Proof.
  intros Htx. unfold finish_with. destruct (tx_HandoffInProgress tx) eqn:Hh; [apply buffer_progress|].
  destruct (pendingReplies m !! id) as [p|]; [|apply terminal_progress].
  destruct (recoverToInFlight _ id tx) as [m1 [e|]] eqn:Hr;
    by destruct (recover_progress i m now id tx p final payload m1 _ Htx Hh Hr).
Qed.

Lemma Complete_progress i m now id r : progress i m (Complete m now id r).1.
Proof.
  unfold Complete. destruct (transactionsByRPCID m !! id); [|apply progress_refl].
  destruct (_ || _); [apply buffer_progress|apply terminal_progress].
Qed.

Lemma dispatch_progress i m now id : progress i m (dispatchTimeoutFail m now id).
Proof.
  unfold dispatchTimeoutFail. destruct (transactionsByRPCID m !! id) as [tx|] eqn:Htx; [|apply progress_refl].
  destruct (preflight (tx_State tx)) eqn:Hpre; [|apply progress_refl].
  destruct (pendingReplies m !! id) as [p|]; [|apply terminal_progress].
  set (m0 := set_pending _ m). unfold recoverToInFlight. destruct (validateTransition _ TxInFlight) eqn:Hv.
  - apply progress_end; [done|intros j Hj; simpl; by rewrite lookup_delete_ne|].
    intros tx0. simpl. rewrite Htx. intros [= <-]. split; [done|]. by destruct (tx_State tx).
  - destruct (decide (i = id)) as [->|Hne].
    + eapply progress_trans; [|apply terminal_progress]. intros tx' Ht'. exists tx. split; [done|].
      assert (rank tx' <= 1)%nat by (eapply update_low, Ht'; done).
      split; [|by right]. apply validate_rank in Hv. unfold rank in *. simpl in Hv. lia.
    + eapply progress_trans; [|apply terminal_progress].
      apply progress_same.
      * unfold update_tx. simpl. rewrite Htx. simpl. by rewrite lookup_insert_ne.
      * rewrite update_pending. simpl. by rewrite lookup_delete_ne.
Qed.

Lemma run_call_progress i c now m : progress i m (run_call c now m).
Proof.
  destruct c; simpl.
  - apply mark_progress.
  - apply mark_progress.
  - apply MarkInFlight_progress.
  - apply Complete_progress.
  - unfold Fail. destruct (transactionsByRPCID m !! rpcID) eqn:Htx; [by apply finish_with_progress|apply progress_refl].
  - apply dispatch_progress.
Qed.

Lemma Timeout_progress i m now id : progress i m (Timeout_ m now id).1.
Proof.
  unfold Timeout_. destruct (transactionsByRPCID m !! id) eqn:Htx; [by apply finish_with_progress|apply progress_refl].
Qed.

(** ** The suspended calls *)

Lemma set_owner_if_rest r o ow m :
  transactionsByRPCID (set_owner_if r o ow m) = transactionsByRPCID m /\
  pendingReplies (set_owner_if r o ow m) = pendingReplies m.
Proof. unfold set_owner_if. by destruct (String.eqb _ _). Qed.

Lemma retain_begin_progress i m id m' r : retain_begin m id = (m', r) -> progress i m m'.
Proof.
  unfold retain_begin. destruct (transactionsByRPCID m !! id) as [tx|] eqn:Htx;
    [|intros [= <- _]; apply progress_refl].
  repeat (destruct (negb _); [intros [= <- _]; apply progress_refl|]).
  destruct (_ && _); [intros [= <- _]; apply progress_refl|].
  repeat (destruct (negb _); [intros [= <- _]; apply progress_refl|]).
  destruct (tx_HandoffInProgress tx); [intros [= <- _]; apply progress_refl|]. intros [= <- _].
  destruct (Stop_is (tx_ResponseTimer tx) m) as [tms ->].
  apply (progress_trans i m (set_timers tms m)); [by apply progress_same|].
  apply (progress_trans i _ (update_tx id (set_Handoff true) (set_timers tms m))); [|by apply progress_same].
  apply progress_update. intros tx0 _. split; [done|by left].
Qed.

(** What the invariant says of the transaction of a suspended call: a reply
    buffered for it ends it. *)
Lemma frame_reply f m uu fr id tx p :
  inv None m uu fr -> f ∈ fr -> frame_rpc f = Some id ->
  transactionsByRPCID m !! id = Some tx -> pendingReplies m !! id = Some p ->
  terminal (pr_State p) = true /\ validateTransition (tx_State tx) (pr_State p) = None.
Proof.
  intros I Hf Hid Htx Hp. pose proof (inv_settled _ _ _ _ I _ _ Htx ltac:(done)) as [A _ C].
  destruct (A p Hp) as (Hfit & _). split; [apply Hfit|].
  assert (Hh : tx_HandoffInProgress tx = true).
  { pose proof (inv_frames _ _ _ _ I) as HF. rewrite Forall_forall in HF. specialize (HF f Hf).
    unfold frame_ok in HF. unfold frame_rpc in Hid. destruct (early f) as [[r o]|].
    - injection Hid as ->. destruct HF as (_ & _ & _ & _ & HF). by destruct (HF ltac:(done) tx Htx).
    - destruct (late f) as [[r q]|]; [|done]. injection Hid as ->. destruct HF as (_ & _ & HF).
      by destruct (HF ltac:(done) tx Htx). }
  apply reply_legal; [|done]. by destruct (C Hh).
Qed.

Lemma retain_failed_progress i f m uu fr now id e m' next :
  inv None m uu fr -> f ∈ fr -> frame_rpc f = Some id ->
  retain_failed m now id e = (m', next) -> progress i m m'.
Proof.
  intros I Hf Hid. unfold retain_failed. set (m1 := update_tx id (set_Handoff false) m).
  set (m2 := set_owner_if _ _ _ m1).
  assert (Ht2 : transactionsByRPCID m2 = transactionsByRPCID m1) by apply set_owner_if_rest.
  assert (Hp2 : pendingReplies m2 = pendingReplies m).
  { unfold m2. rewrite (proj2 (set_owner_if_rest _ _ _ _)). apply update_pending. }
  destruct (pendingReplies m2 !! id) as [p|] eqn:Hp; rewrite Hp2 in Hp.
  - destruct (terminalTransition _ _ _ _ _) as [m4 e4] eqn:E. intros [= <- _].
    apply (f_equal fst) in E. cbn [fst] in E. rewrite <- E.
    pose proof (fun tx Htx => frame_reply f m uu fr id tx p I Hf Hid Htx Hp) as Hreply.
    apply progress_end; simpl.
    + intros k Hk. rewrite Ht2. unfold m1, update_tx. destruct (transactionsByRPCID m !! id); simpl; [|done].
      by rewrite lookup_insert_ne.
    + intros k Hk. by rewrite lookup_delete_ne, Hp2.
    + intros tx1. rewrite Ht2. unfold m1, update_tx. destruct (transactionsByRPCID m !! id) as [tx|] eqn:Htx.
      * simpl. rewrite lookup_insert_eq. intros [= <-]. exact (Hreply tx eq_refl).
      * simpl. congruence.
  - assert (Hq2 : progress i m m2).
    { apply (progress_trans i m m1);
        [|apply progress_same; [by rewrite Ht2|by rewrite Hp2; unfold m1; rewrite update_pending]].
      apply progress_update. intros tx Htx. split; [done|]. intros [_ [q Hq]]. congruence. }
    destruct (deref id m2) as [tx|]; [|by intros [= <- _]]. destruct (_ <=? 0).
    + destruct (terminalTransition _ _ _ _ _) as [m4 e4] eqn:E. intros [= <- _].
      apply (f_equal fst) in E. cbn [fst] in E. rewrite <- E.
      eapply progress_trans; [exact Hq2|apply terminal_progress].
    + unfold AfterFunc. intros [= <- _]. eapply progress_trans; [exact Hq2|].
      eapply progress_trans; [|apply progress_update; intros tx0 _; split; [done|by intros [? _]; left]].
      by apply progress_same.
Qed.

Lemma retain_saved_progress i f m uu fr now id o resp m' next :
  inv None m uu fr -> f ∈ fr -> frame_rpc f = Some id ->
  retain_saved m now id o resp = (m', next) -> progress i m m'.
Proof.
  intros I Hf Hid. unfold retain_saved. set (m1 := set_owner_if _ _ _ m).
  destruct (set_owner_if_rest id o LockOwnedByOperation m) as [Ht1 Hp1]. fold m1 in Ht1, Hp1.
  assert (Hq1 : progress i m m1) by (apply progress_same; [by rewrite Ht1|by rewrite Hp1]).
  destruct (pendingReplies m1 !! id) as [p|] eqn:Hp; rewrite Hp1 in Hp.
  - destruct (String.eqb _ _); [by intros [= <- _]|].
    destruct (terminalTransition _ _ _ _ _) as [m4 e4] eqn:E. intros [= <- _].
    apply (f_equal fst) in E. cbn [fst] in E. rewrite <- E. apply progress_end; simpl.
    + intros k Hk. by rewrite Ht1.
    + intros k Hk. by rewrite lookup_delete_ne, Hp1.
    + intros tx. rewrite Ht1. intros Htx. exact (frame_reply f m uu fr id tx p I Hf Hid Htx Hp).
  - destruct (terminalTransition _ _ _ _ _) as [m4 e4] eqn:E. intros [= <- _].
    apply (f_equal fst) in E. cbn [fst] in E. rewrite <- E.
    eapply progress_trans; [exact Hq1|apply terminal_progress].
Qed.

Lemma retain_finish_progress i f m uu fr now id o resp err m' next :
  inv None m uu fr -> f ∈ fr -> frame_rpc f = Some id ->
  retain_finish m now id o resp err = (m', next) -> progress i m m'.
Proof. destruct err; [apply retain_failed_progress|apply retain_saved_progress]. Qed.

Lemma retain_last_progress i f m uu fr now id p :
  inv None m uu fr -> f ∈ fr -> early f = None -> late f = Some (id, p) ->
  progress i m (retain_last m now id p).1.
Proof.
  intros I Hf He Hl. unfold retain_last. apply progress_end; simpl.
  - done.
  - intros k Hk. by rewrite lookup_delete_ne.
  - intros tx Htx. pose proof (inv_frames _ _ _ _ I) as HF. rewrite Forall_forall in HF.
    specialize (HF f Hf). unfold frame_ok in HF. rewrite He, Hl in HF. destruct HF as (_ & Hterm & HF).
    destruct (HF ltac:(done) tx Htx) as (Hh & _ & Hfit). split; [done|].
    pose proof (inv_settled _ _ _ _ I _ _ Htx ltac:(done)) as [_ _ C].
    apply reply_legal; [|done]. by destruct (C Hh).
Qed.

Lemma release_begin_progress i m o : progress i m (release_begin m o).1.
Proof.
  unfold release_begin, unlock_state. destruct (String.eqb _ _); [apply progress_refl|].
  destruct (String.eqb _ _); [apply progress_refl|]. destruct (_ || _); [apply progress_refl|]. simpl.
  by destruct (stateLock (lock m)); apply progress_same.
Qed.

Lemma create_progress i m now rpcID sessionID cloudRPCID respond method timeout changing m' r :
  i <> rpcID ->
  CreateTransaction m now rpcID sessionID cloudRPCID respond method timeout changing = (m', r) ->
  progress i m m'.
Proof.
  intros Hi. unfold CreateTransaction.
  destruct (_ && respond); [intros [= <- _]; apply progress_refl|].
  destruct (_ && negb changing); [intros [= <- _]; apply progress_refl|].
  destruct (CanonicalRequestKey sessionID cloudRPCID) as [key|]; [|intros [= <- _]; apply progress_refl].
  destruct (TransactionCache.Get (cache m) now key); [intros [= <- _]; apply progress_refl|].
  destruct (activeCloudRequests m !! key); [intros [= <- _]; apply progress_refl|].
  destruct (_ <=? _); [intros [= <- _]; apply progress_refl|].
  set (isN := (len cloudRPCID =? 0) || _). destruct changing.
  - destruct (negb respond || isN); [intros [= <- _]; apply progress_refl|]. unfold acquire.
    destruct (stateLock (lock m)); [intros [= <- _]; apply progress_refl|]. intros [= <- _].
    apply progress_same; destruct (_ && _); simpl; rewrite ?lookup_insert_ne; done.
  - intros [= <- _]. apply progress_same; destruct (_ && _); simpl; rewrite ?lookup_insert_ne; done.
Qed.

(** ** Steps *)

Lemma advance_progress i w f w' fr f' :
  winv w -> f ∈ frames w -> advance w f w' fr f' -> progress i (mgr w) (mgr w').
Proof.
  intros [_ I] Hf Ha. destruct Ha; simpl; try apply progress_refl.
  - by eapply retain_finish_progress.
  - by eapply retain_finish_progress.
  - apply (f_equal fst) in H1. simpl in H1. subst m. apply release_begin_progress.
  - apply (f_equal fst) in H1. simpl in H1. subst m. apply release_begin_progress.
  - unfold release_end. destruct (String.eqb _ _); by apply progress_same.
  - by eapply retain_last_progress.
Qed.

Lemma step_progress i w w' : winv w -> i ∈ issued w -> step w w' -> progress i (mgr w) (mgr w').
Proof.
  intros Hw Hi Hs. destruct Hs; simpl; try apply progress_refl; try by apply progress_same.
  - eapply create_progress; [|done]. intros ->. by destruct H1 as [_ []].
  - apply run_call_progress.
  - apply (f_equal fst) in H3. simpl in H3. subst m.
    eapply progress_trans; [apply Timeout_progress|by apply progress_same].
  - by eapply retain_begin_progress.
  - eapply advance_progress; [done| |done]. destruct H1. apply elem_of_app. right. by left.
  - apply (f_equal fst) in H1. simpl in H1. subst m. apply release_begin_progress.
Qed.

Lemma step_issued w w' i : step w w' -> i ∈ issued w -> i ∈ issued w'.
Proof.
  destruct 1; simpl; try done; intros Hi; try (apply elem_of_union; by right).
  destruct H2; simpl; done.
Qed.

(** A request that will be answered without further help: it is gone, in
    flight, or in a handoff with its reply waiting. *)
Definition settled (i : string) m : Prop :=
  forall tx, transactionsByRPCID m !! i = Some tx -> (rank tx <= 1)%nat \/ buffered m i tx.

Lemma settled_progress i m m' : progress i m m' -> settled i m -> settled i m'.
Proof.
  intros Hp Hs tx' Ht'. destruct (Hp tx' Ht') as (tx & Htx & Hr & Hb).
  destruct (Hs tx Htx) as [Hl|Hb']; [left; lia|]. by destruct (Hb Hb') as [|]; [right|left].
Qed.

Lemma rank_inflight tx : terminal (tx_State tx) = false -> (rank tx <= 1)%nat -> tx_State tx = TxInFlight.
Proof. unfold rank. destruct (tx_State tx); simpl; try done; lia. Qed.

End Progress.
