(* ===== verification/NatsResults.v ===== *)
(** * Results from the agent

    The way of a result in cmd/ucentral-client/main.go: [handleNATSResult] puts
    it into the bounded result queue, or deals with it at once when the queue
    is full; the worker takes results from the queue and hands them to
    [processNATSResult], which builds the response and completes the
    transaction.

    [BuildDeviceResultObject] can panic, which ends the process: the functions
    return an [option].  They are given the time of the call and the operation
    identifier [uuid.New()] would return. *)

From S2P Require Import Prelude GoTime Scheduler Json Enums Rpc Commands Envelopes DeviceResult NatsClient Transaction Cache Store Manager ManagerSteps ManagerInv ManagerSafety ManagerProgress.
Import RequestManager.

Section Results.
Context {S : Type} `{OutboundScheduler S} {St : Type} `{OperationStore St} `{GoLib}.
Context (serial : string).

Definition upgrade_method : string := ActionUpgrade.

(** The response a result becomes; a notification gets none. *)
Definition result_response (tx : Transaction) (formattedResult : string) : option string :=
  if tx_RespondToCloud tx
  then json_Marshal_response (mkResponse JSONRPCVersion formattedResult None (tx_CloudRPCID tx))
  else None.

Definition retain_failure_response (tx : Transaction) : option string :=
  if tx_RespondToCloud tx
  then json_Marshal_response (mkResponse JSONRPCVersion ""
         (Some (mkError (-32603) "Internal Error" (dq "'Failed to establish persistent upgrade operation'")))
         (tx_CloudRPCID tx))
  else None.

Definition device_refused (res : ResultEnvelope) : bool :=
  negb (re_Result res =s ResultSuccess) || (negb (is_empty (re_ErrorCode res)) && negb (re_ErrorCode res =s "0")).

Definition format_result (res : ResultEnvelope) : option string :=
  BuildDeviceResultObject serial (re_UUID res) (re_Result res) (re_ErrorCode res) (re_Message res)
    (re_Payload res).

Definition processNATSResult (res : ResultEnvelope) (m : t S) (st : St) (ctx : option error) (now : Z)
    (operationID : string) : option (t S * St) :=
  let rpc := re_RPCID res in
  match GetTransaction m rpc with
  | None => Some (m, st)
  | Some tx =>
      formattedResult ← format_result res;
      let respBytes := result_response tx formattedResult in
      Some
        (if tx_Method tx =s upgrade_method then
           if device_refused res then ((Fail m now rpc respBytes).1, st) else
           match RespondAndRetain m st ctx now rpc operationID respBytes with
           | (m, st, (_, None)) => (m, st)
           | (m, st, (_, Some e)) =>
               if errors_Is e ErrHandoffInProgress then (m, st)
               else ((Fail m now rpc (retain_failure_response tx)).1, st)
           end
         else ((Complete m now rpc respBytes).1, st))
  end.

(** The default branch of [handleNATSResult]. *)
Definition result_overflow (res : ResultEnvelope) (m : t S) (st : St) (ctx : option error) (now : Z)
    (operationID : string) : option (t S * St) :=
  let rpc := re_RPCID res in
  match GetTransaction m rpc with
  | None => Some (m, st)
  | Some tx =>
      formattedResult ← format_result res;
      let respBytes := result_response tx formattedResult in
      if tx_Method tx =s upgrade_method then
        if device_refused res then Some ((Fail m now rpc respBytes).1, st) else
        let '(m, st, (_, err)) := RespondAndRetain m st ctx now rpc operationID respBytes in
        match err with
        | None => Some (m, st)
        | Some e =>
            if errors_Is e ErrHandoffInProgress then Some (m, st)
            else Some ((Fail m now rpc (retain_failure_response tx)).1, st)
        end
      else Some ((Complete m now rpc respBytes).1, st)
  end.

(** The result queue is a channel of capacity [cap]. *)
Definition handleNATSResult (cap : Z) (res : ResultEnvelope) (queue : list ResultEnvelope) (m : t S) (st : St)
    (ctx : option error) (now : Z) (operationID : string) : option (list ResultEnvelope * t S * St) :=
  if Z.of_nat (length queue) <? cap then Some (queue ++ [res], m, st) else
  '(m, st) ← result_overflow res m st ctx now operationID; Some (queue, m, st).

(** ** No result is lost *)

(** C32: a result is never dropped for lack of room: it is appended to the
    queue, which stays within its capacity, or, the queue being full, has at
    once exactly the effect the worker would give it. *)
Theorem result_never_dropped cap res queue m st ctx now operationID :
  Z.of_nat (length queue) <= cap ->
  match handleNATSResult cap res queue m st ctx now operationID with
  | Some (queue', m', st') =>
      Z.of_nat (length queue') <= cap /\
      ((queue' = queue ++ [res] /\ m' = m /\ st' = st) \/
       (queue' = queue /\ Z.of_nat (length queue) = cap /\
        processNATSResult res m st ctx now operationID = Some (m', st')))
  | None => Z.of_nat (length queue) = cap /\ processNATSResult res m st ctx now operationID = None
  end.
Proof.
  intros Hq. assert (result_overflow res m st ctx now operationID = processNATSResult res m st ctx now operationID) as Ho.
  { unfold result_overflow, processNATSResult. destruct (GetTransaction m _) as [tx|]; [|done].
    destruct (format_result res) as [obj|]; [|done]. cbn [mbind option_bind].
    destruct (tx_Method tx =s upgrade_method); [|done]. destruct (device_refused res); [done|].
    destruct (RespondAndRetain _ _ _ _ _ _ _) as [[m' st'] [op [e|]]]; [|done].
    by destruct (errors_Is e ErrHandoffInProgress). }
  unfold handleNATSResult. rewrite Ho. destruct (Z.ltb_spec (Z.of_nat (length queue)) cap).
  - split; [rewrite length_app; simpl; lia|by left].
  - destruct (processNATSResult _ _ _ _ _ _) as [[m' st']|]; cbn [mbind option_bind]; [|by split; [lia|]].
    split; [done|right]. by split_and!; [|lia|].
Qed.

(** ** A result settles its request *)

Implicit Types (m : t S) (w : world S St).

(** In flight and not in a handoff, without a buffered reply. *)
Definition awaiting m id (tx : Transaction) : Prop :=
  transactionsByRPCID m !! id = Some tx /\ tx_State tx = TxInFlight /\ tx_HandoffInProgress tx = false
  /\ pendingReplies m !! id = None.

Lemma awaiting_reachable w id tx :
  reachable w -> live w id tx -> tx_State tx = TxInFlight -> tx_HandoffInProgress tx = false ->
  awaiting (mgr w) id tx.
Proof.
  intros Hw%reachable_inv Htx Hs Hh. split_and!; [done..|].
  destruct (pendingReplies (mgr w) !! id) as [p|] eqn:Hp; [|done].
  destruct Hw as [_ Hw]. pose proof (inv_settled _ _ _ _ Hw _ _ Htx ltac:(done)) as [A _ _].
  destruct (A _ Hp) as (_ & [Hpre|Hhand] & _).
  - by rewrite Hs in Hpre.
  - congruence.
Qed.

Lemma Fail_awaiting m now id tx payload :
  awaiting m id tx -> Fail m now id payload = terminalTransition m now id TxFailed payload.
Proof. intros (Htx & Hs & Hh & Hp). unfold Fail, finish_with. by rewrite Htx, Hh, Hp. Qed.

Lemma Complete_awaiting m now id tx payload :
  awaiting m id tx -> Complete m now id payload = terminalTransition m now id TxCompleted payload.
Proof. intros (Htx & Hs & Hh & Hp). unfold Complete. by rewrite Htx, Hs, Hh. Qed.

Lemma Fail_gone m now id payload :
  transactionsByRPCID m !! id = None \/ (exists tx, awaiting m id tx) ->
  transactionsByRPCID (Fail m now id payload).1 !! id = None.
Proof.
  intros [Hn|[tx Ha]]; [unfold Fail; by rewrite Hn|]. rewrite (Fail_awaiting _ _ _ _ _ Ha).
  destruct Ha as (Htx & Hs & _). eapply terminal_gone; [done|done|by rewrite Hs].
Qed.

(** [RespondAndRetain] removes the request, or leaves it as it was and says why. *)
Lemma retain_begin_awaiting m id tx m1 r :
  awaiting m id tx -> retain_begin m id = (m1, r) ->
  match r with
  | Err e => m1 = m /\ errors_Is e ErrHandoffInProgress = false
  | Ok _ => transactionsByRPCID m1 !! id = Some (set_Handoff true tx) /\ pendingReplies m1 !! id = None
            /\ activeStateTx (lock m1) = id
  end.
Proof.
  intros (Htx & Hs & Hh & Hp). unfold retain_begin. rewrite Htx.
  destruct (negb (tx_Method tx =s "upgrade")); [by intros [= <- <-]|].
  rewrite Hs. cbn [state_eqb negb andb].
  destruct (String.eqb_spec (activeStateTx (lock m)) id) as [Hl|]; cbn [negb]; [|by intros [= <- <-]].
  rewrite Hh. intros [= <- <-]. destruct (Stop_is (tx_ResponseTimer tx) m) as [tms ->].
  rewrite (update_tx_live _ tx) by done. cbn. split_and!; [by rewrite lookup_insert_eq|done|done].
Qed.

Lemma retain_finish_awaiting m1 now id o tx response err m2 next :
  transactionsByRPCID m1 !! id = Some (set_Handoff true tx) -> tx_State tx = TxInFlight ->
  pendingReplies m1 !! id = None -> o <> id ->
  (forall e, err = Some e -> errors_Is e ErrHandoffInProgress = false) ->
  retain_finish m1 now id o response err = (m2, next) ->
  exists op e, next = RetainDone op e /\
  (transactionsByRPCID m2 !! id = None \/
   (exists tx', awaiting m2 id tx') /\ exists e', e = Some e' /\ errors_Is e' ErrHandoffInProgress = false).
Proof.
  intros Htx Hs Hp Ho Herr. unfold retain_finish.
  assert (forall m b, transactionsByRPCID (set_owner_if id (activeStateTx (lock m)) b m) = transactionsByRPCID m
    /\ pendingReplies (set_owner_if id (activeStateTx (lock m)) b m) = pendingReplies m) as Hso
    by (intros m b; unfold set_owner_if; by destruct (String.eqb _ _)).
  destruct err as [e|].
  - unfold retain_failed. rewrite (update_tx_live _ _ _ _ Htx). set (m0 := set_transactions _ m1).
    destruct (Hso m0 LockOwnedByRPC) as [Ht1 Hp1]. set (m := set_owner_if id _ _ m0) in *. clearbody m.
    assert (transactionsByRPCID m !! id = Some (set_Handoff false (set_Handoff true tx))) as Htx'
      by (rewrite Ht1; apply lookup_insert_eq).
    assert (pendingReplies m !! id = None) as Hp' by (rewrite Hp1; exact Hp).
    rewrite Hp'. unfold deref. rewrite Htx'. set (tx' := set_Handoff false _) in *.
    destruct (_ <=? 0).
    + destruct (terminalTransition m now id TxTimedOut _) as [m3 e3] eqn:Et. intros [= <- <-].
      eexists _, _. split; [done|]. left. change m3 with (m3, e3).1. rewrite <- Et.
      eapply terminal_gone; [exact Htx'|done|]. unfold tx'. cbn. by rewrite Hs.
    + cbn [AfterFunc]. rewrite (update_tx_live _ tx') by exact Htx'. intros [= <- <-].
      eexists _, _. split; [done|]. right. split; [|eexists; split; [done|exact (Herr e eq_refl)]].
      eexists. split; [cbn; apply lookup_insert_eq|]. by split_and!.
  - unfold retain_saved, set_owner_if.
    set (m := if String.eqb _ id then _ else m1).
    assert (transactionsByRPCID m = transactionsByRPCID m1 /\ pendingReplies m = pendingReplies m1) as [Ht1 Hp1]
      by (unfold m; by destruct (String.eqb _ id)). clearbody m. rewrite Hp1, Hp.
    destruct (terminalTransition m now id TxCompleted response) as [m3 e3] eqn:Et. intros [= <- <-].
    eexists _, _. split; [done|]. left. change m3 with (m3, e3).1. rewrite <- Et.
    eapply terminal_gone; [by rewrite Ht1|done|]. cbn. by rewrite Hs.
Qed.

(** The store reports the manager's own error for a handoff that is in progress
    already. *)
Definition save_confused st ctx (now : Z) : Prop :=
  exists op e, (store_Save st ctx now op).2 = Some e /\ errors_Is e ErrHandoffInProgress = true.

Lemma RespondAndRetain_awaiting m st ctx now id o tx response m' st' op err :
  awaiting m id tx -> o <> id ->
  RespondAndRetain m st ctx now id o response = (m', st', (op, err)) ->
  transactionsByRPCID m' !! id = None \/ save_confused st ctx now \/
  (exists tx', awaiting m' id tx') /\ exists e, err = Some e /\ errors_Is e ErrHandoffInProgress = false.
Proof.
  intros Ha Ho. unfold RespondAndRetain. destruct (retain_begin m id) as [m1 [tx1|e]] eqn:Hb.
  - apply (retain_begin_awaiting _ _ _ _ _ Ha) in Hb as (Htx & Hp & _).
    destruct (store_Save st ctx now _) as [st1 serr] eqn:Hsave.
    destruct (match serr with Some e => errors_Is e ErrHandoffInProgress | None => false end) eqn:Hst.
    { intros _. right. left. destruct serr as [e|]; [|done]. eexists _, e. by rewrite Hsave. }
    destruct (retain_finish m1 now id o response serr) as [m2 next] eqn:Hf.
    destruct (retain_finish_awaiting m1 now id o tx response serr m2 next Htx (proj1 (proj2 Ha)) Hp Ho
      ltac:(intros e He; by rewrite He in Hst) Hf) as (op1 & e & -> & Hr).
    intros [= <- <- <- <-]. destruct Hr; auto.
  - apply (retain_begin_awaiting _ _ _ _ _ Ha) in Hb as [-> He]. intros [= <- <- <- <-]. right. right. eauto.
Qed.

(** C13: The worker's call for a result of a request in flight, whatever has
    happened before and whatever the result says, settles the request, when
    nothing else runs meanwhile and the operation id is a new one: the request
    is gone afterwards, and for any method but an upgrade its response, with the
    result object under the request's identifier, has been handed over and the
    store is untouched.  The exceptions are named: an upgrade whose record the
    store refuses with the manager's own error for a handoff in progress, and
    the panic of the call, for a payload that is a null with white space
    around it. *)
Theorem result_settles_request w res tx ctx operationID :
  reachable w -> live w (re_RPCID res) tx ->
  tx_State tx = TxInFlight -> tx_HandoffInProgress tx = false -> operationID <> re_RPCID res ->
  match processNATSResult res (mgr w) (store w) ctx (clock w) operationID with
  | None => disguised_null (re_Payload res)
  | Some (m', st') =>
      (transactionsByRPCID m' !! re_RPCID res = None \/
       tx_Method tx = upgrade_method /\ device_refused res = false /\
       save_confused (store w) ctx (clock w)) /\
      (tx_Method tx <> upgrade_method ->
       transactionsByRPCID m' !! re_RPCID res = None /\ st' = store w /\
       exists obj, format_result res = Some obj /\
         pushed m' = pushed (push_response (re_RPCID res) tx (result_response tx obj) (mgr w)))
  end.
Proof.
  intros Hw Htx Hs Hh Ho. pose proof (awaiting_reachable _ _ _ Hw Htx Hs Hh) as Ha.
  unfold processNATSResult, GetTransaction. rewrite (proj1 Ha).
  destruct (format_result res) as [obj|] eqn:Hobj; cbn [mbind option_bind]; [|by apply object_missing in Hobj].
  destruct (String.eqb_spec (tx_Method tx) upgrade_method) as [Hm|Hm].
  - destruct (device_refused res).
    + split; [|done]. left. apply Fail_gone. eauto.
    + destruct (RespondAndRetain _ _ _ _ _ _ _) as [[m' st'] [op err]] eqn:Hr.
      apply (RespondAndRetain_awaiting _ _ _ _ _ _ _ _ _ _ _ _ Ha Ho) in Hr.
      destruct err as [e|]; [destruct (errors_Is e ErrHandoffInProgress) eqn:He|]; (split; [|done]).
      * destruct Hr as [?|[?|[_ (e' & [= <-] & ?)]]]; [by left|by right|congruence].
      * destruct Hr as [?|[?|[? _]]]; [left; apply Fail_gone; by left|by right|left; apply Fail_gone; by right].
      * destruct Hr as [?|[?|[_ (e' & ? & _)]]]; [by left|by right|done].
  - rewrite (Complete_awaiting _ _ _ _ _ Ha).
    destruct (terminal_spec (re_RPCID res) tx (mgr w) (clock w) TxCompleted (result_response tx obj) (proj1 Ha) eq_refl
      ltac:(by rewrite Hs)) as (Ht & _ & _ & _ & Hpu & _).
    assert (transactionsByRPCID (terminalTransition (mgr w) (clock w) (re_RPCID res) TxCompleted (result_response tx obj)).1
            !! re_RPCID res = None) as Hgone by (rewrite Ht; apply lookup_delete_eq).
    split; [by left|]. intros _. split_and!; [done..|]. by exists obj.
Qed.

End Results.
