(* ===== verification/ManagerReplay.v ===== *)
(** * Replay of completed requests

    A request that was completed with a response is answered from the cache
    when the cloud repeats it, until the time to live of its method has
    elapsed, whatever happened in between; it is not executed again.  The file
    shows which steps can touch the cached entry of a key ([quiet]) and
    derives the theorem. *)

From S2P Require Import Prelude GoTime Scheduler Json Rpc RequestKey Transaction Cache Store Manager ManagerSteps ManagerInv ManagerSafety.
Import RequestManager.

Section Replay.
Context {S : Type} `{OutboundScheduler S} {St : Type} `{OperationStore St}.

Implicit Types (w : world S St) (m : t S).

(** A key without a request in progress keeps its cached entry. *)
Definition quiet (k : string) m m' : Prop :=
  activeCloudRequests m !! k = None ->
  activeCloudRequests m' !! k = None /\ cache m' !! k = cache m !! k.

Lemma quiet_refl k m : quiet k m m.
Proof. done. Qed.

Lemma quiet_same k m m' :
  activeCloudRequests m' = activeCloudRequests m -> cache m' = cache m -> quiet k m m'.
Proof. intros Ha Hc. unfold quiet. by rewrite Ha, Hc. Qed.

Lemma quiet_trans k m1 m2 m3 : quiet k m1 m2 -> quiet k m2 m3 -> quiet k m1 m3.
Proof. unfold quiet. intros H1 H2 Hk. destruct (H1 Hk) as [Ha <-]. auto. Qed.

(** The key of a live transaction is registered under it. *)
Definition keyed m id : Prop := forall tx, transactionsByRPCID m !! id = Some tx ->
  (tx_RespondToCloud tx = true -> tx_RequestKey tx <> "") /\
  (tx_RequestKey tx <> "" -> activeCloudRequests m !! tx_RequestKey tx = Some id).

Lemma inv_keyed x m uu fr id : inv x m uu fr -> keyed m id.
Proof. intros I tx Htx. destruct (inv_tx _ _ _ _ I _ _ Htx). auto. Qed.

Lemma terminal_quiet k m now id final payload :
  keyed m id -> quiet k m (terminalTransition m now id final payload).1.
Proof.
  intros Hk. destruct (transactionsByRPCID m !! id) as [tx|] eqn:Htx;
    [|by rewrite terminal_missing].
  destruct (terminal final) eqn:Hf; [|by unfold terminalTransition; rewrite Hf].
  destruct (validateTransition (tx_State tx) final) eqn:Hv;
    [by unfold terminalTransition; rewrite Hf, Htx, Hv|].
  destruct (terminal_spec id tx m now final payload Htx Hf Hv) as (_ & _ & Ha & Hc & _).
  destruct (Hk tx Htx) as [Hr Hact]. intros Hnone. rewrite Ha, Hc. clear Ha Hc. split.
  - destruct (String.eqb _ _); [done|]. apply lookup_delete_None. by right.
  - unfold store_response. destruct (_ && _) eqn:Hb; [|done]. destruct payload as [p|]; [|done].
    apply andb_true_iff in Hb as [_ Hb]. specialize (Hact (Hr Hb)). simpl.
    unfold TransactionCache.Set_. apply lookup_insert_ne. simpl. congruence.
Qed.

(** Assignments that leave the key of a transaction alone. *)
Lemma update_front id f m :
  activeCloudRequests (update_tx id f m) = activeCloudRequests m /\
  cache (update_tx id f m) = cache m /\ pendingReplies (update_tx id f m) = pendingReplies m.
Proof. unfold update_tx. by destruct (transactionsByRPCID m !! id). Qed.

Lemma keyed_update id f m :
  (forall tx, tx_RequestKey (f tx) = tx_RequestKey tx) ->
  (forall tx, tx_RespondToCloud (f tx) = tx_RespondToCloud tx) ->
  keyed m id -> keyed (update_tx id f m) id.
Proof.
  intros Hk Hr H2 tx. destruct (update_front id f m) as (-> & _). unfold update_tx.
  destruct (transactionsByRPCID m !! id) as [t|] eqn:Ht; simpl; [|by rewrite Ht].
  rewrite lookup_insert_eq. intros [= <-]. rewrite Hk, Hr. by apply H2.
Qed.

Lemma update_quiet k id f m : quiet k m (update_tx id f m).
Proof. destruct (update_front id f m) as (Ha & Hc & _). by apply quiet_same. Qed.

Lemma mark_quiet k to m id : quiet k m (mark to m id).1.
Proof.
  unfold mark. destruct (transactionsByRPCID m !! id); [|done].
  destruct (validateTransition _ _); [done|apply update_quiet].
Qed.

Lemma buffer_quiet k m id r : quiet k m (buffer_reply m id r).1.
Proof. unfold buffer_reply. by destruct (pendingReplies m !! id). Qed.

Lemma recover_quiet k m now id (tx : Transaction) p m1 e :
  keyed m id -> recoverToInFlight m id tx = (m1, e) ->
  quiet k m m1 /\ keyed m1 id /\ quiet k m (terminalTransition m1 now id (pr_State p) (pr_Payload p)).1.
Proof.
  intros Hk. unfold recoverToInFlight. destruct (validateTransition _ _); intros [= <- _].
  - split_and!; [done|done|by apply terminal_quiet].
  - assert (keyed (update_tx id (set_State TxInFlight) m) id) by by apply keyed_update.
    split_and!; [apply update_quiet|done|].
    eapply quiet_trans; [apply update_quiet|by apply terminal_quiet].
Qed.

Lemma MarkInFlight_quiet k m now id : keyed m id -> quiet k m (MarkInFlight m now id).1.
Proof.
  intros Hk. unfold MarkInFlight. destruct (transactionsByRPCID m !! id) as [tx|]; [|done].
  destruct (validateTransition _ _); [done|].
  destruct (update_front id (set_State TxInFlight) m) as (Ha & Hc & ->).
  pose proof (keyed_update id (set_State TxInFlight) m ltac:(done) ltac:(done) Hk) as Hk1.
  destruct (pendingReplies m !! id).
  - eapply quiet_trans; [apply update_quiet|]. set (m1 := update_tx _ _ m) in *.
    set (m2 := set_pending _ m1). eapply quiet_trans; [by apply (quiet_same k m1 m2)|].
    by apply terminal_quiet.
  - simpl. eapply quiet_trans; [|apply update_quiet]. apply quiet_same; simpl.
    + destruct (Stop_is (tx_DispatchTimer tx) (update_tx id (set_State TxInFlight) m)) as [? ->].
      by rewrite <- Ha.
    + destruct (Stop_is (tx_DispatchTimer tx) (update_tx id (set_State TxInFlight) m)) as [? ->].
      by rewrite <- Hc.
Qed.

Lemma finish_with_quiet k final m now id tx payload :
  keyed m id -> quiet k m (finish_with final m now id tx payload).1.
Proof.
  intros Hk. unfold finish_with. destruct (tx_HandoffInProgress tx); [apply buffer_quiet|].
  destruct (pendingReplies m !! id) as [p|]; [|by apply terminal_quiet].
  set (m0 := set_pending _ m). destruct (recoverToInFlight m0 id tx) as [m1 [e|]] eqn:Hr.
  - destruct (recover_quiet k m0 now id tx p m1 (Some e) Hk Hr) as (Hq & Hk1 & _).
    eapply quiet_trans; [exact Hq|]. by apply terminal_quiet.
  - destruct (recover_quiet k m0 now id tx p m1 None Hk Hr) as (_ & _ & Hq). exact Hq.
Qed.

Lemma Complete_quiet k m now id r : keyed m id -> quiet k m (Complete m now id r).1.
Proof.
  intros Hk. unfold Complete. destruct (transactionsByRPCID m !! id); [|done].
  destruct (_ || _); [apply buffer_quiet|by apply terminal_quiet].
Qed.

Lemma dispatch_quiet k m now id : keyed m id -> quiet k m (dispatchTimeoutFail m now id).
Proof.
  intros Hk. unfold dispatchTimeoutFail. destruct (transactionsByRPCID m !! id) as [tx|]; [|done].
  destruct (preflight _); [|done].
  destruct (pendingReplies m !! id) as [p|]; [|by apply terminal_quiet].
  set (m0 := set_pending _ m). destruct (recoverToInFlight m0 id tx) as [m1 [e|]] eqn:Hr.
  - destruct (recover_quiet k m0 now id tx p m1 (Some e) Hk Hr) as (Hq & Hk1 & _).
    eapply quiet_trans; [exact Hq|]. by apply terminal_quiet.
  - destruct (recover_quiet k m0 now id tx p m1 None Hk Hr) as (_ & _ & Hq). exact Hq.
Qed.

Lemma run_call_quiet k c now m : (forall id, keyed m id) -> quiet k m (run_call c now m).
Proof.
  intros Hk. destruct c; simpl.
  - apply mark_quiet.
  - apply mark_quiet.
  - by apply MarkInFlight_quiet.
  - by apply Complete_quiet.
  - unfold Fail. destruct (transactionsByRPCID m !! rpcID); [by apply finish_with_quiet|done].
  - by apply dispatch_quiet.
Qed.

Lemma set_owner_if_keyed id r o ow m : keyed m id -> keyed (set_owner_if r o ow m) id.
Proof. unfold set_owner_if. by destruct (String.eqb _ _). Qed.

Lemma set_owner_if_quiet k r o ow m : quiet k m (set_owner_if r o ow m).
Proof. unfold set_owner_if. by destruct (String.eqb _ _). Qed.

Lemma retain_finish_quiet k m now id o resp err m' next :
  keyed m id -> retain_finish m now id o resp err = (m', next) -> quiet k m m'.
Proof.
  intros Hk. destruct err as [e|]; simpl.
  - unfold retain_failed. set (m1 := update_tx id (set_Handoff false) m).
    set (m2 := set_owner_if _ _ _ m1).
    assert (Hk2 : keyed m2 id) by by apply set_owner_if_keyed, keyed_update.
    assert (Hq2 : quiet k m m2)
      by (eapply quiet_trans; [apply update_quiet|apply set_owner_if_quiet]).
    destruct (pendingReplies m2 !! id) as [p|].
    + set (m3 := set_pending _ m2).
      pose proof (terminal_quiet k m3 now id (pr_State p) (pr_Payload p) Hk2) as Hq.
      destruct (terminalTransition _ _ _ _ _). intros [= <- _]. by eapply quiet_trans.
    + destruct (deref id m2) as [tx|]; [|by intros [= <- _]]. destruct (_ <=? 0).
      * pose proof (terminal_quiet k m2 now id TxTimedOut (buildTimeoutResponse tx) Hk2) as Hq.
        destruct (terminalTransition _ _ _ _ _). intros [= <- _]. by eapply quiet_trans.
      * intros [= <- _]. eapply quiet_trans; [exact Hq2|].
        eapply quiet_trans; [|apply update_quiet]. by apply quiet_same.
  - unfold retain_saved. set (m1 := set_owner_if _ _ _ m).
    assert (Hk1 : keyed m1 id) by by apply set_owner_if_keyed.
    assert (Hq1 : quiet k m m1) by apply set_owner_if_quiet.
    destruct (pendingReplies m1 !! id) as [p|].
    + destruct (String.eqb _ _); [by intros [= <- _]|]. set (m2 := set_pending _ m1).
      pose proof (terminal_quiet k m2 now id (pr_State p) (pr_Payload p) Hk1) as Hq.
      destruct (terminalTransition _ _ _ _ _). intros [= <- _]. by eapply quiet_trans.
    + pose proof (terminal_quiet k m1 now id TxCompleted resp Hk1) as Hq.
      destruct (terminalTransition _ _ _ _ _). intros [= <- _]. by eapply quiet_trans.
Qed.

Lemma retain_begin_quiet k m id m' r : retain_begin m id = (m', r) -> quiet k m m'.
Proof.
  unfold retain_begin. destruct (transactionsByRPCID m !! id) as [tx|]; [|by intros [= <- _]].
  repeat (destruct (negb _); [by intros [= <- _]|]). destruct (_ && _); [by intros [= <- _]|].
  repeat (destruct (negb _); [by intros [= <- _]|]).
  destruct (tx_HandoffInProgress tx); [by intros [= <- _]|]. intros [= <- _].
  destruct (Stop_is (tx_ResponseTimer tx) m) as [tms ->].
  apply (update_quiet k id (set_Handoff true) (set_timers tms m)).
Qed.

Lemma release_begin_quiet k m o : quiet k m (release_begin m o).1.
Proof.
  unfold release_begin, unlock_state. destruct (String.eqb _ _); [done|].
  destruct (String.eqb _ _); [done|]. destruct (_ || _); [done|]. simpl.
  by destruct (stateLock (lock m)).
Qed.

(** ** The entry over an execution *)

Import TransactionCache.

(** The response [p] of the key is cached until [e], and no request with that
    key is in progress. *)
Definition answered (k : string) (entry : CacheEntry) w : Prop :=
  cache (mgr w) !! k = Some entry /\ activeCloudRequests (mgr w) !! k = None.

Lemma answered_quiet k entry w m :
  answered k entry w -> quiet k (mgr w) m ->
  cache m !! k = Some entry /\ activeCloudRequests m !! k = None.
Proof. intros [Hc Ha] Hq. destruct (Hq Ha) as [? ->]. done. Qed.

Lemma create_quiet k entry m now rpcID sessionID cloudRPCID respond method timeout changing m' r :
  cache m !! k = Some entry -> activeCloudRequests m !! k = None -> UnixNano now < ExpiresAt entry ->
  CreateTransaction m now rpcID sessionID cloudRPCID respond method timeout changing = (m', r) ->
  quiet k m m'.
Proof.
  intros Hc Ha Hexp. unfold CreateTransaction.
  destruct (_ && respond); [by intros [= <- _]|]. destruct (_ && negb changing); [by intros [= <- _]|].
  destruct (CanonicalRequestKey sessionID cloudRPCID) as [key|]; [|by intros [= <- _]].
  destruct (Get (cache m) now key) eqn:Hg; [by intros [= <- _]|].
  assert (Hne : key <> k).
  { intros ->. unfold Get in Hg. rewrite Hc in Hg. simpl in Hg.
    destruct (Z.leb_spec (ExpiresAt entry) (UnixNano now)); [lia|done]. }
  destruct (activeCloudRequests m !! key); [by intros [= <- _]|].
  destruct (_ <=? _); [by intros [= <- _]|].
  set (isN := (len cloudRPCID =? 0) || _).
  destruct changing.
  - destruct (negb respond || isN); [by intros [= <- _]|]. unfold acquire.
    destruct (stateLock (lock m)); [by intros [= <- _]|]. intros [= <- _] _.
    destruct (_ && _); simpl; [by rewrite lookup_insert_ne|done].
  - intros [= <- _] _. destruct (_ && _); simpl; [by rewrite lookup_insert_ne|done].
Qed.

Lemma advance_quiet k w f w' fr f' :
  winv w -> advance w f w' fr f' -> quiet k (mgr w) (mgr w').
Proof.
  intros [_ I] Ha. destruct Ha; simpl; try done.
  - eapply retain_finish_quiet; [by eapply inv_keyed|done].
  - eapply retain_finish_quiet; [by eapply inv_keyed|done].
  - apply (f_equal fst) in H1. simpl in H1. subst m. apply release_begin_quiet.
  - apply (f_equal fst) in H1. simpl in H1. subst m. apply release_begin_quiet.
  - unfold release_end. by destruct (String.eqb _ _).
  - unfold retain_last. set (m1 := set_pending _ _).
    assert (keyed m1 r) by exact (inv_keyed _ _ _ _ r I).
    eapply quiet_trans; [by apply (quiet_same k (mgr w) m1)|]. by apply terminal_quiet.
Qed.

Lemma step_clock w w' : winv w -> step w w' -> clock w <= clock w'.
Proof.
  intros Hw Hs. destruct Hs; simpl; try lia.
  destruct (advance_inv w f w' fr f' Hw) as (_ & -> & _); [done|done|lia].
Qed.

Lemma steps_clock w w' : rtc step w w' -> winv w -> clock w <= clock w'.
Proof.
  intros Hs. induction Hs as [|a b c Hab _ IH]; intros Hw; [lia|].
  pose proof (step_clock _ _ Hw Hab). specialize (IH (step_inv _ _ Hab Hw)). lia.
Qed.

Lemma step_answered k entry w w' :
  winv w -> step w w' -> UnixNano (clock w) < ExpiresAt entry ->
  answered k entry w -> answered k entry w'.
Proof.
  intros [Hz I] Hs Hexp Han. pose proof Han as [Hc Ha].
  destruct Hs; unfold answered; simpl; try done; try (eapply answered_quiet; [exact Han|]).
  - by eapply create_quiet.
  - apply run_call_quiet. intros id. by eapply inv_keyed.
  - eapply quiet_trans; [|by apply quiet_same]. apply (f_equal fst) in H3. simpl in H3. subst m.
    unfold Timeout_. destruct (transactionsByRPCID (mgr w) !! tm_rpcID tm); [|done].
    apply finish_with_quiet. by eapply inv_keyed.
  - by eapply retain_begin_quiet.
  - by eapply advance_quiet.
  - apply (f_equal fst) in H1. simpl in H1. subst m. apply release_begin_quiet.
  - split; [|done]. apply sweepCache_lookup. split; [done|lia].
Qed.

Lemma steps_answered k entry w w' :
  rtc step w w' -> winv w -> answered k entry w ->
  representable (clock w) -> representable (clock w') -> clock w' < ExpiresAt entry ->
  answered k entry w' /\ clock w <= clock w'.
Proof.
  intros Hs. induction Hs as [w|w w1 w2 H1' Hs IH]; intros Hw Ha R R' Hexp; [split; [done|lia]|].
  pose proof (step_clock _ _ Hw H1') as Hle.
  assert (Hw1 : winv w1) by (by eapply step_inv).
  pose proof (steps_clock _ _ Hs Hw1) as Hle1.
  assert (R1 : representable (clock w1)) by (unfold representable in *; lia).
  destruct IH as [? ?]; try done.
  - apply (step_answered k entry w w1); try done. rewrite UnixNano_id by done. lia.
  - split; [done|lia].
Qed.

(** C11: A request completed with a response is idempotent until the time to
    live of its method has elapsed: whatever calls, timers, store operations
    and sweeps come after, a request of the same session with the same id is
    answered with the recorded response, without being admitted and without
    any change of the manager's state. *)
Theorem completed_request_replayed w w' id tx p rpcID sessionID cloudRPCID respond method timeout changing :
  reachable w -> live w id tx -> tx_State tx = TxInFlight -> tx_HandoffInProgress tx = false ->
  tx_RespondToCloud tx = true ->
  rtc step (set_mgr (Complete (mgr w) (clock w) id (Some p)).1 w) w' ->
  let expires := clock w + TTLForMethod (cacheTTLConfig (cfg (mgr w))) (tx_Method tx) in
  representable (clock w) -> representable expires -> clock w' < expires ->
  CanonicalRequestKey sessionID cloudRPCID = Ok (tx_RequestKey tx) ->
  (method = "upgrade" -> changing = true) ->
  CreateTransaction (mgr w') (clock w') rpcID sessionID cloudRPCID respond method timeout changing
  = (mgr w', Err (ECachedResponse p)).
Proof.
  intros Hr Htx Hs Hh Hresp Hsteps expires R1 R2 Hexp Hkey Hup.
  pose proof (reachable_inv _ Hr) as Hw. pose proof Hw as [Hz I]. unfold live in Htx.
  destruct (inv_tx _ _ _ _ I _ _ Htx) as [_ _ _ _ Hne Hact _ _ _].
  specialize (Hne Hresp). specialize (Hact Hne).
  set (w1 := set_mgr _ w) in Hsteps. set (entry := mkEntry p (UnixNano expires)).
  assert (Hw1 : winv w1) by (split; [done|by apply Complete_inv]).
  assert (Ha1 : answered (tx_RequestKey tx) entry w1).
  { unfold answered, w1, set_mgr, Complete. simpl. rewrite Htx, Hs, Hh. simpl.
    destruct (terminal_spec id tx (mgr w) (clock w) TxCompleted (Some p) Htx eq_refl)
      as (_ & _ & -> & -> & _); [by rewrite Hs|].
    unfold store_response. simpl. rewrite Hresp. simpl. unfold Set_.
    rewrite lookup_insert_eq, (proj2 (String.eqb_neq _ _) Hne), lookup_delete_eq. done. }
  pose proof (steps_clock _ _ Hsteps Hw1) as Hle. simpl in Hle.
  assert (R' : representable (clock w')) by (unfold representable in *; lia).
  destruct (steps_answered _ _ _ _ Hsteps Hw1 Ha1) as [[Hc Ha] _]; try done.
  { simpl. by rewrite UnixNano_id. }
  unfold CreateTransaction.
  pose proof (key_nonempty _ _ _ Hkey) as Hkn.
  destruct ((len cloudRPCID =? 0) || _) eqn:Hn; [by rewrite (proj2 Hkn eq_refl) in Hne|].
  simpl. assert (String.eqb method "upgrade" && negb changing = false) as ->.
  { destruct (String.eqb_spec method "upgrade"); [|done]. by rewrite Hup. }
  rewrite Hkey. unfold Get. rewrite Hc. simpl. rewrite !UnixNano_id by done.
  destruct (Z.leb_spec expires (clock w')); [lia|done].
Qed.

End Replay.
