(* ===== verification/ManagerDue.v ===== *)
(** * Requests that are due

    Once a request is in flight its response deadline stands.  When it has
    passed, the request keeps its timer and nothing ends a handoff of it but
    its own end ([step_punctual]), and a handoff only moves on, from one of its
    sections to the next ([step_handoff]).  With a clock that advances and
    goroutines that get to run, every request therefore ends: the stages of the
    argument, as properties of a state that every step keeps, are at the end of
    the file. *)

From S2P Require Import Prelude GoTime Scheduler Json Rpc RequestKey Transaction Cache Store Manager ManagerSteps ManagerInv ManagerSafety ManagerProgress ManagerReplay.
Import RequestManager.

Section Due.
Context {S : Type} `{OutboundScheduler S} {St : Type} `{OperationStore St}.

Implicit Types (w : world S St) (m : t S) (tx : Transaction).

(** What a step at the time [now] keeps of a request in flight. *)
Definition kept (now : Z) tx tx' : Prop :=
  tx_State tx = TxInFlight -> tx_ResponseDeadline tx' = tx_ResponseDeadline tx /\
  (tx_ResponseDeadline tx <= now ->
   tx_ResponseTimer tx' = tx_ResponseTimer tx /\
   (tx_HandoffInProgress tx = true -> tx_HandoffInProgress tx' = true)).

Definition punctual (now : Z) (i : string) m m' : Prop :=
  forall tx tx', transactionsByRPCID m !! i = Some tx -> transactionsByRPCID m' !! i = Some tx' -> kept now tx tx'.

Lemma kept_refl now tx : kept now tx tx.
Proof. done. Qed.

(** ** Where a call changes something *)

(** Only the request [id] changes, and a request only goes. *)
Definition elsewhere (id : string) m m' : Prop :=
  forall i, i <> id -> transactionsByRPCID m' !! i = transactionsByRPCID m !! i.
Definition shrinks m m' : Prop :=
  forall i tx, transactionsByRPCID m' !! i = Some tx -> transactionsByRPCID m !! i = Some tx.

Lemma same_shrinks m m' : transactionsByRPCID m' = transactionsByRPCID m -> shrinks m m'.
Proof. intros E i tx. by rewrite E. Qed.

Lemma shrinks_trans m1 m2 m3 : shrinks m1 m2 -> shrinks m2 m3 -> shrinks m1 m3.
Proof. intros H1 H2 i tx Hi. by apply H1, H2. Qed.

Lemma shrinks_punctual now i m m1 m2 : punctual now i m m1 -> shrinks m1 m2 -> punctual now i m m2.
Proof. intros Hp Hs tx tx' Htx Htx'. eapply Hp; [done|]. by apply Hs. Qed.

Lemma punctual_refl now i m : punctual now i m m.
Proof. intros tx tx' Htx Htx'. simplify_eq. apply kept_refl. Qed.

Lemma punctual_shrinks now i m m' : shrinks m m' -> punctual now i m m'.
Proof. apply shrinks_punctual, punctual_refl. Qed.

Lemma punctual_elsewhere now i id m m' : elsewhere id m m' -> punctual now id m m' -> punctual now i m m'.
Proof.
  intros He Hp. destruct (decide (i = id)) as [->|Hn]; [done|]. intros tx tx' Htx. rewrite He by done.
  intros Htx'. simplify_eq. apply kept_refl.
Qed.

(** A request that is not in flight has nothing to keep. *)
Lemma punctual_early now i m m' tx :
  transactionsByRPCID m !! i = Some tx -> tx_State tx <> TxInFlight -> punctual now i m m'.
Proof. intros Htx Hs tx0 tx' Htx0 _ Hf. congruence. Qed.

Lemma elsewhere_trans id m1 m2 m3 : elsewhere id m1 m2 -> elsewhere id m2 m3 -> elsewhere id m1 m3.
Proof. intros H1 H2 i Hi. by rewrite H2, H1. Qed.

Lemma same_elsewhere id m m' : transactionsByRPCID m' = transactionsByRPCID m -> elsewhere id m m'.
Proof. intros E i _. by rewrite E. Qed.

Lemma update_elsewhere id f m : elsewhere id m (update_tx id f m).
Proof.
  intros i Hi. unfold update_tx. destruct (transactionsByRPCID m !! id); [|done]. cbn. by rewrite lookup_insert_ne.
Qed.

Lemma update_at id f m tx' :
  transactionsByRPCID (update_tx id f m) !! id = Some tx' ->
  exists tx, transactionsByRPCID m !! id = Some tx /\ tx' = f tx.
Proof.
  unfold update_tx. destruct (transactionsByRPCID m !! id) as [tx|] eqn:Htx; cbn; [|by rewrite Htx].
  rewrite lookup_insert_eq. intros [= <-]. by exists tx.
Qed.

(** A terminal transition removes the transaction or does nothing. *)
Lemma terminal_txs m now id final payload :
  transactionsByRPCID (terminalTransition m now id final payload).1 = delete id (transactionsByRPCID m) \/
  (terminalTransition m now id final payload).1 = m.
Proof.
  destruct (terminal final) eqn:Hf; [|right; unfold terminalTransition; by rewrite Hf].
  destruct (transactionsByRPCID m !! id) as [tx|] eqn:Htx; [|right; by rewrite terminal_missing].
  destruct (validateTransition (tx_State tx) final) eqn:Hv;
    [right; unfold terminalTransition; by rewrite Hf, Htx, Hv|].
  left. by destruct (terminal_spec id tx m now final payload Htx Hf Hv) as (Ht & _).
Qed.

Lemma terminal_shrinks m now id final payload : shrinks m (terminalTransition m now id final payload).1.
Proof.
  destruct (terminal_txs m now id final payload) as [E|E]; [|by apply same_shrinks; rewrite E].
  intros i tx'. rewrite E. by intros [_ ?]%lookup_delete_Some.
Qed.

Lemma terminal_elsewhere m now id final payload : elsewhere id m (terminalTransition m now id final payload).1.
Proof.
  destruct (terminal_txs m now id final payload) as [E|E]; [|by apply same_elsewhere; rewrite E].
  intros i Hi. by rewrite E, lookup_delete_ne.
Qed.

(** ** The calls *)

Lemma mark_punctual now i to m id : to <> TxInFlight -> punctual now i m (mark to m id).1.
Proof.
  intros _. unfold mark. destruct (transactionsByRPCID m !! id) as [tx|] eqn:Htx; [|apply punctual_refl].
  destruct (validateTransition _ _) eqn:Hv; [apply punctual_refl|].
  apply (punctual_elsewhere _ _ id); [apply update_elsewhere|]. intros tx0 tx' Htx0 (tx1 & Htx1 & ->)%update_at.
  simplify_eq. done.
Qed.

Lemma buffer_shrinks m id r : shrinks m (buffer_reply m id r).1.
Proof. unfold buffer_reply. by destruct (pendingReplies m !! id); apply same_shrinks. Qed.

Lemma Complete_shrinks m now id r : shrinks m (Complete m now id r).1.
Proof.
  unfold Complete. destruct (transactionsByRPCID m !! id); [|by apply same_shrinks].
  destruct (_ || _); [apply buffer_shrinks|apply terminal_shrinks].
Qed.

Lemma MarkInFlight_punctual now i m id : punctual now i m (MarkInFlight m now id).1.
Proof.
  unfold MarkInFlight. destruct (transactionsByRPCID m !! id) as [tx|] eqn:Htx; [|apply punctual_refl].
  destruct (validateTransition _ _) eqn:Hv; [apply punctual_refl|]. set (m1 := update_tx id _ m).
  assert (tx_State tx <> TxInFlight) as Hs by (intros E; by rewrite E in Hv).
  apply (punctual_elsewhere _ _ id); [|by eapply punctual_early].
  assert (elsewhere id m m1) as H1 by apply update_elsewhere. destruct (pendingReplies m1 !! id).
  - eapply elsewhere_trans; [exact H1|]. eapply elsewhere_trans; [|apply terminal_elsewhere]. by apply same_elsewhere.
  - cbn [AfterFunc fst]. eapply elsewhere_trans; [exact H1|]. eapply elsewhere_trans; [|apply update_elsewhere].
    destruct (Stop_is (tx_DispatchTimer tx) m1) as [tms ->]. by apply same_elsewhere.
Qed.

Lemma finish_punctual now i final m id tx payload :
  transactionsByRPCID m !! id = Some tx -> punctual now i m (finish_with final m now id tx payload).1.
Proof.
  intros Htx. unfold finish_with, recoverToInFlight.
  destruct (tx_HandoffInProgress tx); [apply punctual_shrinks, buffer_shrinks|].
  destruct (pendingReplies m !! id) as [r|]; [|apply punctual_shrinks, terminal_shrinks].
  destruct (validateTransition _ _) eqn:Hv; cbn [fst].
  - apply punctual_shrinks. eapply shrinks_trans; [|apply terminal_shrinks]. by apply same_shrinks.
  - assert (tx_State tx <> TxInFlight) as Hs by (intros E; by rewrite E in Hv).
    apply (punctual_elsewhere _ _ id); [|by eapply punctual_early].
    eapply elsewhere_trans; [|apply terminal_elsewhere]. eapply elsewhere_trans; [|apply update_elsewhere].
    by apply same_elsewhere.
Qed.

Lemma run_call_punctual i c now m : punctual now i m (run_call c now m).
Proof.
  destruct c as [id|id|id|id r|id r|id]; simpl.
  - by apply mark_punctual.
  - by apply mark_punctual.
  - apply MarkInFlight_punctual.
  - apply punctual_shrinks, Complete_shrinks.
  - unfold Fail. destruct (transactionsByRPCID m !! id) eqn:Htx; [by apply finish_punctual|apply punctual_refl].
  - unfold dispatchTimeoutFail, recoverToInFlight.
    destruct (transactionsByRPCID m !! id) as [tx|] eqn:Htx; [|apply punctual_refl].
    destruct (preflight (tx_State tx)) eqn:Hpre; [|apply punctual_refl].
    assert (tx_State tx <> TxInFlight) as Hs by (intros E; by rewrite E in Hpre).
    apply (punctual_elsewhere _ _ id); [|by eapply punctual_early].
    destruct (pendingReplies m !! id); [|apply terminal_elsewhere].
    destruct (validateTransition _ _); (eapply elsewhere_trans; [|apply terminal_elsewhere]).
    + by apply same_elsewhere.
    + eapply elsewhere_trans; [|apply update_elsewhere]. by apply same_elsewhere.
Qed.

Lemma Timeout_punctual now i m id : punctual now i m (Timeout_ m now id).1.
Proof.
  unfold Timeout_. destruct (transactionsByRPCID m !! id) eqn:Htx; [by apply finish_punctual|apply punctual_refl].
Qed.

(** ** Handoffs *)

Lemma retain_begin_punctual now i m id m' r : retain_begin m id = (m', r) -> punctual now i m m'.
Proof.
  unfold retain_begin. intros Hb. destruct (transactionsByRPCID m !! id) as [tx|] eqn:Htx; [|injection Hb as <- _; apply punctual_refl].
  repeat (case_match; [injection Hb as <- _; apply punctual_refl|]). injection Hb as <- _.
  set (m1 := Stop _ m). assert (transactionsByRPCID m1 = transactionsByRPCID m) as E1.
  { unfold m1. by destruct (Stop_is (tx_ResponseTimer tx) m) as [tms ->]. }
  apply (punctual_elsewhere _ _ id).
  - intros j Hj. cbn. rewrite (update_elsewhere id (set_Handoff true) m1 j Hj). by rewrite E1.
  - intros tx0 tx' Htx0 Htx'. cbn in Htx'. apply update_at in Htx' as (tx1 & Htx1 & ->). rewrite E1 in Htx1.
    by simplify_eq.
Qed.

Lemma time_Sub_neg t u : t <= u -> time_Sub t u <= 0.
Proof. unfold time_Sub, sat_duration, min_int64, max_int64. lia. Qed.

(** After the deadline a failed write is the end. *)
Lemma retain_failed_punctual i f m uu fr now id e m' next :
  inv None m uu fr -> f ∈ fr -> frame_rpc f = Some id ->
  retain_failed m now id e = (m', next) -> punctual now i m m'.
Proof.
  intros I Hf Hid. unfold retain_failed. set (m1 := update_tx id (set_Handoff false) m).
  set (m2 := set_owner_if _ _ _ m1).
  assert (Ht2 : transactionsByRPCID m2 = transactionsByRPCID m1) by apply set_owner_if_rest.
  assert (Hp2 : pendingReplies m2 = pendingReplies m).
  { unfold m2. rewrite (proj2 (set_owner_if_rest _ _ _ _)). apply update_pending. }
  assert (elsewhere id m m2) as He2 by (intros j Hj; rewrite Ht2; by apply update_elsewhere).
  assert (forall tx2, transactionsByRPCID m2 !! id = Some tx2 -> exists tx, transactionsByRPCID m !! id = Some tx /\ tx2 = set_Handoff false tx) as Hat.
  { intros tx2. rewrite Ht2. apply update_at. }
  destruct (pendingReplies m2 !! id) as [p|] eqn:Hp; rewrite Hp2 in Hp.
  - destruct (terminalTransition _ _ _ _ _) as [m4 e4] eqn:E. intros [= <- _].
    apply (f_equal fst) in E. cbn [fst] in E. rewrite <- E. clear E. apply (punctual_elsewhere _ _ id).
    + eapply elsewhere_trans; [exact He2|]. eapply elsewhere_trans; [|apply terminal_elsewhere]. by apply same_elsewhere.
    + intros tx tx' Htx Htx'. destruct (frame_reply f m uu fr id tx p I Hf Hid Htx Hp) as [Hterm Hv].
      set (m3 := set_pending _ m2) in Htx'.
      assert (transactionsByRPCID m3 !! id = Some (set_Handoff false tx)) as H3.
      { change (transactionsByRPCID m3) with (transactionsByRPCID m2). rewrite Ht2. unfold m1, update_tx. rewrite Htx. cbn. by rewrite lookup_insert_eq. }
      by rewrite (terminal_gone _ _ _ _ _ _ H3 Hterm Hv) in Htx'.
  - destruct (deref id m2) as [tx2|] eqn:Hd.
    2:{ intros [= <- _]. apply (punctual_elsewhere _ _ id); [done|]. intros tx tx' _ Htx'. unfold deref in Hd. by rewrite Htx' in Hd. }
    destruct (Z.leb_spec (time_Sub (tx_ResponseDeadline tx2) now) 0) as [Hle|Hgt].
    + destruct (terminalTransition _ _ _ _ _) as [m4 e4] eqn:E. intros [= <- _].
      apply (f_equal fst) in E. cbn [fst] in E. rewrite <- E. clear E. apply (punctual_elsewhere _ _ id).
      * eapply elsewhere_trans; [exact He2|apply terminal_elsewhere].
      * intros tx tx' Htx Htx' Hs.
        assert (transactionsByRPCID m2 !! id = Some (set_Handoff false tx)) as H2.
        { rewrite Ht2. unfold m1, update_tx. rewrite Htx. cbn. by rewrite lookup_insert_eq. }
        rewrite (terminal_gone _ _ _ TxTimedOut _ _ H2 eq_refl) in Htx'; [done|]. cbn. by rewrite Hs.
    + unfold AfterFunc. intros [= <- _]. apply (punctual_elsewhere _ _ id).
      * eapply elsewhere_trans; [exact He2|]. eapply elsewhere_trans; [|apply update_elsewhere]. by apply same_elsewhere.
      * intros tx tx' Htx Htx' Hs. apply update_at in Htx' as (tx3 & Htx3 & ->). cbn in Htx3.
        destruct (Hat _ Htx3) as (tx0 & Htx0 & ->). simplify_eq. unfold deref in Hd. rewrite Htx3 in Hd. injection Hd as <-.
        cbn in *. split; [done|]. intros Hdl. pose proof (time_Sub_neg _ _ Hdl). lia.
Qed.

Lemma retain_saved_shrinks m now id o response m' next :
  retain_saved m now id o response = (m', next) -> shrinks m m'.
Proof.
  unfold retain_saved. set (m1 := set_owner_if _ _ _ m).
  assert (shrinks m m1) as H1 by (apply same_shrinks, set_owner_if_rest).
  destruct (pendingReplies m1 !! id) as [p|].
  - destruct (String.eqb _ _); [by intros [= <- _]|].
    destruct (terminalTransition _ _ _ _ _) as [m3 e3] eqn:E. intros [= <- _]. apply (f_equal fst) in E. cbn [fst] in E.
    rewrite <- E. eapply shrinks_trans; [exact H1|]. eapply shrinks_trans; [|apply terminal_shrinks]. by apply same_shrinks.
  - destruct (terminalTransition _ _ _ _ _) as [m3 e3] eqn:E. intros [= <- _]. apply (f_equal fst) in E. cbn [fst] in E.
    rewrite <- E. eapply shrinks_trans; [exact H1|apply terminal_shrinks].
Qed.

Lemma release_begin_shrinks m o m' e : release_begin m o = (m', e) -> shrinks m m'.
Proof. unfold release_begin, unlock_state. repeat case_match; intros [= <- _]; by apply same_shrinks. Qed.

Lemma advance_punctual i w f w' fr f' :
  winv w -> f ∈ frames w -> advance w f w' fr f' -> punctual (clock w) i (mgr w) (mgr w').
Proof.
  intros [_ I] Hf Ha. destruct Ha; cbn [mgr]; try apply punctual_refl.
  - destruct err; [by eapply retain_failed_punctual|]. by eapply punctual_shrinks, retain_saved_shrinks.
  - destruct err; [by eapply retain_failed_punctual|]. by eapply punctual_shrinks, retain_saved_shrinks.
  - by eapply punctual_shrinks, release_begin_shrinks.
  - by eapply punctual_shrinks, release_begin_shrinks.
  - apply punctual_shrinks, same_shrinks. unfold release_end. by destruct (String.eqb _ _).
  - apply punctual_shrinks. unfold retain_last. eapply shrinks_trans; [|apply terminal_shrinks]. by apply same_shrinks.
Qed.

Lemma step_punctual i w w' : winv w -> i ∈ issued w -> step w w' -> punctual (clock w) i (mgr w) (mgr w').
Proof.
  intros Hw Hi Hs. destruct Hs; cbn [mgr set_mgr]; try apply punctual_refl;
    try by (apply punctual_shrinks, same_shrinks).
  - intros tx tx' Htx Htx'. destruct (decide (i = rpcID)) as [->|Hn]; [by destruct H1 as [_ []]|].
    pose proof (create_progress i _ _ _ _ _ _ _ _ _ _ _ Hn H2) as _.
    assert (transactionsByRPCID m !! i = transactionsByRPCID (mgr w) !! i) as E.
    { revert H2. unfold CreateTransaction, acquire. intros Hc. repeat (case_match; simplify_eq/=; try done);
        by rewrite lookup_insert_ne. }
    rewrite E in Htx'. simplify_eq. apply kept_refl.
  - apply run_call_punctual.
  - apply (f_equal fst) in H3. cbn in H3. subst m. eapply shrinks_punctual; [apply Timeout_punctual|by apply same_shrinks].
  - by eapply retain_begin_punctual.
  - eapply advance_punctual; [done| |done]. destruct H1. apply elem_of_app. right. by left.
  - by eapply punctual_shrinks, release_begin_shrinks.
Qed.

(** ** A suspended call moves on

    The sections a call still has to run. *)
Definition stage (f : frame) : nat :=
  match f with
  | FSave _ _ _ _ => 5 | FFinish _ _ _ _ => 4 | FRelease _ _ _ => 3 | FDelete _ _ => 2 | FEnd _ _ => 1
  | FLast _ _ => 0
  end.

Lemma advance_rpc w f w' fr f' : advance w f w' fr (Some f') -> frame_rpc f' = frame_rpc f.
Proof.
  intros Ha. inversion Ha; subst; try done.
  match goal with E : option_map _ ?k = Some _ |- _ => by destruct k as [[? ?]|]; simplify_eq/= end.
Qed.

Lemma advance_stage w f w' fr f' : advance w f w' fr (Some f') -> (stage f' < stage f)%nat.
Proof.
  intros Ha. inversion Ha; subst; cbn; try lia.
  match goal with E : option_map _ ?k = Some _ |- _ => destruct k as [[? ?]|]; simplify_eq/=; lia end.
Qed.

(** The call [f], or what has become of it, is about the request [i]. *)
Definition pursued (i : string) (f : frame) w : Prop :=
  exists f', f' ∈ frames w /\ frame_rpc f' = Some i /\ (f' = f \/ (stage f' < stage f)%nat).

(** While the handoff of a request lasts its call stays, or moves on. *)
Lemma step_handoff i f w w' tx' :
  winv w -> step w w' -> pursued i f w ->
  live w' i tx' -> tx_HandoffInProgress tx' = true -> pursued i f w'.
Proof.
  intros Hw Hs (g & Hg & Hgi & Hstage) Htx' Hh.
  destruct (step_inv _ _ Hs Hw) as [_ I'].
  assert (g ∈ frames w' -> pursued i f w') as Hstay by (intros ?; by exists g).
  destruct Hs; try (by apply Hstay); try (apply Hstay; cbn; by right).
  match goal with T : takes _ _ _, A : advance _ _ _ _ _ |- _ => rename T into Ht; rename A into Ha end.
  apply takes_perm in Ht. rewrite Ht, elem_of_cons in Hg. destruct Hg as [->|Hg].
  2:{ apply Hstay. cbn. destruct f'; cbn; [by right|done]. }
  destruct (tx_handoff _ _ _ _ (inv_settled _ _ _ _ I' _ _ Htx' ltac:(done)) Hh) as (_ & g' & Hg' & Hr').
  cbn in Hg'. assert (g' ∉ fr) as Hno.
  { intros Hin. destruct Hw as [_ Hinv]. pose proof (inv_once _ _ _ _ Hinv) as HN. rewrite Ht in HN.
    cbn in HN. rewrite Hgi in HN. apply NoDup_cons in HN as [HN _]. apply HN.
    apply list_elem_of_omap. by exists g'. }
  destruct f' as [f'|]; cbn in Hg'; [|done]. apply elem_of_cons in Hg' as [->|?]; [|done].
  exists f'. split; [cbn; by left|]. split; [done|]. right.
  pose proof (advance_stage _ _ _ _ _ Ha). destruct Hstage as [->|]; lia.
Qed.

(** ** The stages of a request

    Properties of the request [i], whatever has become of it, that no step
    undoes. *)

Definition stable (i : string) (P : world S St -> Prop) : Prop :=
  forall w w', winv w -> i ∈ issued w -> step w w' -> P w -> P w'.

Lemma stable_steps i P w w' : stable i P -> rtc step w w' -> winv w -> i ∈ issued w -> P w -> P w'.
Proof.
  intros HP Hr. induction Hr as [|w0 w1 w2 H1 _ IH]; [done|]. intros Hw Hi HPw.
  apply IH; [by eapply step_inv|by eapply step_issued|by eapply HP].
Qed.

(** A request of the new state, in the old one. *)
Lemma step_back i w w' tx' :
  winv w -> i ∈ issued w -> step w w' -> live w' i tx' ->
  exists tx, live w i tx /\ (rank tx' <= rank tx)%nat /\
    (buffered (mgr w) i tx -> buffered (mgr w') i tx' \/ (rank tx' <= 1)%nat) /\ kept (clock w) tx tx' /\
    (tx_State tx = TxInFlight -> tx_State tx' = TxInFlight).
Proof.
  intros Hw Hi Hs Htx'. destruct (step_progress i w w' Hw Hi Hs tx' Htx') as (tx & Htx & Hr & Hb).
  exists tx. split_and!; try done; [by eapply step_punctual|].
  intros Hf. destruct (step_inv _ _ Hs Hw) as [_ I']. apply rank_inflight; [by apply (inv_tx _ _ _ _ I' _ _ Htx')|].
  unfold rank in *. rewrite Hf in Hr. done.
Qed.

Definition gone (i : string) w : Prop := transactionsByRPCID (mgr w) !! i = None.

(** It is in flight, until the time [t]. *)
Definition due_by (i : string) (t : Z) w : Prop :=
  forall tx, live w i tx -> tx_State tx = TxInFlight /\ tx_ResponseDeadline tx = t.

Definition overdue (i : string) w : Prop :=
  forall tx, live w i tx -> tx_State tx = TxInFlight /\ tx_ResponseDeadline tx <= clock w.

(** It waits for its timer [k]. *)
Definition watched (i : string) (k : nat) w : Prop :=
  overdue i w /\ forall tx, live w i tx -> tx_ResponseTimer tx = Some k.

(** It waits for the end of the call [f]. *)
Definition in_call (i : string) (f : frame) w : Prop :=
  overdue i w /\ forall tx, live w i tx -> tx_HandoffInProgress tx = true /\ pursued i f w.

(** It is in flight, or a reply of it waits for the end of the call [f]. *)
Definition replied (i : string) (f : frame) w : Prop :=
  forall tx, live w i tx -> (rank tx <= 1)%nat \/ buffered (mgr w) i tx /\ pursued i f w.

Lemma gone_stable i : stable i (gone i).
Proof.
  intros w w' Hw Hi Hs Hg. unfold gone in *. destruct (transactionsByRPCID (mgr w') !! i) as [tx'|] eqn:Htx'; [|done].
  destruct (step_back _ _ _ _ Hw Hi Hs Htx') as (tx & Htx & _). unfold live in Htx. congruence.
Qed.

Lemma due_by_stable i t : stable i (due_by i t).
Proof.
  intros w w' Hw Hi Hs Hd tx' Htx'. destruct (step_back _ _ _ _ Hw Hi Hs Htx') as (tx & Htx & _ & _ & Hk & Hf).
  destruct (Hd tx Htx) as [Hst Hdl]. split; [by apply Hf|]. destruct (Hk Hst) as [-> _]. done.
Qed.

Lemma overdue_stable i : stable i (overdue i).
Proof.
  intros w w' Hw Hi Hs Hd tx' Htx'. destruct (step_back _ _ _ _ Hw Hi Hs Htx') as (tx & Htx & _ & _ & Hk & Hf).
  destruct (Hd tx Htx) as [Hst Hdl]. split; [by apply Hf|]. destruct (Hk Hst) as [-> _].
  pose proof (step_clock _ _ Hw Hs). lia.
Qed.

Lemma watched_stable i k : stable i (watched i k).
Proof.
  intros w w' Hw Hi Hs [Ho Hd]. split; [by eapply overdue_stable|]. intros tx' Htx'.
  destruct (step_back _ _ _ _ Hw Hi Hs Htx') as (tx & Htx & _ & _ & Hk & _).
  destruct (Ho tx Htx) as [Hst Hdl]. destruct (Hk Hst) as [_ Hkt]. destruct (Hkt Hdl) as [-> _]. by apply Hd.
Qed.

Lemma in_call_stable i f : stable i (in_call i f).
Proof.
  intros w w' Hw Hi Hs [Ho Hd]. split; [by eapply overdue_stable|]. intros tx' Htx'.
  destruct (step_back _ _ _ _ Hw Hi Hs Htx') as (tx & Htx & _ & _ & Hk & _).
  destruct (Ho tx Htx) as [Hst Hdl]. destruct (Hk Hst) as [_ Hkt]. destruct (Hkt Hdl) as [_ Hkh].
  destruct (Hd tx Htx) as [Hh Hp]. specialize (Hkh Hh). split; [done|]. by eapply step_handoff.
Qed.

Lemma replied_stable i f : stable i (replied i f).
Proof.
  intros w w' Hw Hi Hs Hd tx' Htx'. destruct (step_back _ _ _ _ Hw Hi Hs Htx') as (tx & Htx & Hr & Hb & _).
  destruct (Hd tx Htx) as [Hl|[Hbuf Hp]]; [left; lia|]. destruct (Hb Hbuf) as [Hb'|]; [|by left].
  right. split; [done|]. eapply step_handoff; try done. apply Hb'.
Qed.

End Due.
