(* ===== verification/ManagerOps.v ===== *)
(** * What the manager's operations do

    The functional behaviour of the operations, without interference: what a
    rejected and an accepted creation do, that a reply may come before or after
    the publisher marks the request in flight, and how an upgrade's lock passes
    to a background operation, survives a restart, and is given up. *)

From S2P Require Import Prelude GoTime Scheduler Json Rpc RequestKey Transaction Cache Store Manager ManagerSteps ManagerInv.
Import RequestManager.

Section Ops.
Context {S : Type} `{OutboundScheduler S}.

Implicit Types (m : t S).

(** A creation that is rejected changes nothing.  One that is accepted
    meant a valid request that is neither cached nor in progress and a free
    place; it adds exactly the new transaction, in [TxCreated] with its dispatch
    deadline, registers its key unless it is a notification, and takes the
    state lock exactly if it is state-changing. *)
Theorem CreateTransaction_spec m now rpcID sessionID cloudRPCID respond method timeout changing m' r :
  CreateTransaction m now rpcID sessionID cloudRPCID respond method timeout changing = (m', r) ->
  match r with
  | Err _ => m' = m
  | Ok tx =>
      CanonicalRequestKey sessionID cloudRPCID = Ok (tx_RequestKey tx) /\
      TransactionCache.Get (cache m) now (tx_RequestKey tx) = None /\
      activeCloudRequests m !! tx_RequestKey tx = None /\
      Z.of_nat (size (transactionsByRPCID m)) < maxConcurrentRequests (cfg m) /\
      tx = mkTx rpcID sessionID cloudRPCID (tx_RequestKey tx) respond method TxCreated None false now
             timeout (now + dispatchTimeout (cfg m)) zero_time None None /\
      transactionsByRPCID m' = <[rpcID := tx]> (transactionsByRPCID m) /\
      activeCloudRequests m' = (if String.eqb (tx_RequestKey tx) "" then activeCloudRequests m
                                else <[tx_RequestKey tx := rpcID]> (activeCloudRequests m)) /\
      (tx_RequestKey tx = "" -> respond = false) /\
      (if changing
       then respond = true /\ stateLock (lock m) = false /\
            lock m' = mkLock true rpcID LockOwnedByRPC (releasingOperationID (lock m))
       else method <> "upgrade" /\ lock m' = lock m) /\
      pendingReplies m' = pendingReplies m /\ cache m' = cache m /\ pushed m' = pushed m
  end.
Proof.
  unfold CreateTransaction. set (isN := (len cloudRPCID =? 0) || String.eqb cloudRPCID "null").
  destruct (isN && respond) eqn:Hn; [by intros [= <- <-]|].
  destruct (String.eqb method "upgrade" && negb changing) eqn:Hup; [by intros [= <- <-]|].
  destruct (CanonicalRequestKey sessionID cloudRPCID) as [key|] eqn:Hk; [|by intros [= <- <-]].
  pose proof (key_nonempty _ _ _ Hk) as Hkey. fold isN in Hkey.
  destruct (TransactionCache.Get (cache m) now key) eqn:Hc; [by intros [= <- <-]|].
  destruct (activeCloudRequests m !! key) eqn:Ha; [by intros [= <- <-]|].
  destruct (Z.leb_spec (maxConcurrentRequests (cfg m)) (Z.of_nat (size (transactionsByRPCID m))));
    [by intros [= <- <-]|].
  assert (Hvalid : negb isN && negb (String.eqb key "") = negb (String.eqb key "")).
  { destruct (String.eqb_spec key "") as [He|He]; simpl; [by rewrite andb_false_r|].
    rewrite andb_true_r. destruct isN; [|done]. destruct He. by apply Hkey. }
  assert (Hnotif : key = "" -> respond = false).
  { intros He. rewrite (proj1 Hkey He) in Hn. by destruct respond. }
  rewrite Hvalid. destruct changing.
  - destruct (negb respond || isN) eqn:Hb; [by intros [= <- <-]|]. unfold acquire.
    destruct (stateLock (lock m)) eqn:Hl; [by intros [= <- <-]|].
    apply orb_false_iff in Hb as [Hb _]. apply negb_false_iff in Hb.
    intros [= <- <-]. simpl. destruct (String.eqb key ""); simpl; split_and!; done.
  - rewrite andb_true_r in Hup. apply String.eqb_neq in Hup.
    intros [= <- <-]. simpl. destruct (String.eqb key ""); simpl; split_and!; done.
Qed.

(** ** Fast replies *)

(** The parts of the state the rest of the program can observe. *)
Definition same_outcome m1 m2 : Prop :=
  transactionsByRPCID m1 = transactionsByRPCID m2 /\
  activeCloudRequests m1 = activeCloudRequests m2 /\ pendingReplies m1 = pendingReplies m2 /\
  lock m1 = lock m2 /\ cache m1 = cache m2 /\ scheduler m1 = scheduler m2 /\ pushed m1 = pushed m2.

(** Terminal transitions of the same request from states that agree. *)
Lemma terminal_agree id tx1 tx2 m1 m2 now payload :
  transactionsByRPCID m1 !! id = Some tx1 -> transactionsByRPCID m2 !! id = Some tx2 ->
  tx_State tx1 = TxInFlight -> tx_State tx2 = TxInFlight ->
  tx_RequestKey tx1 = tx_RequestKey tx2 -> tx_RespondToCloud tx1 = tx_RespondToCloud tx2 ->
  tx_Method tx1 = tx_Method tx2 -> tx_CloudSessionID tx1 = tx_CloudSessionID tx2 ->
  delete id (transactionsByRPCID m1) = delete id (transactionsByRPCID m2) ->
  delete id (pendingReplies m1) = delete id (pendingReplies m2) ->
  activeCloudRequests m1 = activeCloudRequests m2 -> lock m1 = lock m2 -> cache m1 = cache m2 ->
  scheduler m1 = scheduler m2 -> pushed m1 = pushed m2 -> cfg m1 = cfg m2 ->
  same_outcome (terminalTransition m1 now id TxCompleted payload).1
               (terminalTransition m2 now id TxCompleted payload).1.
Proof.
  intros T1 T2 S1 S2 Hk Hr Hm Hse Htx Hp Ha Hl Hc Hsc Hpu Hcfg.
  destruct (terminal_spec id tx1 m1 now TxCompleted payload T1 eq_refl)
    as (A1 & A2 & A3 & A4 & A5 & A6 & A7 & _); [by rewrite S1|].
  destruct (terminal_spec id tx2 m2 now TxCompleted payload T2 eq_refl)
    as (E1 & E2 & E3 & E4 & E5 & E6 & E7 & _); [by rewrite S2|].
  destruct (push_response_congr id tx1 tx2 payload m1 m2 Hr Hse Hsc Hpu) as [Q1 Q2].
  unfold same_outcome. rewrite A1, A2, A3, A4, A5, A6, A7, E1, E2, E3, E4, E5, E6, E7, Q1, Q2, Htx, Hp, Ha, Hk.
  rewrite (release_lock_congr id m1 m2 Hl). split_and!; try done.
  unfold store_response. simpl. rewrite Hr, Hk, Hm, Hcfg.
  destruct (tx_RespondToCloud tx2); simpl; [|done]. destruct payload; simpl; by rewrite Hc.
Qed.

(** C28: The reply of a device may arrive before the publisher has marked the
    request in flight: completing a published request and then marking it
    leaves the same state, answers the cloud with the same message and caches
    the same response as the other order, and no call reports an error. *)
Theorem fast_reply_commutes m now id tx r :
  transactionsByRPCID m !! id = Some tx ->
  tx_State tx = TxPendingPublish -> tx_HandoffInProgress tx = false ->
  pendingReplies m !! id = None ->
  let early := Complete m now id r in
  let late := MarkInFlight m now id in
  early.2 = None /\ late.2 = None /\
  (MarkInFlight early.1 now id).2 = None /\ (Complete late.1 now id r).2 = None /\
  same_outcome (MarkInFlight early.1 now id).1 (Complete late.1 now id r).1.
Proof.
  intros Htx Hs Hh Hp early late.
  assert (Hearly : early = (set_pending (<[id := mkReply r TxCompleted]> (pendingReplies m)) m, None)).
  { unfold early, Complete. rewrite Htx, Hs, Hh. simpl. unfold buffer_reply. by rewrite Hp. }
  set (tx1 := set_State TxInFlight tx).
  set (m1 := set_transactions (<[id := tx1]> (transactionsByRPCID m)) m).
  destruct (Stop_is (tx_DispatchTimer tx) m1) as [tms Htms].
  set (m2 := (AfterFunc now (tx_TimeoutDuration tx) id (set_timers tms m1)).2).
  set (tx2 := set_Response (now + tx_TimeoutDuration tx) (Some (length tms)) tx1).
  assert (Hlate : late = (set_transactions (<[id := tx2]> (transactionsByRPCID m2)) m2, None)).
  { unfold late, MarkInFlight. rewrite Htx, Hs. simpl. rewrite (update_tx_live id tx) by done.
    cbn [pendingReplies set_transactions]. rewrite Hp. fold tx1 m1. rewrite Htms. simpl.
    rewrite (update_tx_live id tx1) by apply lookup_insert_eq. done. }
  set (m3 := set_pending (delete id (<[id := mkReply r TxCompleted]> (pendingReplies m))) m1).
  assert (HE : MarkInFlight early.1 now id = terminalTransition m3 now id TxCompleted r).
  { rewrite Hearly. unfold MarkInFlight. simpl. rewrite Htx, Hs. simpl.
    rewrite (update_tx_live id tx) by done. simpl. by rewrite lookup_insert_eq. }
  assert (HL : Complete late.1 now id r
               = terminalTransition (set_transactions (<[id := tx2]> (transactionsByRPCID m2)) m2)
                   now id TxCompleted r).
  { rewrite Hlate. unfold Complete. simpl. rewrite lookup_insert_eq. simpl. by rewrite Hh. }
  assert (T3 : transactionsByRPCID m3 !! id = Some tx1) by apply lookup_insert_eq.
  set (m4 := set_transactions _ m2) in *.
  assert (T4 : transactionsByRPCID m4 !! id = Some tx2) by apply lookup_insert_eq.
  rewrite HE, HL, Hearly, Hlate. split_and!; try done.
  - unfold terminalTransition. by rewrite T3.
  - unfold terminalTransition. by rewrite T4.
  - apply (terminal_agree id tx1 tx2); try done; simpl.
    + by rewrite insert_insert_eq, !delete_insert_eq.
    + by rewrite delete_delete_eq, delete_insert_eq.
Qed.

(** ** Operations and the store *)

Context {St : Type} `{OperationStore St} (Inv : St -> Prop) `{!OperationStoreLaws St Inv}.

(** C20: When the record is written, [RespondAndRetain] answers the cloud,
    removes the transaction and hands its state lock to the operation without
    ever letting it go; the record in the store is active and names the
    request. *)
Theorem upgrade_handoff m st ctx now id o tx response st' :
  transactionsByRPCID m !! id = Some tx -> tx_Method tx = "upgrade" ->
  (tx_State tx = TxInFlight \/ tx_State tx = TxPendingPublish) ->
  activeStateTx (lock m) = id -> tx_HandoffInProgress tx = false ->
  pendingReplies m !! id = None -> o <> id ->
  Inv st -> 0 <= year_of now <= 9999 -> storable (retained_operation m now o tx) ->
  store_Save st ctx now (retained_operation m now o tx) = (st', None) ->
  let m' := (RespondAndRetain m st ctx now id o response).1.1 in
  RespondAndRetain m st ctx now id o response = (m', st', (o, None)) /\
  transactionsByRPCID m' = delete id (transactionsByRPCID m) /\
  lock m' = mkLock (stateLock (lock m)) o LockOwnedByOperation (releasingOperationID (lock m)) /\
  pushed m' = pushed (push_response id tx response m) /\
  store_view st' = <[o := store_form (retained_operation m now o tx)]> (store_view st).
Proof using All.
  intros Htx Hm Hs Ha Hh Hp Ho Hi Hy Hst Hsave.
  set (m1 := set_owner id LockTransferPending
               (update_tx id (set_Handoff true) (Stop (tx_ResponseTimer tx) m))).
  assert (Hb : retain_begin m id = (m1, Ok tx)).
  { unfold retain_begin. rewrite Htx, Hm, Ha, !String.eqb_refl, Hh. simpl.
    assert (negb (state_eqb (tx_State tx) TxInFlight) && negb (state_eqb (tx_State tx) TxPendingPublish)
            = false) as -> by (by destruct Hs as [-> | ->]).
    unfold m1. destruct (Stop_is (tx_ResponseTimer tx) m) as [tms ->].
    rewrite (update_tx_live _ tx) by done. simpl. by rewrite ?Ha. }
  destruct (Stop_is (tx_ResponseTimer tx) m) as [tms Htms].
  assert (Hm1 : m1 = set_owner id LockTransferPending
     (set_transactions (<[id := set_Handoff true tx]> (transactionsByRPCID m)) (set_timers tms m))).
  { unfold m1. by rewrite Htms, (update_tx_live _ tx). }
  set (m2 := set_owner o LockOwnedByOperation m1).
  assert (Htx2 : transactionsByRPCID m2 !! id = Some (set_Handoff true tx))
    by (unfold m2; rewrite Hm1; apply lookup_insert_eq).
  assert (Hfin : retain_finish m1 now id o response None
     = ((terminalTransition m2 now id TxCompleted response).1,
        RetainDone o (terminalTransition m2 now id TxCompleted response).2)).
  { unfold retain_finish, retain_saved, set_owner_if.
    assert (activeStateTx (lock m1) = id) as -> by (by rewrite Hm1).
    rewrite String.eqb_refl. fold m2.
    assert (pendingReplies m2 !! id = None) as -> by (unfold m2; rewrite Hm1; exact Hp).
    by destruct (terminalTransition m2 now id TxCompleted response). }
  assert (Hv : validateTransition (tx_State (set_Handoff true tx)) TxCompleted = None)
    by (simpl; by destruct Hs as [-> | ->]).
  assert (Herr : (terminalTransition m2 now id TxCompleted response).2 = None)
    by (unfold terminalTransition; by rewrite Htx2, Hv).
  assert (Hrec : retained_operation m1 now o tx = retained_operation m now o tx)
    by (unfold retained_operation, GetBootID; by rewrite Hm1).
  unfold RespondAndRetain. rewrite Hb, Hrec, Hsave, Hfin, Herr. cbn [fst].
  destruct (terminal_spec id (set_Handoff true tx) m2 now TxCompleted response Htx2 eq_refl Hv)
    as (E1 & _ & _ & _ & E5 & _ & E7 & _). rewrite E1, E5, E7. split_and!; try done.
  - unfold m2. rewrite Hm1. simpl. by rewrite delete_insert_eq.
  - unfold release_if_owner, m2. rewrite Hm1. simpl. by rewrite (proj2 (String.eqb_neq _ _) Ho).
  - apply push_response_congr; try done; unfold m2; by rewrite Hm1.
  - eapply store_Save_ok; try done. simpl. rewrite parse_format by done. by eexists.
Qed.

(** The operation owns the state lock, and nobody is giving it up already. *)
Definition releasable m (o : string) : Prop :=
  o <> "" /\ releasingOperationID (lock m) <> o /\
  activeStateTx (lock m) = o /\ activeStateOwner (lock m) = LockOwnedByOperation.

(** What any other call reports. *)
Definition release_refusal m (o : string) : error :=
  if decide (o <> "" /\ releasingOperationID (lock m) = o)
  then ErrOperationReleaseInProgress else ErrOperationNotActive.

Lemma release_refused m o : ~ releasable m o -> release_begin m o = (m, Some (release_refusal m o)).
Proof.
  intros Hno. unfold release_begin, release_refusal, releasable in *.
  destruct (String.eqb_spec o ""); [by rewrite decide_False by naive_solver|].
  destruct (String.eqb_spec (releasingOperationID (lock m)) o); [by rewrite decide_True|].
  rewrite decide_False by naive_solver.
  destruct (String.eqb_spec (activeStateTx (lock m)) o); [|done].
  by rewrite bool_decide_eq_false_2 by naive_solver.
Qed.

Lemma release_refused_call m st ctx now o :
  ~ releasable m o -> ReleaseOperationLock m st ctx now o = (m, st, Some (release_refusal m o)).
Proof. intros Hno. unfold ReleaseOperationLock. by rewrite release_refused. Qed.

Lemma release_taken m o :
  releasable m o -> stateLock (lock m) = true ->
  exists m1, release_begin m o = (m1, None) /\ lock m1 = mkLock false "" LockNone o /\
    crashed m1 = crashed m /\ transactionsByRPCID m1 = transactionsByRPCID m.
Proof.
  intros (Ho & Hr & Ha & Hop) Hl. unfold release_begin.
  rewrite (proj2 (String.eqb_neq _ _) Ho), (proj2 (String.eqb_neq _ _) Hr), Ha, Hop, String.eqb_refl. simpl.
  unfold unlock_state. simpl. rewrite Hl. by eexists.
Qed.

(** The owner frees the lock, whatever becomes of the record. *)
Lemma ReleaseOperationLock_frees m st ctx now o :
  Inv st -> releasable m o -> stateLock (lock m) = true ->
  let '(m', st', err) := ReleaseOperationLock m st ctx now o in
  lock m' = mkLock false "" LockNone "" /\ crashed m' = crashed m /\
  transactionsByRPCID m' = transactionsByRPCID m /\
  err = (store_Delete st ctx now o).2 /\
  (err = None -> store_view st' = delete o (store_view st)) /\
  (store_view st' = store_view st \/ store_view st' = delete o (store_view st)).
Proof using All.
  intros Hi Hrel Hl. destruct (release_taken m o Hrel Hl) as (m1 & E & Hl1 & Hc & Ht).
  unfold ReleaseOperationLock. rewrite E. destruct (store_Delete st ctx now o) as [st' err] eqn:Hdel.
  unfold release_end. rewrite Hl1, String.eqb_refl. simpl. rewrite Hl1. split_and!; try done.
  - intros ->. by eapply store_Delete_ok.
  - destruct err; [by eapply store_Delete_err|right; by eapply store_Delete_ok].
Qed.

Lemma ReleaseOperationLock_keeps m st ctx now o m' st' err :
  Inv st -> ReleaseOperationLock m st ctx now o = (m', st', err) -> cfg m' = cfg m /\ Inv st'.
Proof using All.
  intros Hi. unfold ReleaseOperationLock, release_begin, release_end, unlock_state.
  repeat case_match; intros [= <- <- <-]; simplify_eq/=; (split; [done|]); try done;
    by eapply store_Delete_inv.
Qed.

(** C36: [ReleaseOperationLock] of the operation that owns the lock always frees
    it in memory, also when the deletion of the record fails; it deletes the
    record or reports the error.  Every other call is refused without an
    effect: a call with an empty id, one for an operation that does not own the
    lock as an operation, the second call for the same operation after the
    first is through, and, with its own error, the second one while the first
    is between its two critical sections. *)
Theorem release_frees_lock m st ctx now o ctx' now' :
  Inv st -> (activeStateOwner (lock m) = LockOwnedByOperation -> stateLock (lock m) = true) ->
  let '(m', st', err) := ReleaseOperationLock m st ctx now o in
  (releasable m o ->
    (lock m' = mkLock false "" LockNone "" /\ crashed m' = crashed m /\
     transactionsByRPCID m' = transactionsByRPCID m /\
     err = (store_Delete st ctx now o).2 /\
     (err = None -> store_view st' = delete o (store_view st)) /\
     (store_view st' = store_view st \/ store_view st' = delete o (store_view st))) /\
    ReleaseOperationLock m' st' ctx' now' o = (m', st', Some ErrOperationNotActive) /\
    exists m1, release_begin m o = (m1, None) /\ lock m1 = mkLock false "" LockNone o /\
      ReleaseOperationLock m1 st ctx' now' o = (m1, st, Some ErrOperationReleaseInProgress)) /\
  (~ releasable m o ->
    m' = m /\ st' = st /\
    err = Some (if decide (o <> "" /\ releasingOperationID (lock m) = o)
                then ErrOperationReleaseInProgress else ErrOperationNotActive)).
Proof using All.
  intros Hi Hheld. destruct (ReleaseOperationLock m st ctx now o) as [[m' st'] err] eqn:E. split.
  - intros Hrel. assert (stateLock (lock m) = true) as Hl by (by apply Hheld, Hrel).
    pose proof (ReleaseOperationLock_frees m st ctx now o Hi Hrel Hl) as Hf. rewrite E in Hf.
    split; [exact Hf|]. destruct Hf as [Hf _]. split.
    + rewrite release_refused_call by (intros (? & _ & Ha & _); rewrite Hf in Ha; by simpl in Ha).
      unfold release_refusal. rewrite decide_False; [done|]. rewrite Hf. simpl. by intros [? <-].
    + destruct (release_taken m o Hrel Hl) as (m1 & Hb & Hl1 & _). exists m1. split_and!; [done|done|].
      rewrite release_refused_call by (intros (_ & Hr & _); by rewrite Hl1 in Hr).
      unfold release_refusal. rewrite decide_True; [done|]. rewrite Hl1. by destruct Hrel.
  - intros Hno. rewrite release_refused_call in E by done. by injection E as <- <- <-.
Qed.

(** ** Restart *)

Definition usable m (now : Z) (op : PersistentOperation) : bool :=
  negb (stale_boot m op) && negb (is_expired m now op).

(** Taking the lock for [op]. *)
Definition held_by (op : PersistentOperation) m : t S :=
  set_lock (mkLock true (OperationID op) LockOwnedByOperation (releasingOperationID (lock m))) m.

Lemma start_loop_held ops m now stale :
  activeStateTx (lock m) <> "" ->
  foldl (start_record now) (m, stale) ops
  = (m, stale ++ map OperationID (List.filter (stale_boot m) ops)).
Proof.
  intros Ha. revert stale. induction ops as [|op ops IH]; intros stale; simpl.
  - by rewrite app_nil_r.
  - destruct (stale_boot m op); simpl.
    + by rewrite IH, <- app_assoc.
    + rewrite (proj2 (String.eqb_neq _ _) Ha). simpl. apply IH.
Qed.

Lemma start_loop ops m now stale :
  stateLock (lock m) = false -> activeStateTx (lock m) = "" ->
  Forall (fun op => OperationID op <> "") ops ->
  foldl (start_record now) (m, stale) ops
  = (match List.find (usable m now) ops with Some op => held_by op m | None => m end,
     stale ++ map OperationID (List.filter (stale_boot m) ops)).
Proof.
  intros Hl Ha Hops. revert stale. induction Hops as [|op ops Hop Hops IH]; intros stale; simpl.
  - by rewrite app_nil_r.
  - unfold usable at 1. destruct (stale_boot m op) eqn:Hs; simpl.
    + by rewrite IH, <- app_assoc.
    + rewrite Ha. simpl. destruct (is_expired m now op) eqn:He; simpl; [apply IH|].
      unfold acquire. rewrite Hl. fold (held_by op m). by rewrite start_loop_held.
Qed.

(** The store reported an error when it was to delete the record [id], in the
    course of deleting those of [ids]. *)
Definition delete_refused (ctx : option error) (now : Z) (ids : list string) (st : St) (id : string) : Prop :=
  exists before after, ids = before ++ id :: after /\
    (store_Delete (delete_all ctx now before st) ctx now id).2 <> None.

(** Deleting a list of records spares the others and adds none; a record of
    the list that is still there afterwards is one the store did not delete. *)
Lemma delete_all_view ctx now ids st :
  Inv st ->
  Inv (delete_all ctx now ids st) /\
  (forall id op, store_view (delete_all ctx now ids st) !! id = Some op -> store_view st !! id = Some op) /\
  (forall id, id ∉ ids -> store_view (delete_all ctx now ids st) !! id = store_view st !! id) /\
  (forall id, id ∈ ids ->
     store_view (delete_all ctx now ids st) !! id = None \/ delete_refused ctx now ids st id).
Proof using All.
  intros Hi. induction ids as [|i ids (IHi & IHa & IHk & IHd)] using rev_ind.
  { split_and!; [done|done|done|]. by intros id ?%elem_of_nil. }
  unfold delete_all in *. rewrite foldl_app. simpl.
  set (st1 := foldl _ st ids) in *. destruct (store_Delete st1 ctx now i) as [st2 r] eqn:Hd. simpl.
  assert (store_view st2 = store_view st1 \/ store_view st2 = delete i (store_view st1)) as Hv
    by (destruct r; [by eapply store_Delete_err|right; by eapply store_Delete_ok]).
  assert (forall id op, store_view st2 !! id = Some op -> store_view st1 !! id = Some op) as Hsub.
  { intros id op. destruct Hv as [-> | ->]; [done|]. by intros [_ ?]%lookup_delete_Some. }
  split_and!.
  - by eapply store_Delete_inv.
  - intros id op Hop. by apply IHa, Hsub.
  - intros id [Hid Hne]%not_elem_of_app. rewrite <- IHk by done. rewrite list_elem_of_singleton in Hne.
    destruct Hv as [-> | ->]; [done|]. by rewrite lookup_delete_ne.
  - intros id Hin. destruct (store_view st2 !! id) as [op|] eqn:Hop; [right|by left].
    destruct (decide (id = i)) as [->|Hne].
    + exists ids, []. split; [done|]. unfold delete_all. fold st1. rewrite Hd. simpl. intros ->.
      rewrite (store_Delete_ok _ _ _ _ _ IHi Hd), lookup_delete_eq in Hop. done.
    + apply elem_of_app in Hin as [Hin|Hin]; [|by apply list_elem_of_singleton in Hin].
      destruct (IHd id Hin) as [Hno|(before & after & -> & He)]; [by rewrite (Hsub _ _ Hop) in Hno|].
      exists before, (after ++ [i]). by rewrite <- app_assoc.
Qed.

Lemma found_named st ctx now limit st1 ops :
  Inv st -> store_GetActive st ctx now limit = (st1, Ok ops) -> Forall (fun op => OperationID op <> "") ops.
Proof using All.
  intros Hi Hget. destruct (store_GetActive_ok _ _ _ _ _ _ Hi Hget) as (_ & _ & Hin & _).
  rewrite Forall_forall in Hin |- *. intros op Hop. by destruct (store_view_ids _ _ _ Hi (Hin op Hop)).
Qed.

(** A read with room for every record returns every record. *)
Lemma GetActive_complete st ctx now limit st1 ops :
  Inv st -> store_GetActive st ctx now limit = (st1, Ok ops) ->
  limit <= 0 \/ Z.of_nat (size (store_view st)) <= limit ->
  forall id op, store_view st !! id = Some op -> op ∈ ops.
Proof using All.
  intros Hi Hget Hlim id op Hop. destruct (store_GetActive_ok _ _ _ _ _ _ Hi Hget) as (Hnd & _ & Hin & _ & Hall & _).
  destruct (decide (limit <= 0 \/ Z.of_nat (length ops) < limit)) as [Hroom|Hfull]; [by eapply Hall|].
  rewrite Forall_forall in Hin.
  assert ((list_to_set (map OperationID ops) : gset string) = dom (store_view st)) as Hdom.
  { apply set_subseteq_size_eq.
    - intros i Hix%elem_of_list_to_set. apply list_elem_of_fmap in Hix as (o & -> & Ho). apply elem_of_dom. exists o. by apply Hin.
    - rewrite size_list_to_set by done. rewrite length_map, size_dom. lia. }
  assert (id ∈ dom (store_view st)) as Hid by (by apply elem_of_dom; exists op).
  rewrite <- Hdom in Hid. apply elem_of_list_to_set, list_elem_of_fmap in Hid as (o & -> & Ho).
  pose proof (Hin _ Ho) as Ho'. rewrite Hop in Ho'. by injection Ho' as <-.
Qed.

(** The first record of a list sorted by age is a newest one of its kind. *)
Lemma find_newest (f : PersistentOperation -> bool) ops op :
  StronglySorted newer ops -> List.find f ops = Some op ->
  op ∈ ops /\ f op = true /\ forall op', op' ∈ ops -> f op' = true -> newer op op'.
Proof.
  intros Hsort Hf. apply find_some in Hf as Hu. destruct Hu as [Hop Hu]. apply list_elem_of_In in Hop.
  split_and!; [done|done|]. intros op' Hop' Hu'. clear Hop.
  induction Hsort as [|a l Hs IH Hall]; simpl in Hf; [done|]. destruct (f a) eqn:Hua.
  - injection Hf as ->. apply elem_of_cons in Hop' as [->|Hop']; [unfold newer; lia|].
    rewrite Forall_forall in Hall. by apply Hall.
  - apply elem_of_cons in Hop' as [->|Hop']; [congruence|]. by apply IH.
Qed.

(** C37: After a restart [Start] takes the state lock for the newest stored
    operation of this boot that has not expired, if it reads one, and leaves
    it free otherwise; records of an earlier boot never take it, and each of
    those read is deleted unless the store reports an error for its deletion.
    All other records stay, and none is added.  When the records cannot be
    read the lock stays free. *)
Theorem start_recovers_lock m st ctx now :
  Inv st -> stateLock (lock m) = false -> activeStateTx (lock m) = "" ->
  let '(m', st') := Start m st ctx now in
  match store_GetActive st ctx now (activeRecordLimit (cfg m)) with
  | (st1, Err _) => m' = m /\ st' = st1
  | (st1, Ok ops) =>
      m' = match List.find (usable m now) ops with Some op => held_by op m | None => m end /\
      (forall op, List.find (usable m now) ops = Some op ->
         store_view st !! OperationID op = Some op /\ usable m now op = true /\
         forall id op', store_view st !! id = Some op' -> usable m now op' = true -> newer op op') /\
      (forall id op, store_view st' !! id = Some op -> store_view st !! id = Some op) /\
      (forall id op, store_view st !! id = Some op -> op ∉ ops \/ stale_boot m op = false ->
         store_view st' !! id = Some op) /\
      (forall op, op ∈ ops -> stale_boot m op = true ->
         store_view st' !! OperationID op = None \/
         delete_refused ctx now (map OperationID (List.filter (stale_boot m) ops)) st1 (OperationID op))
  end.
Proof using All.
  intros Hi Hl Ha. unfold Start.
  destruct (store_GetActive st ctx now (activeRecordLimit (cfg m))) as [st1 [ops|e]] eqn:Hget; [|done].
  destruct (store_GetActive_ok _ _ _ _ _ _ Hi Hget) as (Hnd & Hsort & Hin & _ & _ & Hrest).
  pose proof (store_GetActive_view _ _ _ _ _ _ Hi Hget) as Hview.
  rewrite (start_loop ops m now [] Hl Ha (found_named _ _ _ _ _ _ Hi Hget)). simpl.
  set (stale := map OperationID (List.filter (stale_boot m) ops)).
  destruct (delete_all_view ctx now stale st1 (store_GetActive_inv _ _ _ _ _ _ Hi Hget)) as (_ & Hsub & Hkeep & Hgone).
  rewrite Hview in Hsub, Hkeep. rewrite Forall_forall in Hin. split_and!; [done| |done| |].
  - intros op Hf. destruct (find_newest _ _ _ Hsort Hf) as (Hop & Hu & Hnew). split_and!; [by apply Hin|done|].
    intros id op' Hop' Hu'. destruct (decide (op' ∈ ops)); [by apply Hnew|]. by eapply Hrest.
  - intros id op Hop Hor. rewrite Hkeep; [done|]. unfold stale. intros Hst.
    apply list_elem_of_fmap in Hst as (op' & -> & Hop'). apply list_elem_of_In, filter_In in Hop' as [Hop' Hs].
    apply list_elem_of_In in Hop'. pose proof (Hin _ Hop') as Hv. rewrite Hop in Hv. injection Hv as <-.
    destruct Hor; congruence.
  - intros op Hop Hs. apply Hgone. unfold stale. apply list_elem_of_fmap. exists op. split; [done|].
    apply list_elem_of_In, filter_In. by rewrite <- list_elem_of_In.
Qed.

(** C19: The lock survives a restart of the daemon: a record written by
    [RespondAndRetain] at time [t] takes the lock again at any restart on the
    same boot, or where no boot id is known, within the sweeper's time to live,
    counted from the second of the write, when the records can be read, are not
    more than the configured limit, and every other one is of an earlier boot,
    expired, or older.  What [Delete] comes to does not matter. *)
Theorem upgrade_lock_survives_restart m0 m st ctx t now o tx st1 ops :
  Inv st -> stateLock (lock m) = false -> activeStateTx (lock m) = "" ->
  0 <= year_of t <= 9999 -> time_Sub now (t / Second * Second) <= sweeperTTL (cfg m) ->
  (GetBootID m0 = GetBootID m \/ GetBootID m0 = "" \/ GetBootID m = "") ->
  store_view st !! o = Some (store_form (retained_operation m0 t o tx)) ->
  activeRecordLimit (cfg m) <= 0 \/ Z.of_nat (size (store_view st)) <= activeRecordLimit (cfg m) ->
  (forall id op, store_view st !! id = Some op -> id <> o -> usable m now op = true ->
     updated_at op < t / Second * Second) ->
  store_GetActive st ctx now (activeRecordLimit (cfg m)) = (st1, Ok ops) ->
  lock (Start m st ctx now).1 = mkLock true o LockOwnedByOperation (releasingOperationID (lock m)).
Proof using All.
  intros Hi Hl Ha Hy Httl Hboot Hop Hlim Hothers Hget.
  pose proof (store_form_same (retained_operation m0 t o tx)) as Hform.
  set (op := store_form (retained_operation m0 t o tx)) in *.
  assert (Parse_RFC3339 (UpdatedAt op) = Some (t / Second * Second)) as Hat
    by (rewrite Hform; simpl; by apply parse_format).
  destruct (store_GetActive_ok _ _ _ _ _ _ Hi Hget) as (_ & Hsort & Hin & _). rewrite Forall_forall in Hin.
  assert (Hmem : op ∈ ops) by (by eapply GetActive_complete).
  assert (Hu : usable m now op = true).
  { unfold usable, stale_boot, is_expired. rewrite Hat.
    destruct (Z.ltb_spec (sweeperTTL (cfg m)) (time_Sub now (t / Second * Second))); [lia|].
    rewrite andb_true_r, negb_true_iff, Hform. simpl.
    destruct Hboot as [-> | [-> | ->]]; simpl; rewrite ?andb_false_r; try done.
    by rewrite String.eqb_refl, andb_false_r. }
  unfold Start. rewrite Hget, (start_loop ops m now [] Hl Ha (found_named _ _ _ _ _ _ Hi Hget)). simpl.
  destruct (List.find (usable m now) ops) as [op'|] eqn:Hf.
  - destruct (find_newest _ _ _ Hsort Hf) as (Hop' & Hu' & Hnew). specialize (Hin _ Hop').
    destruct (decide (OperationID op' = o)) as [He|Hne]; [unfold held_by; simpl; by rewrite He|].
    pose proof (Hothers _ _ Hin Hne Hu') as Hlt. pose proof (Hnew _ Hmem Hu) as Hge.
    unfold newer in Hge. unfold updated_at at 1 in Hge. rewrite Hat in Hge. simpl in Hge. lia.
  - pose proof (find_none _ _ Hf op) as Hn. rewrite Hu in Hn.
    by specialize (Hn (proj1 (list_elem_of_In _ _) Hmem)).
Qed.

(** ** The sweeper *)

(** The records the sweeper leaves: of this boot, not expired, and either the
    owner of the lock or met while a handoff is being written. *)
Definition kept m (now : Z) (op : PersistentOperation) : Prop :=
  stale_boot m op = false /\ is_expired m now op = false /\
  (activeStateTx (lock m) = OperationID op \/ activeStateOwner (lock m) = LockTransferPending).

(** What the sweeper relies on: a record that owns the lock owns it as an
    operation. *)
Record sweepable m st : Prop := {
  sw_inv : Inv st;
  sw_idle : releasingOperationID (lock m) = "";
  sw_owner : forall id, is_Some (store_view st !! id) -> activeStateTx (lock m) = id ->
    activeStateOwner (lock m) = LockOwnedByOperation /\ stateLock (lock m) = true;
}.

(** A store that works: the records it holds can be deleted, now and later. *)
Definition deletes_records (ctx : option error) (now : Z) (working : St -> Prop) : Prop :=
  forall st id, working st -> is_Some (store_view st !! id) ->
    exists st', store_Delete st ctx now id = (st', None) /\ working st'.

Lemma sweep_record_spec ctx now working m st op :
  deletes_records ctx now working -> working st ->
  sweepable m st -> store_view st !! OperationID op = Some op ->
  let '(m', st') := sweep_record ctx now (m, st) op in
  sweepable m' st' /\ working st' /\ cfg m' = cfg m /\
  (kept m now op /\ m' = m /\ st' = st \/
   ~ kept m now op /\ store_view st' = delete (OperationID op) (store_view st) /\
   (m' = m \/ activeStateTx (lock m) = OperationID op /\ is_expired m now op = true /\
             lock m' = mkLock false "" LockNone "")).
Proof using All.
  intros Hdel Hw [Hi Hidle Hown] Hop.
  destruct (store_view_ids _ _ _ Hi Hop) as [_ Hne].
  destruct (Hdel st (OperationID op) Hw (mk_is_Some _ _ Hop)) as (st1 & Hd & Hw1).
  pose proof (store_Delete_inv _ _ _ _ _ _ Hi Hd) as Hi1.
  pose proof (store_Delete_ok _ _ _ _ _ Hi Hd) as Hv1.
  assert (Hgone : sweepable m st1).
  { split; [done|done|]. intros id. rewrite Hv1. intros [x Hx].
    apply lookup_delete_Some in Hx as [_ Hx]. by apply Hown. }
  unfold sweep_record, kept. rewrite Hd. cbn [fst]. destruct (stale_boot m op) eqn:Hs.
  { split_and!; [done..|]. right. split_and!; [by intros []|done|by left]. }
  destruct (is_expired m now op) eqn:He.
  - destruct (String.eqb_spec (activeStateTx (lock m)) (OperationID op)) as [Ha|Ha].
    + destruct (Hown _ (mk_is_Some _ _ Hop) Ha) as [Hop' Hl].
      assert (Hr : releasingOperationID (lock m) <> OperationID op) by (rewrite Hidle; congruence).
      assert (releasable m (OperationID op)) as Hrel by done.
      destruct (release_taken m _ Hrel Hl) as (m1 & Hb & _).
      pose proof (ReleaseOperationLock_frees m st ctx now _ Hi Hrel Hl) as Hfree.
      destruct (ReleaseOperationLock m st ctx now (OperationID op)) as [[m' st'] err] eqn:Heq.
      assert (st' = st1) as -> by (unfold ReleaseOperationLock in Heq; rewrite Hb, Hd in Heq; by injection Heq).
      destruct Hfree as (Hl' & _ & _ & He' & Hv & _). rewrite Hd in He'. specialize (Hv He').
      destruct (ReleaseOperationLock_keeps _ _ _ _ _ _ _ _ Hi Heq) as [Hcfg Hi'].
      split_and!; try done.
      * split; [done|by rewrite Hl'|]. rewrite Hl', Hv. simpl. intros id [x Hx] <-.
        apply lookup_delete_Some in Hx as [_ Hx].
        by destruct (store_view_ids _ _ _ Hi Hx).
      * right. split_and!; [by intros (_ & ? & _)|done|]. right. done.
    + split_and!; [done..|]. right.
      split_and!; [by intros (_ & ? & _)|done|by left].
  - destruct (bool_decide_reflect (activeStateOwner (lock m) = LockTransferPending)) as [Ht|Ht].
    { split_and!; [done..|]. left. auto. }
    destruct (String.eqb_spec (activeStateTx (lock m)) (OperationID op)) as [Ha|Ha]; simpl.
    + split_and!; [done..|]. left. auto.
    + split_and!; [done..|]. right.
      split_and!; [by intros (_ & _ & [?|?])|done|by left].
Qed.

Lemma kept_cfg m m' now op :
  cfg m' = cfg m -> lock m' = lock m -> kept m now op -> kept m' now op.
Proof. unfold kept, stale_boot, is_expired, GetBootID. by intros -> ->. Qed.

Lemma sweep_loop ctx now working ops m st :
  deletes_records ctx now working -> working st ->
  sweepable m st -> NoDup (map OperationID ops) ->
  Forall (fun op => store_view st !! OperationID op = Some op) ops ->
  let '(m', st') := foldl (sweep_record ctx now) (m, st) ops in
  sweepable m' st' /\ cfg m' = cfg m /\
  (lock m' = lock m \/
   lock m' = mkLock false "" LockNone "" /\
   exists op, op ∈ ops /\ is_expired m now op = true /\ activeStateTx (lock m) = OperationID op) /\
  forall id op, store_view st' !! id = Some op ->
    store_view st !! id = Some op /\ (id ∈ map OperationID ops -> kept m' now op).
Proof using All.
  intros Hdel. revert m st. induction ops as [|op ops IH]; intros m st Hw Hsw Hnd Hall; cbn [foldl].
  { split_and!; [done|done|by left|]. intros id op Hop. split; [done|]. by intros ?%elem_of_nil. }
  apply NoDup_cons in Hnd as [Hnin Hnd]. apply Forall_cons in Hall as [Hop Hall].
  pose proof (sweep_record_spec ctx now working m st op Hdel Hw Hsw Hop) as Hone.
  destruct (sweep_record ctx now (m, st) op) as [m1 st1] eqn:Hrec.
  destruct Hone as (Hsw1 & Hw1 & Hcfg & Hcase).
  assert (Hall1 : Forall (fun op => store_view st1 !! OperationID op = Some op) ops).
  { destruct Hcase as [(_ & _ & ->)|(_ & Hv & _)]; [done|]. rewrite Hv.
    rewrite Forall_forall in Hall |- *. intros op' Hop'. rewrite lookup_delete_ne; [by apply Hall|].
    intros He. apply Hnin. rewrite He. by apply list_elem_of_fmap_2. }
  specialize (IH m1 st1 Hw1 Hsw1 Hnd Hall1).
  destruct (foldl (sweep_record ctx now) (m1, st1) ops) as [m' st'].
  destruct IH as (Hsw' & Hcfg' & Hlock & Hview).
  assert (Hexp : forall op', is_expired m1 now op' = is_expired m now op')
    by (intros; unfold is_expired; by rewrite Hcfg).
  split_and!; [done|congruence| |].
  - assert (Hl1 : lock m1 = lock m \/ activeStateTx (lock m) = OperationID op /\
              is_expired m now op = true /\ lock m1 = mkLock false "" LockNone "").
    { destruct Hcase as [(_ & -> & _)|(_ & _ & [->|?])]; auto. }
    destruct Hl1 as [Hl1|(Ha & He & Hl1)].
    + rewrite Hl1 in Hlock. destruct Hlock as [Hl|(Hl & op' & Hop' & He' & Ha')]; [by left|right].
      split; [done|]. exists op'. rewrite <- Hexp. split_and!; [by right|done|done].
    + right. split; [|exists op; split_and!; [by left|done|done]].
      destruct Hlock as [Hl|[Hl _]]; congruence.
  - intros id opx Hx. destruct (Hview id opx Hx) as [Hx1 Hk].
    destruct Hcase as [(Hkept & -> & ->)|(_ & Hv & _)].
    + split; [done|]. intros Hid. apply elem_of_cons in Hid as [->|Hid]; [|by apply Hk].
      rewrite Hop in Hx1. injection Hx1 as <-.
      destruct Hlock as [Hl|(_ & op' & Hop' & He' & Ha')]; [by eapply kept_cfg|].
      destruct Hkept as (Hs & He & [Ha|Ht]).
      * destruct Hnin. rewrite <- Ha, Ha'. by apply list_elem_of_fmap_2.
      * rewrite Forall_forall in Hall.
        destruct (sw_owner _ _ Hsw (OperationID op') (mk_is_Some _ _ (Hall _ Hop')) Ha') as [? _].
        congruence.
    + rewrite Hv in Hx1. apply lookup_delete_Some in Hx1 as [Hn Hx1]. split; [done|].
      intros Hid. apply elem_of_cons in Hid as [->|Hid]; [done|]. by apply Hk.
Qed.

(** After a sweep that saw every active record and could delete, the store
    holds only records of this boot that have not expired and that own the
    state lock (or were met during a handoff); and the lock is still held as
    before unless its operation had expired, in which case it is free. *)
Theorem sweep_leaves_only_owner m st ctx now working st1 ops :
  sweepable m st ->
  activeRecordLimit (cfg m) <= 0 \/ Z.of_nat (size (store_view st)) <= activeRecordLimit (cfg m) ->
  store_GetActive st ctx now (activeRecordLimit (cfg m)) = (st1, Ok ops) ->
  deletes_records ctx now working -> working st1 ->
  let '(m', st') := sweepOrphanedOperations m st ctx now in
  (forall id op, store_view st' !! id = Some op -> store_view st !! id = Some op /\ kept m' now op) /\
  (lock m' = lock m \/
   lock m' = mkLock false "" LockNone "" /\
   exists op, store_view st !! activeStateTx (lock m) = Some op /\ is_expired m now op = true).
Proof using All.
  intros Hsw Hlim Hget Hdel Hw. destruct Hsw as [Hi Hidle Hown].
  destruct (store_GetActive_ok _ _ _ _ _ _ Hi Hget) as (Hnd & _ & Hin & _).
  pose proof (GetActive_complete _ _ _ _ _ _ Hi Hget Hlim) as Hall.
  pose proof (store_GetActive_view _ _ _ _ _ _ Hi Hget) as Hview.
  pose proof (store_GetActive_inv _ _ _ _ _ _ Hi Hget) as Hi1.
  unfold sweepOrphanedOperations. rewrite Hget.
  assert (Hsw1 : sweepable m st1) by (split; [done|done|by rewrite Hview]).
  pose proof (sweep_loop ctx now working ops m st1 Hdel Hw Hsw1 Hnd) as Hloop. rewrite Hview in Hloop.
  specialize (Hloop Hin). destruct (foldl _ _ ops) as [m' st'].
  destruct Hloop as (_ & _ & Hlock & Hst). split.
  - intros id op Hop. destruct (Hst id op Hop) as [Hop0 Hk]. split; [done|]. apply Hk.
    destruct (store_view_ids _ _ _ Hi Hop0) as [<- _]. apply list_elem_of_fmap_2.
    by eapply Hall.
  - destruct Hlock as [Hl|(Hl & op & Hop & He & Ha)]; [by left|right]. split; [done|].
    exists op. rewrite Ha. rewrite Forall_forall in Hin. auto.
Qed.

End Ops.
