(* ===== verification/ManagerDemo.v ===== *)
(** * The request manager at work

    A store that keeps its records in memory and never fails, which meets the
    store's laws, and a run of the manager on it: the concrete states at which
    the theorems of the manager files are applied. *)

From S2P Require Import Prelude GoTime Scheduler Json Rpc RequestKey Transaction Cache Store Manager ManagerSteps ManagerInv ManagerSafety ManagerReplay ManagerOps.
Import RequestManager.

Module MemoryStore.

Abbreviation t := (gmap string PersistentOperation).

#[global] Instance newer_dec a b : Decision (newer a b).
Proof. unfold newer. apply _. Defined.
#[global] Instance newer_total : Total newer.
Proof. intros a b. unfold newer. lia. Qed.
#[global] Instance newer_trans : Transitive newer.
Proof. intros a b c. unfold newer. lia. Qed.

Definition active (st : t) : list PersistentOperation :=
  merge_sort newer (List.filter Active (map snd (map_to_list st))).

#[global] Instance memory_store : OperationStore t := {
  store_Save st ctx _ op :=
    match ctx with
    | Some e => (st, Some e)
    | None => if String.eqb (OperationID op) "" then (st, Some (ENew "invalid operation ID"))
              else (<[OperationID op := op]> st, None)
    end;
  store_Get st ctx id := match ctx with Some e => Err e | None => Ok (st !! id) end;
  store_GetActive st ctx _ limit :=
    match ctx with
    | Some e => (st, Err e)
    | None => (st, Ok (if 0 <? limit then take (Z.to_nat limit) (active st) else active st))
    end;
  store_Delete st ctx _ id :=
    match ctx with Some e => (st, Some e) | None => (delete id st, None) end;
  store_view st := filter (fun '(_, op) => Active op = true) st;
  storable _ := True;
  store_form op := op;
}.

Definition named (st : t) : Prop :=
  map_Forall (fun id op => OperationID op = id /\ id <> "") st.

Lemma view_lookup (st : t) id op : store_view st !! id = Some op <-> st !! id = Some op /\ Active op = true.
Proof. unfold store_view. simpl. apply map_lookup_filter_Some. Qed.

Lemma active_elem st op : named st -> op ∈ active st <-> store_view st !! OperationID op = Some op.
Proof.
  intros Hn. unfold active. rewrite merge_sort_Permutation, list_elem_of_In, filter_In, <- list_elem_of_In.
  rewrite list_elem_of_fmap, view_lookup. split.
  - intros (((k & o) & -> & Hk) & Ha). apply elem_of_map_to_list in Hk. simpl in *.
    destruct (Hn _ _ Hk) as [-> _]. done.
  - intros [Hk Ha]. split; [|done]. exists (OperationID op, op).
    by rewrite elem_of_map_to_list.
Qed.

Lemma active_NoDup st : named st -> NoDup (map OperationID (active st)).
Proof.
  intros Hn. unfold active.
  assert (HF : forall l, (forall kv, kv ∈ l -> OperationID kv.2 = kv.1) ->
    map OperationID (List.filter Active (map snd l))
    = map fst (List.filter (fun kv => Active kv.2) l)).
  { clear. induction l as [|[k o] l IH]; intros Hl; simpl; [done|].
    assert (Hl' : forall kv, kv ∈ l -> OperationID kv.2 = kv.1) by (intros; apply Hl; by right).
    destruct (Active o); simpl; [|by apply IH].
    f_equal; [apply (Hl (k, o)); by left | by apply IH]. }
  assert (Hperm : map OperationID (merge_sort newer (List.filter Active (map snd (map_to_list st))))
            ≡ₚ map OperationID (List.filter Active (map snd (map_to_list st))))
    by (apply Permutation_map, merge_sort_Permutation).
  rewrite Hperm, HF.
  - assert (Hsub : forall l : list (string * PersistentOperation), NoDup (map fst l) ->
              NoDup (map fst (List.filter (fun kv => Active kv.2) l))).
    { induction l as [|[k o] l IH]; simpl; intros Hl; [done|]. apply NoDup_cons in Hl as [Hk Hl].
      destruct (Active o); simpl; [|by apply IH]. constructor; [|by apply IH].
      intros Hin. apply Hk. apply list_elem_of_fmap in Hin as ([k' o'] & -> & Hin).
      apply list_elem_of_In, filter_In in Hin as [Hin _]. apply list_elem_of_In in Hin.
      apply list_elem_of_fmap. by exists (k', o'). }
    apply Hsub, NoDup_fst_map_to_list.
  - intros [k o] Hk%elem_of_map_to_list. by destruct (Hn _ _ Hk).
Qed.

Lemma active_sorted st : StronglySorted newer (active st).
Proof. apply StronglySorted_merge_sort; apply _. Qed.

Lemma view_insert (st : t) op :
  Active op = true -> store_view (<[OperationID op := op]> st : t) = <[OperationID op := op]> (store_view st).
Proof. intros Ha. unfold store_view. simpl. by rewrite map_filter_insert_True. Qed.

#[global] Instance memory_store_laws : OperationStoreLaws t named.
Proof.
  split; simpl.
  - intros st c now op st' r Hn. destruct c; [by intros [= <- <-]|].
    destruct (String.eqb_spec (OperationID op) ""); [by intros [= <- <-]|].
    intros [= <- <-]. by apply map_Forall_insert_2.
  - intros st c now op st' Hn Ha _ _. destruct c; [done|]. destruct (String.eqb _ _); [done|].
    intros [= <-]. by apply view_insert.
  - intros st c now op st' e Hn Ha _ _. destruct c; [intros [= <- <-]; by left|].
    destruct (String.eqb _ _); [|done]. intros [= <- <-]. by left.
  - by intros [].
  - intros st c now id st' r Hn. destruct c; [by intros [= <- <-]|]. intros [= <- <-].
    by apply map_Forall_delete.
  - intros st c now id st' Hn. destruct c; [done|]. intros [= <-]. apply map_filter_delete.
  - intros st c now id st' e Hn. destruct c; [|done]. intros [= <- <-]. by left.
  - intros st c now limit st' r Hn. destruct c; by intros [= <- <-].
  - intros st c now limit st' r Hn. destruct c; by intros [= <- <-].
  - intros st c now limit st' ops Hn. destruct c; [done|]. intros [= <- <-].
    assert (Hin : forall n, Forall (fun op => store_view st !! OperationID op = Some op) (take n (active st))).
    { intros n. apply Forall_take, Forall_forall. intros op. by apply active_elem. }
    assert (Hall : forall id op, store_view st !! id = Some op -> op ∈ active st).
    { intros id op Hop. pose proof Hop as Hop'. apply view_lookup in Hop' as [Ho _].
      destruct (Hn _ _ Ho) as [<- _]. by apply active_elem. }
    destruct (Z.ltb_spec 0 limit) as [Hl|Hl].
    + split_and!.
      * rewrite <- firstn_map. apply sublist_NoDup with (map OperationID (active st));
          [by apply active_NoDup|apply sublist_take].
      * by apply StronglySorted_take, active_sorted.
      * apply Hin.
      * intros _. rewrite length_take. lia.
      * intros Hc id op Hop. rewrite length_take in Hc. rewrite take_ge by lia. by eapply Hall.
      * intros id op op' Hop Hno Hin'. eapply StronglySorted_take_rest; [apply active_sorted| | |]; eauto.
    + split_and!; [by apply active_NoDup|apply active_sorted| |lia| |].
      * apply Forall_forall. intros op. by apply active_elem.
      * intros _ id op Hop. by eapply Hall.
      * intros id op op' Hop Hno. by destruct Hno; eapply Hall.
  - intros st id op Hn Hop. apply view_lookup in Hop as [Hop _]. by apply Hn in Hop.
Qed.

End MemoryStore.

(** ** A run *)

Section Demo.
Import MemoryStore.

Abbreviation manager := (RequestManager.t PriorityScheduler.t).
Abbreviation demo_world := (world PriorityScheduler.t (gmap string PersistentOperation)).

Definition demo_time : Z := 1787994000 * Second.
Definition demo_settings : settings :=
  mkSettings (5 * Second) (mkTTL (300 * Second) None) 4 (3600 * Second) 0 "boot-1".
Definition demo_manager : manager :=
  mk demo_settings ∅ ∅ ∅ (mkLock false "" LockNone "") ∅ (Some PriorityScheduler.demo_new) [] ∅ []
    false.

Definition demo0 : demo_world := mkWorld demo_manager ∅ demo_time [] ∅.

(** A request arrives, and is prepared and queued for publication. *)
Definition demo_create (method : string) (w : demo_world) : demo_world :=
  mkWorld (CreateTransaction (mgr w) (clock w) "rpc-1" "sess" "7" true method (30 * Second) true).1
    (store w) (clock w) (frames w) ({["rpc-1"]} ∪ issued w).
Definition demo_call (c : call) (w : demo_world) : demo_world :=
  set_mgr (run_call c (clock w) (mgr w)) w.

Definition demo_pending (method : string) : demo_world :=
  demo_call (CMarkPendingPublish "rpc-1") (demo_call (CMarkPreparingDispatch "rpc-1")
    (demo_create method demo0)).
Definition demo_inflight (method : string) : demo_world :=
  demo_call (CMarkInFlight "rpc-1") (demo_pending method).

(** The upgrade's first reply starts the handoff. *)
Definition demo_tx (w : demo_world) : Transaction :=
  default (mkTx "" "" "" "" false "" TxCreated None false 0 0 0 0 None None)
    (transactionsByRPCID (mgr w) !! "rpc-1").
Definition demo_handoff : demo_world :=
  let w := demo_inflight "upgrade" in
  mkWorld (retain_begin (mgr w) "rpc-1").1 (store w) (clock w)
    (FSave "rpc-1" "op-1" (demo_tx w) (Some "started") :: frames w) ({["op-1"]} ∪ issued w).

Lemma demo0_initial : initial demo0.
Proof. unfold initial. simpl. split_and!; try done. by left. Qed.

Lemma demo_inflight_steps method : rtc step demo0 (demo_inflight method).
Proof.
  unfold demo_inflight, demo_pending, demo_call.
  eapply rtc_l; [|eapply rtc_l; [|eapply rtc_l; [|eapply rtc_l; [|apply rtc_refl]]]].
  - eapply (step_create demo0 "rpc-1"); [split; [done|set_solver]|apply surjective_pairing].
  - apply step_call.
  - apply step_call.
  - apply step_call.
Qed.

Lemma demo_inflight_reachable method : reachable (demo_inflight method).
Proof. exists demo0. split; [apply demo0_initial|apply demo_inflight_steps]. Qed.

Lemma demo_handoff_reachable : reachable demo_handoff.
Proof.
  exists demo0. split; [apply demo0_initial|].
  etrans; [apply (demo_inflight_steps "upgrade")|]. apply rtc_once.
  eapply (step_retain _ "rpc-1" "op-1" (Some "started")).
  - split; [done|]. vm_compute. set_solver.
  - vm_compute. reflexivity.
Qed.

(** ** The safety theorems on the run *)

Lemma state_lock_ownership_witness :
  activeStateOwner (lock (mgr demo_handoff)) = LockTransferPending /\
  crashed (mgr demo_handoff) = false /\
  exists tx f, live demo_handoff "rpc-1" tx /\ f ∈ frames demo_handoff /\
    option_map fst (early f) = Some "rpc-1".
Proof.
  destruct (state_lock_ownership demo_handoff demo_handoff_reachable) as (A & _ & C).
  assert (E : activeStateOwner (lock (mgr demo_handoff)) = LockTransferPending)
    by (vm_compute; reflexivity).
  split; [exact E|]. split; [exact A|]. rewrite E in C.
  destruct C as (tx & f & H1 & _ & H2 & H3). exists tx, f. split; [exact H1|]. by split.
Defined.

Definition demo_done (method : string) : demo_world :=
  demo_call (CComplete "rpc-1" (Some "{}")) (demo_inflight method).

Lemma demo_done_reachable method : reachable (demo_done method).
Proof.
  exists demo0. split; [apply demo0_initial|].
  etrans; [apply (demo_inflight_steps method)|]. apply rtc_once, step_call.
Qed.

Lemma at_most_one_response_witness :
  map fst (pushed (mgr (demo_done "configure"))) = ["rpc-1"] /\
  NoDup (map fst (pushed (mgr (demo_done "configure")))).
Proof.
  split; [vm_compute; reflexivity|].
  apply (at_most_one_response (demo_done "configure") (demo_done_reachable "configure")).
Defined.

Lemma request_registry_witness :
  activeCloudRequests (mgr (demo_inflight "configure")) !! "sess:n:7" = Some "rpc-1" /\
  Z.of_nat (size (transactionsByRPCID (mgr (demo_inflight "configure")))) <= 4.
Proof.
  destruct (request_registry (demo_inflight "configure") (demo_inflight_reachable "configure"))
    as (_ & _ & C); [vm_compute; discriminate|].
  split; [vm_compute; reflexivity|exact C].
Defined.

Lemma inflight_request_is_timed_witness :
  transactionsByRPCID (Timeout_ (mgr (demo_inflight "configure")) demo_time "rpc-1").1 !! "rpc-1" = None.
Proof.
  apply (inflight_request_is_timed (demo_inflight "configure") "rpc-1"
           (demo_tx (demo_inflight "configure"))).
  - apply demo_inflight_reachable.
  - vm_compute. reflexivity.
  - vm_compute. reflexivity.
  - vm_compute. reflexivity.
Defined.

Lemma handoff_has_owner_witness :
  exists f, f ∈ frames demo_handoff /\ frame_rpc f = Some "rpc-1".
Proof.
  destruct (handoff_has_owner demo_handoff "rpc-1" (demo_tx demo_handoff) (Some "{}"))
    as [(f & Hf & Hr & _) _].
  - apply demo_handoff_reachable.
  - vm_compute. reflexivity.
  - vm_compute. reflexivity.
  - exists f. by split.
Defined.

(** The repeated request, a minute later and written differently. *)
Definition demo_later : demo_world :=
  mkWorld (mgr (demo_done "configure")) ∅ (demo_time + Minute) [] (issued (demo_done "configure")).

Lemma completed_request_replayed_witness :
  CreateTransaction (mgr demo_later) (clock demo_later) "rpc-2" "sess" "7.0" true "configure"
    (30 * Second) true = (mgr demo_later, Err (ECachedResponse "{}")).
Proof.
  apply (completed_request_replayed (demo_inflight "configure") demo_later "rpc-1"
           (demo_tx (demo_inflight "configure")) "{}" "rpc-2" "sess" "7.0").
  - apply demo_inflight_reachable.
  - vm_compute. reflexivity.
  - vm_compute. reflexivity.
  - vm_compute. reflexivity.
  - vm_compute. reflexivity.
  - apply rtc_once. exact (step_tick (demo_done "configure") (demo_time + Minute)
                              ltac:(vm_compute; discriminate)).
  - vm_compute. split; discriminate.
  - vm_compute. split; discriminate.
  - vm_compute. reflexivity.
  - vm_compute. reflexivity.
  - discriminate.
Defined.

(** ** The operations on the run *)

Lemma CreateTransaction_spec_witness :
  (CreateTransaction (mgr (demo_inflight "configure")) demo_time "rpc-2" "sess" "8" true "reboot"
     (30 * Second) true).1 = mgr (demo_inflight "configure").
Proof.
  exact (CreateTransaction_spec (mgr (demo_inflight "configure")) demo_time "rpc-2" "sess" "8" true
           "reboot" (30 * Second) true _ (Err ErrStateLockBusy) ltac:(vm_compute; reflexivity)).
Defined.

Lemma fast_reply_commutes_witness :
  same_outcome
    (MarkInFlight (Complete (mgr (demo_pending "configure")) demo_time "rpc-1" (Some "{}")).1
       demo_time "rpc-1").1
    (Complete (MarkInFlight (mgr (demo_pending "configure")) demo_time "rpc-1").1
       demo_time "rpc-1" (Some "{}")).1.
Proof.
  apply (fast_reply_commutes (mgr (demo_pending "configure")) demo_time "rpc-1"
           (demo_tx (demo_pending "configure")) (Some "{}")); vm_compute; reflexivity.
Defined.

Definition demo_record : PersistentOperation :=
  retained_operation (mgr (demo_inflight "upgrade")) demo_time "op-1" (demo_tx (demo_inflight "upgrade")).

Lemma upgrade_handoff_witness :
  lock (RespondAndRetain (mgr (demo_inflight "upgrade")) (∅ : MemoryStore.t) None demo_time "rpc-1"
          "op-1" (Some "started")).1.1
  = mkLock true "op-1" LockOwnedByOperation "".
Proof.
  apply (upgrade_handoff named (mgr (demo_inflight "upgrade")) (∅ : MemoryStore.t) None demo_time
           "rpc-1" "op-1" (demo_tx (demo_inflight "upgrade")) (Some "started")
           (<["op-1" := demo_record]> (∅ : MemoryStore.t)));
    try (vm_compute; reflexivity).
  - by left.
  - discriminate.
  - apply map_Forall_empty.
  - vm_compute. split; discriminate.
Defined.

(** The state after the handoff, and the store with a second record, of an
    earlier boot. *)
Definition demo_held : manager :=
  (RespondAndRetain (mgr (demo_inflight "upgrade")) (∅ : MemoryStore.t) None demo_time "rpc-1"
     "op-1" (Some "started")).1.1.
Definition demo_old : PersistentOperation :=
  mkOp "op-0" "rpc-0" "3" "system" "upgrade" "started" "started" true "boot-0"
    (Format_RFC3339 (demo_time - Minute)) (Format_RFC3339 (demo_time - Minute)).
Definition demo_store : MemoryStore.t := <["op-0" := demo_old]> {["op-1" := demo_record]}.

Lemma demo_store_named : named demo_store.
Proof.
  apply map_Forall_insert_2; [done|]. intros id op [<- <-]%lookup_singleton_Some. done.
Qed.

Lemma demo_delete_ok now : deletes_records (St := MemoryStore.t) None now (fun _ => True).
Proof. intros st id _ _. by eexists. Qed.

Lemma demo_store_cases id op : store_view demo_store !! id = Some op -> op = demo_old \/ op = demo_record.
Proof.
  intros [Hop _]%view_lookup. unfold demo_store in Hop.
  apply lookup_insert_Some in Hop as [[_ <-]|[_ [_ <-]%lookup_singleton_Some]]; auto.
Qed.

(** A manager that holds nothing. *)
Definition demo_fresh : manager := demo_manager.

Lemma release_frees_lock_witness :
  lock (ReleaseOperationLock demo_held demo_store (Some context_DeadlineExceeded) demo_time "op-1").1.1
  = mkLock false "" LockNone "" /\
  (ReleaseOperationLock demo_held demo_store (Some context_DeadlineExceeded) demo_time "op-1").2
  = Some context_DeadlineExceeded /\
  ReleaseOperationLock demo_fresh demo_store None demo_time "" = (demo_fresh, demo_store, Some ErrOperationNotActive).
Proof.
  pose proof (release_frees_lock named demo_held demo_store (Some context_DeadlineExceeded) demo_time
                "op-1" None demo_time demo_store_named ltac:(vm_compute; reflexivity)) as Hr.
  pose proof (release_frees_lock named demo_fresh demo_store None demo_time "" None demo_time
                demo_store_named ltac:(vm_compute; discriminate)) as He.
  destruct (ReleaseOperationLock demo_held demo_store (Some context_DeadlineExceeded) demo_time "op-1")
    as [[m' st'] err] eqn:E.
  destruct Hr as [Hr _]. destruct Hr as [(Hl & _ & _ & Herr & _) _].
  { unfold releasable. split_and!; [discriminate|vm_compute; discriminate|vm_compute; reflexivity..]. }
  split; [exact Hl|]. split; [exact Herr|].
  destruct (ReleaseOperationLock demo_fresh demo_store None demo_time "") as [[m2 st2] err2] eqn:E2.
  destruct He as [_ He]. destruct He as (-> & -> & ->); [intros [Hne _]; by destruct Hne|reflexivity].
Defined.

Lemma sweep_leaves_only_owner_witness :
  store_view (sweepOrphanedOperations demo_held demo_store None (demo_time + Minute)).2 !! "op-0" = None.
Proof.
  pose proof (sweep_leaves_only_owner named demo_held demo_store None (demo_time + Minute) (fun _ => True) demo_store
                [demo_record; demo_old]) as Hr.
  assert (Hsw : sweepable named demo_held demo_store).
  { split; [apply demo_store_named|vm_compute; reflexivity|].
    intros id _ _. split; vm_compute; reflexivity. }
  specialize (Hr Hsw ltac:(left; vm_compute; discriminate) ltac:(vm_compute; reflexivity)
                (demo_delete_ok _) I).
  destruct (sweepOrphanedOperations demo_held demo_store None (demo_time + Minute)) as [m' st'] eqn:E.
  destruct Hr as [Hv _]. cbn [snd].
  destruct (store_view st' !! "op-0") as [op|] eqn:Ho; [|reflexivity].
  destruct (Hv _ _ Ho) as [Hop (Hs & _)]. exfalso.
  assert (op = demo_old) as -> by (vm_compute in Hop; injection Hop as <-; reflexivity).
  assert (GetBootID m' = "boot-1") as Hb.
  { change m' with (m', st').1. rewrite <- E. vm_compute. reflexivity. }
  unfold stale_boot in Hs. rewrite Hb in Hs. vm_compute in Hs. discriminate Hs.
Defined.

End Demo.
