(* ===== verification/RestartDemo.v ===== *)
(** * A restart on the disk

    The disk store, which is the store the program has, under the request
    manager: an upgrade is handed over to the disk, where a record of an earlier
    boot lies too, the daemon ends, and a new manager starts on what is there.
    The theorems on restarts at this run, with the limit the program sets. *)

From S2P Require Import Prelude GoTime Scheduler Json Transaction Cache Store FileSys OpCodec DiskStore DiskSafe DiskLaws DiskDemo Manager ManagerSteps ManagerInv ManagerOps ManagerDemo.
Import RequestManager DemoDisk.

Module DemoRestart.

(** A record of an earlier boot, and then the handoff of the upgrade. *)
Definition old_op : PersistentOperation :=
  mkOp id2 "rpc-0" "3" "system" "upgrade" "started" "started" true "boot-0"
    (Format_RFC3339 (demo_time - Minute)) (Format_RFC3339 (demo_time - Minute)).
Definition disk_before : io := (store_Save (start_io []) None demo_time old_op).1.
Definition disk_after : io :=
  (RespondAndRetain (mgr (demo_inflight "upgrade")) disk_before None demo_time "rpc-1" id1 (Some "started")).1.2.

(** The manager the program starts with: at most a thousand records are read. *)
Definition restarted : t PriorityScheduler.t :=
  mk (mkSettings (5 * Second) (mkTTL (300 * Second) None) 4 (3600 * Second) 1000 "boot-1")
    ∅ ∅ ∅ (mkLock false "" LockNone "") ∅ (Some PriorityScheduler.demo_new) [] ∅ [] false.

(** The record of the upgrade as it came back. *)
Definition new_op : PersistentOperation :=
  store_form (retained_operation (mgr (demo_inflight "upgrade")) demo_time id1 (demo_tx (demo_inflight "upgrade"))).

Lemma restart_view : store_view disk_after = <[id2 := old_op]> {[id1 := new_op]}.
Proof. vm_compute. reflexivity. Qed.

Lemma restart_readable : readable_disk disk_after.
Proof. vm_compute. reflexivity. Qed.

Definition disk_read : io := (store_GetActive disk_after None (demo_time + Minute) 1000).1.

Lemma restart_reads :
  store_GetActive disk_after None (demo_time + Minute) 1000 = (disk_read, Ok [new_op; old_op]).
Proof. vm_compute. reflexivity. Qed.

(** Every record can be deleted here. *)
Lemma restart_deletes : (store_Delete disk_read None (demo_time + Minute) id2).2 = None.
Proof. vm_compute. reflexivity. Qed.

Lemma upgrade_lock_survives_restart_witness :
  lock (Start restarted disk_after None (demo_time + Minute)).1 = mkLock true id1 LockOwnedByOperation "".
Proof.
  apply (upgrade_lock_survives_restart readable_disk (mgr (demo_inflight "upgrade")) restarted disk_after None
           demo_time (demo_time + Minute) id1 (demo_tx (demo_inflight "upgrade")) disk_read [new_op; old_op]).
  - exact restart_readable.
  - reflexivity.
  - reflexivity.
  - vm_compute. split; discriminate.
  - vm_compute. discriminate.
  - left. vm_compute. reflexivity.
  - rewrite restart_view. vm_compute. reflexivity.
  - right. rewrite restart_view. vm_compute. discriminate.
  - intros id op Hop Hn Hu. rewrite restart_view in Hop.
    apply lookup_insert_Some in Hop as [[_ <-]|[_ [<- _]%lookup_singleton_Some]]; [|by destruct Hn].
    vm_compute in Hu. discriminate Hu.
  - exact restart_reads.
Defined.

Lemma start_recovers_lock_witness :
  let '(m', st') := Start restarted disk_after None (demo_time + Minute) in
  lock m' = mkLock true id1 LockOwnedByOperation "" /\
  store_view st' !! id2 = None /\ store_view st' !! id1 = Some new_op.
Proof.
  pose proof (start_recovers_lock readable_disk restarted disk_after None (demo_time + Minute)
                restart_readable eq_refl eq_refl) as Hr.
  destruct (Start restarted disk_after None (demo_time + Minute)) as [m' st'] eqn:E.
  change (activeRecordLimit (cfg restarted)) with 1000 in Hr. rewrite restart_reads in Hr. destruct Hr as (Hm & _ & _ & Hkeep & Hgone). split; [|split].
  - rewrite Hm. vm_compute. reflexivity.
  - destruct (Hgone old_op) as [Hno|(before & after & Hids & He)].
    + apply list_elem_of_In. right. left. reflexivity.
    + vm_compute. reflexivity.
    + exact Hno.
    + exfalso. vm_compute in Hids.
      assert (before = []) as -> by (destruct before as [|? []]; [reflexivity|discriminate Hids..]).
      exact (He restart_deletes).
  - apply Hkeep; [rewrite restart_view; vm_compute; reflexivity|right; vm_compute; reflexivity].
Defined.

(** The record is gone and the lock free when the operation gives it up. *)
Example restart_released :
  let '(m', st') := Start restarted disk_after None (demo_time + Minute) in
  let '(m', st', err) := ReleaseOperationLock m' st' None (demo_time + Minute) id1 in
  err = None /\ lock m' = mkLock false "" LockNone "" /\ store_view st' = ∅.
Proof. vm_compute. split_and!; reflexivity. Qed.

End DemoRestart.
