(* ===== verification/HandlerSafe.v ===== *)
(** * Theorems on the frame handler

    Every request is either handed to a dispatch goroutine or answered, and
    only requests that may be executed are ([frame_outcome]); what passes the
    handler passes the checks of the NATS client too
    ([launched_command_is_submitted]); and the handler and the dispatch
    goroutine are made of steps of the concurrent request manager
    ([handle_frame_steps], [exec_step_steps]), so its theorems hold of them. *)

From S2P Require Import Prelude GoTime Scheduler Json JsonRaw RequestKey Enums Rpc Responses Commands Envelopes DeviceResult NatsClient Transaction Cache Store Manager ManagerSteps ManagerInv ManagerSafety ManagerOps Handler.
Import RequestManager.

(** ** Responses can be marshalled *)

Lemma error_response_ok result e id :
  raw_fits 2 (err_data e) -> raw_fits 1 id ->
  is_Some (json_Marshal_response (mkResponse JSONRPCVersion result (Some e) id)).
Proof. intros He Hid. by apply response_marshals. Qed.

Lemma internal_error_ok code msg :
  In code [ErrAppFailure; ErrTimeout; ErrServiceUnavailable; ErrValidationFailed;
           ErrRollbackSuccess; ErrRollbackFailed] ->
  exists e, internal_error code msg = Some e /\ raw_fits 2 (err_data e).
Proof.
  intros Hin. unfold internal_error, NewInternalJSONRPCError.
  assert (existsb (Z.eqb code) [ErrAppFailure; ErrTimeout; ErrServiceUnavailable; ErrValidationFailed;
           ErrRollbackSuccess; ErrRollbackFailed] = true) as ->.
  { apply existsb_exists. exists code. split; [done|]. by apply Z.eqb_eq. }
  eexists. split; [reflexivity|]. right. cbn [err_data]. clear msg. cbn [In] in Hin.
  destruct Hin as [<-|[<-|[<-|[<-|[<-|[<-|[]]]]]]]; eexists; (split; [vm_compute; reflexivity|done]).
Qed.

(** The identifiers the handler answers to. *)
Lemma meta_id_ok frame : raw_fits 1 (extract_meta frame).2.
Proof.
  unfold extract_meta. destruct (parse_json frame) as [v|] eqn:Hp; [|by left].
  destruct (struct_members v) as [ms|] eqn:Hm; [|by left].
  exact (raw_field_fits _ _ _ ["method"; "id"] "id" Hp Hm).
Qed.

Lemma request_id_ok frame r : decode_request frame = Ok r -> raw_fits 1 (req_id r).
Proof.
  unfold decode_request. destruct (parse_json frame) as [v|] eqn:Hp; [|done].
  destruct (struct_members v) as [ms|] eqn:Hm; [|done].
  destruct (decode_field dec_string "" (assigned _ "jsonrpc" ms)) as [version b1].
  destruct (decode_field dec_string "" (assigned _ "method" ms)) as [method b2].
  destruct (decode_field dec_raw "" (assigned _ "params" ms)) as [params b3].
  pose proof (raw_field_fits _ _ _ request_fields "id" Hp Hm) as Hid.
  destruct (decode_field dec_raw "" (assigned _ "id" ms)) as [id b4]. cbn [fst] in Hid.
  destruct (b1 || b2); [done|]. by intros [= <-].
Qed.

Lemma response_id_ok id : raw_fits 1 id -> raw_fits 1 (ValidResponseID id).
Proof. intros Hid. unfold ValidResponseID. destruct (_ && _); [done|]. right. by exists JNull. Qed.

Lemma extract_id_ok frame : raw_fits 1 (extract_id frame).
Proof.
  unfold extract_id. destruct (parse_json frame) as [v|] eqn:Hp; [|by left].
  destruct (struct_members v) as [ms|] eqn:Hm; [|by left].
  exact (raw_field_fits _ _ _ ["id"] "id" Hp Hm).
Qed.

Section Frames.
Context {S : Type} `{OutboundScheduler S} `{GoLib}.
Context (lim : limits) (allowed : option URL) (h : frameHandler).

Implicit Types (m : t S).

(** An error response is built for every valid identifier. *)
Lemma error_message_ok sessionID id e :
  raw_fits 2 (err_data e) -> raw_fits 1 id ->
  exists payload, response_message sessionID id "" (Some e) = Some (mkMsg sessionID PriorityHighest payload)
    /\ json_Marshal_response (mkResponse JSONRPCVersion "" (Some e) id) = Some payload.
Proof.
  intros He Hid. unfold response_message. cbn [mbind option_bind].
  destruct (error_response_ok "" e id He Hid) as [p Hp]. rewrite Hp. by eexists.
Qed.

(** The message is addressed to the session of the frame, at the highest
    priority. *)
Definition addressed (session : string) (msg : OutboundMessage) : Prop :=
  SessionID msg = session /\ Priority msg = PriorityHighest.

(** The frame was answered, and nothing else happened. *)
Definition only_answered (m : t S) (session : string) (o : handled S) : Prop :=
  hd_launch o = None /\
  exists msg, hd_pushed o = Some msg /\ addressed session msg /\ hd_mgr o = scheduler_Push msg m.

Definition untouched (m : t S) (o : handled S) : Prop :=
  hd_launch o = None /\ hd_pushed o = None /\ hd_mgr o = m.

Lemma reject_answered m session id e :
  raw_fits 2 (err_data e) -> raw_fits 1 id ->
  only_answered m session (reject_with m session id (Some e)).
Proof.
  intros He Hid. unfold reject_with, push_and_return.
  destruct (error_message_ok session id e He Hid) as (p & -> & _). split; [done|].
  eexists. by split_and!.
Qed.

Lemma reject_request_outcome m isN session id e :
  raw_fits 2 (err_data e) -> raw_fits 1 id ->
  (isN = false /\ only_answered m session (reject_request m isN session id (Some e))) \/
  (isN = true /\ untouched m (reject_request m isN session id (Some e))).
Proof.
  intros He Hid. destruct isN; [by right|]. left. split; [done|]. by apply reject_answered.
Qed.

(** What a launched transaction went through. *)
Record authorized (st : systemStateManager) m (now : Z) (rpcID : string) (frame : InboundFrame)
    (o : handled S) (l : launch) : Prop := {
  au_outcome : hd_launch o = Some l /\ hd_pushed o = None /\ hd_disposition o = FrameAccepted;
  au_size : len (f_Payload frame) <= payloadLimitAbsolute h;
  au_request : exists r, decode_request (f_Payload frame) = Ok r /\ JSONRPCRequest_Validate r = None /\
    exists changing, getCommandAction (req_method r) = (l_command l, l_action l, changing) /\
    l_command l <> "" /\ l_params l = req_params r /\
    validate_params lim allowed (l_command l) (l_action l) (req_params r) = Ok (l_uuid l) /\
    (is_notification (req_id r) = true -> changing = false /\ req_method r <> "rtty") /\
    CreateTransaction m now rpcID (f_SessionID frame) (req_id r) (negb (is_notification (req_id r)))
      (req_method r) (getTransactionTimeout h (req_method r) (req_params r)) changing
      = (hd_mgr o, Ok (l_tx l));
  au_nats : GetSystemState st <> StateNATSDegraded
}.

Definition no_data_ok code msg : raw_fits 2 (err_data (mkError code msg "")) := or_introl eq_refl.

Lemma admission_outcome m isN session id e :
  raw_fits 1 id -> (isN = true -> errors_As_cached e = None) ->
  (isN = false /\ only_answered m session (admission_failed m isN session id e)) \/
  (isN = true /\ untouched m (admission_failed m isN session id e)).
Proof.
  intros Hid Hc. unfold admission_failed. destruct (errors_As_cached e) as [p|].
  - left. split; [by destruct isN; [specialize (Hc eq_refl)|]|]. split; [done|]. eexists. by split_and!.
  - destruct (_ || _).
    + by apply reject_request_outcome; [left|].
    + destruct (internal_error_ok ErrAppFailure ("Transaction creation failed: " +:+ error_msg e))
        as (e' & -> & He'); [by left|]. by apply reject_request_outcome.
Qed.

Lemma CreateTransaction_unchanged m now rpcID session id respond method timeout changing m' e :
  CreateTransaction m now rpcID session id respond method timeout changing = (m', Err e) -> m' = m.
Proof.
  unfold CreateTransaction, acquire. intros Hc. repeat case_match; simplify_eq; done.
Qed.

(** A rejected creation of a notification is not a cache hit. *)
Lemma notification_not_cached m now rpcID session id method timeout changing m' e :
  cache m !! "" = None -> is_notification id = true ->
  CreateTransaction m now rpcID session id false method timeout changing = (m', Err e) ->
  errors_As_cached e = None.
Proof.
  intros Hc Hn. unfold CreateTransaction, is_notification in *. rewrite Hn, andb_false_r.
  destruct (_ && _); [by intros [= _ <-]|].
  destruct (CanonicalRequestKey session id) as [key|e'] eqn:Hk.
  2:{ intros [= _ <-]. unfold CanonicalRequestKey, classify in Hk. repeat case_match; by simplify_eq. }
  assert (key = "") as ->.
  { pose proof (key_nonempty _ _ _ Hk) as Hkey. by apply Hkey. }
  unfold TransactionCache.Get. rewrite Hc. destruct (activeCloudRequests m !! ""); [by intros [= _ <-]|].
  destruct (_ <=? _); [by intros [= _ <-]|]. destruct changing; [by intros [= _ <-]|done].
Qed.

(** A notification: a well-formed request that has no id. *)
Definition notification (payload : string) : Prop :=
  exists r, decode_request payload = Ok r /\ JSONRPCRequest_Validate r = None /\
            is_notification (req_id r) = true.

(** A frame that is larger than any frame may be, one that is larger than its
    method allows and in which the bounded first parse finds no id, or a
    notification: the frames nobody is told about.  Every other frame has an
    answer or a transaction, a text that is not JSON included. *)
Definition unanswerable (payload : string) : Prop :=
  payloadLimitAbsolute h < len payload \/
  (getMethodPayloadLimit h (extract_meta payload).1 < len payload /\
   is_notification (extract_meta payload).2 = true) \/
  notification payload.

(** Within the limits, but not a request: no JSON, or not an object with the
    members of a request in their types ([ErrParse]), or one that breaks the
    rules of JSON-RPC ([ErrInvalidRequest]). *)
Definition malformed (payload : string) (code : Z) : Prop :=
  len payload <= payloadLimitAbsolute h /\
  len payload <= getMethodPayloadLimit h (extract_meta payload).1 /\
  match decode_request payload with
  | Err _ => code = ErrParse
  | Ok r => JSONRPCRequest_Validate r <> None /\ code = ErrInvalidRequest
  end.

Lemma handle_valid_outcome st m now rpcID frame r :
  cache m !! "" = None -> len (f_Payload frame) <= payloadLimitAbsolute h ->
  decode_request (f_Payload frame) = Ok r -> JSONRPCRequest_Validate r = None ->
  let o := handle_valid lim allowed h st m now rpcID frame r in
  (exists l, authorized st m now rpcID frame o l) \/
  (is_notification (req_id r) = false /\ only_answered m (f_SessionID frame) o) \/
  (is_notification (req_id r) = true /\ untouched m o).
Proof.
  intros Hcache Hlen Hdec Hval. pose proof (request_id_ok _ _ Hdec) as Hid. unfold handle_valid.
  destruct (getCommandAction (req_method r)) as [[command action] changing] eqn:Hca.
  destruct (command =s "") eqn:Hc; [right; by apply reject_request_outcome; [left|]|].
  destruct (validate_params lim allowed command action (req_params r)) as [uuid|e] eqn:Hv;
    [|right; by apply reject_request_outcome; [left|]].
  destruct (is_notification (req_id r) && _) eqn:Hsens.
  { right. right. apply andb_true_iff in Hsens as [-> _]. done. }
  destruct (GetSystemState st =s StateNATSDegraded) eqn:Hs.
  { right. destruct (internal_error_ok ErrServiceUnavailable nats_unavailable) as (e & He & Hd).
    { do 2 right. by left. }
    unfold nats_unavailable in He. rewrite He. by apply reject_request_outcome. }
  destruct (CreateTransaction _ _ _ _ _ _ _ _ _) as [m' [tx|e]] eqn:Hcr.
  - left. eexists. split; [by split_and!|done| |by apply String.eqb_neq].
    exists r. split_and!; [done..|]. exists changing. simpl. split_and!; try done.
    + by apply String.eqb_neq.
    + intros Hn. rewrite Hn in Hsens. simpl in Hsens. apply orb_false_iff in Hsens as [-> Hm].
      split; [done|]. by apply String.eqb_neq in Hm.
  - right. pose proof (CreateTransaction_unchanged _ _ _ _ _ _ _ _ _ _ _ Hcr) as ->.
    apply admission_outcome; [done|]. intros Hn. rewrite Hn in Hcr. simpl in Hcr.
    by eapply notification_not_cached.
Qed.

(** Every frame within the absolute size limit is dealt with in exactly one
    way: its request is admitted as a transaction and executed, having passed
    every check; or its sender gets exactly one message, addressed to its
    session at the highest priority, and nothing else changes; or it is one of
    the frames that have no answer, and nothing changes at all. *)
Lemma frame_outcome st m now rpcID frame :
  cache m !! "" = None ->
  let o := HandleFrame lim allowed h st m now rpcID frame in
  (exists l, authorized st m now rpcID frame o l) \/
  only_answered m (f_SessionID frame) o \/
  (untouched m o /\ unanswerable (f_Payload frame)).
Proof.
  intros Hcache. unfold HandleFrame.
  destruct (Z.ltb_spec (payloadLimitAbsolute h) (len (f_Payload frame))) as [Hbig|Hlen].
  { right. right. split; [done|by left]. }
  destruct (extract_meta (f_Payload frame)) as [method metaID] eqn:Hmeta.
  pose proof (meta_id_ok (f_Payload frame)) as Hid. rewrite Hmeta in Hid. simpl in Hid.
  destruct (Z.ltb_spec (getMethodPayloadLimit h method) (len (f_Payload frame))) as [Hlong|_].
  { match goal with |- context [internal_error ErrValidationFailed ?msg] =>
      destruct (internal_error_ok ErrValidationFailed msg) as (e & He & Hd) end.
    { do 3 right. by left. }
    rewrite He. cbn [with_code mbind option_bind].
    destruct (reject_request_outcome m (is_notification metaID) (f_SessionID frame) metaID
      (mkError ErrInvalidParams (err_message e) (err_data e)) Hd Hid) as [[_ Ha]|[Hn Hu]].
    - right. by left.
    - right. right. split; [done|]. right. left. by rewrite Hmeta. }
  destruct (decode_request (f_Payload frame)) as [r|e] eqn:Hdec.
  2:{ right. left. apply reject_answered; [by left|]. apply response_id_ok, extract_id_ok. }
  pose proof (request_id_ok _ _ Hdec) as Hrid.
  destruct (JSONRPCRequest_Validate r) as [e|] eqn:Hval.
  { right. left. apply reject_answered; [by left|]. by apply response_id_ok. }
  destruct (handle_valid_outcome st m now rpcID frame r Hcache Hlen Hdec Hval) as [Hl|[[_ Ha]|[Hn Hu]]].
  - by left.
  - right. by left.
  - right. right. split; [done|]. right. right. by exists r.
Qed.

(** What is no request is answered, with an id or without. *)
Lemma malformed_outcome st m now rpcID frame code :
  malformed (f_Payload frame) code ->
  exists text, HandleFrame lim allowed h st m now rpcID frame =
    reject_with m (f_SessionID frame)
      (ValidResponseID match decode_request (f_Payload frame) with
                       | Ok r => req_id r
                       | Err _ => extract_id (f_Payload frame)
                       end) (Some (mkError code text "")).
Proof.
  intros (Hl & Hm & Hc). unfold HandleFrame. apply Z.ltb_ge in Hl as ->.
  destruct (extract_meta (f_Payload frame)) as [method metaID]. cbn [fst] in Hm. apply Z.ltb_ge in Hm as ->.
  destruct (decode_request (f_Payload frame)) as [r|e]; [|subst code; by eexists].
  destruct Hc as [Hv ->]. destruct (JSONRPCRequest_Validate r); [by eexists|done].
Qed.

End Frames.

(** ** What is launched can be dispatched *)

Section Dispatch.
Context {S : Type} `{OutboundScheduler S} `{GoLib} `{AgentClient}.
Context (lim : limits) (allowed : option URL) (h : frameHandler).

Implicit Types (m : t S).

Lemma refuse_if_false e k : refuse_if false e k = k.
Proof. done. Qed.

Lemma unmarshal_nonempty {A} (dec : members -> field A) raw a : unmarshal dec raw = Ok a -> len raw <> 0.
Proof. intros Hu Hl. destruct raw; [done|]. unfold len in Hl. simpl in Hl. lia. Qed.

Lemma configure_submitted n target rpc params uuid now cmd :
  validate_params lim allowed CommandConfigure "" params = Ok uuid ->
  ValidateNATSTarget target = None -> nc_agent n = true ->
  cmd = mkConfigureCommand EnvelopeVersion rpc target uuid params now ->
  SubmitConfigure lim n None cmd = Submitted (agent_SubmitConfigure cmd).
Proof.
  unfold validate_params. rewrite String.eqb_refl. intros Hv Ht Hn ->.
  destruct (unmarshal decode_configure params) as [r|] eqn:Hu; [|done].
  destruct (ValidateAndGetUUID lim configure_fuel r) as [u|] eqn:Hg; [|done].
  pose proof (accepted_uuid_range _ _ _ _ Hu Hg) as Hr.
  destruct (Z.ltb_spec 0 u); [|lia]. injection Hv as <-. unfold SubmitConfigure. cbn [cc_Version cc_Payload cc_UUID cc_Target].
  rewrite String.eqb_refl, refuse_if_false.
  assert ((len params =? 0) = false) as -> by (by apply Z.eqb_neq; eapply unmarshal_nonempty).
  rewrite refuse_if_false, ParseInt10_pretty by done. destruct (Z.leb_spec u 0); [lia|].
  by rewrite refuse_if_false, Hu, Hg, Z.eqb_refl, refuse_if_false, Ht, Hn, refuse_if_false.
Qed.

(** The command table only has combinations the envelope matrix allows, each
    with a request structure. *)
Lemma command_table method command action changing :
  getCommandAction method = (command, action, changing) -> command <> "" ->
  ValidCommandAction command action = true /\ is_Some (request_decoder command action) /\
  (command = CommandConfigure -> action = "").
Proof.
  unfold getCommandAction. intros Hc Hne.
  repeat match type of Hc with context [if ?b then _ else _] => destruct b end;
    injection Hc as <- <- <-; try done; (split; [done|split; [by eexists|done]]).
Qed.

Lemma action_submitted n target rpc command action params uuid now cmd method changing :
  getCommandAction method = (command, action, changing) -> command <> "" -> command <> CommandConfigure ->
  validate_params lim allowed command action params = Ok uuid ->
  ValidateNATSTarget target = None -> nc_agent n = true ->
  cmd = mkActionCommand EnvelopeVersion rpc target command action params now ->
  ExecuteAction lim allowed n None cmd = Submitted (agent_SubmitAction cmd).
Proof.
  intros Hc Hne Hcfg. destruct (command_table _ _ _ _ Hc Hne) as (Hm & [dec Hdec] & _).
  unfold validate_params. apply String.eqb_neq in Hcfg as Hcfg'. rewrite Hcfg'. intros Hv Ht Hn ->.
  destruct (ValidateCommandPayload lim allowed command action params) eqn:Hp; [done|].
  unfold ExecuteAction. cbn [ac_Version ac_Payload ac_CommandType ac_Action ac_Target].
  assert ((len params =? 0) = false) as ->.
  { unfold ValidateCommandPayload in Hp. rewrite Hdec in Hp. apply check_None in Hp as [Hp _].
    by apply orb_false_iff in Hp as [? _]. }
  by rewrite refuse_if_false, String.eqb_refl, refuse_if_false, Hm, refuse_if_false, Hp, Ht, Hn, refuse_if_false.
Qed.

(** C25: No request that the handler admits is refused by the NATS client for
    its content: with a client, a live dispatch context and a valid target, the
    command goes to the agent with the payload as it was received, and for
    [configure] with the version found in it. *)
Theorem launched_command_is_submitted st m now rpcID frame l env n :
  authorized lim allowed h st m now rpcID frame (HandleFrame lim allowed h st m now rpcID frame) l ->
  ValidateNATSTarget (h_target h) = None -> nc_agent n = true -> e_ctx env = None ->
  dispatch lim allowed h env n l =
    if l_command l =s CommandConfigure
    then agent_SubmitConfigure (mkConfigureCommand EnvelopeVersion (tx_RPCID (l_tx l)) (h_target h)
           (l_uuid l) (l_params l) (e_now env))
    else agent_SubmitAction (mkActionCommand EnvelopeVersion (tx_RPCID (l_tx l)) (h_target h)
           (l_command l) (l_action l) (l_params l) (e_now env)).
Proof.
  intros [_ _ (r & _ & _ & changing & Hc & Hne & Hp & Hv & _) _] Ht Hn Hctx.
  rewrite <- Hp in Hv. unfold dispatch. rewrite Hctx. destruct (command_table _ _ _ _ Hc Hne) as (_ & _ & Ha).
  destruct (l_command l =s CommandConfigure) eqn:Hcfg.
  - apply String.eqb_eq in Hcfg. rewrite Hcfg, (Ha Hcfg) in Hv.
    by erewrite configure_submitted by done.
  - apply String.eqb_neq in Hcfg. by erewrite action_submitted by done.
Qed.

End Dispatch.

(** ** The handler is made of steps of the request manager *)

Section Steps.
Context {S : Type} `{OutboundScheduler S} {St : Type} `{OperationStore St} `{GoLib} `{AgentClient}.
Context (lim : limits) (allowed : option URL) (h : frameHandler).

Implicit Types (w : world S St).

(** The manager of a world replaced, and a new identifier used or not. *)
Definition moved w (m : t S) w' : Prop :=
  mgr w' = m /\ store w' = store w /\ clock w' = clock w /\ frames w' = frames w /\
  issued w ⊆ issued w'.

Lemma push_steps w msg :
  exists w', rtc step w w' /\ moved w (scheduler_Push msg (mgr w)) w'.
Proof.
  unfold scheduler_Push, moved. destruct (scheduler (mgr w)) as [s|] eqn:Hs.
  - eexists. split; [apply rtc_once; by apply (step_push w msg s)|done].
  - by exists w.
Qed.

(** What [HandleFrame] does to the request manager is nothing, one message
    for the scheduler or one creation of a transaction: steps of the
    concurrent manager, whose invariants it therefore keeps. *)
Lemma handle_frame_steps st w rpcID frame :
  cache (mgr w) !! "" = None -> fresh_id rpcID w ->
  exists w', rtc step w w' /\
    moved w (hd_mgr (HandleFrame lim allowed h st (mgr w) (clock w) rpcID frame)) w'.
Proof.
  intros Hc Hf.
  destruct (frame_outcome lim allowed h st (mgr w) (clock w) rpcID frame Hc)
    as [[l [_ _ (r & _ & _ & changing & _ & _ & _ & _ & _ & Hcr) _]]|[(_ & msg & _ & _ & ->)|[(_ & _ & ->) _]]].
  - eexists. split; [apply rtc_once; by eapply step_create|]. unfold moved. simpl. set_solver.
  - apply push_steps.
  - by exists w.
Qed.

(** Each step of the dispatch goroutine, whatever it finds, leaves the
    request manager as it is or is one of its calls. *)
Lemma exec_step_steps w env l pc used x :
  e_now env = clock w ->
  exec_step lim allowed h env l (pc, used, mgr w) = x ->
  exists w', rtc step w w' /\ moved w x.2 w'.
Proof.
  intros Hnow <-. unfold exec_step, moved.
  assert (Hcall : forall c, exists w', rtc step w w' /\ moved w (run_call c (clock w) (mgr w)) w').
  { intros c. eexists. split; [apply rtc_once, step_call|]. done. }
  assert (Hid : exists w', rtc step w w' /\ moved w (mgr w) w') by (by exists w).
  destruct pc; simpl.
  - by destruct (used <? dispatchBufferCap h).
  - specialize (Hcall (CMarkPreparingDispatch (tx_RPCID (l_tx l)))). simpl in Hcall.
    by destruct (MarkPreparingDispatch _ _) as [m []].
  - specialize (Hcall (CMarkPendingPublish (tx_RPCID (l_tx l)))). simpl in Hcall.
    by destruct (MarkPendingPublish _ _) as [m []].
  - destruct (e_client env); [|done]. destruct (dispatch _ _ _ _ _ _); [|done].
    unfold dispatch_failure. by destruct (errors_Is _ _).
  - rewrite Hnow. exact (Hcall (CMarkInFlight (tx_RPCID (l_tx l)))).
  - unfold failTransactionWithCode. rewrite Hnow. exact (Hcall (CFail _ _)).
  - done.
Qed.

End Steps.
