(* ===== verification/HandlerAnswers.v ===== *)
(** * What the frame handler answers

    Every message the frame handler hands over itself is, for the cloud, an
    error response with the id of the frame it answers, or a response out of the
    cache, found under the key of the frame ([handler_answer]).  The three
    places where the handler decodes the id of a frame agree
    ([frame_id_request], [frame_id_meta]). *)

From S2P Require Import Prelude GoTime Scheduler Json JsonCompact JsonRoundTrip RequestKey Enums Rpc Responses Commands Envelopes DeviceResult NatsClient Transaction Cache Store Manager ManagerSteps ManagerInv ManagerSafety ManagerOps Handler HandlerSafe.
Import RequestManager.

(** ** The id of a frame *)

Definition frame_id (f : InboundFrame) : string := extract_id (f_Payload f).

Lemma resolve_id names key :
  names = request_fields \/ names = ["method"; "id"] ->
  (match resolve names key with Some n => String.eqb n "id" | None => false end)
  = (match resolve ["id"] key with Some n => String.eqb n "id" | None => false end).
Proof.
  unfold resolve, request_fields. intros [-> | ->]; cbn [existsb];
    repeat match goal with |- context [String.eqb key ?n] => destruct (String.eqb_spec key n) as [->|_]; [done|] end;
    cbn [orb]; set (k := fold_key key); unfold List.find;
    repeat match goal with |- context [String.eqb (fold_key ?n) k] =>
      let x := eval vm_compute in (fold_key n) in change (fold_key n) with x;
      destruct (String.eqb_spec x k) as [<-|_] end; done.
Qed.

Lemma assigned_id names ms :
  names = request_fields \/ names = ["method"; "id"] -> assigned names "id" ms = assigned ["id"] "id" ms.
Proof.
  intros Hn. unfold assigned. induction ms as [|m ms IH]; [done|]. cbn [omap list_omap]. rewrite IH.
  pose proof (resolve_id names m.1 Hn) as Hr.
  destruct (resolve names m.1) as [n|], (resolve ["id"] m.1) as [n'|]; [by rewrite Hr|by rewrite Hr|by rewrite <- Hr|done].
Qed.

Lemma frame_id_meta payload : (extract_meta payload).2 = extract_id payload.
Proof.
  unfold extract_meta, extract_id, fld. destruct (parse_json payload) as [v|]; [|done].
  destruct (struct_members v) as [ms|]; [|done]. cbn [snd]. by rewrite (assigned_id ["method"; "id"]) by auto.
Qed.

Lemma frame_id_request payload r : decode_request payload = Ok r -> req_id r = extract_id payload.
Proof.
  unfold decode_request, extract_id, fld. destruct (parse_json payload) as [v|]; [|done].
  destruct (struct_members v) as [ms|]; [|done]. rewrite (assigned_id request_fields) by auto.
  destruct (decode_field dec_string "" (assigned _ "jsonrpc" ms)) as [version b1].
  destruct (decode_field dec_string "" (assigned _ "method" ms)) as [method b2].
  destruct (decode_field dec_raw "" (assigned _ "params" ms)) as [params b3].
  destruct (decode_field dec_raw "" (assigned _ "id" ms)) as [id b4].
  destruct (b1 || b2); [done|]. by intros [= <-].
Qed.

(** ** What the cloud reads *)

(** The id a response to a request with the raw id [raw] may have: the same
    value, or null if the request has none, or none that is admissible. *)
Definition reported_id (raw : string) (i : jval) : Prop :=
  denotes raw = Some i \/ i = JNull /\ ValidResponseID raw = "null".

Definition error_reply (raw payload : string) : Prop :=
  exists i code message data, read_response payload = Some (i, OError code message data) /\ reported_id raw i.

Lemma reported_own raw i : denotes (if len raw =? 0 then "null" else raw) = Some i -> reported_id raw i.
Proof.
  destruct (len raw =? 0) eqn:Hl; [|by left]. apply len_zero in Hl as ->. change (denotes "null") with (Some JNull).
  intros [= <-]. by right.
Qed.

Lemma reported_valid raw i :
  denotes (if len (ValidResponseID raw) =? 0 then "null" else ValidResponseID raw) = Some i -> reported_id raw i.
Proof.
  destruct (ValidResponseID_valid raw) as [_ Hne]. destruct (len (ValidResponseID raw) =? 0) eqn:Hl; [by apply len_zero in Hl|].
  unfold ValidResponseID in *. destruct (_ && _) eqn:Hv; [by left|]. change (denotes "null") with (Some JNull).
  intros [= <-]. right. split; [done|].
  unfold ValidResponseID. by rewrite Hv.
Qed.

(** An error response that is marshalled, as it is read. *)
Lemma error_response_content e id result p :
  json_Marshal_response (mkResponse JSONRPCVersion result (Some e) id) = Some p ->
  exists i data, read_response p = Some (i, OError (err_code e) (to_valid (err_message e)) data) /\
                 denotes (if len id =? 0 then "null" else id) = Some i /\ (err_data e = "" -> data = None).
Proof.
  intros Hp. apply response_read in Hp as ([i out] & Hx & Hp); [|done]. unfold response_content in Hx. cbn in Hx.
  destruct (denotes _) as [i'|] eqn:Hd; [|done]. cbn in Hx.
  destruct (error_content e) as [o|] eqn:He; [|done]. cbn in Hx. injection Hx as -> ->.
  unfold error_content in He. cbv zeta in He. exists i. destruct (len (err_data e) =? 0) eqn:Hl; [injection He as <-; eauto|].
  destruct (denotes (err_data e)); [|done]. cbn in He. injection He as <-. eexists. split_and!; [done..|].
  intros Hn. by rewrite Hn in Hl.
Qed.

Lemma error_response_read e id raw result p :
  (forall i, denotes (if len id =? 0 then "null" else id) = Some i -> reported_id raw i) ->
  json_Marshal_response (mkResponse JSONRPCVersion result (Some e) id) = Some p -> error_reply raw p.
Proof.
  intros Hid Hp. apply error_response_content in Hp as (i & data & Hp & Hd & _).
  exists i, (err_code e), (to_valid (err_message e)), data. split; [done|]. by apply Hid.
Qed.

Lemma result_response_read obj id p :
  json_Marshal_response (mkResponse JSONRPCVersion obj None id) = Some p ->
  exists i v, read_response p = Some (i, OResult v) /\ reported_id id i /\
              denotes (if len obj =? 0 then default_result else obj) = Some v.
Proof.
  intros Hp. apply response_read in Hp as ([i out] & Hx & Hp); [|done]. unfold response_content in Hx. cbn in Hx.
  destruct (denotes (if len id =? 0 then _ else _)) as [i'|] eqn:Hd; [|done]. cbn in Hx.
  destruct (denotes (if len obj =? 0 then _ else _)) as [v|] eqn:Hv; [|done]. injection Hx as -> <-.
  exists i, v. split_and!; [done|by apply reported_own|done].
Qed.

(** ** The answers of the handler *)

Section Answers.
Context {S : Type} `{OutboundScheduler S} `{GoLib}.
Context (lim : limits) (allowed : option URL) (h : frameHandler).

Implicit Types (m : t S).

(** An error answer with the id of the frame, or a cached response. *)
Definition proper_answer m (now : Z) (f : InboundFrame) (o : handled S) : Prop :=
  forall msg, hd_pushed o = Some msg ->
    error_reply (frame_id f) (Payload msg) \/
    exists k, CanonicalRequestKey (f_SessionID f) (frame_id f) = Ok k /\
              TransactionCache.Get (cache m) now k = Some (Payload msg).

Lemma reject_answer m0 m now f session id e :
  (forall i, denotes (if len id =? 0 then "null" else id) = Some i -> reported_id (frame_id f) i) ->
  proper_answer m0 now f (reject_with m session id (Some e)).
Proof.
  intros Hid msg. unfold reject_with, push_and_return, response_message. cbn [hd_pushed mbind option_bind].
  destruct (json_Marshal_response (mkResponse _ _ _ _)) as [p|] eqn:Hp; [|done].
  intros [= <-]. left. by eapply error_response_read.
Qed.

Lemma reject_request_answer m0 m now f isN session e :
  is_Some e ->
  proper_answer m0 now f (reject_request m isN session (frame_id f) e).
Proof. intros [x ->]. destruct isN; [by intros ?|]. apply reject_answer, reported_own. Qed.

Lemma handle_valid_answer st m now rpcID f r :
  decode_request (f_Payload f) = Ok r -> proper_answer m now f (handle_valid lim allowed h st m now rpcID f r).
Proof.
  intros Hdec. pose proof (frame_id_request _ _ Hdec) as Hid. fold (frame_id f) in Hid. unfold handle_valid. rewrite Hid.
  destruct (getCommandAction (req_method r)) as [[command action] changing].
  destruct (command =s ""); [by apply reject_request_answer|].
  destruct (validate_params _ _ _ _ _); [|by apply reject_request_answer].
  destruct (is_notification (frame_id f) && _); [by intros ?|].
  destruct (GetSystemState st =s _); [by apply reject_request_answer|].
  destruct (CreateTransaction _ _ _ _ _ _ _ _ _) as [m' [tx|e]] eqn:Hc; [by intros ?|].
  unfold admission_failed. destruct (errors_As_cached e) as [p|] eqn:He.
  - intros msg [= <-]. right. cbn. revert Hc He. unfold CreateTransaction, acquire.
    destruct (_ && _); [by intros [= _ <-]|]. destruct (_ && _); [by intros [= _ <-]|].
    destruct (CanonicalRequestKey _ _) as [k|e'] eqn:Hk.
    2:{ intros [= _ <-]. unfold CanonicalRequestKey, classify in Hk. repeat case_match; by simplify_eq. }
    destruct (TransactionCache.Get _ _ _) as [q|] eqn:Hg; [|by repeat case_match; intros; simplify_eq/=].
    intros [= _ <-] [= <-]. by exists k.
  - destruct (_ || _); [by apply reject_request_answer|].
    destruct (internal_error_ok ErrAppFailure ("Transaction creation failed: " +:+ error_msg e)) as (x & -> & _); [by left|].
    by apply reject_request_answer.
Qed.

Lemma handler_answer st m now rpcID f : proper_answer m now f (HandleFrame lim allowed h st m now rpcID f).
Proof.
  unfold HandleFrame. destruct (_ <? _); [by intros ?|].
  destruct (extract_meta (f_Payload f)) as [method metaID] eqn:Hm.
  assert (metaID = frame_id f) as -> by (unfold frame_id; by rewrite <- frame_id_meta, Hm).
  destruct (_ <? _).
  { match goal with |- context [internal_error ?c ?msg] =>
      destruct (internal_error_ok c msg) as (e & -> & _); [do 3 right; by left|] end.
    by apply reject_request_answer. }
  destruct (decode_request (f_Payload f)) as [r|e] eqn:Hd; [|apply reject_answer, reported_valid].
  destruct (JSONRPCRequest_Validate r); [|by apply handle_valid_answer].
  rewrite (frame_id_request _ _ Hd). apply reject_answer, reported_valid.
Qed.

(** A frame that is no request is answered with an error of this code, under
    the id it has, or null where that is none an answer may have. *)
Definition rejected_as (o : handled S) (f : InboundFrame) (code : Z) : Prop :=
  exists msg i text, hd_pushed o = Some msg /\ addressed (f_SessionID f) msg /\
    read_response (Payload msg) = Some (i, OError code text None) /\
    denotes (ValidResponseID (frame_id f)) = Some i.

Lemma malformed_rejected st m now rpcID f code :
  malformed h (f_Payload f) code -> rejected_as (HandleFrame lim allowed h st m now rpcID f) f code.
Proof.
  intros Hm. destruct (malformed_outcome lim allowed h st m now rpcID f code Hm) as [text ->].
  assert (match decode_request (f_Payload f) with Ok r => req_id r | Err _ => extract_id (f_Payload f) end = frame_id f) as ->.
  { destruct (decode_request (f_Payload f)) eqn:Hd; [by apply frame_id_request|done]. }
  destruct (error_message_ok (f_SessionID f) (ValidResponseID (frame_id f)) (mkError code text ""))
    as (p & Hmsg & Hp); [by left|by apply response_id_ok, extract_id_ok|].
  apply error_response_content in Hp as (i & data & Hread & Hi & Hdata). rewrite (Hdata eq_refl) in Hread. unfold reject_with, push_and_return. rewrite Hmsg.
  destruct (ValidResponseID_valid (frame_id f)) as [_ Hne].
  destruct (len (ValidResponseID (frame_id f)) =? 0) eqn:Hl; [by apply len_zero in Hl|].
  eexists _, i, _. split_and!; [done|done| |done]. exact Hread.
Qed.

Context {St : Type} `{OperationStore St}.

(** C10: Every frame is dealt with in exactly one way: its request is admitted as a
    transaction and executed, having passed every check; or its sender gets
    exactly one message, addressed to its session at the highest priority, and
    nothing else changes; or nothing changes at all, and that only for a
    notification, which is a well-formed request without an id, for a frame
    above the absolute size limit, and for one above the limit of its method in
    which no id was found.  The message is a JSON-RPC error with the id of the
    frame, null where the frame has none that an answer may have, or the
    response cached under the key of the frame's request.  A frame within the
    limits that is no request at all is always answered, with the code of a
    parse error or of an invalid request, and with the id null unless it has an
    admissible one.  To the concurrent request manager a frame is therefore
    nothing, one message for the scheduler, or one creation of a transaction. *)
Theorem frame_answered st (w : world S St) rpcID frame :
  cache (mgr w) !! "" = None -> fresh_id rpcID w ->
  let o := HandleFrame lim allowed h st (mgr w) (clock w) rpcID frame in
  ((exists l, authorized lim allowed h st (mgr w) (clock w) rpcID frame o l) \/
   only_answered (mgr w) (f_SessionID frame) o \/
   (untouched (mgr w) o /\ unanswerable h (f_Payload frame))) /\
  (forall code, malformed h (f_Payload frame) code -> rejected_as o frame code) /\
  proper_answer (mgr w) (clock w) frame o /\
  exists w', rtc step w w' /\ moved w (hd_mgr o) w'.
Proof.
  intros Hc Hf. split; [by apply frame_outcome|]. split; [intros code; apply malformed_rejected|].
  split; [apply handler_answer|by apply handle_frame_steps].
Qed.

End Answers.
