(* ===== verification/HandlerLive.v ===== *)
(** * The dispatch goroutine

    [executeTransaction] runs beside every other use of the request manager
    and of the dispatch buffer.  It ends, and gives back the slot it took
    ([dispatch_returns_slot]); when it has ended, its request is gone, in
    flight, or in a handoff with the reply waiting, so that it will be answered
    without further help ([dispatch_never_strands]). *)

From S2P Require Import Prelude GoTime Scheduler Json Enums Rpc Commands Envelopes NatsClient RequestKey Transaction Cache Store Manager Handler ManagerSteps ManagerInv ManagerSafety ManagerProgress HandlerSafe.
Import RequestManager.

Section Live.
Context {S : Type} `{OutboundScheduler S} {St : Type} `{OperationStore St} `{GoLib} `{AgentClient}.
Context (lim : limits) (allowed : option URL) (h : frameHandler).

Implicit Types (w : world S St) (l : launch).

(** ** Termination *)

Definition steps_left (pc : exec_pc) : nat :=
  match pc with
  | XAcquire => 5 | XPrepare => 4 | XPending => 3 | XDispatch => 2
  | XInFlight | XFail _ _ _ => 1 | XDone => 0
  end.

(** The slots of the dispatch buffer the goroutine holds. *)
Definition slots (pc : exec_pc) : Z :=
  match pc with
  | XPrepare | XPending | XDispatch | XInFlight | XFail true _ _ => 1
  | XAcquire | XFail false _ _ | XDone => 0
  end.

Lemma exec_step_slots env l pc used (m : t S) pc' used' m' :
  exec_step lim allowed h env l (pc, used, m) = (pc', used', m') ->
  (steps_left pc' <= steps_left pc - 1)%nat /\ used' - used = slots pc' - slots pc.
Proof.
  destruct pc; simpl.
  - destruct (used <? dispatchBufferCap h); intros [= <- <- _]; simpl; lia.
  - destruct (MarkPreparingDispatch m _) as [m1 [e|]]; intros [= <- <- _]; simpl; lia.
  - destruct (MarkPendingPublish m _) as [m1 [e|]]; intros [= <- <- _]; simpl; lia.
  - destruct (e_client env) as [n|]; [|intros [= <- <- _]; simpl; lia].
    destruct (dispatch lim allowed h env n l) as [e|]; [|intros [= <- <- _]; simpl; lia].
    unfold dispatch_failure. destruct (errors_Is e context_DeadlineExceeded); intros [= <- <- _]; simpl; lia.
  - intros [= <- <- _]. simpl. lia.
  - intros [= <- <- _]. destruct held; simpl; lia.
  - intros [= <- <- _]. simpl. lia.
Qed.

(** The goroutine alone, each of its steps from whatever the others have made
    of the buffer and the manager: where it ends and what it has added to the
    used slots. *)
Fixpoint interleaved l (found : list (exec_env * Z * t S)) (pc : exec_pc) : exec_pc * Z :=
  match found with
  | [] => (pc, 0)
  | (env, used, m) :: found =>
      let '(pc', used', _) := exec_step lim allowed h env l (pc, used, m) in
      let '(last, delta) := interleaved l found pc' in
      (last, used' - used + delta)
  end.

Lemma interleaved_spec l found pc :
  (steps_left pc <= length found)%nat -> interleaved l found pc = (XDone, - slots pc).
Proof.
  revert pc. induction found as [|[[env used] m] found IH]; intros pc Hl; simpl in Hl.
  - destruct pc; simpl in Hl; try lia. done.
  - cbn [interleaved]. destruct (exec_step lim allowed h env l (pc, used, m)) as [[pc' used'] m'] eqn:E.
    destruct (exec_step_slots _ _ _ _ _ _ _ _ E) as [Hs Hd].
    rewrite IH; [f_equal; lia|lia].
Qed.

(** C31: The goroutine ends after at most five of its steps whatever the other
    goroutines do between them, and gives back exactly the slot of the
    dispatch buffer it took, if it took one. *)
Theorem dispatch_returns_slot l found :
  (5 <= length found)%nat -> interleaved l found XAcquire = (XDone, 0).
Proof. intros Hl. by rewrite interleaved_spec. Qed.

(** ** No request is left behind *)

(** The goroutine beside the others: its own step, or a step of the manager
    with any use of the buffer. *)
Inductive xstep l : exec_pc * Z * world S St -> exec_pc * Z * world S St -> Prop :=
| xstep_own env pc used w pc' used' m' :
    e_now env = clock w -> exec_step lim allowed h env l (pc, used, mgr w) = (pc', used', m') ->
    xstep l (pc, used, w) (pc', used', set_mgr m' w)
| xstep_other pc used used' w w' :
    step w w' -> xstep l (pc, used, w) (pc, used', w').

Definition staged (pc : exec_pc) (i : string) (m : t S) : Prop :=
  match pc with
  | XAcquire | XPrepare | XFail _ _ _ => True
  | XPending => forall tx, transactionsByRPCID m !! i = Some tx -> (rank tx <= 3)%nat
  | XDispatch | XInFlight => forall tx, transactionsByRPCID m !! i = Some tx -> (rank tx <= 2)%nat
  | XDone => settled i m
  end.

Lemma staged_progress pc i m m' : progress i m m' -> staged pc i m -> staged pc i m'.
Proof.
  intros Hp. assert (Hr : forall k, (forall tx, transactionsByRPCID m !! i = Some tx -> (rank tx <= k)%nat) ->
    forall tx, transactionsByRPCID m' !! i = Some tx -> (rank tx <= k)%nat).
  { intros k Hk tx' Ht'. destruct (Hp tx' Ht') as (tx & Htx & Hle & _). specialize (Hk tx Htx). lia. }
  destruct pc; simpl; auto. by apply settled_progress.
Qed.

Lemma mark_rank to (m m' : t S) id e tx :
  mark to m id = (m', e) -> e = None -> transactionsByRPCID m' !! id = Some tx -> rank tx = remaining_steps to.
Proof.
  unfold mark. destruct (transactionsByRPCID m !! id) as [tx0|] eqn:Htx; [|by intros [= <- <-]].
  destruct (validateTransition _ _); [by intros [= <- <-]|]. intros [= <- <-] _.
  unfold update_tx. rewrite Htx. simpl. rewrite lookup_insert_eq. by intros [= <-].
Qed.

(** [Fail] settles every live request. *)
Lemma Fail_settled (m : t S) now id r uu fr : inv None m uu fr -> settled id (Fail m now id r).1.
Proof.
  intros I. unfold Fail. destruct (transactionsByRPCID m !! id) as [tx|] eqn:Htx; [|intros tx; simpl; congruence].
  pose proof (tx_live _ _ _ _ (inv_tx _ _ _ _ I _ _ Htx)) as Hlive.
  assert (Hgone : forall (m1 : t S) tx1 final p, transactionsByRPCID m1 !! id = Some tx1 ->
    terminal final = true -> validateTransition (tx_State tx1) final = None ->
    settled id (terminalTransition m1 now id final p).1).
  { intros m1 tx1 final p Hm1 Hf Hv tx2. rewrite (terminal_gone m1 now id final p tx1) by done. done. }
  unfold finish_with. destruct (tx_HandoffInProgress tx) eqn:Hh.
  - unfold buffer_reply. destruct (pendingReplies m !! id) eqn:Hp; simpl; intros tx1; simpl; rewrite Htx;
      intros [= <-]; right; (split; [done|]); simpl; [by rewrite Hp|rewrite lookup_insert_eq; by eexists].
  - destruct (pendingReplies m !! id) as [p|] eqn:Hp.
    + unfold recoverToInFlight. destruct (validateTransition (tx_State tx) TxInFlight) eqn:Hv.
      * apply (Hgone _ tx); [exact Htx|done|]. by destruct (tx_State tx).
      * pose proof (inv_settled _ _ _ _ I _ _ Htx ltac:(done)) as [A _ _].
        destruct (A p Hp) as (Hfit & _). apply (Hgone _ (set_State TxInFlight tx)).
        -- unfold update_tx. simpl. rewrite Htx. simpl. apply lookup_insert_eq.
        -- apply Hfit.
        -- destruct Hfit as [Hterm _]. by destruct (pr_State p).
    + apply (Hgone _ tx); [exact Htx|done|]. by destruct (tx_State tx).
Qed.

Lemma MarkInFlight_settled (m : t S) now id uu fr :
  inv None m uu fr -> (forall tx, transactionsByRPCID m !! id = Some tx -> (rank tx <= 2)%nat) ->
  settled id (MarkInFlight m now id).1.
Proof.
  intros I Hr. destruct (transactionsByRPCID m !! id) as [tx|] eqn:Htx.
  2:{ unfold MarkInFlight. rewrite Htx. intros tx. simpl. congruence. }
  pose proof (tx_live _ _ _ _ (inv_tx _ _ _ _ I _ _ Htx)) as Hlive. specialize (Hr tx eq_refl).
  destruct (validateTransition (tx_State tx) TxInFlight) eqn:Hv.
  - unfold MarkInFlight. rewrite Htx, Hv. intros tx1. simpl. rewrite Htx. intros [= <-]. left.
    unfold rank in *. destruct (tx_State tx); simpl in *; try done; lia.
  - apply (settled_progress id (update_tx id (set_State TxInFlight) m)).
    + unfold MarkInFlight. rewrite Htx, Hv. set (m1 := update_tx id (set_State TxInFlight) m).
      destruct (pendingReplies m1 !! id) as [p|].
      * eapply progress_trans; [|apply terminal_progress]. apply progress_take. intros tx0 Ht0. right.
        unfold m1 in Ht0. eapply update_low, Ht0. done.
      * destruct (Stop_is (tx_DispatchTimer tx) m1) as [tms ->]. unfold AfterFunc. cbv beta iota zeta. cbn [fst].
        eapply progress_trans; [|apply progress_update; intros tx0 _; split; [done|by intros [? _]; left]].
        by apply progress_same.
    + intros tx0 Ht0. left. eapply update_low, Ht0. done.
Qed.

(** A step of the goroutine keeps the manager's invariant and reaches the next
    stage. *)
Lemma own_step w env l pc used pc' used' m' :
  winv w -> e_now env = clock w ->
  exec_step lim allowed h env l (pc, used, mgr w) = (pc', used', m') ->
  staged pc (tx_RPCID (l_tx l)) (mgr w) ->
  winv (set_mgr m' w) /\ staged pc' (tx_RPCID (l_tx l)) m'.
Proof.
  intros [Hz I] Hnow E Hst.
  assert (Hcall : forall c, winv (set_mgr (run_call c (clock w) (mgr w)) w))
    by (intros c; split; [done|]; by apply run_call_inv).
  assert (Hid : winv (set_mgr (mgr w) w)) by by split.
  destruct pc; simpl in E, Hst.
  - destruct (used <? dispatchBufferCap h); injection E as <- <- <-; by split.
  - specialize (Hcall (CMarkPreparingDispatch (tx_RPCID (l_tx l)))). simpl in Hcall.
    destruct (MarkPreparingDispatch (mgr w) _) as [m1 [e|]] eqn:Em; injection E as <- <- <-; split; try done.
    intros tx Htx. by rewrite (mark_rank _ _ _ _ _ tx Em eq_refl Htx).
  - specialize (Hcall (CMarkPendingPublish (tx_RPCID (l_tx l)))). simpl in Hcall.
    destruct (MarkPendingPublish (mgr w) _) as [m1 [e|]] eqn:Em; injection E as <- <- <-; split; try done.
    intros tx Htx. by rewrite (mark_rank _ _ _ _ _ tx Em eq_refl Htx).
  - destruct (e_client env) as [n|]; [|injection E as <- <- <-; by split].
    destruct (dispatch lim allowed h env n l) as [e|]; [|injection E as <- <- <-; by split].
    unfold dispatch_failure in E. destruct (errors_Is e context_DeadlineExceeded); injection E as <- <- <-; by split.
  - rewrite Hnow in E. injection E as <- <- <-. split; [exact (Hcall (CMarkInFlight _))|].
    by eapply MarkInFlight_settled.
  - unfold failTransactionWithCode in E. rewrite Hnow in E. injection E as <- <- <-.
    split; [exact (Hcall (CFail _ _))|]. by eapply Fail_settled.
  - injection E as <- <- <-. by split.
Qed.

Lemma xsteps_staged l x x' :
  rtc (xstep l) x x' ->
  winv x.2 -> tx_RPCID (l_tx l) ∈ issued x.2 -> staged x.1.1 (tx_RPCID (l_tx l)) (mgr x.2) ->
  winv x'.2 /\ staged x'.1.1 (tx_RPCID (l_tx l)) (mgr x'.2).
Proof.
  induction 1 as [x|x y z Hxy _ IH]; intros Hw Hi Hst; [done|].
  destruct Hxy as [env pc used w pc' used' m' Hnow E|pc used used' w w' Hs]; simpl in *.
  - destruct (own_step _ _ _ _ _ _ _ _ Hw Hnow E Hst) as [Hw' Hst']. by apply IH.
  - apply IH.
    + by eapply step_inv.
    + by eapply step_issued.
    + eapply staged_progress; [|done]. by eapply step_progress.
Qed.

(** An admitted request is never left behind.  Once the goroutine that
    dispatches it has ended, whatever ran between its steps and whatever runs
    afterwards, the request has been answered and removed, or it is in flight,
    with its response timer running, or it is in a handoff with its reply
    waiting. *)
Theorem dispatch_never_strands l used w used' w' :
  reachable w -> tx_RPCID (l_tx l) ∈ issued w ->
  rtc (xstep l) (XAcquire, used, w) (XDone, used', w') ->
  forall tx, live w' (tx_RPCID (l_tx l)) tx ->
  (tx_State tx = TxInFlight /\
   (tx_HandoffInProgress tx = false ->
    exists i tm, tx_ResponseTimer tx = Some i /\ timers (mgr w') !! i = Some tm /\
      (tm_status tm = TimerArmed /\ tm_deadline tm <= tx_ResponseDeadline tx \/ tm_status tm = TimerFired))) \/
  (tx_HandoffInProgress tx = true /\
   (exists f, f ∈ frames w' /\ frame_rpc f = Some (tx_RPCID (l_tx l))) /\
   exists p, pendingReplies (mgr w') !! tx_RPCID (l_tx l) = Some p /\
     validateTransition (tx_State tx) (pr_State p) = None).
Proof.
  intros Hw%reachable_inv Hi Hx tx Htx.
  destruct (xsteps_staged l _ _ Hx Hw Hi I) as [[_ Hinv] Hs]. simpl in Hinv, Hs.
  pose proof (inv_settled _ _ _ _ Hinv _ _ Htx ltac:(done)) as [A B C].
  destruct (Hs tx Htx) as [Hr|[Hh [p Hp]]].
  - left. assert (Hfl : tx_State tx = TxInFlight) by (apply rank_inflight; [by apply (inv_tx _ _ _ _ Hinv _ _ Htx)|done]).
    split; [done|]. intros Hh. destruct (B Hfl Hh) as (i & tm & ? & ? & ?). by exists i, tm.
  - right. destruct (C Hh) as [Hd Hf]. split_and!; [done|done|]. exists p. split; [done|].
    apply reply_legal; [done|]. by destruct (A p Hp).
Qed.

End Live.
