(* ===== verification/ManagerPush.v ===== *)
(** * What the manager hands to the scheduler

    [pushes m m']: between the two states the scheduler has been handed exactly
    the messages that the log [pushed] has gained, in their order, and nothing
    else has happened to it; each of them is addressed to the session of the
    request it answers, and no request has changed its identity.  It holds of
    every call, so a component that shares the scheduler can follow it through
    the log, and of every execution of the concurrent manager it follows that
    the log holds answers only ([reachable_answers]). *)

From S2P Require Import Prelude GoTime Scheduler Json Rpc RequestKey Transaction Cache Store Manager ManagerSteps ManagerInv ManagerSafety.
Import RequestManager.

Section Push.
Context {S : Type} `{OutboundScheduler S} {St : Type} `{OperationStore St}.

Implicit Types (w : world S St) (m : t S) (tx : Transaction).

(** The scheduler after a message, whether it took it or not. *)
Definition push_one (s : option S) (msg : OutboundMessage) : option S :=
  option_map (fun s => (os_Push s msg).1) s.

(** What a transaction was created with, which nothing changes. *)
Definition tx_request tx : string * string * string * string * bool * string :=
  (tx_RPCID tx, tx_CloudSessionID tx, tx_CloudRPCID tx, tx_RequestKey tx, tx_RespondToCloud tx, tx_Method tx).

Definition same_requests m m' : Prop :=
  forall id, tx_request <$> deref id m' = tx_request <$> deref id m.

(** The message answers the request: it goes to the session the request came
    from, at the highest priority, and the request asked for an answer. *)
Definition answers_tx tx (msg : OutboundMessage) : Prop :=
  SessionID msg = tx_CloudSessionID tx /\ Priority msg = PriorityHighest /\ tx_RespondToCloud tx = true.

Definition answers m (e : string * OutboundMessage) : Prop :=
  exists tx, deref e.1 m = Some tx /\ answers_tx tx e.2.

Definition pushes m m' : Prop :=
  same_requests m m' /\
  exists log, pushed m' = pushed m ++ log /\ scheduler m' = foldl push_one (scheduler m) (snd <$> log) /\
    Forall (answers m') log.

Lemma requests_same m m' :
  transactionsByRPCID m' = transactionsByRPCID m -> detached m' = detached m -> same_requests m m'.
Proof. intros Ht Hd id. unfold deref. by rewrite Ht, Hd. Qed.

(** What was known of a request is still known. *)
Definition keeps_requests m m' : Prop :=
  forall id tx, deref id m = Some tx -> tx_request <$> deref id m' = Some (tx_request tx).

Lemma same_keeps m m' : same_requests m m' -> keeps_requests m m'.
Proof. intros Hs id tx Htx. by rewrite Hs, Htx. Qed.

Lemma keeps_answers m m' log : keeps_requests m m' -> Forall (answers m) log -> Forall (answers m') log.
Proof.
  intros Hk HF. eapply Forall_impl; [exact HF|]. intros [id msg] (tx & Htx & Hm). specialize (Hk id tx Htx).
  destruct (deref id m') as [tx'|] eqn:H'; [|done]. apply (inj Some) in Hk. exists tx'.
  split; [done|]. destruct Hm as (Hs & Hp & Hr). unfold tx_request in Hk. cbn in *.
  split_and!; [rewrite Hs|exact Hp|rewrite <- Hr]; congruence.
Qed.

Lemma pushes_same m m' :
  transactionsByRPCID m' = transactionsByRPCID m -> detached m' = detached m ->
  pushed m' = pushed m -> scheduler m' = scheduler m -> pushes m m'.
Proof. intros Ht Hd Hp Hs. split; [by apply requests_same|]. exists []. by rewrite app_nil_r. Qed.

Lemma pushes_trans m1 m2 m3 : pushes m1 m2 -> pushes m2 m3 -> pushes m1 m3.
Proof.
  intros (K1 & l1 & P1 & S1 & A1) (K2 & l2 & P2 & S2 & A2). split; [intros id; by rewrite K2|].
  exists (l1 ++ l2). rewrite P2, P1, app_assoc, S2, S1, fmap_app, foldl_app.
  split_and!; [done..|]. apply Forall_app. split; [|done].
  by eapply keeps_answers; [apply same_keeps|].
Qed.

#[global] Instance pushes_preorder : PreOrder pushes.
Proof. split; [intros m; by apply pushes_same|exact pushes_trans]. Qed.

Lemma push_response_log id tx payload m :
  exists log, pushed (push_response id tx payload m) = pushed m ++ log /\
    scheduler (push_response id tx payload m) = foldl push_one (scheduler m) (snd <$> log) /\
    Forall (fun e => e.1 = id /\ answers_tx tx e.2) log.
Proof.
  unfold push_response. destruct (_ && _) eqn:Hr; [|exists []; by rewrite app_nil_r].
  apply andb_true_iff in Hr as [Hr _].
  destruct (scheduler m) as [s|] eqn:Hs; [|exists []; by rewrite app_nil_r, Hs].
  eexists. split; [reflexivity|]. split; [by cbn; rewrite ?Hs|]. by repeat constructor.
Qed.

Lemma update_tx_pushes id f m :
  (forall tx, tx_request (f tx) = tx_request tx) -> pushes m (update_tx id f m).
Proof.
  intros Hf. split.
  2:{ exists []. rewrite app_nil_r. unfold update_tx. by destruct (transactionsByRPCID m !! id). }
  intros i. unfold update_tx, deref. destruct (transactionsByRPCID m !! id) as [tx0|] eqn:Ht0; cbn.
  - destruct (decide (i = id)) as [->|Hn]; [|by rewrite lookup_insert_ne].
    rewrite Ht0, lookup_insert_eq. cbn. by rewrite Hf.
  - destruct (transactionsByRPCID m !! i); [done|].
    destruct (decide (i = id)) as [->|Hn]; [|by rewrite lookup_alter_ne].
    rewrite lookup_alter_eq. destruct (detached m !! id); cbn; by rewrite ?Hf.
Qed.

Lemma Stop_pushes h m : pushes m (Stop h m).
Proof. destruct (Stop_is h m) as [tms ->]. by apply pushes_same. Qed.

(** The transaction leaves the map, the others stay. *)
Lemma terminal_detached id tx m now final payload :
  transactionsByRPCID m !! id = Some tx -> terminal final = true ->
  validateTransition (tx_State tx) final = None ->
  detached (terminalTransition m now id final payload).1
  = <[id := clear_timers (set_Payload payload (set_State final tx))]> (detached m).
Proof.
  intros Htx Hf Hv. unfold terminalTransition. rewrite Hf, Htx, Hv. cbn [negb fst].
  set (tx1 := set_Payload payload (set_State final tx)).
  destruct (push_response_rest id (clear_timers tx1) payload
              (release_if_owner id (drop_tx id (clear_timers tx1)
                 (Stop (tx_ResponseTimer tx1) (Stop (tx_DispatchTimer tx1) (store_response now tx1 payload m))))))
    as (_ & _ & _ & _ & _ & -> & _).
  destruct (drop_release_rest id (clear_timers tx1)
              (Stop (tx_ResponseTimer tx1) (Stop (tx_DispatchTimer tx1) (store_response now tx1 payload m))))
    as (_ & _ & _ & _ & _ & _ & _ & -> & _).
  destruct (Stop_is (tx_DispatchTimer tx1) (store_response now tx1 payload m)) as [t1 ->].
  destruct (Stop_is (tx_ResponseTimer tx1) (set_timers t1 (store_response now tx1 payload m))) as [t2 ->].
  by destruct (store_response_rest now tx1 payload m) as (_ & _ & _ & _ & _ & _ & _ & <-).
Qed.

Lemma terminal_pushes m now id final payload : pushes m (terminalTransition m now id final payload).1.
Proof.
  destruct (terminal final) eqn:Hf; [|unfold terminalTransition; by rewrite Hf].
  destruct (transactionsByRPCID m !! id) as [tx|] eqn:Htx; [|by rewrite terminal_missing].
  destruct (validateTransition (tx_State tx) final) eqn:Hv;
    [unfold terminalTransition; by rewrite Hf, Htx, Hv|].
  destruct (terminal_spec id tx m now final payload Htx Hf Hv) as (Ht & _ & _ & _ & Hp & Hs & _).
  pose proof (terminal_detached id tx m now final payload Htx Hf Hv) as Hd.
  destruct (push_response_log id tx payload m) as (log & Hp' & Hs' & Ha). split.
  - intros i. unfold deref. rewrite Ht, Hd. destruct (decide (i = id)) as [->|Hn].
    + by rewrite lookup_delete_eq, lookup_insert_eq, Htx.
    + by rewrite lookup_delete_ne, lookup_insert_ne.
  - exists log. rewrite Hp, Hs. split_and!; [done..|]. eapply Forall_impl; [exact Ha|].
    intros [i msg] [Hi Hm]. cbn in *. subst i.
    exists (clear_timers (set_Payload payload (set_State final tx))). split; [|exact Hm].
    unfold deref. by rewrite Ht, Hd, lookup_delete_eq, lookup_insert_eq.
Qed.

(** A terminal transition after changes that touch neither. *)
Lemma terminal_pushes_after m m0 now id final payload :
  pushes m m0 -> pushes m (terminalTransition m0 now id final payload).1.
Proof. intros Hm. etrans; [exact Hm|apply terminal_pushes]. Qed.

Lemma buffer_pushes m id r : pushes m (buffer_reply m id r).1.
Proof. unfold buffer_reply. destruct (pendingReplies m !! id); by apply pushes_same. Qed.

Lemma finish_pushes final m now id tx payload : pushes m (finish_with final m now id tx payload).1.
Proof.
  unfold finish_with, recoverToInFlight.
  destruct (tx_HandoffInProgress tx); [apply buffer_pushes|].
  destruct (pendingReplies m !! id); [|apply terminal_pushes].
  destruct (validateTransition _ _); cbn [fst]; apply terminal_pushes_after.
  - by apply pushes_same.
  - etrans; [|by apply update_tx_pushes]. by apply pushes_same.
Qed.

Lemma Complete_pushes m now id r : pushes m (Complete m now id r).1.
Proof.
  unfold Complete. destruct (transactionsByRPCID m !! id); [|done].
  destruct (_ || _); [apply buffer_pushes|apply terminal_pushes].
Qed.

Lemma MarkInFlight_pushes m now id : pushes m (MarkInFlight m now id).1.
Proof.
  unfold MarkInFlight. destruct (transactionsByRPCID m !! id) as [tx|]; [|done].
  destruct (validateTransition _ _); [done|]. set (m1 := update_tx id _ m).
  assert (pushes m m1) as H1 by (by apply update_tx_pushes).
  destruct (pendingReplies m1 !! id).
  - apply terminal_pushes_after. etrans; [exact H1|by apply pushes_same].
  - cbn [AfterFunc fst]. etrans; [exact H1|]. etrans; [|by apply update_tx_pushes].
    destruct (Stop_is (tx_DispatchTimer tx) m1) as [tms ->]. by apply pushes_same.
Qed.

Lemma run_call_pushes c now m : pushes m (run_call c now m).
Proof.
  destruct c as [id|id|id|id r|id r|id]; simpl.
  1-2: unfold MarkPreparingDispatch, MarkPendingPublish, mark;
    destruct (transactionsByRPCID m !! id); [|done]; destruct (validateTransition _ _);
    [done|by apply update_tx_pushes].
  - apply MarkInFlight_pushes.
  - apply Complete_pushes.
  - unfold Fail. destruct (transactionsByRPCID m !! id); [apply finish_pushes|done].
  - unfold dispatchTimeoutFail, recoverToInFlight.
    destruct (transactionsByRPCID m !! id) as [tx|]; [|done]. destruct (preflight _); [|done].
    destruct (pendingReplies m !! id); [|apply terminal_pushes].
    destruct (validateTransition _ _); apply terminal_pushes_after; [by apply pushes_same|].
    etrans; [|by apply update_tx_pushes]. by apply pushes_same.
Qed.

Lemma Timeout_pushes m now id : pushes m (Timeout_ m now id).1.
Proof. unfold Timeout_. destruct (transactionsByRPCID m !! id); [apply finish_pushes|done]. Qed.

(** A creation hands over nothing, and no other request notices. *)
Lemma CreateTransaction_quiet m now rpcID sessionID cloudRPCID respond method timeout changing m' r :
  CreateTransaction m now rpcID sessionID cloudRPCID respond method timeout changing = (m', r) ->
  pushed m' = pushed m /\ scheduler m' = scheduler m /\
  (forall i, i <> rpcID -> deref i m' = deref i m) /\
  match r with
  | Ok tx => tx_RPCID tx = rpcID /\ tx_CloudSessionID tx = sessionID /\ tx_CloudRPCID tx = cloudRPCID /\
             deref rpcID m' = Some tx
  | Err _ => deref rpcID m' = deref rpcID m
  end.
Proof.
  unfold CreateTransaction, acquire.
  repeat (case_match; simplify_eq/=; try (by intros [= <- <-]));
    intros [= <- <-]; unfold deref; cbn; rewrite lookup_insert_eq;
    (split_and!; [done..| |done|done|done|done]); intros i Hi; by rewrite lookup_insert_ne.
Qed.

Lemma retain_begin_pushes m id m' r : retain_begin m id = (m', r) -> pushes m m'.
Proof.
  unfold retain_begin. repeat (case_match; [by intros [= <- <-]|]).
  destruct (transactionsByRPCID m !! id) as [tx|]; [|by intros [= <- <-]].
  repeat (case_match; [by intros [= <- <-]|]). intros [= <- <-].
  etrans; [apply Stop_pushes|]. etrans; [by apply (update_tx_pushes id (set_Handoff true))|].
  by apply pushes_same.
Qed.

Lemma set_owner_if_pushes a b c m : pushes m (set_owner_if a b c m).
Proof. unfold set_owner_if. destruct (String.eqb _ _); by apply pushes_same. Qed.

Lemma retain_finish_pushes m now id o response err m' next :
  retain_finish m now id o response err = (m', next) -> pushes m m'.
Proof.
  unfold retain_finish, retain_failed, retain_saved. destruct err as [e|].
  - set (m1 := update_tx id _ m). set (m2 := set_owner_if _ _ _ m1).
    assert (pushes m m2) as H2 by (etrans; [by apply (update_tx_pushes id (set_Handoff false))|apply set_owner_if_pushes]).
    destruct (pendingReplies m2 !! id) as [p|].
    + destruct (terminalTransition _ _ _ _ _) as [m3 e3] eqn:Et. intros [= <- _].
      change m3 with (m3, e3).1. rewrite <- Et. apply terminal_pushes_after.
      etrans; [exact H2|by apply pushes_same].
    + destruct (deref id m2) as [tx|]; [|by intros [= <- _]]. destruct (_ <=? 0).
      * destruct (terminalTransition _ _ _ _ _) as [m3 e3] eqn:Et. intros [= <- _].
        change m3 with (m3, e3).1. rewrite <- Et. by apply terminal_pushes_after.
      * cbn [AfterFunc]. intros [= <- _]. etrans; [exact H2|]. etrans; [|by apply update_tx_pushes].
        by apply pushes_same.
  - set (m1 := set_owner_if _ _ _ m). assert (pushes m m1) as H1 by apply set_owner_if_pushes.
    destruct (pendingReplies m1 !! id) as [p|].
    + destruct (String.eqb _ _); [by intros [= <- _]|].
      destruct (terminalTransition _ _ _ _ _) as [m3 e3] eqn:Et. intros [= <- _].
      change m3 with (m3, e3).1. rewrite <- Et. apply terminal_pushes_after.
      etrans; [exact H1|by apply pushes_same].
    + destruct (terminalTransition _ _ _ _ _) as [m3 e3] eqn:Et. intros [= <- _].
      change m3 with (m3, e3).1. rewrite <- Et. by apply terminal_pushes_after.
Qed.

Lemma release_begin_pushes m o m' e : release_begin m o = (m', e) -> pushes m m'.
Proof.
  unfold release_begin, unlock_state. repeat case_match; intros [= <- _]; by apply pushes_same.
Qed.

Lemma advance_pushes w f w' fr f' : advance w f w' fr f' -> pushes (mgr w) (mgr w').
Proof.
  destruct 1; simpl; try done.
  - by eapply retain_finish_pushes.
  - by eapply retain_finish_pushes.
  - by eapply release_begin_pushes.
  - by eapply release_begin_pushes.
  - unfold release_end. destruct (String.eqb _ _); by apply pushes_same.
  - unfold retain_last. apply terminal_pushes_after. by apply pushes_same.
Qed.

(** ** The concurrent manager *)

Lemma deref_issued x m uu fr id tx : inv x m uu fr -> deref id m = Some tx -> id ∈ uu.
Proof.
  intros I. unfold deref. destruct (transactionsByRPCID m !! id) eqn:Ht.
  - intros _. apply (inv_tx _ _ _ _ I _ _ Ht).
  - intros Hd. apply (inv_detached _ _ _ _ I _ _ Hd).
Qed.

Lemma create_keeps w rpcID sessionID cloudRPCID respond method timeout changing m r :
  winv w -> fresh_id rpcID w ->
  CreateTransaction (mgr w) (clock w) rpcID sessionID cloudRPCID respond method timeout changing = (m, r) ->
  keeps_requests (mgr w) m /\ pushed m = pushed (mgr w).
Proof.
  intros [_ I] [_ Hf] Hc. destruct (CreateTransaction_quiet _ _ _ _ _ _ _ _ _ _ _ Hc) as (Hp & _ & Hother & _).
  split; [|done]. intros i tx Hi. rewrite Hother; [by rewrite Hi|]. intros ->.
  by apply (deref_issued _ _ _ _ _ _ I) in Hi.
Qed.

Lemma step_keeps w w' :
  winv w -> step w w' ->
  pushes (mgr w) (mgr w') \/ keeps_requests (mgr w) (mgr w') /\ pushed (mgr w') = pushed (mgr w).
Proof.
  intros I Hs. destruct Hs; cbn; try (by left; apply pushes_same).
  - right. by eapply create_keeps.
  - left. apply run_call_pushes.
  - left. apply (f_equal fst) in H3. cbn in H3. subst m. etrans; [apply Timeout_pushes|by apply pushes_same].
  - left. by eapply retain_begin_pushes.
  - left. by eapply advance_pushes.
  - left. by eapply release_begin_pushes.
  - right. split; [by apply same_keeps, requests_same|done].
  - right. split; [by apply same_keeps, requests_same|done].
Qed.

(** Over any execution everything that was ever handed to the scheduler
    answers the request under whose identifier it was logged. *)
Theorem reachable_answers w : reachable w -> Forall (answers (mgr w)) (pushed (mgr w)).
Proof.
  intros (w0 & Hi & Hs).
  assert (Forall (answers (mgr w0)) (pushed (mgr w0))) as Ha by (destruct Hi as (_ & _ & _ & _ & _ & _ & -> & _); constructor).
  apply initial_inv in Hi. induction Hs as [|w0 w1 w2 H1 _ IH]; [done|].
  apply IH; [by eapply step_inv|].
  destruct (step_keeps _ _ Hi H1) as [(Hk%same_keeps & log & -> & _ & Hl)|[Hk ->]]; [|by eapply keeps_answers].
  apply Forall_app. split; [by eapply keeps_answers|done].
Qed.

End Push.
