(* ===== verification/ManagerOnce.v ===== *)
(** * The manager hands over one message at a time

    [once m m']: between the two states the log [pushed] has gained one entry
    at most.  It holds of every call and of every section of a suspended one,
    so no message is handed over behind another one's back, and what the
    scheduler says to it is what it says at the beginning of the call. *)

From S2P Require Import Prelude GoTime Scheduler Json Rpc RequestKey Transaction Cache Store Manager ManagerSteps ManagerInv ManagerSafety ManagerPush.
Import RequestManager.

Section Once.
Context {S : Type} `{OutboundScheduler S} {St : Type} `{OperationStore St}.

Implicit Types (w : world S St) (m : t S) (tx : Transaction).

Definition once m m' : Prop := pushed m' = pushed m \/ exists e, pushed m' = pushed m ++ [e].

Lemma once_after m m0 m' : pushed m0 = pushed m -> once m0 m' -> once m m'.
Proof. intros E. unfold once. by rewrite E. Qed.

Lemma update_tx_pushed id f m : pushed (update_tx id f m) = pushed m.
Proof. unfold update_tx. by destruct (transactionsByRPCID m !! id). Qed.
Lemma Stop_pushed h m : pushed (Stop h m) = pushed m.
Proof. by destruct (Stop_is h m) as [tms ->]. Qed.
Lemma set_owner_if_pushed a b c m : pushed (set_owner_if a b c m) = pushed m.
Proof. unfold set_owner_if. by destruct (String.eqb _ _). Qed.

Lemma terminal_once m now id final payload : once m (terminalTransition m now id final payload).1.
Proof.
  destruct (terminal final) eqn:Hf; [|unfold terminalTransition; rewrite Hf; by left].
  destruct (transactionsByRPCID m !! id) as [tx|] eqn:Htx; [|rewrite terminal_missing by done; by left].
  destruct (validateTransition (tx_State tx) final) eqn:Hv;
    [unfold terminalTransition; rewrite Hf, Htx, Hv; by left|].
  destruct (terminal_spec id tx m now final payload Htx Hf Hv) as (_ & _ & _ & _ & Hp & _).
  unfold once. rewrite Hp. unfold push_response. destruct (_ && _); [|by left].
  destruct (scheduler m); [right|by left]. by eexists.
Qed.

(** The operations are changes that leave the log alone, with one terminal
    transition at the end on some branches. *)
Lemma terminal_once_after m m0 now id final payload :
  pushed m0 = pushed m -> once m (terminalTransition m0 now id final payload).1.
Proof. intros E. eapply once_after; [exact E|apply terminal_once]. Qed.

#[local] Arguments update_tx : simpl never.
#[local] Arguments Stop : simpl never.
#[local] Arguments set_owner_if : simpl never.

Ltac same_log := repeat (progress (cbn; rewrite ?update_tx_pushed, ?Stop_pushed, ?set_owner_if_pushed)); reflexivity.
Ltac at_most_once := first [by left|left; same_log|apply terminal_once_after; same_log].

Lemma buffer_once m id r : once m (buffer_reply m id r).1.
Proof. unfold buffer_reply. destruct (pendingReplies m !! id); at_most_once. Qed.

Lemma finish_once final m now id tx payload : once m (finish_with final m now id tx payload).1.
Proof.
  unfold finish_with, recoverToInFlight. destruct (tx_HandoffInProgress tx); [apply buffer_once|].
  destruct (pendingReplies m !! id); [|at_most_once]. destruct (validateTransition _ _); cbn [fst]; at_most_once.
Qed.

Lemma Complete_once m now id r : once m (Complete m now id r).1.
Proof.
  unfold Complete. destruct (transactionsByRPCID m !! id); [|at_most_once].
  destruct (_ || _); [apply buffer_once|at_most_once].
Qed.

Lemma Fail_once m now id r : once m (Fail m now id r).1.
Proof. unfold Fail. destruct (transactionsByRPCID m !! id); [apply finish_once|at_most_once]. Qed.

Lemma Timeout_once m now id : once m (Timeout_ m now id).1.
Proof. unfold Timeout_. destruct (transactionsByRPCID m !! id); [apply finish_once|at_most_once]. Qed.

Lemma MarkInFlight_once m now id : once m (MarkInFlight m now id).1.
Proof.
  unfold MarkInFlight. destruct (transactionsByRPCID m !! id) as [tx|]; [|at_most_once].
  destruct (validateTransition _ _); [at_most_once|]. destruct (pendingReplies _ !! id); [at_most_once|].
  unfold AfterFunc. at_most_once.
Qed.

Lemma mark_once id s m : once m (mark s m id).1.
Proof.
  unfold mark. destruct (transactionsByRPCID m !! id); [|at_most_once]. destruct (validateTransition _ _); at_most_once.
Qed.

Lemma dispatchTimeoutFail_once m now id : once m (dispatchTimeoutFail m now id).
Proof.
  unfold dispatchTimeoutFail, recoverToInFlight.
  destruct (transactionsByRPCID m !! id) as [tx|]; [|at_most_once]. destruct (preflight _); [|at_most_once].
  destruct (pendingReplies m !! id); [|at_most_once]. destruct (validateTransition _ _); at_most_once.
Qed.

Lemma run_call_once c now m : once m (run_call c now m).
Proof.
  destruct c; [apply mark_once|apply mark_once|apply MarkInFlight_once|apply Complete_once|apply Fail_once
              |apply dispatchTimeoutFail_once].
Qed.

(** A terminal transition whose result is taken apart. *)
Lemma terminal_pair m m0 now id final payload m1 e :
  pushed m0 = pushed m -> terminalTransition m0 now id final payload = (m1, e) -> once m m1.
Proof. intros E Ht. change m1 with (m1, e).1. rewrite <- Ht. by apply terminal_once_after. Qed.

Lemma retain_finish_once m now id o response err m' next :
  retain_finish m now id o response err = (m', next) -> once m m'.
Proof.
  unfold retain_finish, retain_failed, retain_saved. destruct err as [e|].
  - destruct (pendingReplies _ !! id) as [p|].
    + destruct (terminalTransition _ _ _ _ _) as [m1 e1] eqn:Et. intros [= <- _].
      eapply terminal_pair; [|exact Et]. same_log.
    + destruct (deref id _) as [tx|]; [|intros [= <- _]; at_most_once]. destruct (_ <=? 0).
      * destruct (terminalTransition _ _ _ _ _) as [m1 e1] eqn:Et. intros [= <- _].
        eapply terminal_pair; [|exact Et]. same_log.
      * unfold AfterFunc. intros [= <- _]. at_most_once.
  - destruct (pendingReplies _ !! id) as [p|].
    + destruct (String.eqb _ _); [intros [= <- _]; at_most_once|].
      destruct (terminalTransition _ _ _ _ _) as [m1 e1] eqn:Et. intros [= <- _].
      eapply terminal_pair; [|exact Et]. same_log.
    + destruct (terminalTransition _ _ _ _ _) as [m1 e1] eqn:Et. intros [= <- _].
      eapply terminal_pair; [|exact Et]. same_log.
Qed.

Lemma release_begin_pushed m o m' e : release_begin m o = (m', e) -> pushed m' = pushed m.
Proof. unfold release_begin, unlock_state. repeat case_match; by intros [= <- _]. Qed.

Lemma retain_begin_pushed m id m' r : retain_begin m id = (m', r) -> pushed m' = pushed m.
Proof.
  unfold retain_begin. destruct (transactionsByRPCID m !! id) as [tx|]; [|by intros [= <- <-]].
  repeat (case_match; [by intros [= <- <-]|]). intros [= <- <-]. same_log.
Qed.

Lemma advance_once w f w' fr f' : advance w f w' fr f' -> once (mgr w) (mgr w').
Proof.
  destruct 1; simpl; try by left.
  - by eapply retain_finish_once.
  - by eapply retain_finish_once.
  - left. by eapply release_begin_pushed.
  - left. by eapply release_begin_pushed.
  - unfold release_end. destruct (String.eqb _ _); at_most_once.
  - unfold retain_last. at_most_once.
Qed.

End Once.
