(* ===== verification/ManagerContent.v ===== *)
(** * What the manager hands on

    The manager does not look into the payloads it is given: it keeps them for
    a while, as buffered replies, in its cache, in suspended calls, and hands
    them to the scheduler.  Let [G id p] say that the payload [p] - which may be
    missing - is a proper response to the request [id], whatever that is, and
    let [K id k] tell the cache key of the request.  If the timeout responses
    the manager builds itself are proper and every call is given proper
    payloads, then everything it keeps and hands on is proper, and so is the
    payload with which a request has ended, which was handed over if there is
    one and the request asked for it ([good]). *)

From S2P Require Import Prelude GoTime Scheduler Json Rpc RequestKey Transaction Cache Store Manager ManagerSteps ManagerInv ManagerSafety ManagerPush.
Import RequestManager.

Section Content.
Context {S : Type} `{OutboundScheduler S} {St : Type} `{OperationStore St}.
Context (G : string -> option string -> Prop) (K : string -> string -> Prop).

Implicit Types (w : world S St) (m : t S) (tx : Transaction).

(** What the manager may know of its requests. *)
Definition known m : Prop :=
  is_Some (scheduler m) /\
  forall id tx, deref id m = Some tx -> K id (tx_RequestKey tx) /\ G id (buildTimeoutResponse tx).

Definition response_to tx (p : string) : OutboundMessage := mkMsg (tx_CloudSessionID tx) PriorityHighest p.

Record good m : Prop := {
  good_pending : forall id r, pendingReplies m !! id = Some r -> G id (pr_Payload r);
  good_pushed : Forall (fun e => G e.1 (Some (Payload e.2))) (pushed m);
  good_cache : forall k e, cache m !! k = Some e -> exists id, K id k /\ G id (Some (TransactionCache.Payload e));
  good_ended : forall id tx, detached m !! id = Some tx -> G id (tx_Payload tx) /\
    forall p, tx_RespondToCloud tx = true -> tx_Payload tx = Some p -> p <> "" -> (id, response_to tx p) ∈ pushed m
}.

(** The payloads a suspended call carries. *)
Definition good_frame (f : frame) : Prop :=
  match f with
  | FSave id _ _ p | FFinish id _ p _ => G id p
  | FRelease id _ r | FLast id r | FDelete _ (Some (id, r)) | FEnd _ (Some (id, r)) => G id (pr_Payload r)
  | FDelete _ None | FEnd _ None => True
  end.

Lemma timeout_response_same tx tx' : tx_request tx' = tx_request tx -> buildTimeoutResponse tx' = buildTimeoutResponse tx.
Proof. unfold tx_request, buildTimeoutResponse. intros [= _ _ -> _ -> _]. done. Qed.

Lemma known_pushes m m' : pushes m m' -> known m -> known m'.
Proof.
  intros [Hs (log & _ & Hsc & _)] [[sc Hk] Hk']. split.
  { rewrite Hsc, Hk. clear. revert sc. generalize (snd <$> log) as l. induction l as [|msg l IH]; intros sc; [by eexists|].
    apply IH. }
  intros id tx' Htx'. specialize (Hs id). rewrite Htx' in Hs.
  destruct (deref id m) as [tx|] eqn:Htx; [|done]. apply (inj Some) in Hs. destruct (Hk' id tx Htx) as [HK HG].
  rewrite (timeout_response_same _ _ Hs). split; [|done]. unfold tx_request in Hs. congruence.
Qed.

Lemma good_same m m' :
  pendingReplies m' = pendingReplies m -> pushed m' = pushed m -> cache m' = cache m -> detached m' = detached m ->
  good m -> good m'.
Proof. intros Hp Hl Hc Hd [A B C D]. split; by rewrite ?Hp, ?Hl, ?Hc, ?Hd. Qed.

Lemma good_drop id m : good m -> good (set_pending (delete id (pendingReplies m)) m).
Proof. intros [A B C D]. split; [|done..]. cbn. intros i r [_ Hi]%lookup_delete_Some. by apply A. Qed.

(** An assignment that keeps what the request was and its payload. *)
Lemma update_tx_good id f m :
  (forall tx, tx_request (f tx) = tx_request tx /\ tx_Payload (f tx) = tx_Payload tx) ->
  good m -> good (update_tx id f m).
Proof.
  intros Hf Hg. unfold update_tx. destruct (transactionsByRPCID m !! id); [by eapply good_same, Hg|].
  destruct Hg as [A B C D]. split; [done..|]. cbn. intros i tx.
  destruct (decide (i = id)) as [->|]; [|rewrite lookup_alter_ne by done; apply D].
  rewrite lookup_alter_eq. destruct (detached m !! id) as [tx0|] eqn:Hd; [|done]. intros [= <-].
  destruct (Hf tx0) as [Hq Hp]. destruct (D id tx0 Hd) as [HG HD]. unfold response_to in *. rewrite Hp. split; [done|].
  unfold tx_request in Hq. injection Hq as _ -> _ _ -> _. exact HD.
Qed.

Lemma Stop_good h m : good m -> good (Stop h m).
Proof. destruct (Stop_is h m) as [tms ->]. by apply good_same. Qed.

(** ** The calls *)

Lemma terminal_good m now id final payload :
  known m -> good m -> G id payload -> good (terminalTransition m now id final payload).1.
Proof.
  intros Hk Hg Hp. destruct (terminal final) eqn:Hf; [|unfold terminalTransition; by rewrite Hf].
  destruct (transactionsByRPCID m !! id) as [tx|] eqn:Htx; [|by rewrite terminal_missing].
  destruct (validateTransition (tx_State tx) final) eqn:Hv;
    [unfold terminalTransition; by rewrite Hf, Htx, Hv|].
  destruct (terminal_spec id tx m now final payload Htx Hf Hv) as (_ & Hpe & _ & Hc & Hpu & _).
  pose proof (terminal_detached id tx m now final payload Htx Hf Hv) as Hde.
  destruct Hg as [A B C D]. destruct Hk as [[sc Hsc] Hk].
  assert (pushed (push_response id tx payload m) = pushed m ++
          (if tx_RespondToCloud tx && (0 <? len_opt payload) then [(id, response_to tx (default "" payload))] else [])) as Hlog.
  { unfold push_response. rewrite Hsc. destruct (_ && _); [done|by rewrite app_nil_r]. }
  rewrite Hlog in Hpu. clear Hlog. split.
  - rewrite Hpe. intros i r [_ Hi]%lookup_delete_Some. by apply A.
  - rewrite Hpu. apply Forall_app. split; [done|]. destruct (_ && _) eqn:Hr; [|done].
    apply Forall_singleton. cbn. destruct payload as [p|]; [exact Hp|]. by rewrite andb_false_r in Hr.
  - clear Hpu. rewrite Hc. unfold store_response. destruct (_ && _); [|done]. destruct payload as [p|]; [|done]. cbn.
    unfold TransactionCache.Set_. intros k e [[<- <-]|[_ Hl]]%lookup_insert_Some; [|by eapply C].
    exists id. split; [|done]. apply (Hk id tx). unfold deref. by rewrite Htx.
  - rewrite Hde, Hpu. intros i tx' [[<- <-]|[_ Hi]]%lookup_insert_Some.
    + split; [done|]. cbn. intros p Hr -> Hne. rewrite Hr. apply elem_of_app. right.
      assert ((0 <? len_opt (Some p)) = true) as ->; [|by left].
      apply Z.ltb_lt. destruct p; [done|]. unfold len_opt, len. cbn. lia.
    + destruct (D i tx' Hi) as [HG HD]. split; [done|]. intros p ???. apply elem_of_app. left. by apply HD.
Qed.

Lemma buffer_good m id r : good m -> G id (pr_Payload r) -> good (buffer_reply m id r).1.
Proof.
  unfold buffer_reply. intros [A B C D] Hr. destruct (pendingReplies m !! id); [by split|]. split; [|done..].
  cbn. intros i r' [[<- <-]|[_ Hi]]%lookup_insert_Some; [done|by apply A].
Qed.

(** A terminal transition after changes that add no payload. *)
Lemma terminal_good_after m m0 now id final payload :
  pushes m m0 -> known m -> good m0 -> G id payload -> good (terminalTransition m0 now id final payload).1.
Proof. intros Hm Hk. apply terminal_good. by eapply known_pushes. Qed.

(** A buffered reply is processed. *)
Lemma retain_last_good m now id r :
  known m -> good m -> G id (pr_Payload r) -> good (retain_last m now id r).1.
Proof. intros Hk Hg Hr. eapply terminal_good_after; [|exact Hk|by apply good_drop|done]. by apply pushes_same. Qed.

Lemma finish_good final m now id tx payload :
  known m -> good m -> G id payload -> good (finish_with final m now id tx payload).1.
Proof.
  intros Hk Hg Hp. unfold finish_with, recoverToInFlight. destruct (tx_HandoffInProgress tx); [by apply buffer_good|].
  destruct (pendingReplies m !! id) as [r|] eqn:Hr; [|by apply terminal_good].
  pose proof (good_pending _ Hg _ _ Hr) as Hrp. pose proof (good_drop id m Hg) as Hd.
  destruct (validateTransition _ _); cbn [fst].
  - eapply terminal_good_after; [|exact Hk|exact Hd|exact Hp]. by apply pushes_same.
  - eapply terminal_good_after; [|exact Hk|by apply update_tx_good|exact Hrp].
    etrans; [|by apply update_tx_pushes]. by apply pushes_same.
Qed.

Lemma Complete_good m now id p : known m -> good m -> G id p -> good (Complete m now id p).1.
Proof.
  intros Hk Hg Hp. unfold Complete. destruct (transactionsByRPCID m !! id); [|done].
  destruct (_ || _); [by apply buffer_good|by apply terminal_good].
Qed.

Lemma Fail_good m now id p : known m -> good m -> G id p -> good (Fail m now id p).1.
Proof. intros Hk Hg Hp. unfold Fail. destruct (transactionsByRPCID m !! id); [by apply finish_good|done]. Qed.

Lemma known_timeout m id tx : known m -> deref id m = Some tx -> G id (buildTimeoutResponse tx).
Proof. intros Hk Htx. by apply (proj2 Hk id tx). Qed.

Lemma Timeout_good m now id : known m -> good m -> good (Timeout_ m now id).1.
Proof.
  intros Hk Hg. unfold Timeout_. destruct (transactionsByRPCID m !! id) as [tx|] eqn:Htx; [|done].
  apply finish_good; [done|done|]. apply (known_timeout m); [done|]. unfold deref. by rewrite Htx.
Qed.

Lemma mark_good to m id : good m -> good (mark to m id).1.
Proof.
  intros Hg. unfold mark. destruct (transactionsByRPCID m !! id); [|done]. destruct (validateTransition _ _); [done|].
  by apply update_tx_good.
Qed.

Lemma MarkInFlight_good m now id : known m -> good m -> good (MarkInFlight m now id).1.
Proof.
  intros Hk Hg. unfold MarkInFlight. destruct (transactionsByRPCID m !! id) as [tx|]; [|done].
  destruct (validateTransition _ _); [done|]. set (m1 := update_tx id _ m).
  assert (good m1) as Hg1 by (by apply update_tx_good). assert (pushes m m1) as H1 by (by apply update_tx_pushes).
  destruct (pendingReplies m1 !! id) as [r|] eqn:Hr.
  - eapply terminal_good_after; [|exact Hk|by apply good_drop|by eapply good_pending].
    etrans; [exact H1|by apply pushes_same].
  - cbn [AfterFunc fst]. apply update_tx_good; [done|]. eapply good_same; [| | | |by eapply (Stop_good _ m1)]; done.
Qed.

(** *** [RespondAndRetain] *)

Lemma retain_begin_good m id m' r : retain_begin m id = (m', r) -> good m -> good m'.
Proof.
  unfold retain_begin. intros Hb Hg. destruct (transactionsByRPCID m !! id) as [tx|]; [|by injection Hb as <- _].
  repeat (case_match; [by injection Hb as <- _|]). injection Hb as <- _.
  eapply good_same; [| | | |apply (update_tx_good id (set_Handoff true)), Stop_good, Hg; done]; done.
Qed.

Lemma set_owner_if_good a b c m : good m -> good (set_owner_if a b c m).
Proof. unfold set_owner_if. destruct (String.eqb _ _); by apply good_same. Qed.

Definition good_next (id : string) (next : retain_next) : Prop :=
  match next with RetainRelease r => G id (pr_Payload r) | RetainDone _ _ => True end.

Lemma retain_failed_good m now id e m' next :
  known m -> good m -> retain_failed m now id e = (m', next) -> good m' /\ good_next id next.
Proof.
  intros Hk Hg. unfold retain_failed. set (m1 := update_tx id _ m). set (m2 := set_owner_if _ _ _ m1).
  assert (pushes m m2) as H2 by (etrans; [by apply (update_tx_pushes id (set_Handoff false))|apply set_owner_if_pushes]).
  assert (good m2) as Hg2 by (apply set_owner_if_good; by apply update_tx_good).
  pose proof (known_pushes _ _ H2 Hk) as Hk2.
  destruct (pendingReplies m2 !! id) as [p|] eqn:Hp.
  - pose proof (retain_last_good m2 now id p Hk2 Hg2 (good_pending _ Hg2 _ _ Hp)) as Ht. unfold retain_last in Ht.
    destruct (terminalTransition _ _ _ _ _) as [m3 e3]. by intros [= <- <-].
  - destruct (deref id m2) as [tx|] eqn:Htx; [|by intros [= <- <-]].
    pose proof (terminal_good m2 now id TxTimedOut _ Hk2 Hg2 (known_timeout _ _ _ Hk2 Htx)) as Ht. destruct (_ <=? 0).
    + destruct (terminalTransition _ _ _ _ _) as [m3 e3]. by intros [= <- <-].
    + cbn [AfterFunc]. intros [= <- <-]. split; [|done]. apply update_tx_good; [done|]. by eapply good_same, Hg2.
Qed.

Lemma retain_saved_good m now id o response m' next :
  known m -> good m -> G id response -> retain_saved m now id o response = (m', next) ->
  good m' /\ good_next id next.
Proof.
  intros Hk Hg Hr. unfold retain_saved. set (m1 := set_owner_if _ _ _ m).
  assert (good m1) as Hg1 by (by apply set_owner_if_good).
  assert (known m1) as Hk1 by (eapply known_pushes; [apply set_owner_if_pushes|done]).
  destruct (pendingReplies m1 !! id) as [p|] eqn:Hp.
  - pose proof (good_pending _ Hg1 _ _ Hp) as Hgp. destruct (String.eqb _ _); [by intros [= <- <-]|].
    pose proof (retain_last_good m1 now id p Hk1 Hg1 Hgp) as Ht. unfold retain_last in Ht.
    destruct (terminalTransition _ _ _ _ _) as [m3 e3]. by intros [= <- <-].
  - pose proof (terminal_good m1 now id TxCompleted response Hk1 Hg1 Hr) as Ht.
    destruct (terminalTransition _ _ _ _ _) as [m3 e3]. by intros [= <- <-].
Qed.

Lemma retain_finish_good m now id o response err m' next :
  known m -> good m -> G id response -> retain_finish m now id o response err = (m', next) ->
  good m' /\ good_next id next.
Proof. destruct err as [e|]; [|apply retain_saved_good]. intros Hk Hg _. by apply retain_failed_good. Qed.

Lemma release_begin_good m o m' e : release_begin m o = (m', e) -> good m -> good m'.
Proof. unfold release_begin, unlock_state. repeat case_match; intros [= <- _]; by apply good_same. Qed.

Lemma release_end_good m o : good m -> good (release_end m o).
Proof. unfold release_end. destruct (String.eqb _ _); [by apply good_same|done]. Qed.

(** A suspended call goes on. *)
Lemma advance_good w f w' fr f' :
  known (mgr w) -> good (mgr w) -> good_frame f -> advance w f w' fr f' ->
  good (mgr w') /\ forall g, f' = Some g -> good_frame g.
Proof.
  intros Hk Hg Hf Ha. destruct Ha; cbn [mgr].
  - by split; [|intros g [= <-]].
  - eapply retain_finish_good in H1 as [? _]; [|done..]. by split.
  - eapply retain_finish_good in H1 as [? ?]; [|done..]. by split; [|intros g [= <-]].
  - split; [by eapply release_begin_good|by intros g [= <-]].
  - split; [by eapply release_begin_good|by intros g [= <-]].
  - by split; [|intros g [= <-]].
  - split; [by apply release_end_good|]. destruct k as [[r p]|]; [|done]. by intros g [= <-].
  - split; [by apply retain_last_good|done].
Qed.

(** ** What comes from outside *)

(** A creation adds no payload; a refused one may return a cached response. *)
Lemma CreateTransaction_good m now rpcID sessionID cloudRPCID respond method timeout changing m' r :
  CreateTransaction m now rpcID sessionID cloudRPCID respond method timeout changing = (m', r) ->
  good m -> good m'.
Proof.
  unfold CreateTransaction, acquire. intros Hc Hg.
  repeat (case_match; simplify_eq/=; try done); by (eapply good_same; [| | | |exact Hg]).
Qed.

Lemma sweep_cache_good m now : good m -> good (set_cache (TransactionCache.sweepCache (cache m) now) m).
Proof.
  intros [A B C D]. split; [done|done| |done]. cbn. intros k e [Hl _]%TransactionCache.sweepCache_lookup. by eapply C.
Qed.

End Content.
