(* ===== verification/Daemon.v ===== *)
(** * The running daemon

    [main] of cmd/ucentral-client/main.go once the components exist: the frame
    handler, a goroutine for each admitted request, the callbacks of the agent
    library, the worker of the result queue, the WebSocket writer and the
    recovery of the NATS client, all at work on one request manager, one
    scheduler and two queues.  [dstep] is the relation of all their
    interleavings.

    The manager's own record of the scheduler and the writer's are kept apart
    in the state, as the two components are elsewhere in the development, and
    proved equal later on.  The process ends when a goroutine panics ([panics])
    or by the end of [main]: the life of the whole process is in [Teardown]. *)

From S2P Require Import Prelude GoTime Scheduler Json Enums Rpc Commands Envelopes DeviceResult Config Capabilities WsClient WsWriter NatsClient NatsConnect Transaction Cache Store Manager ManagerSteps Handler NatsResults.
Import RequestManager.

(** ** The NATS client of the daemon *)

(** Where the recovery goroutine is: not running, waiting for its ticker,
    inside [NewNATSClient] with the link states it still has to report and what
    it will return, before the subscription, before the [Close] of a client
    whose subscription failed, and before [SetNATSClient]. *)
Inductive recovery_pc :=
| NrOff
| NrWait
| NrReport (states : list LinkState) (r : result NATSClient)
| NrSubscribe (n : NATSClient)
| NrClose (n : NATSClient)
| NrSet (n : NATSClient).

(** The client the handler uses, the recovery, the clients that were built and
    whose [Close] has not succeeded, and those among them whose [Close]
    returned an error, which the code discards. *)
Record nats_side := mkNats {
  ns_client : option NATSClient;
  ns_recovery : recovery_pc;
  ns_open : list NATSClient;
  ns_unclosed : list NATSClient
}.

(** The handler's client is guarded by a mutex of its own. *)
Definition GetNATSClient (ns : nats_side) : option NATSClient := ns_client ns.
Definition SetNATSClient (nc : option NATSClient) (ns : nats_side) : nats_side :=
  mkNats nc (ns_recovery ns) (ns_open ns) (ns_unclosed ns).
Definition set_recovery (pc : recovery_pc) (ns : nats_side) : nats_side :=
  mkNats (ns_client ns) pc (ns_open ns) (ns_unclosed ns).

(** A client is started, and closed; [err] is what [Close] returned. *)
Definition client_built (n : NATSClient) (ns : nats_side) : nats_side :=
  mkNats (ns_client ns) (ns_recovery ns) (n :: ns_open ns) (ns_unclosed ns).
Fixpoint remove_one (n : NATSClient) (l : list NATSClient) : list NATSClient :=
  match l with
  | [] => []
  | x :: l => if decide (x = n) then l else x :: remove_one n l
  end.
Definition close_client (n : NATSClient) (err : option error) (ns : nats_side) : nats_side :=
  match err with
  | None => mkNats (ns_client ns) (ns_recovery ns) (remove_one n (ns_open ns)) (ns_unclosed ns)
  | Some _ => mkNats (ns_client ns) (ns_recovery ns) (ns_open ns) (n :: ns_unclosed ns)
  end.

(** The first subscription: [register] is what the library answers to it and
    [agent_Close] what it returns when the client is closed. *)
Definition main_subscribe (ctx register agent_Close : option error) (target : string) (client : option NATSClient)
    : nats_side :=
  match client with
  | Some n =>
      let ns := mkNats (Some n) NrOff [n] [] in
      match SubscribeResults n ctx target register with
      | None => ns
      | Some _ => set_recovery NrWait (SetNATSClient None (close_client n (NATSClient_Close n agent_Close) ns))
      end
  | None => mkNats None NrWait [] []
  end.

(** The recovery goroutine up to its next call or assignment that others can
    see. *)
Definition recovery_step `{GoLib} `{ConfigLib} `{AgentLib} (cfg : NATSConfig) (ctx register agent_Close : option error)
    (links : systemStateManager) (ns : nats_side) : systemStateManager * nats_side :=
  match ns_recovery ns with
  | NrOff => (links, ns)
  | NrWait =>
      let '(r, states) := NewNATSClient (n_Target cfg) cfg in
      (links, set_recovery (NrReport states r) (match r with Ok n => client_built n ns | Err _ => ns end))
  | NrReport (l :: states) r => (UpdateNATSLink l links, set_recovery (NrReport states r) ns)
  | NrReport [] (Err _) => (links, set_recovery NrWait ns)
  | NrReport [] (Ok n) => (links, set_recovery (NrSubscribe n) ns)
  | NrSubscribe n =>
      match SubscribeResults n ctx (n_Target cfg) register with
      | Some _ => (links, set_recovery (NrClose n) ns)
      | None => (links, set_recovery (NrSet n) ns)
      end
  | NrClose n => (links, set_recovery NrWait (close_client n (NATSClient_Close n agent_Close) ns))
  | NrSet n => (links, set_recovery NrOff (SetNATSClient (Some n) ns))
  end.

(** Results are delivered: to the handler's client, or to one that has just
    been subscribed. *)
Definition subscribed (ns : nats_side) : Prop :=
  is_Some (ns_client ns) \/ exists n, ns_recovery ns = NrSet n.

Section Daemon.
Context {S : Type} `{OutboundScheduler S} {St : Type} `{OperationStore St} `{GoLib}.
Context (lim : limits) (allowed : option URL) (h : frameHandler) (serial : string).
Context (cloud : CloudConfig) (nats : NATSConfig) (resultCap : Z).

(** ** A result on its way

    [processNATSResult], and the same code in [handleNATSResult], one critical
    section or store call at a time. *)

Inductive result_pc :=
| RGet
| RComplete (response : option string)
| RFail (response : option string)
| RRetain (tx : Transaction) (response : option string)
| RRetaining (tx : Transaction) (f : frame)
| RDone.

(** [None]: [BuildDeviceResultObject] panics. *)
Definition result_get (res : ResultEnvelope) (m : t S) : option result_pc :=
  match GetTransaction m (re_RPCID res) with
  | None => Some RDone
  | Some tx =>
      formattedResult ← format_result serial res;
      let respBytes := result_response tx formattedResult in
      Some (if tx_Method tx =s upgrade_method
            then if device_refused res then RFail respBytes else RRetain tx respBytes
            else RComplete respBytes)
  end.

(** What follows the return of [RespondAndRetain]. *)
Definition after_retain (tx : Transaction) (err : option error) : result_pc :=
  match err with
  | None => RDone
  | Some e => if errors_Is e ErrHandoffInProgress then RDone else RFail (retain_failure_response tx)
  end.

(** The error a suspended [RespondAndRetain] returns with, if its next section
    is its last. *)
Definition call_error (w : world S St) (f : frame) : option error :=
  match f with
  | FFinish r o response err =>
      match (retain_finish (mgr w) (clock w) r o response err).2 with
      | RetainDone _ e => e
      | RetainRelease _ => None
      end
  | FLast r p => (retain_last (mgr w) (clock w) r p).2
  | _ => None
  end.

Inductive rstep (res : ResultEnvelope) : result_pc * world S St -> result_pc * world S St -> Prop :=
| rs_get w pc :
    result_get res (mgr w) = Some pc -> rstep res (RGet, w) (pc, w)
| rs_complete w response :
    rstep res (RComplete response, w)
      (RDone, set_mgr (Complete (mgr w) (clock w) (re_RPCID res) response).1 w)
| rs_fail w response :
    rstep res (RFail response, w) (RDone, set_mgr (Fail (mgr w) (clock w) (re_RPCID res) response).1 w)
| rs_refused w tx response m e :
    retain_begin (mgr w) (re_RPCID res) = (m, Err e) ->
    rstep res (RRetain tx response, w) (after_retain tx (Some e), set_mgr m w)
| rs_begin w tx response m tx' o :
    fresh_id o w -> retain_begin (mgr w) (re_RPCID res) = (m, Ok tx') ->
    let f := FSave (re_RPCID res) o tx' response in
    rstep res (RRetain tx response, w)
      (RRetaining tx f, mkWorld m (store w) (clock w) (f :: frames w) ({[o]} ∪ issued w))
| rs_advance w tx f fr w' f' :
    takes f (frames w) fr -> advance w f w' fr f' ->
    rstep res (RRetaining tx f, w)
      (match f' with Some f' => RRetaining tx f' | None => after_retain tx (call_error w f) end,
       mkWorld (mgr w') (store w') (clock w') (resume f' fr) (issued w')).

(** ** What the manager does by itself

    Its timers, the sweepers of the cache and of the store, and the clock.
    Suspended calls without a transaction are the store sweeper's. *)

Inductive background : world S St -> world S St -> Prop :=
| bg_fire w i tm :
    timers (mgr w) !! i = Some tm -> tm_status tm = TimerArmed -> tm_deadline tm <= clock w ->
    background w (set_mgr (set_timers (<[i := set_status TimerFired tm]> (timers (mgr w))) (mgr w)) w)
| bg_timeout w i tm m r :
    timers (mgr w) !! i = Some tm -> tm_status tm = TimerFired ->
    Timeout_ (mgr w) (clock w) (tm_rpcID tm) = (m, r) ->
    background w (set_mgr (set_timers (alter (set_status TimerDone) i (timers m)) m) w)
| bg_release w o m :
    release_begin (mgr w) o = (m, None) ->
    background w (mkWorld m (store w) (clock w) (FDelete o None :: frames w) (issued w))
| bg_advance w f fr w' f' :
    frame_rpc f = None -> takes f (frames w) fr -> advance w f w' fr f' ->
    background w (mkWorld (mgr w') (store w') (clock w') (resume f' fr) (issued w'))
| bg_delete w ctx id st r :
    store_Delete (store w) ctx (clock w) id = (st, r) ->
    background w (mkWorld (mgr w) st (clock w) (frames w) (issued w))
| bg_load w ctx limit st r :
    store_GetActive (store w) ctx (clock w) limit = (st, r) ->
    background w (mkWorld (mgr w) st (clock w) (frames w) (issued w))
| bg_sweep_cache w :
    background w (set_mgr (set_cache (TransactionCache.sweepCache (cache (mgr w)) (clock w)) (mgr w)) w)
| bg_tick w now :
    clock w <= now -> background w (mkWorld (mgr w) (store w) now (frames w) (issued w)).

(** ** The daemon *)

Record daemon := mkDaemon {
  d_world : world S St;
  d_writer : WsWriter.world S;
  d_links : systemStateManager;
  d_nats : nats_side;
  (** The used slots of the dispatch buffer, and the goroutines of the requests. *)
  d_used : Z;
  d_exec : list (launch * exec_pc);
  d_queue : list ResultEnvelope;
  d_worker : option (ResultEnvelope * result_pc);
  (** The callbacks that found the queue full. *)
  d_callbacks : list (ResultEnvelope * result_pc);
  (** The answers the frame handler has given itself. *)
  d_answers : list OutboundMessage;
  (** History: the frames that were handled, with the identifiers drawn for them. *)
  d_frames : list (string * InboundFrame);
  (** History: the results the agent delivered. *)
  d_received : list ResultEnvelope
}.

(** The scheduler is handed messages: the writer's side of it. *)
Definition deliver1 (x : WsWriter.world S) (msg : OutboundMessage) : WsWriter.world S :=
  match os_Push (sh_scheduler (w_shared x)) msg with
  | (s, None) =>
      WsWriter.mkWorld (WsWriter.set_scheduler s (w_shared x)) (w_sessions x) (w_generation x)
        (w_accepted x ++ [msg])
  | (_, Some _) => x
  end.
Definition deliver (msgs : list OutboundMessage) (x : WsWriter.world S) : WsWriter.world S :=
  foldl deliver1 x msgs.

(** The responses the manager has handed over between two of its states. *)
Definition handed (m m' : t S) : list OutboundMessage := snd <$> drop (length (pushed m)) (pushed m').

(** A new state of the manager. *)
Definition put_world (w : world S St) (d : daemon) : daemon :=
  mkDaemon w (deliver (handed (mgr (d_world d)) (mgr w)) (d_writer d)) (d_links d) (d_nats d) (d_used d)
    (d_exec d) (d_queue d) (d_worker d) (d_callbacks d) (d_answers d) (d_frames d) (d_received d).

(** A new state of the writer, and of its scheduler. *)
Definition put_writer (x : WsWriter.world S) (d : daemon) : daemon :=
  let w := d_world d in
  mkDaemon (set_mgr (set_scheduler (Some (sh_scheduler (w_shared x))) (mgr w)) w) x (d_links d) (d_nats d)
    (d_used d) (d_exec d) (d_queue d) (d_worker d) (d_callbacks d) (d_answers d) (d_frames d) (d_received d).

Definition put_links (links : systemStateManager) (ns : nats_side) (d : daemon) : daemon :=
  mkDaemon (d_world d) (d_writer d) links ns (d_used d) (d_exec d) (d_queue d) (d_worker d)
    (d_callbacks d) (d_answers d) (d_frames d) (d_received d).
Definition put_exec (used : Z) (exec : list (launch * exec_pc)) (d : daemon) : daemon :=
  mkDaemon (d_world d) (d_writer d) (d_links d) (d_nats d) used exec (d_queue d) (d_worker d)
    (d_callbacks d) (d_answers d) (d_frames d) (d_received d).
Definition put_results (queue : list ResultEnvelope) (worker : option (ResultEnvelope * result_pc))
    (callbacks : list (ResultEnvelope * result_pc)) (d : daemon) : daemon :=
  mkDaemon (d_world d) (d_writer d) (d_links d) (d_nats d) (d_used d) (d_exec d) queue worker
    callbacks (d_answers d) (d_frames d) (d_received d).

Definition put_received (res : ResultEnvelope) (d : daemon) : daemon :=
  mkDaemon (d_world d) (d_writer d) (d_links d) (d_nats d) (d_used d) (d_exec d) (d_queue d) (d_worker d)
    (d_callbacks d) (d_answers d) (d_frames d) (d_received d ++ [res]).

(** The frame handler on a frame of the current session; an identifier that
    no transaction got may come up again. *)
Definition on_frame (rpcID : string) (frame : InboundFrame) (d : daemon) : daemon :=
  let w := d_world d in
  let o := HandleFrame lim allowed h (d_links d) (mgr w) (clock w) rpcID frame in
  mkDaemon (mkWorld (hd_mgr o) (store w) (clock w) (frames w)
              (match hd_launch o with Some _ => {[rpcID]} ∪ issued w | None => issued w end))
    (deliver (option_list (hd_pushed o)) (d_writer d)) (d_links d) (d_nats d) (d_used d)
    (d_exec d ++ option_list (option_map (fun l => (l, XAcquire)) (hd_launch o)))
    (d_queue d) (d_worker d) (d_callbacks d) (d_answers d ++ option_list (hd_pushed o))
    (d_frames d ++ [(rpcID, frame)]) (d_received d).

(** A result the agent library delivers. *)
Definition on_envelope (msg : ResultEnvelope) (d : daemon) : daemon :=
  match on_result (n_Target nats) msg with
  | None => d
  | Some res =>
      put_received res
        (if Z.of_nat (length (d_queue d)) <? resultCap
         then put_results (d_queue d ++ [res]) (d_worker d) (d_callbacks d) d
         else put_results (d_queue d) (d_worker d) (d_callbacks d ++ [(res, RGet)]) d)
  end.

Inductive dstep : daemon -> daemon -> Prop :=
| ds_frame d rpcID frame :
    fresh_id rpcID (d_world d) -> dstep d (on_frame rpcID frame d)
| ds_exec d i l pc (agent : AgentClient) ctx pc' used' m' :
    d_exec d !! i = Some (l, pc) ->
    exec_step lim allowed h (mkEnv (clock (d_world d)) (GetNATSClient (d_nats d)) ctx) l
      (pc, d_used d, mgr (d_world d)) = (pc', used', m') ->
    dstep d (put_exec used' (<[i := (l, pc')]> (d_exec d)) (put_world (set_mgr m' (d_world d)) d))
| ds_envelope d msg :
    subscribed (d_nats d) -> dstep d (on_envelope msg d)
| ds_take d res queue :
    d_queue d = res :: queue -> d_worker d = None ->
    dstep d (put_results queue (Some (res, RGet)) (d_callbacks d) d)
| ds_worker d res pc pc' w' :
    d_worker d = Some (res, pc) -> rstep res (pc, d_world d) (pc', w') ->
    dstep d (put_results (d_queue d) (Some (res, pc')) (d_callbacks d) (put_world w' d))
| ds_worker_done d res :
    d_worker d = Some (res, RDone) -> dstep d (put_results (d_queue d) None (d_callbacks d) d)
| ds_callback d i res pc pc' w' :
    d_callbacks d !! i = Some (res, pc) -> rstep res (pc, d_world d) (pc', w') ->
    dstep d (put_results (d_queue d) (d_worker d) (<[i := (res, pc')]> (d_callbacks d)) (put_world w' d))
| ds_background d w' :
    background (d_world d) w' -> dstep d (put_world w' d)
| ds_move d mv i s g s' :
    w_sessions (d_writer d) !! i = Some s ->
    session_move cloud mv (w_shared (d_writer d)) s = Some (g, s') ->
    dstep d (put_writer (WsWriter.mkWorld g (<[i := s']> (w_sessions (d_writer d)))
                           (w_generation (d_writer d)) (w_accepted (d_writer d))) d)
| ds_generation d :
    let x := d_writer d in
    dstep d (put_writer (WsWriter.mkWorld (w_shared x) (w_sessions x) (wrap_uint64 (w_generation x + 1))
                           (w_accepted x)) d)
| ds_open d :
    let x := d_writer d in
    Forall writer_left (w_sessions x) ->
    dstep d (put_writer (WsWriter.mkWorld (w_shared x)
                           (w_sessions x ++ [new_session (session_id (w_generation x))])
                           (w_generation x) (w_accepted x)) d)
| ds_ws_link d l : dstep d (put_links (UpdateWSLink l (d_links d)) (d_nats d) d)
| ds_recover d (configlib : ConfigLib) (agentlib : AgentLib) ctx register agent_Close links ns :
    ns_recovery (d_nats d) <> NrOff ->
    recovery_step nats ctx register agent_Close (d_links d) (d_nats d) = (links, ns) ->
    dstep d (put_links links ns d)
(** The library may have a client of which the daemon knows nothing any more,
    one that failed to start or to close. *)
| ds_reconnected d :
    dstep d (put_links (foldl (fun s l => UpdateNATSLink l s) (d_links d) on_reconnect) (d_nats d) d).

(** ** A panic

    A result that cannot be formatted, in the worker or in a callback, and the
    unlocking of a mutex that is not locked end the process at once, whatever
    its goroutines are doing; the former when its goroutine gets to it. *)
Definition panics (d : daemon) : Prop :=
  (exists res, d_worker d = Some (res, RGet) /\ result_get res (mgr (d_world d)) = None) \/
  (exists i res, d_callbacks d !! i = Some (res, RGet) /\ result_get res (mgr (d_world d)) = None) \/
  crashed (mgr (d_world d)) = true.

(** When the loops are launched: the manager after [Start], empty queues, and
    what became of the first subscription. *)
Definition launched (w : world S St) (s : S) (links : systemStateManager) (ns : nats_side) : daemon :=
  mkDaemon w (WsWriter.initial s) links ns 0 [] [] None [] [] [] [].

End Daemon.

Arguments daemon S St : clear implicits.
