(* ===== verification/DaemonSafe.v ===== *)
(** * The daemon keeps what its parts promise

    Every step of the daemon is, for the request manager, a sequence of steps
    of its concurrent model ([dstep_steps]), and leaves the manager and the
    writer with the same scheduler: what was proved of the parts alone holds
    of them together.  On top of that come the properties only the whole has:
    no admitted request is ever without somebody who will see to it, and the
    dispatch slots, the queues and the NATS client are accounted for. *)

From S2P Require Import Prelude GoTime Scheduler Json Enums Rpc Commands Envelopes DeviceResult Config Capabilities WsClient WsWriter NatsClient NatsConnect RequestKey Transaction Cache Store Manager ManagerSteps ManagerInv ManagerSafety ManagerProgress ManagerPush Handler HandlerSafe HandlerLive NatsResults Daemon.
Import RequestManager.

Section Safe.
Context {S : Type} `{OutboundScheduler S} {St : Type} `{OperationStore St} `{GoLib}.
Context (lim : limits) (allowed : option URL) (h : frameHandler) (serial : string).
Context (cloud : CloudConfig) (nats : NATSConfig) (resultCap : Z).

Implicit Types (w : world S St) (d : daemon S St) (m : t S).
Abbreviation dstep := (dstep lim allowed h serial cloud nats resultCap).

(** ** The parts take steps of the request manager *)

Lemma set_mgr_same w : set_mgr (mgr w) w = w.
Proof. by destruct w. Qed.

Lemma retain_begin_refused m id m' e : retain_begin m id = (m', Err e) -> m' = m.
Proof.
  unfold retain_begin. destruct (transactionsByRPCID m !! id); [|by intros [= <- _]].
  repeat (case_match; [by intros [= <- _]|]). by intros [= _ ].
Qed.

Lemma rstep_steps res pc w pc' w' :
  rstep serial res (pc, w) (pc', w') -> rtc step w w' /\ pushes (mgr w) (mgr w').
Proof.
  intros Hs. inversion Hs; subst; clear Hs.
  - by split; [|apply pushes_same].
  - split; [apply rtc_once; exact (step_call w (CComplete _ _))|apply Complete_pushes].
  - split; [apply rtc_once; exact (step_call w (CFail _ _))|].
    exact (run_call_pushes (CFail _ _) (clock w) (mgr w)).
  - apply retain_begin_refused in H3 as ->. rewrite set_mgr_same. by split; [|apply pushes_same].
  - split; [apply rtc_once; by apply step_retain|by eapply retain_begin_pushes].
  - split; [apply rtc_once; by eapply step_advance|simpl; by eapply advance_pushes].
Qed.

Lemma background_step w w' : background w w' -> step w w' /\ pushes (mgr w) (mgr w').
Proof.
  intros Hb. destruct Hb; simpl.
  - split; [by eapply step_fire|by apply pushes_same].
  - split; [by eapply step_timeout|]. apply (f_equal fst) in H4. simpl in H4. subst m.
    etrans; [apply Timeout_pushes|by apply pushes_same].
  - split; [by apply step_release|by eapply release_begin_pushes].
  - split; [by eapply step_advance|by eapply advance_pushes].
  - split; [by eapply step_delete|by apply pushes_same].
  - split; [by eapply step_load|by apply pushes_same].
  - split; [apply step_sweep_cache|by apply pushes_same].
  - split; [by apply step_tick|by apply pushes_same].
Qed.

Lemma exec_step_world `{AgentClient} w env l pc used pc' used' m' :
  e_now env = clock w -> exec_step lim allowed h env l (pc, used, mgr w) = (pc', used', m') ->
  rtc step w (set_mgr m' w) /\ pushes (mgr w) m'.
Proof.
  intros Hnow. unfold exec_step.
  assert (Hcall : forall c, rtc step w (set_mgr (run_call c (clock w) (mgr w)) w) /\
                       pushes (mgr w) (run_call c (clock w) (mgr w))).
  { intros c. split; [apply rtc_once, step_call|apply run_call_pushes]. }
  assert (Hid : rtc step w (set_mgr (mgr w) w) /\ pushes (mgr w) (mgr w)).
  { rewrite set_mgr_same. by split; [|apply pushes_same]. }
  destruct pc; simpl.
  - by destruct (used <? dispatchBufferCap h); intros [= <- <- <-].
  - specialize (Hcall (CMarkPreparingDispatch (tx_RPCID (l_tx l)))). simpl in Hcall.
    by destruct (MarkPreparingDispatch _ _) as [m []]; intros [= <- <- <-].
  - specialize (Hcall (CMarkPendingPublish (tx_RPCID (l_tx l)))). simpl in Hcall.
    by destruct (MarkPendingPublish _ _) as [m []]; intros [= <- <- <-].
  - destruct (e_client env); [|by intros [= <- <- <-]].
    by destruct (dispatch _ _ _ _ _ _); intros [= <- <- <-].
  - rewrite Hnow. intros [= <- <- <-]. exact (Hcall (CMarkInFlight (tx_RPCID (l_tx l)))).
  - unfold failTransactionWithCode. rewrite Hnow. intros [= <- <- <-]. exact (Hcall (CFail _ _)).
  - by intros [= <- <- <-].
Qed.

(** A frame is a creation, a message for the scheduler, or nothing. *)
Lemma on_frame_world d rpcID frame :
  let w := d_world d in
  let w' := d_world (on_frame lim allowed h rpcID frame d) in
  let o := HandleFrame lim allowed h (d_links d) (mgr w) (clock w) rpcID frame in
  cache (mgr w) !! "" = None -> fresh_id rpcID w ->
  rtc step w w' /\ pushed (mgr w') = pushed (mgr w) /\
  scheduler (mgr w') = foldl push_one (scheduler (mgr w)) (option_list (hd_pushed o)) /\
  match hd_launch o with
  | Some l => rpcID ∈ issued w' /\ tx_RPCID (l_tx l) = rpcID
  | None => transactionsByRPCID (mgr w') = transactionsByRPCID (mgr w)
            /\ pendingReplies (mgr w') = pendingReplies (mgr w)
  end.
Proof.
  cbv zeta. intros Hc Hf. unfold on_frame. cbn [d_world mgr].
  set (w := d_world d) in *. set (o := HandleFrame _ _ _ _ _ _ _ _).
  pose proof (frame_outcome lim allowed h (d_links d) (mgr w) (clock w) rpcID frame Hc) as Ho.
  cbv zeta in Ho. fold o in Ho.
  destruct Ho as [[l [(Hl & Hp & _) _ (r & _ & _ & changing & _ & _ & _ & _ & _ & Hcr) _]]|
                  [(Hl & msg & Hp & _ & Hm)|[(Hl & Hp & Hm) _]]].
  - rewrite Hl, Hp. split; [apply rtc_once; by eapply step_create|].
    destruct (CreateTransaction_quiet _ _ _ _ _ _ _ _ _ _ _ Hcr) as (Hpu & Hsc & _ & Hid & _).
    split_and!; [done|by rewrite Hsc|set_solver|done].
  - rewrite Hl, Hp, Hm. unfold scheduler_Push. destruct (scheduler (mgr w)) as [s|] eqn:Hs.
    + split; [|done]. apply rtc_once. by apply (step_push w msg s).
    + split; [|done]. by destruct w.
  - rewrite Hl, Hp, Hm. split; [|done]. by destruct w.
Qed.

(** ** A result undisturbed

    Run without interference the steps of a result are [processNATSResult]. *)

Definition ran (w : world S St) (m : t S) (st : St) (w' : world S St) : Prop :=
  mgr w' = m /\ store w' = st /\ clock w' = clock w.

(** A result suspended in a call, with the world as the call finds it. *)
Record suspended (f : frame) (l : list frame) (m : t S) (st : St) (now : Z) (w : world S St) : Prop := {
  su_mgr : mgr w = m; su_store : store w = st; su_clock : clock w = now; su_frames : frames w = f :: l
}.

(** The call goes on, or returns. *)
Lemma suspended_next res tx f l m st now w w1 f1 :
  suspended f l m st now w -> advance w f w1 l (Some f1) -> clock w1 = now ->
  exists w2, rstep serial res (RRetaining tx f, w) (RRetaining tx f1, w2) /\ suspended f1 l (mgr w1) (store w1) now w2.
Proof.
  intros [_ _ _ Hf] Ha Hc. eexists. split.
  - refine (rs_advance serial res w tx f l w1 (Some f1) _ Ha). rewrite Hf. exact (takes_intro f [] l).
  - by split.
Qed.

Lemma suspended_last res tx f l m st now w w1 :
  suspended f l m st now w -> advance w f w1 l None -> clock w1 = now ->
  exists w2, rstep serial res (RRetaining tx f, w) (after_retain tx (call_error w f), w2) /\
    mgr w2 = mgr w1 /\ store w2 = store w1 /\ clock w2 = now.
Proof.
  intros [_ _ _ Hf] Ha Hc. eexists. split.
  - refine (rs_advance serial res w tx f l w1 None _ Ha). rewrite Hf. exact (takes_intro f [] l).
  - by split_and!.
Qed.

(** [ReleaseOperationLock] inside [RespondAndRetain]. *)
Lemma release_steps res tx r o p l m st ctx now w m' st' e :
  suspended (FRelease r o p) l m st now w -> ReleaseOperationLock m st ctx now o = (m', st', e) ->
  exists w', rtc (rstep serial res) (RRetaining tx (FRelease r o p), w) (RRetaining tx (FLast r p), w') /\
    suspended (FLast r p) l m' st' now w'.
Proof.
  intros Hw. pose proof Hw as [Hm Hst Hc _]. unfold ReleaseOperationLock.
  destruct (release_begin m o) as [m1 [e1|]] eqn:Hr.
  - intros [= <- <- _]. rewrite <- Hm in Hr.
    destruct (suspended_next res tx _ _ _ _ _ _ _ _ Hw (adv_release_refused w r o p m1 e1 l Hr) Hc) as (w1 & Hs & Hw1).
    exists w1. split; [by apply rtc_once|]. cbn in Hw1. by rewrite Hst in Hw1.
  - destruct (store_Delete st ctx now o) as [st1 e1] eqn:Hd. intros [= <- <- _]. rewrite <- Hm in Hr.
    destruct (suspended_next res tx _ _ _ _ _ _ _ _ Hw (adv_release w r o p m1 l Hr) Hc) as (w1 & S1 & Hw1).
    cbn in Hw1. rewrite Hst in Hw1. pose proof Hw1 as [Hm1 Hst1 Hc1 _]. rewrite <- Hst1, <- Hc1 in Hd.
    destruct (suspended_next res tx _ _ _ _ _ _ _ _ Hw1 (adv_delete w1 o (Some (r, p)) ctx st1 e1 l Hd) Hc1) as (w2 & S2 & Hw2).
    cbn in Hw2. rewrite Hm1 in Hw2. pose proof Hw2 as [Hm2 Hst2 Hc2 _].
    destruct (suspended_next res tx _ _ _ _ _ _ _ _ Hw2 (adv_end w2 o (Some (r, p)) l) Hc2) as (w3 & S3 & Hw3).
    cbn in Hw3. rewrite Hm2, Hst2 in Hw3. exists w3. split; [|exact Hw3].
    eapply rtc_l; [exact S1|]. eapply rtc_l; [exact S2|]. by apply rtc_once.
Qed.

(** The call of [RespondAndRetain]. *)
Lemma retain_steps res w tx response ctx o m' st' op err :
  fresh_id o w ->
  RespondAndRetain (mgr w) (store w) ctx (clock w) (re_RPCID res) o response = (m', st', (op, err)) ->
  exists w', rtc (rstep serial res) (RRetain tx response, w) (after_retain tx err, w') /\ ran w m' st' w'.
Proof.
  intros Ho. set (r := re_RPCID res). unfold RespondAndRetain.
  destruct (retain_begin (mgr w) r) as [m1 [tx1|e]] eqn:Hb.
  2:{ intros [= <- <- _ <-]. eexists. split; [by apply rtc_once, rs_refused|done]. }
  destruct (store_Save _ _ _ _) as [st1 serr] eqn:Hs.
  pose proof (rs_begin serial res w tx response m1 tx1 o Ho Hb) as S0. cbv zeta in S0. fold r in S0.
  set (w0 := mkWorld m1 _ _ _ _) in S0.
  assert (Hw0 : suspended (FSave r o tx1 response) (frames w) m1 (store w) (clock w) w0) by by split.
  destruct (suspended_next res tx _ _ _ _ _ _ _ _ Hw0 (adv_save w0 r o tx1 response ctx st1 serr _ Hs) eq_refl)
    as (w1 & S1 & Hw1). cbn in Hw1. pose proof Hw1 as [Hm1 Hst1 Hc1 _].
  destruct (retain_finish m1 (clock w) r o response serr) as [m2 [op2 e2|p]] eqn:Hf.
  - intros [= <- <- _ <-]. pose proof Hf as Hf'. rewrite <- Hm1, <- Hc1 in Hf'.
    destruct (suspended_last res tx _ _ _ _ _ _ _ Hw1 (adv_finish_done w1 r o response serr m2 op2 e2 _ Hf') Hc1)
      as (w2 & S2 & Hm2 & Hst2 & Hc2).
    unfold call_error in S2. rewrite Hm1, Hc1, Hf in S2. cbn [snd] in S2. cbn in Hm2, Hst2.
    exists w2. split; [|split_and!; [done|by rewrite Hst2|done]].
    eapply rtc_l; [exact S0|]. eapply rtc_l; [exact S1|]. by apply rtc_once.
  - destruct (ReleaseOperationLock m2 st1 ctx (clock w) o) as [[m3 st3] e3] eqn:Hr.
    rewrite <- Hm1, <- Hc1 in Hf.
    destruct (suspended_next res tx _ _ _ _ _ _ _ _ Hw1 (adv_finish_release w1 r o response serr m2 p _ Hf) Hc1)
      as (w2 & S2 & Hw2). cbn in Hw2. rewrite Hst1 in Hw2.
    destruct (release_steps res tx r o p _ _ _ ctx _ _ _ _ _ Hw2 Hr) as (w3 & S3 & Hw3).
    pose proof Hw3 as [Hm3 Hst3 Hc3 _].
    destruct (retain_last m3 (clock w) r p) as [m5 e5] eqn:Hla. intros [= <- <- _ <-].
    destruct (suspended_last res tx _ _ _ _ _ _ _ Hw3 (adv_last w3 r p _) Hc3) as (w4 & S4 & Hm4 & Hst4 & Hc4).
    unfold call_error in S4. cbn in Hm4, Hst4. rewrite Hm3, Hc3, Hla in *.
    exists w4. split; [|split_and!; [done|by rewrite Hst4|done]].
    eapply rtc_l; [exact S0|]. eapply rtc_l; [exact S1|]. eapply rtc_l; [exact S2|].
    etrans; [exact S3|]. by apply rtc_once.
Qed.

Lemma result_steps_agree res w ctx o m' st' :
  fresh_id o w -> processNATSResult serial res (mgr w) (store w) ctx (clock w) o = Some (m', st') ->
  exists w', rtc (rstep serial res) (RGet, w) (RDone, w') /\ ran w m' st' w'.
Proof.
  intros Ho Hp. assert (Hget : forall pc, result_get serial res (mgr w) = Some pc ->
    (exists w', rtc (rstep serial res) (pc, w) (RDone, w') /\ ran w m' st' w') ->
    exists w', rtc (rstep serial res) (RGet, w) (RDone, w') /\ ran w m' st' w').
  { intros pc Hg (w' & Hr & Hm). exists w'. split; [|done]. eapply rtc_l; [by apply rs_get|done]. }
  unfold processNATSResult in Hp. unfold result_get in Hget.
  destruct (GetTransaction _ _) as [tx|]; [|injection Hp as <- <-; apply (Hget _ eq_refl); by exists w].
  destruct (format_result _ _) as [obj|]; [|done]. cbn [mbind option_bind] in *.
  apply (Hget _ eq_refl). clear Hget. set (resp := result_response tx obj) in *.
  assert (Hfail : forall w1 r, clock w1 = clock w ->
    rtc (rstep serial res) (RFail r, w1) (RDone, set_mgr (Fail (mgr w1) (clock w) (re_RPCID res) r).1 w1)).
  { intros w1 r <-. apply rtc_once, rs_fail. }
  destruct (tx_Method tx =s upgrade_method).
  - destruct (device_refused res); [injection Hp as <- <-; eexists; by split; [apply Hfail|]|].
    destruct (RespondAndRetain _ _ _ _ _ _ _) as [[m1 st1] [op err]] eqn:Hr.
    destruct (retain_steps res w tx resp ctx o m1 st1 op err Ho Hr) as (w1 & Hs & <- & <- & Hck).
    destruct err as [e|]; [|injection Hp as <- <-; exists w1; by split]. cbn in Hs.
    destruct (errors_Is e ErrHandoffInProgress); [injection Hp as <- <-; exists w1; by split|].
    injection Hp as <- <-. eexists. split; [etrans; [exact Hs|by apply Hfail]|by split_and!].
  - injection Hp as <- <-. eexists. split; [by apply rtc_once, rs_complete|done].
Qed.

(** ** One scheduler *)

Context (SInv : S -> Prop) `{!OutboundSchedulerLaws S SInv}.

(** The manager and the writer have the same one. *)
Definition synced d : Prop := scheduler (mgr (d_world d)) = Some (sh_scheduler (w_shared (d_writer d))).

Lemma deliver_scheduler msgs (x : WsWriter.world S) :
  Some (sh_scheduler (w_shared (deliver msgs x))) = foldl push_one (Some (sh_scheduler (w_shared x))) msgs.
Proof using All.
  revert x. induction msgs as [|msg msgs IH]; intros x; [done|]. unfold deliver in *. simpl. rewrite IH. f_equal.
  unfold deliver1. destruct (os_Push _ msg) as [s [e|]] eqn:Hp; [|done]. apply os_Push_err in Hp as ->. done.
Qed.

Lemma deliver_steps msgs (x : WsWriter.world S) : rtc (wstep cloud false) x (deliver msgs x).
Proof.
  revert x. induction msgs as [|msg msgs IH]; intros x; [done|]. unfold deliver in *. simpl.
  etrans; [|apply IH]. unfold deliver1. destruct (os_Push _ msg) as [s [e|]] eqn:Hp; [done|].
  apply rtc_once. by apply WsWriter.step_push.
Qed.

Lemma put_world_synced w d : synced d -> pushes (mgr (d_world d)) (mgr w) -> synced (put_world w d).
Proof using All.
  unfold synced. intros Hs (_ & log & Hp & Hsc & _). cbn. rewrite deliver_scheduler, <- Hs, Hsc.
  unfold handed. by rewrite Hp, drop_app_length.
Qed.

(** The writer touches the scheduler with [Next] only. *)
Lemma move_scheduler mv (g : shared S) s g' s' :
  session_move cloud mv g s = Some (g', s') ->
  sh_scheduler g' = sh_scheduler g \/
  exists ctx msg, os_Next (sh_scheduler g) ctx = NextMessage msg (sh_scheduler g')
                  \/ os_Next (sh_scheduler g) ctx = NextWait (sh_scheduler g').
Proof.
  intros Hm%session_move_moved. destruct Hm as [|g' f' Hf Hs|g' f' Hf Hn|m r g' w' Hf Hw Hr| |m r| | | |m e| |]; auto.
  - left. unfold feeder_start in Hs. by destruct (sh_pendingMsg g); injection Hs as <- _.
  - unfold feeder_next in Hn. destruct (os_Next (sh_scheduler g) _) as [msg s'|e|s'] eqn:En; injection Hn as <- _.
    + right. eexists _, msg. left. exact En.
    + by left.
    + right. eexists _, (mkMsg "" 0 ""). right. exact En.
  - left. unfold writer_receive in Hr. by destruct (stale _ m); injection Hr as <- _.
  - left. destruct r; cbn; by rewrite ?put_back_scheduler, ?retain_scheduler.
  - left. apply retain_scheduler.
Qed.

Lemma put_writer_steps x d :
  synced d ->
  (sh_scheduler (w_shared x) = sh_scheduler (w_shared (d_writer d)) \/
   exists ctx msg, os_Next (sh_scheduler (w_shared (d_writer d))) ctx = NextMessage msg (sh_scheduler (w_shared x))
                   \/ os_Next (sh_scheduler (w_shared (d_writer d))) ctx = NextWait (sh_scheduler (w_shared x))) ->
  rtc step (d_world d) (d_world (put_writer x d)).
Proof.
  unfold synced. intros Hs [He|(ctx & msg & Hn)].
  - cbn. rewrite He, <- Hs. destruct (d_world d) as [[] ? ? ? ?]. done.
  - apply rtc_once. by eapply step_consume.
Qed.

(** Every step of the daemon is made of steps of the manager and of steps of
    the writer, on one scheduler. *)
Lemma dstep_steps d d' :
  winv (d_world d) -> synced d -> dstep d d' ->
  rtc step (d_world d) (d_world d') /\ rtc (wstep cloud false) (d_writer d) (d_writer d') /\ synced d'.
Proof using All.
  intros Hw Hs Hd. assert (Hput : forall w', pushes (mgr (d_world d)) (mgr w') -> rtc step (d_world d) w' ->
    rtc step (d_world d) (d_world (put_world w' d)) /\
    rtc (wstep cloud false) (d_writer d) (d_writer (put_world w' d)) /\ synced (put_world w' d)).
  { intros w' Hp Hr. split_and!; [done|apply deliver_steps|by apply put_world_synced]. }
  destruct Hd.
  - pose proof (on_frame_world d rpcID frame (inv_cache _ _ _ _ (proj2 Hw)) ltac:(done)) as (Hr & _ & Hsc & _).
    split_and!; [exact Hr|apply deliver_steps|]. unfold synced in *. rewrite Hsc, Hs. symmetry. apply deliver_scheduler.
  - apply exec_step_world in H3 as [Hr Hp]; [|done]. by apply Hput.
  - unfold on_envelope. destruct (on_result _ _); [|by split_and!]. destruct (_ <? _); by split_and!.
  - by split_and!.
  - apply rstep_steps in H3 as [Hr Hp]. by apply Hput.
  - by split_and!.
  - apply rstep_steps in H3 as [Hr Hp]. by apply Hput.
  - apply background_step in H2 as [Hr Hp]. apply Hput; [done|by apply rtc_once].
  - split_and!; [|by apply rtc_once; eapply WsWriter.step_move|done].
    apply put_writer_steps; [done|]. by eapply move_scheduler.
  - split_and!; [|apply rtc_once; apply WsWriter.step_generation|done]. apply put_writer_steps; [done|by left].
  - split_and!; [|by apply rtc_once; apply WsWriter.step_open|done]. apply put_writer_steps; [done|by left].
  - by split_and!.
  - by split_and!.
  - by split_and!.
Qed.

(** ** Requests only move forward *)

Lemma takes_elem f l l' : takes f l l' -> f ∈ l.
Proof. intros []. apply elem_of_app. right. by left. Qed.

Lemma rstep_progress i res pc w pc' w' :
  winv w -> rstep serial res (pc, w) (pc', w') -> progress i (mgr w) (mgr w').
Proof.
  intros Hw Hs. inversion Hs; subst; clear Hs; simpl.
  - apply progress_refl.
  - apply Complete_progress.
  - exact (run_call_progress i (CFail _ _) (clock w) (mgr w)).
  - by eapply retain_begin_progress.
  - by eapply retain_begin_progress.
  - eapply advance_progress; [done|by eapply takes_elem|done].
Qed.

Lemma background_progress i w w' : winv w -> background w w' -> progress i (mgr w) (mgr w').
Proof.
  intros Hw Hb. destruct Hb; simpl; try apply progress_refl; try by apply progress_same.
  - apply (f_equal fst) in H4. simpl in H4. subst m.
    eapply progress_trans; [apply Timeout_progress|by apply progress_same].
  - apply (f_equal fst) in H2. simpl in H2. subst m. apply release_begin_progress.
  - eapply advance_progress; [done|by eapply takes_elem|done].
Qed.

Lemma exec_progress `{AgentClient} i w env l pc used pc' used' m' :
  exec_step lim allowed h env l (pc, used, mgr w) = (pc', used', m') -> progress i (mgr w) m'.
Proof.
  unfold exec_step. pose proof (fun c now => run_call_progress i c now (mgr w)) as Hcall.
  pose proof (progress_refl i (mgr w)) as Hid. destruct pc; simpl.
  - by destruct (used <? dispatchBufferCap h); intros [= <- <- <-].
  - specialize (Hcall (CMarkPreparingDispatch (tx_RPCID (l_tx l))) 0). simpl in Hcall.
    by destruct (MarkPreparingDispatch _ _) as [m []]; intros [= <- <- <-].
  - specialize (Hcall (CMarkPendingPublish (tx_RPCID (l_tx l))) 0). simpl in Hcall.
    by destruct (MarkPendingPublish _ _) as [m []]; intros [= <- <- <-].
  - destruct (e_client env); [|by intros [= <- <- <-]].
    by destruct (dispatch _ _ _ _ _ _); intros [= <- <- <-].
  - intros [= <- <- <-]. exact (Hcall (CMarkInFlight (tx_RPCID (l_tx l))) _).
  - unfold failTransactionWithCode. intros [= <- <- <-]. exact (Hcall (CFail _ _) _).
  - by intros [= <- <- <-].
Qed.

Lemma step_winv w w' : rtc step w w' -> winv w -> winv w'.
Proof. induction 1; [done|]. intros. eauto using step_inv. Qed.

Lemma steps_issued w w' i : rtc step w w' -> i ∈ issued w -> i ∈ issued w'.
Proof. induction 1; [done|]. intros. eauto using step_issued. Qed.

(** ** Every request has its goroutine

    A live request has a goroutine in the list, and one that has ended has
    left its request settled. *)
Record requests (w : world S St) (exec : list (launch * exec_pc)) : Prop := {
  rq_staged : forall i l pc, exec !! i = Some (l, pc) ->
    tx_RPCID (l_tx l) ∈ issued w /\ staged pc (tx_RPCID (l_tx l)) (mgr w);
  rq_cover : forall id tx, transactionsByRPCID (mgr w) !! id = Some tx ->
    exists i l pc, exec !! i = Some (l, pc) /\ tx_RPCID (l_tx l) = id;
}.

(** Steps that add no transaction. *)
Lemma requests_forward w w' exec :
  rtc step w w' -> (forall i, progress i (mgr w) (mgr w')) -> requests w exec -> requests w' exec.
Proof.
  intros Hr Hp [A B]. split.
  - intros i l pc Hi. destruct (A i l pc Hi). split; [by eapply steps_issued|by eapply staged_progress].
  - intros id tx' Htx'. destruct (Hp id tx' Htx') as (tx & Htx & _). by eapply B.
Qed.

(** A goroutine takes a step. *)
Lemma requests_exec w m' exec i l pc pc' :
  requests (set_mgr m' w) exec -> exec !! i = Some (l, pc) -> staged pc' (tx_RPCID (l_tx l)) m' ->
  requests (set_mgr m' w) (<[i := (l, pc')]> exec).
Proof.
  intros [A B] Hi Hst. split.
  - intros j l0 pc0. rewrite list_lookup_insert_Some. intros [(<- & [= <- <-] & _)|[_ Hj]]; [|by apply (A j)].
    split; [by apply (A i l pc)|done].
  - intros id tx Htx. destruct (B id tx Htx) as (j & l0 & pc0 & Hj & Hid).
    destruct (decide (i = j)) as [<-|Hne].
    + exists i, l, pc'. simplify_eq. split; [|done]. apply list_lookup_insert_eq. by eapply lookup_lt_Some.
    + exists j, l0, pc0. by rewrite list_lookup_insert_ne.
Qed.

(** A new request starts its goroutine. *)
Lemma requests_create w w' exec l :
  winv w -> rtc step w w' -> (forall i, i <> tx_RPCID (l_tx l) -> progress i (mgr w) (mgr w')) ->
  tx_RPCID (l_tx l) ∉ issued w -> tx_RPCID (l_tx l) ∈ issued w' ->
  requests w exec -> requests w' (exec ++ [(l, XAcquire)]).
Proof.
  intros Hw Hr Hp Hnew Hin [A B]. split.
  - intros i l0 pc0 [Hi|[_ Hi]]%lookup_app_Some.
    + destruct (A i l0 pc0 Hi) as [Hii Hs]. split; [by eapply steps_issued|].
      eapply staged_progress; [|done]. apply Hp. congruence.
    + apply list_lookup_singleton_Some in Hi as [_ [= <- <-]]. done.
  - intros id tx Htx. destruct (decide (id = tx_RPCID (l_tx l))) as [->|Hne].
    + exists (length exec), l, XAcquire. split; [|done]. by rewrite lookup_app_r, Nat.sub_diag by lia.
    + destruct (Hp id Hne tx Htx) as (tx0 & Htx0 & _). destruct (B id tx0 Htx0) as (i & l0 & pc0 & Hi & ?).
      exists i, l0, pc0. split; [|done]. by apply lookup_app_l_Some.
Qed.

End Safe.
