(* ===== verification/DaemonInv.v ===== *)
(** * The invariant of the daemon

    [dinv]: what holds of the running daemon between two steps of any of its
    goroutines, kept by every step ([dstep_inv]).  It joins the invariant of
    the request manager to the goroutines that work on it: the requests to
    their dispatch goroutines, the suspended [RespondAndRetain] calls to the
    results being processed, the dispatch slots to their holders, and the NATS
    client to the one that recovers it. *)

From S2P Require Import Prelude GoTime Scheduler Json Enums Rpc Commands Envelopes DeviceResult Config Capabilities WsClient WsWriter NatsClient NatsConnect RequestKey Transaction Cache Store Manager ManagerSteps ManagerInv ManagerSafety ManagerProgress ManagerDue ManagerPush Handler HandlerSafe HandlerLive NatsResults Daemon DaemonSafe.
Import RequestManager.

Section Inv.
Context {S : Type} `{OutboundScheduler S} {St : Type} `{OperationStore St} `{GoLib}.
Context (lim : limits) (allowed : option URL) (h : frameHandler) (serial : string).
Context (cloud : CloudConfig) (nats : NATSConfig) (resultCap : Z).
Context (SInv : S -> Prop) `{!OutboundSchedulerLaws S SInv}.

Implicit Types (w : world S St) (d : daemon S St) (m : t S).
Abbreviation dstep := (dstep lim allowed h serial cloud nats resultCap).

(** ** Suspended calls *)

Definition pc_frame (pc : result_pc) : list frame :=
  match pc with RRetaining _ f => [f] | _ => [] end.
Definition thread_frames (l : list (ResultEnvelope * result_pc)) : list frame :=
  concat (pc_frame ∘ snd <$> l).

(** The results being processed: by the worker, and by callbacks. *)
Definition results d : list (ResultEnvelope * result_pc) := option_list (d_worker d) ++ d_callbacks d.

(** A result suspended in [RespondAndRetain] waits for its own transaction. *)
Definition own_frame (x : ResultEnvelope * result_pc) : Prop :=
  Forall (fun f => frame_rpc f = Some (re_RPCID x.1)) (pc_frame x.2).

(** Every suspended call belongs to one result, or is the sweeper's. *)
Record calls (fr : list frame) (l : list (ResultEnvelope * result_pc)) : Prop := {
  ca_frames : exists sweeping, fr ≡ₚ thread_frames l ++ sweeping /\ Forall (fun f => frame_rpc f = None) sweeping;
  ca_own : Forall own_frame l;
}.

Lemma result_get_frame res m pc : result_get serial res m = Some pc -> pc_frame pc = [].
Proof.
  unfold result_get. destruct (GetTransaction m _); [|by intros [= <-]].
  destruct (format_result _ _); [|done]. cbn [mbind option_bind]. repeat case_match; by intros [= <-].
Qed.

Lemma after_retain_frame tx e : pc_frame (after_retain tx e) = [].
Proof. unfold after_retain. by destruct e as [e|]; [destruct (errors_Is e _)|]. Qed.

(** A step of a result keeps its own call in the list, and no other changes. *)
Lemma rstep_frames res pc w pc' w' rest :
  rstep serial res (pc, w) (pc', w') -> own_frame (res, pc) -> frames w ≡ₚ pc_frame pc ++ rest ->
  frames w' ≡ₚ pc_frame pc' ++ rest /\ own_frame (res, pc').
Proof.
  unfold own_frame. cbn. intros Hs Ho Hf. inversion Hs; subst; clear Hs;
    cbn -[after_retain] in *; rewrite ?after_retain_frame; try by split.
  - match goal with E : result_get _ _ _ = _ |- _ => rewrite (result_get_frame _ _ _ E); by split end.
  - by destruct (errors_Is e _).
  - rewrite Hf. split; [done|]. by apply Forall_singleton.
  - match goal with T : takes _ _ _ |- _ => apply takes_perm in T; rewrite T in Hf end.
    apply Permutation_cons_inv in Hf. apply Forall_inv in Ho.
    destruct f' as [f'|]; cbn -[after_retain]; [|by rewrite after_retain_frame].
    split; [by rewrite Hf|]. constructor; [|constructor]. rewrite <- Ho. by eapply advance_rpc.
Qed.

Lemma thread_frames_at l i x :
  l !! i = Some x ->
  exists rest, forall y, thread_frames (<[i := y]> l) ≡ₚ pc_frame y.2 ++ rest /\
                    thread_frames l ≡ₚ pc_frame x.2 ++ rest.
Proof.
  intros Hi. apply list_elem_of_split_length in Hi as (l1 & l2 & -> & ->).
  exists (thread_frames l1 ++ thread_frames l2). intros y. unfold thread_frames.
  rewrite insert_app_r_alt, Nat.sub_diag by done. cbn [list_insert].
  rewrite !fmap_app, !concat_app. cbn. split; apply Permutation_app_swap_app.
Qed.

(** A result of the list takes a step. *)
Lemma calls_rstep l i res pc w pc' w' :
  calls (frames w) l -> l !! i = Some (res, pc) -> rstep serial res (pc, w) (pc', w') ->
  calls (frames w') (<[i := (res, pc')]> l).
Proof.
  intros [(sw & Hf & Hsw) Ho] Hi Hs. destruct (thread_frames_at l i _ Hi) as (rest & Hr).
  destruct (Hr (res, pc')) as [Hnew Hold]. cbn in Hnew, Hold.
  destruct (rstep_frames res pc w pc' w' (rest ++ sw)) as [Hf' Ho'];
    [done|exact (Forall_lookup_1 _ _ _ _ Ho Hi)|by rewrite Hf, Hold, app_assoc|].
  split; [|by apply Forall_insert]. exists sw. split; [|done]. by rewrite Hf', Hnew, app_assoc.
Qed.

Lemma own_frames l f : Forall own_frame l -> f ∈ thread_frames l -> frame_rpc f <> None.
Proof.
  unfold thread_frames. intros Ho Hf Hn. apply list_elem_of_In, in_concat in Hf as (fs & Hfs & Hf).
  apply list_elem_of_In, list_elem_of_fmap in Hfs as (x & -> & Hx).
  rewrite Forall_forall in Ho. specialize (Ho x Hx). unfold own_frame in Ho. rewrite Forall_forall in Ho.
  rewrite (Ho f) in Hn; [done|]. by apply list_elem_of_In.
Qed.

(** The result that is in the call. *)
Lemma call_result d f :
  calls (frames (d_world d)) (results d) -> f ∈ frames (d_world d) -> frame_rpc f <> None ->
  exists res tx, (res, RRetaining tx f) ∈ results d.
Proof.
  intros [(sw & Hfr & Hsw) _] Hf Hr. rewrite Hfr in Hf.
  apply elem_of_app in Hf as [Hf|Hf]; [|rewrite Forall_forall in Hsw; by destruct (Hr (Hsw f Hf))].
  apply list_elem_of_In, in_concat in Hf as (fs & Hfs & Hf).
  apply list_elem_of_In, list_elem_of_fmap in Hfs as ([res pc] & -> & Hx).
  destruct pc as [| | | |tx g|]; try done. destruct Hf as [->|[]]. by exists res, tx.
Qed.

Lemma calls_background l w w' : calls (frames w) l -> background w w' -> calls (frames w') l.
Proof.
  intros [(sw & Hf & Hsw) Ho] Hb. destruct Hb; cbn; try by (split; [by exists sw|]).
  - split; [|done]. exists (FDelete o None :: sw). split; [|by constructor].
    rewrite Hf. apply Permutation_middle.
  - assert (Hfsw : f ∈ sw).
    { assert (f ∈ thread_frames l ++ sw) as [Hin|]%elem_of_app; [|by eapply own_frames in Hin|done].
      rewrite <- Hf. by eapply takes_elem. }
    match goal with T : takes _ _ _ |- _ => apply takes_perm in T; rewrite T in Hf end.
    apply list_elem_of_split in Hfsw as (s1 & s2 & ->).
    assert (Hfr : fr ≡ₚ thread_frames l ++ s1 ++ s2).
    { apply (Permutation_cons_inv (a := f)). rewrite Hf. rewrite app_assoc, (app_assoc _ s1 s2). symmetry. apply Permutation_middle. }
    apply Forall_app in Hsw as [Hs1 [_ Hs2]%Forall_cons].
    split; [|done]. exists (option_list f' ++ s1 ++ s2). split.
    + destruct f'; cbn; rewrite Hfr; [apply Permutation_middle|done].
    + assert (Forall (fun f => frame_rpc f = None) (s1 ++ s2)) by (by apply Forall_app_2).
      destruct f' as [g|]; [|done]. constructor; [|done].
      match goal with A : advance _ _ _ _ _ |- _ => by rewrite (advance_rpc _ _ _ _ _ A) end.
Qed.

(** ** Dispatch slots *)

Definition slots_held (exec : list (launch * exec_pc)) : Z := foldr (fun x n => slots x.2 + n) 0 exec.

Lemma slots_held_insert exec i l pc l' pc' :
  exec !! i = Some (l, pc) -> slots_held (<[i := (l', pc')]> exec) = slots_held exec - slots pc + slots pc'.
Proof.
  revert i. induction exec as [|x exec IH]; intros [|i] Hi; simplify_eq/=; [lia|]. rewrite (IH i Hi). lia.
Qed.

Lemma slots_held_app e1 e2 : slots_held (e1 ++ e2) = slots_held e1 + slots_held e2.
Proof. induction e1 as [|x e1 IH]; simpl; lia. Qed.

Lemma slots_held_nonneg exec : 0 <= slots_held exec.
Proof. induction exec as [|[l pc] exec IH]; simpl; [lia|]. assert (0 <= slots pc) by (by destruct pc as [| | | | |[]|]). lia. Qed.

Lemma exec_step_cap `{AgentClient} env l pc used m pc' used' m' :
  exec_step lim allowed h env l (pc, used, m) = (pc', used', m') ->
  used <= dispatchBufferCap h -> used' <= dispatchBufferCap h.
Proof.
  destruct pc; simpl.
  - destruct (Z.ltb_spec used (dispatchBufferCap h)); intros [= <- <- _]; lia.
  - destruct (MarkPreparingDispatch m _) as [m1 [e|]]; intros [= <- <- _]; lia.
  - destruct (MarkPendingPublish m _) as [m1 [e|]]; intros [= <- <- _]; lia.
  - destruct (e_client env); [|intros [= <- <- _]; lia].
    destruct (dispatch _ _ _ _ _ _); intros [= <- <- _]; lia.
  - intros [= <- <- _]. lia.
  - intros [= <- <- _]. destruct held; lia.
  - intros [= <- <- _]. lia.
Qed.

(** ** The NATS client *)

(** The client the recovery goroutine holds. *)
Definition recovery_client (pc : recovery_pc) : option NATSClient :=
  match pc with
  | NrReport _ (Ok n) | NrSubscribe n | NrClose n | NrSet n => Some n
  | NrOff | NrWait | NrReport _ (Err _) => None
  end.

(** The recovery goroutine has a client, and has reported the link. *)
Definition recovery_reported (links : systemStateManager) (pc : recovery_pc) : Prop :=
  match pc with
  | NrReport states (Ok _) => states = [LinkConnected] \/ states = [] /\ natsLink links = LinkConnected
  | NrReport states (Err _) => states = []
  | NrSubscribe _ | NrClose _ | NrSet _ => natsLink links = LinkConnected
  | NrOff | NrWait => True
  end.

(** The clients that are open are the handler's or the one the recovery
    goroutine holds, never both, and those whose [Close] failed; while the
    handler has none the recovery is at work, and while it has one the link is
    reported connected. *)
Record nats_ok (links : systemStateManager) (ns : nats_side) : Prop := {
  no_open : ns_open ns ≡ₚ option_list (ns_client ns) ++ option_list (recovery_client (ns_recovery ns)) ++ ns_unclosed ns;
  no_target : Forall (eq (mkClient (n_Target nats) true)) (ns_open ns);
  no_recovery : ns_recovery ns = NrOff <-> is_Some (ns_client ns);
  no_link : is_Some (ns_client ns) -> natsLink links = LinkConnected;
  no_reported : recovery_reported links (ns_recovery ns)
}.

Lemma remove_one_perm n l : n ∈ l -> n :: remove_one n l ≡ₚ l.
Proof.
  induction l as [|x l IH]; [by intros ?%elem_of_nil|]. cbn. destruct (decide (x = n)) as [->|Hx]; [done|].
  intros [->|Hin]%elem_of_cons; [done|]. rewrite <- (IH Hin) at 2. apply Permutation_swap.
Qed.

(** A client that nobody else holds is closed. *)
Lemma close_client_open n err ns l :
  ns_open ns ≡ₚ n :: l ++ ns_unclosed ns ->
  ns_open (close_client n err ns) ≡ₚ l ++ ns_unclosed (close_client n err ns).
Proof.
  intros Hp. destruct err as [e|]; cbn; [by rewrite Hp, Permutation_middle|].
  apply (Permutation_cons_inv (a := n)). rewrite remove_one_perm; [done|]. rewrite Hp. by left.
Qed.

Lemma close_client_target n err ns P : Forall P (ns_open ns) -> Forall P (ns_open (close_client n err ns)).
Proof.
  destruct err; [done|]. cbn. induction 1 as [|x l Hx Hl IH]; cbn; [done|]. destruct (decide _); [done|by constructor].
Qed.

Lemma close_client_same n err ns :
  ns_client (close_client n err ns) = ns_client ns /\ ns_recovery (close_client n err ns) = ns_recovery ns.
Proof. by destruct err. Qed.

Lemma recovery_ok `{ConfigLib} `{AgentLib} ctx register agent_Close links ns links' ns' :
  nats_ok links ns -> ns_recovery ns <> NrOff ->
  recovery_step nats ctx register agent_Close links ns = (links', ns') -> nats_ok links' ns'.
Proof.
  intros [Hopen Htgt Hrec Hlink Hrep] Hon. unfold recovery_step.
  destruct (ns_client ns) as [c|] eqn:Hc; [by destruct Hon; apply Hrec|].
  assert (Hbusy : forall pc, pc <> NrOff -> pc = NrOff <-> is_Some (None (A := NATSClient)))
    by (intros pc Hpc; split; [done|by intros []]).
  destruct (ns_recovery ns) as [| |[|l states] [n|e]|n|n|n] eqn:Hpc; [done|..]; cbn in Hopen, Hrep.
  - destruct (NewNATSClient _ _) as [r states] eqn:Hb. apply NewNATSClient_built in Hb.
    destruct r as [n|e]; intros [= <- <-]; (split; cbn; [| |rewrite ?Hc; by apply Hbusy|rewrite ?Hc; by intros []|]).
    + by rewrite Hc, Hopen.
    + constructor; [by destruct Hb as [-> _]|done].
    + left. by destruct Hb.
    + by rewrite Hc.
    + done.
    + done.
  - intros [= <- <-]. destruct Hrep as [?|[_ Hrep]]; [done|].
    split; cbn; rewrite ?Hc; [done|done|by apply Hbusy|by intros []|done].
  - intros [= <- <-]. split; cbn; rewrite ?Hc; [done|done|by apply Hbusy|by intros []|done].
  - intros [= <- <-]. destruct Hrep as [[= -> ->]|[? _]]; [|done].
    split; cbn; rewrite ?Hc; [done|done|by apply Hbusy|by intros []|by right].
  - done.
  - destruct (SubscribeResults _ _ _ _); intros [= <- <-];
      (split; cbn; rewrite ?Hc; [done|done|by apply Hbusy|by intros []|done]).
  - intros [= <- <-]. destruct (close_client_same n (NATSClient_Close n agent_Close) ns) as [Hc' _].
    split; cbn; rewrite ?Hc', ?Hc; cbn; [|by apply close_client_target|by apply Hbusy|by intros []|done].
    by apply (close_client_open n _ ns []).
  - intros [= <- <-]. split; cbn; [done|done|by split|done|done].
Qed.

Lemma reconnected_ok links ns l : l = LinkConnected -> nats_ok links ns -> nats_ok (UpdateNATSLink l links) ns.
Proof.
  intros -> [? ? ? ? Hr]. split; [done..|]. unfold recovery_reported in *.
  destruct (ns_recovery ns) as [| |states [n|e]|n|n|n]; try done. destruct Hr as [?|[? _]]; [by left|by right].
Qed.

Lemma main_subscribe_ok links ctx register agent_Close client :
  (forall n, client = Some n -> n = mkClient (n_Target nats) true /\ natsLink links = LinkConnected) ->
  nats_ok links (main_subscribe ctx register agent_Close (n_Target nats) client).
Proof.
  unfold main_subscribe. destruct client as [n|]; intros Hc.
  - destruct (Hc n eq_refl) as [-> Hl]. set (n := mkClient _ _). cbv zeta.
    assert (Hopen : nats_ok links (mkNats (Some n) NrOff [n] [])) by (split; cbn; [done|by constructor|by split|done|done]).
    destruct (SubscribeResults _ _ _ _); [|exact Hopen].
    set (ns := mkNats _ _ _ _) in *. set (err := NATSClient_Close _ _).
    pose proof (close_client_open n err ns [] ltac:(done)) as Hp.
    pose proof (close_client_target n err ns _ (no_target _ _ Hopen)) as Hf.
    split; cbn in *; [done|done| |by intros []|done]. split; [done|by intros []].
  - split; cbn; [done|by constructor| |by intros []|done]. split; [done|by intros []].
Qed.

(** ** The invariant *)

Record dinv d : Prop := {
  di_world : winv (d_world d);
  di_synced : synced d;
  di_requests : requests (d_world d) (d_exec d);
  di_calls : calls (frames (d_world d)) (results d);
  di_slots : d_used d = slots_held (d_exec d);
  di_capacity : d_used d <= dispatchBufferCap h;
  di_queue : Z.of_nat (length (d_queue d)) <= resultCap;
  di_nats : nats_ok (d_links d) (d_nats d)
}.

Lemma dstep_requests d d' : dinv d -> dstep d d' -> requests (d_world d') (d_exec d').
Proof using All.
  intros I Hd. pose proof (di_world _ I) as Hw. pose proof (di_requests _ I) as Hq.
  destruct (dstep_steps lim allowed h serial cloud nats resultCap SInv d d' Hw (di_synced _ I) Hd) as [Hr _].
  destruct Hd; try (apply (requests_forward _ _ _ Hr); [intros id; cbn|exact Hq]); try apply progress_refl.
  - pose proof (on_frame_world lim allowed h d rpcID frame (inv_cache _ _ _ _ (proj2 Hw)) ltac:(done)) as (_ & _ & _ & Hl).
    unfold on_frame in *. cbn in *. set (o := HandleFrame _ _ _ _ _ _ _ _) in *.
    destruct (hd_launch o) as [l|] eqn:Hlaunch; cbn.
    + destruct Hl as [Hin Hid]. apply (requests_create _ _ _ _ Hw Hr); rewrite ?Hid; try done; [|by apply H2].
      intros i Hi.
      pose proof (frame_outcome lim allowed h (d_links d) (mgr (d_world d)) (clock (d_world d)) rpcID frame
        (inv_cache _ _ _ _ (proj2 Hw))) as Ho. cbv zeta in Ho. fold o in Ho.
      destruct Ho as [[l' [_ _ (r & _ & _ & changing & _ & _ & _ & _ & _ & Hcr) _]]|[[Hno _]|[[Hno _] _]]];
        try congruence.
      by eapply create_progress.
    + rewrite app_nil_r. destruct Hl as [Ht Hp]. apply (requests_forward _ _ _ Hr); [|exact Hq].
      intros i. apply progress_same; cbn; [by rewrite Ht|by rewrite Hp].
  - destruct (rq_staged _ _ Hq _ _ _ H2) as [Hi Hst].
    destruct (own_step lim allowed h (d_world d) (mkEnv (clock (d_world d)) (ns_client (d_nats d)) ctx)
      l pc (d_used d) pc' used' m' Hw eq_refl H3 Hst) as [_ Hst'].
    apply (requests_exec _ _ _ _ l pc); [|done|done].
    apply (requests_forward _ _ _ Hr); [|exact Hq]. intros id. by eapply exec_progress.
  - unfold on_envelope in *. destruct (on_result _ _); [|done]. by destruct (_ <? _).
  - by eapply rstep_progress.
  - by eapply rstep_progress.
  - by eapply background_progress.
  - by apply progress_same.
  - by apply progress_same.
  - by apply progress_same.
Qed.

(** A result that is in no call may be added or removed. *)
Lemma calls_same fr l l' :
  thread_frames l' ≡ₚ thread_frames l -> Forall own_frame l' -> calls fr l -> calls fr l'.
Proof. intros Hp Ho [(sw & Hf & Hs) _]. split; [|done]. exists sw. by rewrite Hf, Hp. Qed.

Lemma dstep_calls d d' : dinv d -> dstep d d' -> calls (frames (d_world d')) (results d').
Proof.
  intros I Hd. pose proof (di_calls _ I) as Hc. pose proof (ca_own _ _ Hc) as Ho. unfold results in *.
  destruct Hd; try exact Hc; cbn.
  - unfold on_envelope. destruct (on_result _ _) as [res|]; [|done]. destruct (_ <? _); [done|]. cbn.
    rewrite app_assoc. eapply calls_same; [| |exact Hc].
    + unfold thread_frames. by rewrite fmap_app, concat_app, app_nil_r.
    + apply Forall_app_2; [done|]. by repeat constructor.
  - rewrite H3 in *. eapply calls_same; [| |exact Hc]; [done|]. by repeat constructor.
  - rewrite H2 in *. exact (calls_rstep _ 0 res pc (d_world d) pc' w' Hc eq_refl H3).
  - rewrite H2 in *. eapply calls_same; [| |exact Hc]; [done|]. by apply Forall_cons in Ho as [_ ?].
  - rewrite <- (insert_app_r (option_list (d_worker d))). eapply calls_rstep; [exact Hc| |done].
    by rewrite lookup_app_r, Nat.add_comm, Nat.add_sub by lia.
  - by eapply calls_background.
Qed.

Lemma dstep_slots d d' :
  dinv d -> dstep d d' -> d_used d' = slots_held (d_exec d') /\ d_used d' <= dispatchBufferCap h.
Proof.
  intros I Hd. pose proof (di_slots _ I) as Hu. pose proof (di_capacity _ I) as Hc.
  destruct Hd; try done; cbn.
  - split; [|done]. rewrite slots_held_app. destruct (hd_launch _); cbn; lia.
  - rewrite (slots_held_insert _ _ _ _ _ _ H2).
    destruct (exec_step_slots _ _ _ _ _ _ _ _ _ _ _ H3) as [_ Hs]. split; [lia|]. by eapply exec_step_cap.
  - unfold on_envelope. destruct (on_result _ _); [|done]. by destruct (_ <? _).
Qed.

Lemma dstep_queue d d' : dinv d -> dstep d d' -> Z.of_nat (length (d_queue d')) <= resultCap.
Proof.
  intros I Hd. pose proof (di_queue _ I) as Hq. destruct Hd; try done; cbn.
  - unfold on_envelope. destruct (on_result _ _); [|done].
    destruct (Z.ltb_spec (Z.of_nat (length (d_queue d))) resultCap); [|done]. cbn. rewrite length_app. cbn. lia.
  - rewrite H2 in Hq. cbn in Hq. lia.
Qed.

Lemma dstep_nats d d' : dinv d -> dstep d d' -> nats_ok (d_links d') (d_nats d').
Proof.
  intros I Hd. pose proof (di_nats _ I) as Hn. destruct Hd; try done; cbn.
  - unfold on_envelope. destruct (on_result _ _); [|done]. by destruct (_ <? _).
  - destruct Hn as [? ? ? ? Hr]. split; [done..|]. unfold recovery_reported in *.
    by destruct (ns_recovery _) as [| |? []| | |].
  - by eapply recovery_ok.
  - by apply reconnected_ok.
Qed.

Lemma dstep_inv d d' : dinv d -> dstep d d' -> dinv d'.
Proof using All.
  intros I Hd.
  destruct (dstep_steps lim allowed h serial cloud nats resultCap SInv d d' (di_world _ I) (di_synced _ I) Hd)
    as (Hr & _ & Hs). destruct (dstep_slots _ _ I Hd).
  split; [eapply step_winv; [done|apply I]|done|by eapply dstep_requests|by eapply dstep_calls|done|done
         |by eapply dstep_queue|by eapply dstep_nats].
Qed.

(** ** Executions *)

(** When the loops are launched: the manager after [Start], and a client that
    is there when start-up built it. *)
Record starts d : Prop := {
  st_world : initial (d_world d);
  st_cache : cache (mgr (d_world d)) = ∅;
  st_fresh : exists links client ctx register agent_Close s,
    d = launched (d_world d) s links (main_subscribe ctx register agent_Close (n_Target nats) client) /\
    scheduler (mgr (d_world d)) = Some s /\ SInv s /\ os_contents s = [] /\
    forall n, client = Some n -> n = mkClient (n_Target nats) true /\ natsLink links = LinkConnected
}.

Definition running d : Prop := exists d0, starts d0 /\ rtc dstep d0 d.

Lemma starts_inv d : 0 <= dispatchBufferCap h -> 0 <= resultCap -> starts d -> dinv d.
Proof.
  intros Hcap Hres [Hi _ (links & client & ctx & register & agent_Close & s & Hd & Hs & _ & _ & Hc)].
  pose proof (initial_inv _ Hi) as Hw. destruct Hi as (Ht & _ & _ & _ & _ & _ & _ & _ & Hf & _).
  rewrite Hd in *. split; cbn in *; try done.
  - split; [by intros []|]. intros id tx. by rewrite Ht.
  - rewrite Hf. split; [by exists []|]. constructor.
  - by apply main_subscribe_ok.
Qed.

Lemma running_inv d : 0 <= dispatchBufferCap h -> 0 <= resultCap -> running d -> dinv d.
Proof using All.
  intros Hcap Hres (d0 & Hs & Hr). apply starts_inv in Hs; [|done..].
  induction Hr; [done|]. eauto using dstep_inv.
Qed.

Lemma running_steps d0 d :
  0 <= dispatchBufferCap h -> 0 <= resultCap -> starts d0 -> rtc dstep d0 d ->
  rtc step (d_world d0) (d_world d) /\ rtc (wstep cloud false) (d_writer d0) (d_writer d).
Proof using All.
  intros Hcap Hres Hs Hr. apply starts_inv in Hs as I; [|done..]. clear Hs.
  induction Hr as [|d0 d1 d Hd _ IH]; [done|]. destruct (IH (dstep_inv _ _ I Hd)) as [Hw Hx].
  destruct (dstep_steps _ _ _ _ _ _ _ SInv _ _ (di_world _ I) (di_synced _ I) Hd) as (Hw' & Hx' & _).
  split; by etrans.
Qed.

End Inv.
