(* ===== verification/DaemonStart.v ===== *)
(** * From start-up to the running daemon

    [main] of cmd/ucentral-client/main.go between the construction of the
    components and the launch of the loops: the recovery of [Start] and the
    first subscription.  What start-up leaves behind is a state from which the
    daemon of [Daemon] runs ([startup_launches_daemon]), so that the theorems
    on the running daemon hold of the program from its first instruction. *)

From S2P Require Import Prelude GoTime GoDuration Scheduler RingBuffer Json Enums Rpc Commands Envelopes Config Capabilities NatsClient NatsConnect Transaction Cache Store Manager Handler WsClient WsWriter ManagerSteps ManagerInv ManagerOps Startup StartupSafe Daemon DaemonInv.
Import RequestManager.
Open Scope go_scope.

(** What [main] does with the components.  [ctx] is the error of the context
    [Start] is given, [now] the time, [sub] the error of the context of the
    subscription, [register] what the agent library answers to it and
    [agent_Close] what it returns when the client is closed;
    [envelopeSize] is the size of a [ResultEnvelope] of that library in bytes.
    [None] is a panic: the two channels are made with configured capacities. *)
Definition main_launch {St} `{OperationStore St} (envelopeSize : Z) (cfg : Config) (app : AppComponents (St := St))
    (ctx : option error) (now : Z) (sub register agent_Close : option error) : option (daemon PriorityScheduler.t St) :=
  let q := Queues cfg in
  if negb (make_chan_ok 0 (NATSPublishCapacity q)) then None else
  let '(m, st) := Start (ap_ReqManager app) (ap_Store app) ctx now in
  if negb (make_chan_ok envelopeSize (CommandResultCapacity q)) then None else
  s ← scheduler m;
  Some (launched (mkWorld m st now [] (dom (store_view (ap_Store app)))) s
          (mkSystemState (ap_natsLink app) LinkConnecting)
          (main_subscribe sub register agent_Close (n_Target (NATS cfg)) (ap_NatsClient app))).

(** ** The recovery *)

Section Recovery.
Context {S : Type} `{OutboundScheduler S} {St : Type} (Inv : St -> Prop) `{OperationStoreLaws St Inv}.

(** [Start] on a manager that has just been built gives an initial state, with
    the identifiers of the stored operations in use. *)
Lemma Start_initial (m : t S) (st : St) ctx now :
  Inv st -> initial (mkWorld m st now [] ∅) ->
  let '(m', st') := Start m st ctx now in
  initial (mkWorld m' st' now [] (dom (store_view st))) /\ scheduler m' = scheduler m /\ cache m' = cache m.
Proof using All.
  intros Hi (Ht & Ha & Hp & Hc & Htm & Hd & Hpu & Hcr & Hf & Hu & Hz & Hl).
  destruct Hl as [(Hfree & Hact & Hown)|(_ & _ & _ & Hin)]; [|set_solver].
  cbn in *. assert (Hno : "" ∉ dom (store_view st)).
  { intros (op & Hop)%elem_of_dom. by destruct (store_view_ids _ _ _ Hi Hop). }
  assert (Hsame : forall st' : St, initial (mkWorld m st' now [] (dom (store_view st)))).
  { intros st'. unfold initial. cbn. split_and!; try done. by left. }
  unfold Start. destruct (store_GetActive st ctx now _) as [st1 [ops|e]] eqn:Hget; [|by split].
  destruct (store_GetActive_ok _ _ _ _ _ _ Hi Hget) as (_ & _ & Hin & _). rewrite Forall_forall in Hin.
  assert (Hids : Forall (fun op => OperationID op <> "") ops).
  { rewrite Forall_forall. intros op Hop. by destruct (store_view_ids _ _ _ Hi (Hin op Hop)). }
  rewrite (start_loop ops m now [] Hfree Hact Hids).
  destruct (List.find (usable m now) ops) as [op|] eqn:Hfind; [|by split].
  apply find_some in Hfind as [Hop%list_elem_of_In _]. split; [|done].
  unfold initial. cbn. split_and!; try done. right. split_and!; [done|done| |].
  - rewrite Forall_forall in Hids. by apply Hids.
  - apply elem_of_dom. by rewrite (Hin op Hop).
Qed.

End Recovery.

(** ** The launch *)

Section Launch.
Context `{GoLib} `{ConfigLib} `{AgentLib} {St : Type} (Inv : St -> Prop) `{OperationStoreLaws St Inv}.
Context (url_Parse : string -> result URL) (NewDiskOperationStore : string -> result St).

Context (envelopeSize : Z).

(** A result queue that cannot be allocated. *)
Definition results_too_large (q : QueueConfig) : Prop :=
  maxAlloc - hchanSize < CommandResultCapacity q * envelopeSize.

Lemma launch_starts cfg app h ctx now sub register agent_Close :
  daemon_ok cfg app h -> Inv (ap_Store app) -> zero_time < now ->
  match main_launch envelopeSize cfg app ctx now sub register agent_Close with
  | Some d => starts (NATS cfg) PriorityScheduler.wf d
  | None => results_too_large (Queues cfg)
  end.
Proof using All.
  intros Hok Hi Hnow. destruct (da_scheduler _ _ _ Hok) as (s & Hs & Hwf & Hempty).
  pose proof (Start_initial Inv _ (ap_Store app) ctx now Hi (da_manager _ _ _ Hok now Hnow)) as Hstart.
  destruct (co_queues _ (da_config _ _ _ Hok)) as [_ _ Hp Hr _ _].
  unfold main_launch. cbv zeta. destruct (Start _ _ _ _) as [m st]. destruct Hstart as (Hinit & Hsched & Hcache).
  unfold results_too_large, make_chan_ok. rewrite Z.mul_0_r.
  destruct (Z.leb_spec 0 (NATSPublishCapacity (Queues cfg))); [|lia].
  destruct (Z.leb_spec 0 (CommandResultCapacity (Queues cfg))); [|lia].
  change (0 <=? maxAlloc - hchanSize) with true. cbn [andb negb].
  destruct (Z.leb_spec (CommandResultCapacity (Queues cfg) * envelopeSize) (maxAlloc - hchanSize)); cbn [negb]; [|done].
  rewrite Hsched, Hs. cbn. split; [done|by cbn; rewrite Hcache; apply (da_cache _ _ _ Hok)|].
  eexists _, (ap_NatsClient app), sub, register, agent_Close, s. split_and!; [done|cbn; congruence|done|done|].
  intros n Hn. split; [by apply (da_nats _ _ _ Hok)|]. apply (da_link _ _ _ Hok). by rewrite Hn.
Qed.

(** C18: Start-up panics only where [make] does, for a configured capacity that
    is beyond the address space, of the telemetry queue while the components
    are built or of the result queue before the launch: the validation of the
    configuration bounds them from below only.  When start-up succeeds the
    daemon is sound: the
    serial is not blank and bound to the client certificate, every queue,
    timeout and limit is positive, no method limit exceeds the absolute one nor
    that one the size of a frame, the limits the validators use are the
    handler's, the trace URL is https without credentials, the reconnect loop
    can fail only on a broken CA file, and the NATS link counts as connected
    exactly when there is a client.  And whatever the recovery of operations
    and the first subscription come to, what is launched is a daemon at its
    start, with capacities that are not negative: everything proved of the
    running daemon holds of it. *)
Theorem startup_launches_daemon getenv configPath :
  match main_startup url_Parse NewDiskOperationStore getenv configPath with
  | None => exists c cfg, LoadConfig configPath = Ok c /\ Config_Validate c = Ok cfg /\
                          telemetry_too_large (Queues cfg)
  | Some (Err _) => True
  | Some (Ok (cfg, app, h)) =>
      daemon_ok cfg app h /\ 0 <= dispatchBufferCap h /\ 0 <= CommandResultCapacity (Queues cfg) /\
      forall ctx now sub register agent_Close, Inv (ap_Store app) -> zero_time < now ->
        match main_launch envelopeSize cfg app ctx now sub register agent_Close with
        | Some d => starts (NATS cfg) PriorityScheduler.wf d
        | None => results_too_large (Queues cfg)
        end
  end.
Proof using All.
  pose proof (startup_sound url_Parse NewDiskOperationStore getenv configPath) as Hs.
  destruct (main_startup _ _ _ _) as [[[[cfg app] h]|e]|]; [|done..].
  split_and!; [done| | |intros ctx now sub register agent_Close; by eapply launch_starts].
  - destruct (da_handler _ _ _ Hs). lia.
  - destruct (co_queues _ (da_config _ _ _ Hs)). lia.
Qed.

End Launch.
