(* ===== verification/DaemonContent.v ===== *)
(** * What the responses say

    Every payload on its way to the cloud - in a goroutine, buffered, cached,
    in a suspended call, with the scheduler - is the response of its request
    ([content]): the cloud reads from it the id of the request and either an
    error of the client or the result object of a result that the agent
    delivered for it ([reply_to]). *)

From S2P Require Import Prelude GoTime Scheduler Json JsonCompact Enums Rpc Responses Commands Envelopes DeviceResult ResultText Config Capabilities WsClient WsWriter NatsClient NatsConnect RequestKey Transaction Cache Store Manager ManagerSteps ManagerInv ManagerSafety ManagerProgress ManagerPush ManagerContent ManagerOps Handler HandlerSafe HandlerAnswers HandlerLive NatsResults Daemon DaemonSafe DaemonInv.
Import RequestManager.

Section Content.
Context {S : Type} `{OutboundScheduler S} {St : Type} `{OperationStore St} `{GoLib}.
Context (lim : limits) (allowed : option URL) (h : frameHandler) (serial : string).
Context (cloud : CloudConfig) (nats : NATSConfig) (resultCap : Z).
Context (SInv : S -> Prop) `{!OutboundSchedulerLaws S SInv}.

Implicit Types (w : world S St) (d : daemon S St) (m : t S) (tx : Transaction).
Abbreviation dstep := (Daemon.dstep lim allowed h serial cloud nats resultCap).
Abbreviation dinv := (DaemonInv.dinv h nats resultCap).

(** ** Responses of a request *)

(** The result object made of a result of the agent. *)
Definition reported_result (res : ResultEnvelope) : option jval :=
  result_value serial (re_UUID res) (re_Result res) (re_ErrorCode res) (re_Message res) (re_Payload res).

(** The result object of a result the agent delivered for the request [id],
    whose raw id is [raw]. *)
Definition result_reply (received : list ResultEnvelope) (id raw payload : string) : Prop :=
  exists res i v, res ∈ received /\ re_RPCID res = id /\ reported_result res = Some v /\
    read_response payload = Some (i, OResult v) /\ reported_id raw i.

Definition reply_to (received : list ResultEnvelope) (id raw payload : string) : Prop :=
  error_reply raw payload \/ result_reply received id raw payload.

(** A result was delivered whose payload nests as deep as a JSON text may: no
    level is left for the response around it. *)
Definition unreportable (received : list ResultEnvelope) (id : string) : Prop :=
  exists res, res ∈ received /\ re_RPCID res = id /\ raw_depth (re_Payload res) = maxNestingDepth.

(** There is no payload for a notification, or for lack of a response. *)
Definition reply_or_none (received : list ResultEnvelope) (id : string) tx (p : option string) : Prop :=
  match p with
  | Some q => reply_to received id (tx_CloudRPCID tx) q
  | None => tx_RespondToCloud tx = false \/ unreportable received id
  end.

(** A proper payload for a request, and the key of the request. *)
Definition proper d (id : string) (p : option string) : Prop :=
  exists tx, deref id (mgr (d_world d)) = Some tx /\ reply_or_none (d_received d) id tx p.
Definition key_of d (id key : string) : Prop :=
  exists tx, deref id (mgr (d_world d)) = Some tx /\ tx_RequestKey tx = key.

Abbreviation proper_mgr d := (good (proper d) (key_of d)).

(** The request [id] is the one of [tx], in whatever state. *)
Definition request_of m (id : string) tx : Prop := tx_request <$> deref id m = Some (tx_request tx).

Lemma request_of_deref m id tx : deref id m = Some tx -> request_of m id tx.
Proof. unfold request_of. by intros ->. Qed.

Lemma request_of_keeps m m' id tx : keeps_requests m m' -> request_of m id tx -> request_of m' id tx.
Proof.
  unfold request_of. intros Hk Hr. destruct (deref id m) as [tx0|] eqn:Hd; [|done]. apply (inj Some) in Hr.
  by rewrite (Hk id tx0 Hd), <- Hr.
Qed.

Lemma request_of_proper d id tx p :
  request_of (mgr (d_world d)) id tx -> reply_or_none (d_received d) id tx p -> proper d id p.
Proof.
  unfold request_of, proper, reply_or_none. destruct (deref id (mgr (d_world d))) as [tx0|]; [|done]. intros Hr%(inj Some) Hp.
  exists tx0. split; [done|]. unfold tx_request in Hr. injection Hr as _ _ -> _ -> _. exact Hp.
Qed.

(** ** The responses the client builds *)

Lemma result_response_proper received res tx obj :
  res ∈ received -> format_result serial res = Some obj -> raw_fits 1 (tx_CloudRPCID tx) ->
  reply_or_none received (re_RPCID res) tx (result_response tx obj).
Proof.
  intros Hin Hf Hid. unfold result_response, reply_or_none. destruct (tx_RespondToCloud tx); [|by left].
  pose proof (result_text_value serial (re_UUID res) (re_Result res) (re_ErrorCode res) (re_Message res) (re_Payload res)) as Ht.
  fold (format_result serial res) (reported_result res) in Ht. rewrite Hf in Ht. destruct Ht as (v & Hr & Hv & Hn).
  pose proof Hv as Hv0. unfold denotes in Hv0. destruct (parse_json obj) as [w|] eqn:Hw; [|done]. injection Hv0 as Hv0.
  assert ((len obj =? 0) = false) as Hl by (destruct (len obj =? 0) eqn:E; [by apply len_zero in E as ->|done]).
  destruct (json_Marshal_response (mkResponse _ _ _ _)) as [p|] eqn:Hp.
  - apply result_response_read in Hp as (i & v' & Hp & Hi & Hv'). rewrite Hl, Hv in Hv'. injection Hv' as <-.
    right. by exists res, i, v.
  - right. exists res. split_and!; [done|done|]. destruct (result_depth_bound (re_Payload res)) as [_ Hb].
    unfold result_depth in Hn, Hb. apply dec_stable. intros Hne.
    destruct (response_marshals (mkResponse JSONRPCVersion obj None (tx_CloudRPCID tx))) as [q Hq]; [|by rewrite Hp in Hq].
    split_and!; [done|done|]. right. exists w. split; [done|]. rewrite <- Hv0, nesting_erase in Hn. change maxNestingDepth with 10000 in *. lia.
Qed.

Lemma error_proper received id tx e result :
  raw_fits 2 (err_data e) -> raw_fits 1 (tx_CloudRPCID tx) ->
  reply_or_none received id tx (json_Marshal_response (mkResponse JSONRPCVersion result (Some e) (tx_CloudRPCID tx))).
Proof.
  intros He Hid. destruct (error_response_ok result e _ He Hid) as [p Hp]. rewrite Hp. left.
  eapply error_response_read; [|exact Hp]. apply reported_own.
Qed.

Lemma retain_failure_proper received id tx :
  raw_fits 1 (tx_CloudRPCID tx) -> reply_or_none received id tx (retain_failure_response tx).
Proof.
  intros Hid. unfold retain_failure_response. destruct (tx_RespondToCloud tx) eqn:Hr; [|by left].
  apply error_proper; [|done]. right. by eexists.
Qed.

Lemma timeout_proper received id tx :
  raw_fits 1 (tx_CloudRPCID tx) -> reply_or_none received id tx (buildTimeoutResponse tx).
Proof.
  intros Hid. unfold buildTimeoutResponse. destruct (tx_RespondToCloud tx) eqn:Hr; [|by left]. cbn [negb].
  destruct (internal_error_ok ErrTimeout "Command timed out waiting for device response") as (e & He & Hd); [cbn; tauto|].
  unfold internal_error in He. rewrite He. by apply error_proper.
Qed.

(** The application codes a dispatch goroutine fails with. *)
Definition failure_code (code : Z) : Prop := In code [ErrAppFailure; ErrServiceUnavailable].
Definition pc_codes (pc : exec_pc) : Prop := match pc with XFail _ code _ => failure_code code | _ => True end.

Lemma failure_proper received id tx code msg :
  failure_code code -> raw_fits 1 (tx_CloudRPCID tx) -> reply_or_none received id tx (failure_response tx code msg).
Proof.
  intros Hc Hid. unfold failure_response. destruct (internal_error_ok code msg) as (e & -> & Hd); [|by apply error_proper].
  unfold failure_code in Hc. cbn in *. tauto.
Qed.

Lemma exec_step_codes `{AgentClient} env l pc used m pc' used' m' :
  exec_step lim allowed h env l (pc, used, m) = (pc', used', m') -> pc_codes pc -> pc_codes pc'.
Proof.
  unfold exec_step, dispatch_failure, failure_code. intros He _. destruct pc; repeat case_match; injection He as <- _ _; cbn; tauto.
Qed.

(** ** The invariant *)

(** The key of a request is the one of its id, which leaves room for a response. *)
Definition keyed m : Prop :=
  forall id tx, deref id m = Some tx ->
    CanonicalRequestKey (tx_CloudSessionID tx) (tx_CloudRPCID tx) = Ok (tx_RequestKey tx) /\
    raw_fits 1 (tx_CloudRPCID tx).

(** What a goroutine carries that processes the result [res]. *)
Definition good_pc d (res : ResultEnvelope) (pc : result_pc) : Prop :=
  match pc with
  | RGet | RDone => True
  | RComplete p | RFail p => proper d (re_RPCID res) p
  | RRetain tx p => request_of (mgr (d_world d)) (re_RPCID res) tx /\ proper d (re_RPCID res) p
  | RRetaining tx _ => request_of (mgr (d_world d)) (re_RPCID res) tx
  end.

Definition good_result d (x : ResultEnvelope * result_pc) : Prop := x.1 ∈ d_received d /\ good_pc d x.1 x.2.
Definition good_exec d (x : launch * exec_pc) : Prop :=
  request_of (mgr (d_world d)) (tx_RPCID (l_tx x.1)) (l_tx x.1) /\ pc_codes x.2.

Record content d : Prop := {
  co_mgr : proper_mgr d (mgr (d_world d));
  co_frames : Forall (good_frame (proper d)) (frames (d_world d));
  co_keyed : keyed (mgr (d_world d));
  co_queue : Forall (fun res => res ∈ d_received d) (d_queue d);
  co_results : Forall (good_result d) (results d);
  co_exec : Forall (good_exec d) (d_exec d)
}.

Lemma request_fits m id tx : keyed m -> request_of m id tx -> raw_fits 1 (tx_CloudRPCID tx).
Proof.
  unfold request_of. intros Hk. destruct (deref id m) as [tx0|] eqn:Hd; [|done]. intros Hr%(inj Some).
  unfold tx_request in Hr. injection Hr as _ _ <- _ _ _. by apply (Hk id tx0).
Qed.

Lemma known_all d : synced d -> content d -> known (proper d) (key_of d) (mgr (d_world d)).
Proof.
  intros Hs C. split; [rewrite Hs; by eexists|]. intros id tx Htx. split; [by exists tx|].
  exists tx. split; [done|]. apply timeout_proper. by apply (co_keyed _ C id).
Qed.

(** ** More is known later *)

(** Nothing that is known of a request or a result is forgotten. *)
Definition later d d' : Prop :=
  keeps_requests (mgr (d_world d)) (mgr (d_world d')) /\ forall res, res ∈ d_received d -> res ∈ d_received d'.

Lemma reply_to_later received received' id raw p :
  (forall res, res ∈ received -> res ∈ received') -> reply_to received id raw p -> reply_to received' id raw p.
Proof. intros Hs [He|(res & i & v & Hin & Hr)]; [by left|]. right. exists res, i, v. split; [by apply Hs|done]. Qed.

Lemma proper_later d d' id p : later d d' -> proper d id p -> proper d' id p.
Proof.
  intros [Hk Hr] (tx & Htx & Hp). apply (request_of_proper _ _ tx); [by eapply request_of_keeps, request_of_deref|].
  destruct p as [q|]; [by eapply reply_to_later|]. destruct Hp as [|(res & Hin & Hu)]; [by left|right].
  exists res. split; [by apply Hr|done].
Qed.

Lemma key_later d d' id k : later d d' -> key_of d id k -> key_of d' id k.
Proof.
  intros [Hk _] (tx & Htx & <-). specialize (Hk id tx Htx). unfold key_of.
  destruct (deref id (mgr (d_world d'))) as [tx'|]; [|done]. apply (inj Some) in Hk. exists tx'. split; [done|].
  unfold tx_request in Hk. congruence.
Qed.

Lemma good_later d d' m : later d d' -> proper_mgr d m -> proper_mgr d' m.
Proof.
  intros Hl [A B C D]. split.
  - intros id r Hr. by eapply proper_later, A.
  - eapply Forall_impl; [exact B|]. intros e. by apply proper_later.
  - intros k e He. destruct (C k e He) as (id & Hk & Hp). exists id. split; [by eapply key_later|by eapply proper_later].
  - intros id tx Htx. destruct (D id tx Htx) as [HG HD]. split; [by eapply proper_later|done].
Qed.

Lemma frame_later d d' f : later d d' -> good_frame (proper d) f -> good_frame (proper d') f.
Proof. intros Hl. destruct f as [| | |o [[id r]|]|o [[id r]|]|]; try done; by apply proper_later. Qed.

Lemma result_later d d' x : later d d' -> good_result d x -> good_result d' x.
Proof.
  intros Hl [Hin Hp]. split; [by apply Hl|]. destruct x as [res pc]. destruct pc; try done; cbn in *.
  - by eapply proper_later.
  - by eapply proper_later.
  - destruct Hp. split; [by eapply request_of_keeps; [apply Hl|]|by eapply proper_later].
  - by eapply request_of_keeps; [apply Hl|].
Qed.

Lemma exec_later d d' x : later d d' -> good_exec d x -> good_exec d' x.
Proof. intros Hl [Hr Hc]. split; [|done]. eapply request_of_keeps; [apply Hl|done]. Qed.

Lemma keyed_pushes m m' : pushes m m' -> keyed m -> keyed m'.
Proof.
  intros [Hs _] Hk id tx' Htx'. specialize (Hs id). rewrite Htx' in Hs.
  destruct (deref id m) as [tx|] eqn:Htx; [|done]. apply (inj Some) in Hs. specialize (Hk id tx Htx).
  unfold tx_request in Hs. injection Hs as _ -> -> -> _ _. exact Hk.
Qed.

(** ** Steps *)

(** The manager and its suspended calls have moved. *)
Lemma content_put w d :
  content d -> pushes (mgr (d_world d)) (mgr w) -> proper_mgr d (mgr w) -> Forall (good_frame (proper d)) (frames w) ->
  content (put_world w d).
Proof.
  intros [_ _ Hk Hq Hr He] Hp Hg Hf.
  assert (later d (put_world w d)) as Hl by (split; [apply same_keeps, Hp|done]). split.
  - by eapply good_later.
  - eapply Forall_impl; [exact Hf|]. intros f. by apply frame_later.
  - by eapply keyed_pushes.
  - exact Hq.
  - eapply (Forall_impl _ (good_result (put_world w d))); [exact Hr|]. intros x. by apply result_later.
  - eapply (Forall_impl _ (good_exec (put_world w d))); [exact He|]. intros x. by apply exec_later.
Qed.

(** A result being processed takes a step. *)
Lemma rstep_content d res pc pc' w' :
  synced d -> content d -> good_result d (res, pc) -> rstep serial res (pc, d_world d) (pc', w') ->
  content (put_world w' d) /\ good_result (put_world w' d) (res, pc').
Proof.
  intros Hsy I [Hin Hp] Hs. pose proof (rstep_steps _ _ _ _ _ _ Hs) as [_ Hpu]. pose proof (known_all d Hsy I) as Hk.
  assert (forall pc, good_pc d res pc -> good_result (put_world w' d) (res, pc)) as Hlater.
  { intros pc0 Hg. apply (result_later d); [|by split]. split; [apply same_keeps, Hpu|done]. }
  pose proof (co_mgr _ I) as Hg. pose proof (co_frames _ I) as Hf.
  inversion Hs; subst; clear Hs; cbn in Hp.
  - split; [by apply content_put|]. apply Hlater.
    match goal with E : result_get _ _ _ = _ |- _ => revert E end. unfold result_get, GetTransaction.
    destruct (transactionsByRPCID _ !! _) as [tx|] eqn:Htx; [|by intros [= <-]].
    assert (deref (re_RPCID res) (mgr (d_world d)) = Some tx) as Hd by (unfold deref; by rewrite Htx).
    destruct (format_result _ _) as [obj|] eqn:Ho; [|done]. cbn [mbind option_bind].
    assert (proper d (re_RPCID res) (result_response tx obj)) as Hr.
    { eapply request_of_proper; [by apply request_of_deref|]. apply result_response_proper; [done..|]. by apply (co_keyed _ I (re_RPCID res)). }
    repeat case_match; intros [= <-]; cbn; try done. split; [by apply request_of_deref|done].
  - split; [|by apply Hlater]. apply content_put; [done|done|by apply Complete_good|done].
  - split; [|by apply Hlater]. apply content_put; [done|done|by apply Fail_good|done].
  - match goal with E : retain_begin _ _ = _ |- _ => apply retain_begin_refused in E as -> end.
    rewrite set_mgr_same in *. split; [by apply content_put|]. apply Hlater. destruct Hp as [Hq _].
    cbn. destruct (errors_Is e _); [done|]. eapply request_of_proper; [exact Hq|].
    apply retain_failure_proper. eapply request_fits; [apply I|exact Hq].
  - destruct Hp as [Hq Hp]. split; [|by apply Hlater]. apply content_put; [done|done| |].
    + match goal with E : retain_begin _ _ = _ |- _ => by eapply retain_begin_good in E end.
    + by constructor.
  - match goal with T : takes _ _ _ |- _ => pose proof (takes_elem _ _ _ T) as Hel; apply takes_perm in T; rewrite T in Hf end.
    apply Forall_cons in Hf as [Hff Hfr].
    match goal with A : advance _ _ _ _ _ |- _ => eapply advance_good in A as [Hg' Hnext]; [|done..] end.
    split.
    + apply content_put; [done|done|done|]. destruct f' as [g|]; [|done]. constructor; [by apply Hnext|done].
    + apply Hlater. destruct f' as [g|]; [exact Hp|]. unfold after_retain. destruct (call_error _ _); [|done].
      destruct (errors_Is _ _); [done|]. eapply request_of_proper; [exact Hp|].
      apply retain_failure_proper. eapply request_fits; [apply I|exact Hp].
Qed.

Lemma background_content d w' : synced d -> content d -> background (d_world d) w' -> content (put_world w' d).
Proof.
  intros Hsy I Hb. pose proof (background_step _ _ Hb) as [_ Hpu]. pose proof (known_all d Hsy I) as Hk.
  pose proof (co_mgr _ I) as Hg. pose proof (co_frames _ I) as Hf. apply content_put; [done|done| |].
  - destruct Hb; try exact Hg.
    + eapply good_same; [| | | |exact Hg]; done.
    + match goal with E : Timeout_ _ _ _ = (?m, _) |- _ => apply (f_equal fst) in E; cbn in E; subst m end.
      eapply good_same; [| | | |by apply Timeout_good]; done.
    + by eapply release_begin_good.
    + match goal with T : takes _ _ _ |- _ => apply takes_perm in T; rewrite T in Hf end.
      apply Forall_cons in Hf as [Hff _].
      match goal with A : advance _ _ _ _ _ |- _ => by eapply advance_good in A as [? _] end.
    + by apply sweep_cache_good.
  - destruct Hb; try exact Hf.
    + by constructor.
    + match goal with T : takes _ _ _ |- _ => apply takes_perm in T; rewrite T in Hf end.
      apply Forall_cons in Hf as [Hff Hfr].
      match goal with A : advance _ _ _ _ _ |- _ => eapply advance_good in A as [_ Hnext]; [|done..] end.
      destruct f' as [g|]; [|done]. constructor; [by apply Hnext|done].
Qed.

Lemma exec_content `{AgentClient} d env i l pc pc' used' m' :
  synced d -> content d -> d_exec d !! i = Some (l, pc) -> e_now env = clock (d_world d) ->
  exec_step lim allowed h env l (pc, d_used d, mgr (d_world d)) = (pc', used', m') ->
  content (put_world (set_mgr m' (d_world d)) d) /\ good_exec (put_world (set_mgr m' (d_world d)) d) (l, pc').
Proof using Type*.
  intros Hsy I Hi Hnow Hs. pose proof (exec_step_world lim allowed h _ _ _ _ _ _ _ _ Hnow Hs) as [_ Hpu].
  pose proof (known_all d Hsy I) as Hk. pose proof (co_mgr _ I) as Hg.
  pose proof (Forall_lookup_1 _ _ _ _ (co_exec _ I) Hi) as [Hrq Hcode]. cbn in Hrq, Hcode. split.
  - apply content_put; [done|done| |apply I]. cbn. revert Hs. unfold exec_step. destruct pc.
    + by destruct (_ <? _); intros [= _ _ <-].
    + pose proof (mark_good (proper d) (key_of d) TxPreparingDispatch _ (tx_RPCID (l_tx l)) Hg) as Hm.
      unfold MarkPreparingDispatch. destruct (mark _ _ _) as [m1 [e|]]; by intros [= _ _ <-].
    + pose proof (mark_good (proper d) (key_of d) TxPendingPublish _ (tx_RPCID (l_tx l)) Hg) as Hm.
      unfold MarkPendingPublish. destruct (mark _ _ _) as [m1 [e|]]; by intros [= _ _ <-].
    + destruct (e_client env); [|by intros [= _ _ <-]]. by destruct (dispatch _ _ _ _ _ _); intros [= _ _ <-].
    + intros [= _ _ <-]. by apply MarkInFlight_good.
    + intros [= _ _ <-]. apply Fail_good; [done|done|]. eapply request_of_proper; [exact Hrq|].
      apply failure_proper; [done|]. eapply request_fits; [apply I|exact Hrq].
    + by intros [= _ _ <-].
  - apply (exec_later d); [split; [apply same_keeps, Hpu|done]|]. split; [exact Hrq|]. by eapply exec_step_codes.
Qed.

(** A frame: a new request, an answer, or nothing. *)
Lemma frame_content d rpcID f :
  dinv d -> fresh_id rpcID (d_world d) -> content d -> content (on_frame lim allowed h rpcID f d).
Proof using Type*.
  intros I Hfresh C. pose proof (inv_cache _ _ _ _ (proj2 (di_world _ _ _ _ I))) as Hc.
  set (d' := on_frame lim allowed h rpcID f d).
  set (o := HandleFrame lim allowed h (d_links d) (mgr (d_world d)) (clock (d_world d)) rpcID f).
  assert (mgr (d_world d') = hd_mgr o) as Hm by done.
  assert (keeps_requests (mgr (d_world d)) (hd_mgr o) /\ proper_mgr d (hd_mgr o) /\ keyed (hd_mgr o) /\
          forall l, hd_launch o = Some l -> request_of (hd_mgr o) (tx_RPCID (l_tx l)) (l_tx l)) as (Hk & Hg & Hkey & Hl).
  { destruct (frame_outcome lim allowed h (d_links d) (mgr (d_world d)) (clock (d_world d)) rpcID f Hc)
      as [[l [(Hl & _) _ (r & Hdec & _ & changing & _ & _ & _ & _ & _ & Hcr) _]]|
          [(Hl & msg & Hp & _ & Hmgr)|[(Hl & Hp & Hmgr) _]]]; fold o in Hl |- *.
    - fold o in Hcr. pose proof (CreateTransaction_spec _ _ _ _ _ _ _ _ _ _ _ Hcr) as (Hkey & _).
      destruct (CreateTransaction_quiet _ _ _ _ _ _ _ _ _ _ _ Hcr) as (_ & _ & Hother & Hid & Hses & Hraw & Hnew).
      assert (deref rpcID (mgr (d_world d)) = None) as Hnone.
      { destruct (deref rpcID (mgr (d_world d))) eqn:Hd; [|done].
        by apply (deref_issued _ _ _ _ _ _ (proj2 (di_world _ _ _ _ I))), Hfresh in Hd. }
      split_and!.
      + intros i tx Hi. rewrite Hother; [by rewrite Hi|]. intros ->. congruence.
      + eapply CreateTransaction_good; [done|apply C].
      + intros i tx Hi. destruct (decide (i = rpcID)) as [->|Hn].
        * rewrite Hnew in Hi. injection Hi as <-. rewrite Hses, Hraw. split; [done|]. by eapply request_id_ok.
        * rewrite Hother in Hi by done. by apply (co_keyed _ C i).
      + intros l' E. rewrite Hl in E. injection E as <-. rewrite Hid. by apply request_of_deref.
    - fold o in Hmgr. rewrite Hmgr, Hl. assert (forall m, same_requests m (scheduler_Push msg m)) as Hs.
      { intros m. unfold scheduler_Push. by destruct (scheduler m); apply requests_same. }
      split_and!; [by apply same_keeps| | |done].
      + unfold scheduler_Push. destruct (scheduler (mgr (d_world d))); [|apply C].
        eapply good_same; [| | | |apply C]; done.
      + intros i tx. unfold scheduler_Push. destruct (scheduler (mgr (d_world d))); apply (co_keyed _ C i).
    - fold o in Hmgr. rewrite Hmgr, Hl. split_and!; [by apply same_keeps|apply C|apply C|done]. }
  assert (later d d') as Hlater by (by split). split.
  - by eapply good_later.
  - eapply Forall_impl; [apply C|]. intros g. by apply frame_later.
  - done.
  - apply C.
  - eapply (Forall_impl _ (good_result d')); [apply C|]. intros x. by apply result_later.
  - cbn [d_exec on_frame d']. apply Forall_app. split.
    + eapply (Forall_impl _ (good_exec d')); [apply C|]. intros x. by apply exec_later.
    + fold o. destruct (hd_launch o) as [l|]; [|constructor]. constructor; [|constructor]. split; [by apply Hl|done].
Qed.

Lemma envelope_content d msg : content d -> content (on_envelope nats resultCap msg d).
Proof.
  intros C. unfold on_envelope. destruct (on_result _ _) as [res|]; [|done].
  set (d' := put_received res _). assert (mgr (d_world d') = mgr (d_world d) /\ frames (d_world d') = frames (d_world d) /\
    d_exec d' = d_exec d /\ d_received d' = d_received d ++ [res]) as (Hm & Hf & He & Hr) by (unfold d'; by destruct (_ <? _)).
  assert (later d d') as Hl.
  { split; [rewrite Hm; by apply same_keeps|]. rewrite Hr. intros r Hin. apply elem_of_app. by left. }
  assert (res ∈ d_received d') as Hin by (rewrite Hr; apply elem_of_app; right; by left).
  assert (Forall (fun r => r ∈ d_received d') (d_queue d)) as Hq.
  { eapply Forall_impl; [apply C|]. intros r. apply Hl. }
  assert (Forall (good_result d') (results d)) as Hres.
  { eapply Forall_impl; [apply C|]. intros x. by apply result_later. }
  split; rewrite ?Hm, ?Hf, ?He.
  - eapply good_later; [done|apply C].
  - eapply Forall_impl; [apply C|]. intros g. by apply frame_later.
  - apply C.
  - unfold d'. destruct (_ <? _); [|done]. apply Forall_app. split; [done|by apply Forall_singleton].
  - unfold results in *. assert (d_worker d' = d_worker d) as -> by (unfold d'; by destruct (_ <? _)).
    assert (d_callbacks d' = d_callbacks d \/ d_callbacks d' = d_callbacks d ++ [(res, RGet)]) as [-> | ->]
      by (unfold d'; destruct (_ <? _); auto); [done|].
    rewrite app_assoc. apply Forall_app. split; [done|]. apply Forall_singleton. by split.
  - eapply Forall_impl; [apply C|]. intros x. by apply exec_later.
Qed.

(** Only what is in the record counts. *)
Lemma content_same d d' :
  d_world d' = d_world d \/ (exists s, d_world d' = set_mgr (set_scheduler s (mgr (d_world d))) (d_world d)) ->
  d_received d' = d_received d -> d_exec d' = d_exec d ->
  Forall (fun res => res ∈ d_received d) (d_queue d') -> Forall (good_result d) (results d') ->
  content d -> content d'.
Proof.
  intros Hw Hr He Hq Hres C.
  assert (same_requests (mgr (d_world d)) (mgr (d_world d'))) as Hs.
  { destruct Hw as [-> |[s ->]]; [done|]. by apply requests_same. }
  assert (later d d') as Hl by (split; [by apply same_keeps|by rewrite Hr]).
  assert (pendingReplies (mgr (d_world d')) = pendingReplies (mgr (d_world d)) /\
    pushed (mgr (d_world d')) = pushed (mgr (d_world d)) /\ cache (mgr (d_world d')) = cache (mgr (d_world d)) /\
    detached (mgr (d_world d')) = detached (mgr (d_world d)) /\
    frames (d_world d') = frames (d_world d) /\ keyed (mgr (d_world d'))) as (H1' & H2' & H3' & H6' & H4' & H5').
  { destruct Hw as [-> |[s ->]]; (split_and!; [done..|apply C]). }
  split; rewrite ?Hr, ?He, ?H4'; try done.
  - eapply good_later; [done|]. eapply good_same; [done..|apply C].
  - eapply Forall_impl; [apply C|]. intros g. by apply frame_later.
  - eapply Forall_impl; [exact Hres|]. intros x. by apply result_later.
  - eapply Forall_impl; [apply C|]. intros x. by apply exec_later.
Qed.

Lemma dstep_content d d' : dinv d -> dstep d d' -> content d -> content d'.
Proof using Type*.
  intros I Hd C. pose proof (di_synced _ _ _ _ I) as Hsy. pose proof (co_results _ C) as Hres. pose proof (co_queue _ C) as Hq. unfold results in Hres.
  destruct Hd; try (apply (content_same d); first [by left|by right; eexists|done]; fail).
  - by apply frame_content.
  - eapply exec_content in H3 as [C' He]; [|done..]. destruct C' as [A1 A2 A3 A4 A5 A6]. split; try done.
    by apply Forall_insert.
  - by apply envelope_content.
  - rewrite H2 in Hq. apply Forall_cons in Hq as [Hin Hq]. rewrite H3 in Hres.
    apply (content_same d); [by left|done|done|exact Hq|by constructor|done].
  - rewrite H2 in Hres. apply Forall_cons in Hres as [Hx Hres].
    apply rstep_content in H3 as [[A1 A2 A3 A4 A5 A6] Hx']; [|done..]. split; try done.
    unfold results in *. cbn in A5 |- *. rewrite H2 in A5. apply Forall_cons in A5 as [_ A5]. by constructor.
  - rewrite H2 in Hres. apply Forall_cons in Hres as [Hx Hres]. apply (content_same d); [by left|done|done|done|done|done].
  - apply Forall_app in Hres as [Hw Hres].
    apply rstep_content in H3 as [[A1 A2 A3 A4 A5 A6] Hx']; [|done|done|by eapply Forall_lookup_1 in Hres]. split; try done.
    unfold results in *. cbn in A5 |- *. apply Forall_app in A5 as [? ?]. apply Forall_app. split; [done|]. by apply Forall_insert.
  - by apply background_content.
Qed.

End Content.
