(* ===== verification/DaemonOrigin.v ===== *)
(** * Where the messages come from

    Every message the daemon hands to the scheduler has one frame that caused
    it, a different one for each message, is addressed to the session of that
    frame and answers it ([origins]): the frame handler's own answers by what it
    does, a response because its transaction was created from the frame and
    kept the session ([ManagerPush]) and because its payload is the one of its
    request ([DaemonContent]). *)

From S2P Require Import Prelude GoTime Scheduler Json Enums Rpc Commands Envelopes DeviceResult Config Capabilities WsClient WsWriter NatsClient NatsConnect RequestKey Transaction Cache Store Manager ManagerSteps ManagerInv ManagerSafety ManagerProgress ManagerPush ManagerContent Responses Handler HandlerSafe HandlerAnswers HandlerLive NatsResults Daemon DaemonSafe DaemonInv DaemonContent.
Import RequestManager.

Section Origin.
Context {S : Type} `{OutboundScheduler S} {St : Type} `{OperationStore St} `{GoLib}.
Context (lim : limits) (allowed : option URL) (h : frameHandler) (serial : string).
Context (cloud : CloudConfig) (nats : NATSConfig) (resultCap : Z).
Context (SInv : S -> Prop) `{!OutboundSchedulerLaws S SInv}.

Implicit Types (w : world S St) (d : daemon S St) (m : t S).
Abbreviation dstep := (Daemon.dstep lim allowed h serial cloud nats resultCap).
Abbreviation dinv := (DaemonInv.dinv h nats resultCap).
Abbreviation running := (DaemonInv.running lim allowed h serial cloud nats resultCap SInv).

(** ** What the scheduler took *)

(** The messages the scheduler took come from the manager's log or from the
    frame handler, none more often than it was given. *)
Definition sources d : Prop :=
  w_accepted (d_writer d) ⊆+ (snd <$> pushed (mgr (d_world d))) ++ d_answers d.

Lemma deliver_accepted msgs (x : WsWriter.world S) :
  exists taken, w_accepted (deliver msgs x) = w_accepted x ++ taken /\ taken ⊆+ msgs.
Proof.
  revert x. induction msgs as [|msg msgs IH]; intros x.
  { exists []. by rewrite app_nil_r. }
  destruct (IH (deliver1 x msg)) as (taken & Ha & Hs). unfold deliver in *. cbn. rewrite Ha. unfold deliver1.
  destruct (os_Push _ msg) as [s [e|]].
  - exists taken. split; [done|]. by apply submseteq_cons.
  - exists (msg :: taken). cbn. rewrite <- app_assoc. split; [done|]. by apply submseteq_skip.
Qed.

Lemma put_world_sources w d :
  pushes (mgr (d_world d)) (mgr w) -> sources d -> sources (put_world w d).
Proof.
  unfold sources, put_world. intros (_ & log & Hp & _) Hs. cbn.
  destruct (deliver_accepted (handed (mgr (d_world d)) (mgr w)) (d_writer d)) as (taken & -> & Ht).
  unfold handed in Ht. rewrite Hp, drop_app_length in Ht. rewrite Hp, fmap_app, <- app_assoc.
  rewrite (Permutation_app_comm (snd <$> log)), app_assoc. by apply submseteq_app.
Qed.

Lemma dstep_sources d d' : dinv d -> dstep d d' -> sources d -> sources d'.
Proof.
  intros I Hd Hs. destruct Hd; try exact Hs.
  - pose proof (on_frame_world lim allowed h d rpcID frame
      (inv_cache _ _ _ _ (proj2 (di_world _ _ _ _ I))) ltac:(done)) as (_ & Hp & _).
    unfold sources in *. rewrite Hp. unfold on_frame. cbn.
    set (msgs := option_list _). destruct (deliver_accepted msgs (d_writer d)) as (taken & -> & Ht).
    rewrite app_assoc. by apply submseteq_app.
  - apply (exec_step_world lim allowed h) in H3 as [_ Hp]; [|done]. by apply (put_world_sources (set_mgr m' (d_world d))).
  - unfold on_envelope. destruct (on_result _ _); [|done]. by destruct (_ <? _).
  - apply rstep_steps in H3 as [_ Hp]. by apply (put_world_sources w').
  - apply rstep_steps in H3 as [_ Hp]. by apply (put_world_sources w').
  - apply background_step in H2 as [_ Hp]. by apply put_world_sources.
Qed.

(** ** The frame behind a message *)

(** The transaction was created from the frame. *)
Definition created_from (f : InboundFrame) (tx : Transaction) : Prop :=
  tx_CloudSessionID tx = f_SessionID f /\
  exists r, decode_request (f_Payload f) = Ok r /\ tx_CloudRPCID tx = req_id r.

(** The payload is a response to the request the frame [e] carries. *)
Definition reply_frame (received : list ResultEnvelope) (e : string * InboundFrame) (payload : string) : Prop :=
  reply_to serial received e.1 (frame_id e.2) payload.

(** The two frames carry requests with one and the same key. *)
Definition same_key (e0 e : string * InboundFrame) : Prop :=
  exists k, k <> "" /\ CanonicalRequestKey (f_SessionID e0.2) (frame_id e0.2) = Ok k /\
                       CanonicalRequestKey (f_SessionID e.2) (frame_id e.2) = Ok k.

(** The message answers the frame [e]: it is a response to its request, or the
    recorded response to the same request received before. *)
Definition answers_frame (frames : list (string * InboundFrame)) (received : list ResultEnvelope)
    (msg : OutboundMessage) (e : string * InboundFrame) : Prop :=
  addressed (f_SessionID e.2) msg /\
  (reply_frame received e (Payload msg) \/
   exists e0, e0 ∈ frames /\ same_key e0 e /\ reply_frame received e0 (Payload msg)).

Lemma answers_frame_later fs fs' rs rs' msg e :
  (forall e, e ∈ fs -> e ∈ fs') -> (forall r, r ∈ rs -> r ∈ rs') ->
  answers_frame fs rs msg e -> answers_frame fs' rs' msg e.
Proof.
  intros Hf Hr [Ha Hp]. split; [done|]. destruct Hp as [Hp|(e0 & Hin & Hk & Hp)].
  - left. by eapply reply_to_later.
  - right. exists e0. split_and!; [by apply Hf|done|by eapply reply_to_later].
Qed.

Lemma answers_later fs fs' rs rs' msgs es :
  (forall e, e ∈ fs -> e ∈ fs') -> (forall r, r ∈ rs -> r ∈ rs') ->
  Forall2 (answers_frame fs rs) msgs es -> Forall2 (answers_frame fs' rs') msgs es.
Proof. intros Hf Hr HF. eapply Forall2_impl; [exact HF|]. intros msg e. by apply answers_frame_later. Qed.

Abbreviation answered_by d := (answers_frame (d_frames d) (d_received d)).

Lemma created_id f tx : created_from f tx -> tx_CloudRPCID tx = frame_id f.
Proof. intros [_ (r & Hd & ->)]. unfold frame_id. by apply frame_id_request. Qed.

(** The frames that were admitted and those the handler answered itself. *)
Definition origins d : Prop :=
  exists adm ans, adm ++ ans ⊆+ d_frames d /\ Forall2 (answered_by d) (d_answers d) ans /\
    forall id tx, deref id (mgr (d_world d)) = Some tx -> exists f, (id, f) ∈ adm /\ created_from f tx.

Lemma created_from_same f tx tx' : tx_request tx' = tx_request tx -> created_from f tx -> created_from f tx'.
Proof.
  unfold tx_request. intros E [Hs (r & Hr & Hid)]. split; [congruence|]. exists r. split; [done|congruence].
Qed.

Lemma origins_forward d d' :
  same_requests (mgr (d_world d)) (mgr (d_world d')) -> d_frames d' = d_frames d -> d_answers d' = d_answers d ->
  (forall res, res ∈ d_received d -> res ∈ d_received d') -> origins d -> origins d'.
Proof.
  intros Hs Hf Ha Hr (adm & ans & Hsub & Hans & Htx). exists adm, ans. rewrite Hf, Ha.
  split_and!; [done|by eapply answers_later|].
  intros id tx' Hid. specialize (Hs id). rewrite Hid in Hs.
  destruct (deref id (mgr (d_world d))) as [tx|] eqn:Hd; [|done]. apply (inj Some) in Hs.
  destruct (Htx id tx Hd) as (f & Hin & Hc). exists f. split; [done|]. by eapply created_from_same.
Qed.

(** A recorded response was given to the same request. *)
Lemma cached_origin d f rpcID k p :
  content serial d -> cache (mgr (d_world d)) !! "" = None -> origins d ->
  CanonicalRequestKey (f_SessionID f) (frame_id f) = Ok k ->
  TransactionCache.Get (cache (mgr (d_world d))) (clock (d_world d)) k = Some p ->
  exists e0, e0 ∈ d_frames d /\ same_key e0 (rpcID, f) /\ reply_frame (d_received d) e0 p.
Proof.
  intros C Hc (adm & ans & Hsub & _ & Htx) Hk Hg. unfold TransactionCache.Get in Hg.
  destruct (cache (mgr (d_world d)) !! k) as [e|] eqn:He; [|done]. cbn [mbind option_bind] in Hg.
  destruct (_ <=? _); [done|]. injection Hg as <-.
  destruct (good_cache _ _ _ (co_mgr _ _ C) _ _ He) as (id0 & (tx & Hd & <-) & (tx' & Hd' & Hp)).
  rewrite Hd in Hd'. injection Hd' as <-. destruct (Htx id0 tx Hd) as (f0 & Hin & Hcr). exists (id0, f0).
  pose proof (co_keyed _ _ C _ _ Hd) as [Hkey _]. cbn in Hp. rewrite (created_id _ _ Hcr) in Hkey, Hp. destruct Hcr as [Hses _].
  rewrite Hses in Hkey. split_and!; [|exists (tx_RequestKey tx); split_and!|exact Hp]; try done.
  - eapply elem_of_submseteq; [|exact Hsub]. apply elem_of_app. by left.
  - intros E. by rewrite E, Hc in He.
Qed.

(** The frame handler's own answer answers the frame. *)
Lemma handler_answers_frame d rpcID f msg :
  content serial d -> cache (mgr (d_world d)) !! "" = None -> origins d ->
  hd_pushed (HandleFrame lim allowed h (d_links d) (mgr (d_world d)) (clock (d_world d)) rpcID f) = Some msg ->
  addressed (f_SessionID f) msg -> answered_by d msg (rpcID, f).
Proof.
  intros C Hc Ho Hp Hm. split; [exact Hm|].
  destruct (handler_answer lim allowed h (d_links d) (mgr (d_world d)) (clock (d_world d)) rpcID f _ Hp)
    as [He|(k & Hk & Hg)]; [left; by left|]. right. by eapply cached_origin.
Qed.

Lemma frame_origins d rpcID frame :
  content serial d -> cache (mgr (d_world d)) !! "" = None -> origins d -> origins (on_frame lim allowed h rpcID frame d).
Proof.
  intros C Hc Ho. pose proof (fun msg => handler_answers_frame d rpcID frame msg C Hc Ho) as Hanswer.
  destruct Ho as (adm & ans & Hsub & Hans & Htx). unfold on_frame, origins. cbn [d_frames d_answers d_world mgr d_received].
  set (m := mgr (d_world d)) in *. set (o := HandleFrame _ _ _ _ _ _ _ _) in *.
  assert (forall e, e ∈ d_frames d -> e ∈ d_frames d ++ [(rpcID, frame)]) as Hmore by (intros e; rewrite elem_of_app; by left).
  assert (Hsub' : adm ++ ans ++ [(rpcID, frame)] ⊆+ d_frames d ++ [(rpcID, frame)])
    by (rewrite app_assoc; by apply submseteq_app).
  apply (answers_later _ _ _ _ _ _ Hmore (fun r Hr => Hr)) in Hans.
  destruct (frame_outcome lim allowed h (d_links d) m (clock (d_world d)) rpcID frame Hc)
    as [[l [(_ & Hp & _) _ (r & Hdec & _ & changing & _ & _ & _ & _ & _ & Hcr) _]]|
        [(_ & msg & Hp & Hm & Hmgr)|[(_ & Hp & Hmgr) _]]]; fold o in Hp |- *; rewrite Hp; cbn [option_list].
  - fold o in Hcr. destruct (CreateTransaction_quiet _ _ _ _ _ _ _ _ _ _ _ Hcr) as (_ & _ & Hother & Hid & Hses & Hraw & Hnew).
    exists (adm ++ [(rpcID, frame)]), ans. rewrite app_nil_r. split_and!; [|done|].
    + etrans; [|exact Hsub']. by rewrite <- app_assoc, (Permutation_app_comm ans).
    + intros i tx. destruct (decide (i = rpcID)) as [->|Hn].
      * rewrite Hnew. intros [= <-]. exists frame. split; [apply elem_of_app; right; by left|].
        split; [done|]. by exists r.
      * rewrite Hother by done. intros Hi. destruct (Htx i tx Hi) as (f & Hin & ?). exists f.
        split; [apply elem_of_app; by left|done].
  - exists adm, (ans ++ [(rpcID, frame)]). fold o in Hmgr. rewrite Hmgr. split_and!; [done| |].
    + apply Forall2_app; [done|]. constructor; [|constructor].
      apply (answers_frame_later _ _ _ _ _ _ Hmore (fun r Hr => Hr)). by apply Hanswer.
    + intros i tx. unfold scheduler_Push. destruct (scheduler m); apply Htx.
  - exists adm, ans. fold o in Hmgr. rewrite Hmgr, app_nil_r. split_and!; [|done|done].
    by apply submseteq_inserts_r.
Qed.

Lemma dstep_origins d d' : dinv d -> content serial d -> dstep d d' -> origins d -> origins d'.
Proof using Type*.
  intros I C Hd Ho. destruct Hd; try exact Ho.
  - apply frame_origins; [done| |done]. apply (inv_cache _ _ _ _ (proj2 (di_world _ _ _ _ I))).
  - apply (exec_step_world lim allowed h) in H3 as [_ [Hs _]]; [|done]. by eapply origins_forward.
  - unfold on_envelope. destruct (on_result _ _) as [res|]; [|done].
    apply (origins_forward d); try done; try (by destruct (_ <? _)).
    intros r Hr. cbn. destruct (_ <? _); apply elem_of_app; by left.
  - apply rstep_steps in H3 as [_ [Hs _]]. by eapply origins_forward.
  - apply rstep_steps in H3 as [_ [Hs _]]. by eapply origins_forward.
  - apply background_step in H2 as [_ [Hs _]]. by eapply origins_forward.
Qed.

Lemma starts_content d : DaemonInv.starts nats SInv d -> content serial d.
Proof.
  intros [(Ht & _ & Hp & _ & _ & Hdet & Hpu & _ & Hf & _) Hcache (links & client & ctx & register & agent_Close & s & -> & _)].
  cbn in *. split; cbn.
  - split; cbn; [by rewrite Hp|by rewrite Hpu|by rewrite Hcache|by rewrite Hdet].
  - by rewrite Hf.
  - intros id tx. unfold deref. by rewrite Ht, Hdet.
  - constructor.
  - constructor.
  - constructor.
Qed.

Lemma running_origins d :
  0 <= dispatchBufferCap h -> 0 <= resultCap -> running d -> sources d /\ origins d /\ content serial d.
Proof using All.
  intros Hcap Hres (d0 & Hs & Hr). assert (sources d0 /\ origins d0 /\ content serial d0) as Ho.
  { split_and!; [| |by apply starts_content];
      destruct Hs as [(Ht & _ & _ & _ & _ & Hdet & _) _ (links & client & ctx & register & agent_Close & s & -> & _)].
    - apply submseteq_nil_l.
    - exists [], []. split_and!; [apply submseteq_nil_l|constructor|].
      intros id tx. unfold deref. cbn in Ht, Hdet |- *. by rewrite Ht, Hdet. }
  apply (starts_inv h nats resultCap) in Hs; [|done..]. induction Hr as [|d0 d1 d Hd _ IH]; [done|].
  destruct Ho as (? & ? & ?). apply IH; [by eapply dstep_inv|].
  split_and!; [by eapply dstep_sources|by eapply dstep_origins|by eapply dstep_content].
Qed.

(** ** One frame for each message *)

Lemma perm_Forall2 {A B} (P : A -> B -> Prop) l l' k :
  l ≡ₚ l' -> Forall2 P l k -> exists k', k' ≡ₚ k /\ Forall2 P l' k'.
Proof.
  intros Hp. revert k. induction Hp as [|x l l' _ IH|x y l|l l' l'' _ IH1 _ IH2]; intros k HF.
  - by exists k.
  - inversion HF as [|? b ? k0 Hb Hk]; subst. destruct (IH _ Hk) as (k' & Hk' & ?).
    exists (b :: k'). split; [by rewrite Hk'|by constructor].
  - inversion HF as [|? a ? k1 Ha HF1]; subst. inversion HF1 as [|? b ? k2 Hb Hk]; subst.
    exists (b :: a :: k2). split; [apply Permutation_swap|by repeat constructor].
  - destruct (IH1 _ HF) as (k1 & E1 & HF1). destruct (IH2 _ HF1) as (k2 & E2 & HF2).
    exists k2. split; [by rewrite E2|done].
Qed.

Lemma submseteq_Forall2 {A B} (P : A -> B -> Prop) l l' k :
  l' ⊆+ l -> Forall2 P l k -> exists k', k' ⊆+ k /\ Forall2 P l' k'.
Proof.
  intros (rest & Hp)%submseteq_Permutation HF. destruct (perm_Forall2 P _ _ _ Hp HF) as (k' & Hk & HF').
  apply Forall2_app_inv_l in HF' as (k1 & k2 & Hk1 & _ & ->). exists k1. split; [|done].
  rewrite <- Hk. by apply submseteq_inserts_r.
Qed.

(** Entries with different identifiers are found in a list one by one. *)
Lemma choose_entries {A} (P : string -> A -> Prop) (ids : list string) (l : list (string * A)) :
  NoDup ids -> (forall id, id ∈ ids -> exists a, (id, a) ∈ l /\ P id a) ->
  exists sel, sel.*1 = ids /\ sel ⊆+ l /\ Forall (fun e => P e.1 e.2) sel.
Proof.
  intros Hnd Hex.
  assert (exists sel, sel.*1 = ids /\ Forall (fun e => e ∈ l /\ P e.1 e.2) sel) as (sel & Hs & HF).
  { clear Hnd. induction ids as [|id ids IH]; [by exists []|].
    destruct IH as (sel & <- & HF); [intros i Hi; apply Hex; by right|].
    destruct (Hex id) as (a & ? & ?); [by left|]. exists ((id, a) :: sel). split; [done|by constructor]. }
  exists sel. split_and!; [done| |by eapply Forall_impl; [exact HF|intros ? []]].
  apply NoDup_submseteq; [|intros e He; rewrite Forall_forall in HF; by apply HF].
  apply (NoDup_fmap_1 fst). by rewrite Hs.
Qed.

(** The messages handed to the scheduler, each with a frame of its own. *)
Lemma messages_caused d :
  reachable (d_world d) -> origins d -> content serial d ->
  exists causes, causes ⊆+ d_frames d /\
    Forall2 (answered_by d) ((snd <$> pushed (mgr (d_world d))) ++ d_answers d) causes.
Proof.
  intros Hr (adm & ans & Hsub & Hans & Htx) C. pose proof (reachable_answers _ Hr) as Ha.
  pose proof (good_pushed _ _ _ (co_mgr _ _ C)) as Hg.
  pose proof (reachable_inv _ Hr) as [_ I]. destruct (inv_pushed _ _ _ _ I) as [Hnd _].
  set (log := pushed (mgr (d_world d))) in *.
  destruct (choose_entries (fun id f => forall msg, (id, msg) ∈ log -> answered_by d msg (id, f))
              (log.*1) adm Hnd) as (sel & Hs & Hsel & HP).
  - intros id Hid. apply list_elem_of_fmap in Hid as ([id' msg] & -> & Hin).
    rewrite Forall_forall in Ha, Hg. destruct (Ha _ Hin) as (tx & Hd & _). cbn in *.
    destruct (Htx id' tx Hd) as (f & Hf & Hcr). exists f. split; [done|].
    intros msg' Hin'. destruct (Ha _ Hin') as (tx' & Hd' & Hm & Hpr & _). cbn in *.
    destruct (Hg _ Hin') as (tx2 & Hd2 & Hp). cbn in *. rewrite Hd in Hd', Hd2. injection Hd' as <-. injection Hd2 as <-.
    split; [split; [by rewrite Hm; apply Hcr|done]|]. left. unfold reply_frame. cbn. by rewrite <- (created_id _ _ Hcr).
  - exists (sel ++ ans). split; [etrans; [by apply submseteq_app|exact Hsub]|]. apply Forall2_app; [|done].
    clearbody log. clear -Hs HP. revert sel Hs HP. assert (Hall : forall e, e ∈ log -> e ∈ log) by done.
    revert Hall. generalize log at 1 3 5 as l. induction l as [|[id msg] l IH]; intros Hall sel Hs HP.
    + by destruct sel.
    + destruct sel as [|[id' f] sel]; [done|]. injection Hs as -> Hs. inversion HP; subst. cbn in *.
      constructor; [match goal with Hf : forall msg, _ -> _ |- _ => apply Hf end; apply Hall; by left|]. apply IH; [|done|done]. intros e He. apply Hall. by right.
Qed.

End Origin.
