(* ===== verification/DaemonFair.v ===== *)
(** * Every request is answered

    An execution in which the clock advances and no part of the daemon is
    starved ([fair]) answers every request it admits
    ([daemon_answers_requests]): by the device's result if one comes in time,
    by the timeout otherwise.  What fairness asks of the parts can always be
    done: no part ever waits for another to act first ([daemon_never_blocks]). *)

From S2P Require Import Prelude GoTime Scheduler Json Enums Rpc Responses Commands Envelopes DeviceResult Config Capabilities WsClient WsWriter WsLive NatsClient NatsConnect RequestKey Transaction Cache Store Manager ManagerSteps ManagerInv ManagerSafety ManagerProgress ManagerReplay ManagerDue ManagerPush ManagerContent Handler HandlerSafe HandlerAnswers HandlerLive NatsResults Daemon DaemonSafe DaemonInv DaemonContent DaemonOrigin.
Import RequestManager.

Section Fair.
Context {S : Type} `{OutboundScheduler S} {St : Type} `{OperationStore St} `{GoLib}.
Context (lim : limits) (allowed : option URL) (h : frameHandler) (serial : string).
Context (cloud : CloudConfig) (nats : NATSConfig) (resultCap : Z).
Context (SInv : S -> Prop) `{!OutboundSchedulerLaws S SInv}.

Implicit Types (w : world S St) (d : daemon S St) (m : t S).
Abbreviation dstep := (Daemon.dstep lim allowed h serial cloud nats resultCap).
Abbreviation running := (DaemonInv.running lim allowed h serial cloud nats resultCap SInv).

(** ** Executions and fairness *)

(** The states of the daemon one after the other; nothing need happen between
    two of them. *)
Record execution (run : nat -> daemon S St) : Prop := {
  ex_start : DaemonInv.starts nats SInv (run 0%nat);
  ex_step : forall n, run (n + 1)%nat = run n \/ dstep (run n) (run (n + 1)%nat)
}.

(** Time passes, a goroutine that has not ended goes on, a timer that is due
    fires unless it is stopped, the function of a timer that has fired returns,
    and so does a call of [RespondAndRetain] from each section on. *)
Record fair (run : nat -> daemon S St) : Prop := {
  fair_clock : forall n t, exists k, (n <= k)%nat /\ t <= clock (d_world (run k));
  fair_exec : forall n i l pc, d_exec (run n) !! i = Some (l, pc) -> pc <> XDone ->
    exists k, (n <= k)%nat /\ d_exec (run k) !! i <> Some (l, pc);
  fair_due : forall n i tm, timers (mgr (d_world (run n))) !! i = Some tm ->
    tm_status tm = TimerArmed -> tm_deadline tm <= clock (d_world (run n)) ->
    exists k tm', (n <= k)%nat /\ timers (mgr (d_world (run k))) !! i = Some tm' /\ tm_status tm' <> TimerArmed;
  fair_fired : forall n i tm, timers (mgr (d_world (run n))) !! i = Some tm -> tm_status tm = TimerFired ->
    exists k tm', (n <= k)%nat /\ timers (mgr (d_world (run k))) !! i = Some tm' /\ tm_status tm' = TimerDone;
  fair_calls : forall n f, f ∈ frames (d_world (run n)) -> frame_rpc f <> None ->
    exists k, (n <= k)%nat /\ f ∉ frames (d_world (run k))
}.

Section Run.
Context (run : nat -> daemon S St).
Hypothesis Hcap : 0 <= dispatchBufferCap h.
Hypothesis Hres : 0 <= resultCap.
Hypothesis Hrun : execution run.
Hypothesis Hfair : fair run.

Lemma run_steps n k : (n <= k)%nat -> rtc dstep (run n) (run k).
Proof using Hrun.
  induction 1 as [|k _ IH]; [done|]. etrans; [exact IH|]. rewrite <- Nat.add_1_r.
  destruct (ex_step _ Hrun k) as [->|Hs]; [done|by apply rtc_once].
Qed.

Lemma execution_running n : running (run n).
Proof using Hrun. exists (run 0%nat). split; [apply Hrun|apply run_steps; lia]. Qed.

Lemma run_inv n : dinv h nats resultCap (run n).
Proof using All. by eapply running_inv, execution_running. Qed.

Lemma run_winv n : winv (d_world (run n)).
Proof using All. apply (run_inv n). Qed.

(** The manager's part of it. *)
Lemma run_world n k : (n <= k)%nat -> rtc step (d_world (run n)) (d_world (run k)).
Proof using All.
  intros Hk. pose proof (run_steps n k Hk) as Hr. pose proof (run_inv n) as I.
  induction Hr as [|d0 d1 d Hd _ IH]; [done|]. pose proof (dstep_inv _ _ _ _ _ _ _ SInv _ _ I Hd) as I1.
  destruct (dstep_steps _ _ _ _ _ _ _ SInv _ _ (di_world _ _ _ _ I) (di_synced _ _ _ _ I) Hd) as (Hw & _).
  etrans; [exact Hw|by apply IH].
Qed.

(** ** What happens eventually *)

Definition eventually (n : nat) (P : world S St -> Prop) : Prop := exists k, (n <= k)%nat /\ P (d_world (run k)).

Lemma eventually_now (P : world S St -> Prop) n : P (d_world (run n)) -> eventually n P.
Proof. intros HP. by exists n. Qed.

Lemma eventually_then (P Q : world S St -> Prop) n :
  eventually n P -> (forall k, (n <= k)%nat -> P (d_world (run k)) -> eventually k Q) -> eventually n Q.
Proof.
  intros (k & Hk & HP) HQ. destruct (HQ k Hk HP) as (j & Hj & Hq). exists j. split; [lia|done].
Qed.

Lemma eventually_from n k (P : world S St -> Prop) : (n <= k)%nat -> eventually k P -> eventually n P.
Proof. intros Hk (j & Hj & HP). exists j. split; [lia|done]. Qed.

Lemma run_stable i (P : world S St -> Prop) n k :
  stable i P -> (n <= k)%nat -> i ∈ issued (d_world (run n)) -> P (d_world (run n)) -> P (d_world (run k)).
Proof using All. intros HP Hk Hi HPn. eapply stable_steps; [done|by apply run_world|apply run_winv|done|done]. Qed.

Lemma run_issued i n k : (n <= k)%nat -> i ∈ issued (d_world (run n)) -> i ∈ issued (d_world (run k)).
Proof using All. intros Hk Hi. eapply steps_issued; [by apply run_world|done]. Qed.

(** A goroutine stays itself and only gets ahead. *)
Lemma dstep_exec_forward d d' i l pc :
  dstep d d' -> d_exec d !! i = Some (l, pc) ->
  exists pc', d_exec d' !! i = Some (l, pc') /\ (pc' = pc \/ (steps_left pc' < steps_left pc)%nat).
Proof.
  intros Hd Hi. destruct Hd; try (exists pc; by split; [|left]).
  - exists pc. split; [|by left]. cbn. by apply lookup_app_l_Some.
  - cbn. destruct (decide (i = i0)) as [<-|Hne].
    + rewrite Hi in *. simplify_eq. exists pc'. split; [apply list_lookup_insert_eq; by eapply lookup_lt_Some|].
      destruct (exec_step_slots _ _ _ _ _ _ _ _ _ _ _ H3) as [Hs _].
      destruct (steps_left pc0) eqn:Hn; [|right; lia]. left. destruct pc0; try done. cbn in H3. congruence.
    + exists pc. rewrite list_lookup_insert_ne by done. by split; [|left].
  - exists pc. split; [|by left]. unfold on_envelope. destruct (on_result _ _); [|done]. by destruct (_ <? _).
Qed.

Lemma run_exec_forward n k i l pc :
  (n <= k)%nat -> d_exec (run n) !! i = Some (l, pc) ->
  exists pc', d_exec (run k) !! i = Some (l, pc') /\ (pc' = pc \/ (steps_left pc' < steps_left pc)%nat).
Proof using Hrun.
  intros Hk Hi. pose proof (run_steps n k Hk) as Hr. clear Hk. revert pc Hi.
  induction Hr as [|d0 d1 d2 Hd _ IH]; intros pc Hi; [exists pc; by split; [|left]|].
  destruct (dstep_exec_forward _ _ _ _ _ Hd Hi) as (pc1 & Hpc1 & Hs1).
  destruct (IH pc1 Hpc1) as (pc2 & Hpc2 & Hs2). exists pc2. split; [done|].
  destruct Hs1 as [->|]; destruct Hs2 as [->|]; auto. right. lia.
Qed.

Lemma goroutine_ends n i l pc :
  d_exec (run n) !! i = Some (l, pc) -> exists k, (n <= k)%nat /\ d_exec (run k) !! i = Some (l, XDone).
Proof using Hrun Hfair.
  remember (steps_left pc) as left eqn:Hl. revert n pc Hl.
  induction (lt_wf left) as [left _ IH]. intros n pc Hl Hi.
  assert (pc = XDone \/ pc <> XDone) as [->|Hne] by (destruct pc; auto); [by exists n|].
  destruct (fair_exec _ Hfair n i l pc Hi Hne) as (k & Hk & Hgone).
  destruct (run_exec_forward n k i l pc Hk Hi) as (pc' & Hi' & [->|Hs]); [done|].
  destruct (IH (steps_left pc') ltac:(lia) k pc' eq_refl Hi') as (j & Hj & Hdone).
  exists j. split; [lia|done].
Qed.

(** ** The end of a request *)

Context (id : string) (n0 : nat).
Hypothesis Hissued : id ∈ issued (d_world (run n0)).

Abbreviation over := (gone id).

Lemma live_or_over w : (exists tx, live w id tx) \/ over w.
Proof. unfold live, gone. destruct (transactionsByRPCID (mgr w) !! id) as [tx|]; [left; by exists tx|by right]. Qed.

Lemma over_live w tx : over w -> ~ live w id tx.
Proof. unfold gone, live. congruence. Qed.

Lemma kept_on P n k : stable id P -> (n0 <= n <= k)%nat -> P (d_world (run n)) -> P (d_world (run k)).
Proof using All. intros HP Hk. apply (run_stable id); [done|lia|]. by eapply run_issued; [|exact Hissued]; lia. Qed.

(** The call that a live request in a handoff waits for. *)
Lemma handoff_call w tx : winv w -> live w id tx -> tx_HandoffInProgress tx = true ->
  exists f, f ∈ frames w /\ frame_rpc f = Some id.
Proof.
  intros [_ I] Htx Hh. by destruct (tx_handoff _ _ _ _ (inv_settled _ _ _ _ I _ _ Htx ltac:(done)) Hh) as (_ & Hf).
Qed.

(** Every call ends, through all of its sections. *)
Lemma pursued_ends (P : frame -> world S St -> Prop) (Q : world S St -> Prop) :
  (forall f, stable id (P f)) ->
  (forall f w, P f w -> Q w \/ pursued id f w) ->
  (forall f f' w, P f w -> f' ∈ frames w -> frame_rpc f' = Some id -> P f' w) ->
  forall f n, (n0 <= n)%nat -> P f (d_world (run n)) -> eventually n Q.
Proof using All.
  intros Hst Hpu Hch f. remember (stage f) as s eqn:Hs. revert f Hs.
  induction (lt_wf s) as [s _ IH]. intros f Hs n Hn HP.
  assert (forall k f', (n0 <= k)%nat -> (stage f' < s)%nat -> f' ∈ frames (d_world (run k)) -> frame_rpc f' = Some id ->
    P f (d_world (run k)) -> eventually k Q) as Hnext.
  { intros k f' Hk Hlt Hf' Hr HPk. apply (IH (stage f') Hlt f' eq_refl k Hk). by eapply Hch. }
  destruct (Hpu _ _ HP) as [HQ|(f' & Hf' & Hr & [->|Hlt])];
    [by apply eventually_now| |by apply (Hnext n f'); [done|lia|..]].
  destruct (fair_calls _ Hfair n f Hf' ltac:(by rewrite Hr)) as (k & Hk & Hno).
  assert (P f (d_world (run k))) as HPk by (by eapply kept_on; [apply Hst| |exact HP]).
  apply (eventually_from n k); [done|].
  destruct (Hpu _ _ HPk) as [HQ|(f' & Hf'' & Hr' & [->|Hlt])]; [by apply eventually_now|done|].
  by apply (Hnext k f'); [lia|lia|..].
Qed.

(** It is in flight, if it has not ended. *)
Definition flying w : Prop := forall tx, live w id tx -> (rank tx <= 1)%nat.

Lemma settled_flies n : (n0 <= n)%nat -> settled id (mgr (d_world (run n))) -> eventually n flying.
Proof using All.
  intros Hn Hs. destruct (live_or_over (d_world (run n))) as [(tx & Htx)|Ho].
  2:{ apply eventually_now. intros tx Htx. by destruct (over_live _ _ Ho Htx). }
  destruct (Hs tx Htx) as [Hr|Hb]; [apply eventually_now; intros tx' Htx'; unfold live in *; by simplify_eq|].
  destruct (handoff_call _ _ (run_winv n) Htx (proj1 Hb)) as (f & Hf & Hfr).
  apply (pursued_ends (replied id)) with (f := f); [apply replied_stable| | |done|].
  - intros f0 w HP. destruct (live_or_over w) as [(tx' & Htx')|Ho]; [|left; intros tx' Htx'; by destruct (over_live _ _ Ho Htx')].
    destruct (HP tx' Htx') as [Hr|[_ Hp]]; [|by right]. left. intros tx2 Htx2. unfold live in *. by simplify_eq.
  - intros f0 f' w HP Hf' Hr' tx' Htx'. destruct (HP tx' Htx') as [Hr|[Hb' _]]; [by left|right].
    split; [done|]. exists f'. auto.
  - intros tx' Htx'. destruct (Hs tx' Htx') as [Hr|Hb']; [by left|right]. split; [done|]. exists f. auto.
Qed.

(** Its deadline comes. *)
Lemma flying_overdue n : (n0 <= n)%nat -> flying (d_world (run n)) -> eventually n (overdue id).
Proof using All.
  intros Hn Hf. destruct (live_or_over (d_world (run n))) as [(tx & Htx)|Ho].
  2:{ apply eventually_now. intros tx Htx. by destruct (over_live _ _ Ho Htx). }
  assert (due_by id (tx_ResponseDeadline tx) (d_world (run n))) as Hd.
  { intros tx' Htx'. unfold live in *. simplify_eq. split; [|done]. destruct (run_winv n) as [_ I].
    apply rank_inflight; [by apply (inv_tx _ _ _ _ I _ _ Htx)|by apply Hf]. }
  destruct (fair_clock _ Hfair n (tx_ResponseDeadline tx)) as (k & Hk & Hc). exists k. split; [done|].
  assert (due_by id (tx_ResponseDeadline tx) (d_world (run k))) as Hd'
    by (eapply kept_on; [apply due_by_stable| |exact Hd]; lia).
  intros tx' Htx'. destruct (Hd' tx' Htx') as [? ->]. done.
Qed.

(** Then a call of [RespondAndRetain] ends it. *)
Lemma in_call_ends f n : (n0 <= n)%nat -> in_call id f (d_world (run n)) -> eventually n over.
Proof using All.
  revert f n. apply (pursued_ends (in_call id)); [apply in_call_stable| |].
  - intros f w [_ HP]. destruct (live_or_over w) as [(tx & Htx)|Ho]; [right; by apply (HP tx)|by left].
  - intros f f' w [Ho HP] Hf' Hr. split; [done|]. intros tx Htx. destruct (HP tx Htx). split; [done|]. exists f'. auto.
Qed.

(** Or its timer, unless it is over or in such a call. *)
Lemma watched_by t w :
  winv w -> watched id t w ->
  over w \/ (exists f, in_call id f w) \/
  exists tm, timers (mgr w) !! t = Some tm /\
    (tm_status tm = TimerArmed /\ tm_deadline tm <= clock w \/ tm_status tm = TimerFired).
Proof.
  intros Hw [Ho Ht]. destruct (live_or_over w) as [(tx & Htx)|]; [|by left]. right.
  destruct (Ho tx Htx) as [Hst Hdl]. destruct (tx_HandoffInProgress tx) eqn:Hh.
  - left. destruct (handoff_call _ _ Hw Htx Hh) as (f & Hf & Hr). exists f. split; [done|].
    intros tx' Htx'. unfold live in *. simplify_eq. split; [done|]. exists f. auto.
  - right. destruct Hw as [_ I]. pose proof (inv_settled _ _ _ _ I _ _ Htx ltac:(done)) as [_ B _].
    destruct (B Hst Hh) as (t' & tm & Ht' & Htm & Hs). rewrite (Ht tx Htx) in Ht'. injection Ht' as <-.
    exists tm. split; [done|]. destruct Hs as [[? ?]|?]; [left; split; [done|lia]|by right].
Qed.

Lemma watched_ends t n : (n0 <= n)%nat -> watched id t (d_world (run n)) -> eventually n over.
Proof using All.
  intros Hn Hwt.
  assert (forall k, (n <= k)%nat -> watched id t (d_world (run k))) as Hlater.
  { intros k Hk. eapply kept_on; [apply watched_stable| |exact Hwt]. lia. }
  assert (forall k tm, (n <= k)%nat -> timers (mgr (d_world (run k))) !! t = Some tm -> tm_status tm = TimerFired ->
    eventually k over) as Hfired.
  { intros k tm Hk Htm Hs. destruct (fair_fired _ Hfair k t tm Htm Hs) as (j & tm' & Hj & Htm' & Hs').
    apply (eventually_from k j); [done|].
    destruct (watched_by t _ (run_winv j) (Hlater j ltac:(lia))) as [Ho|[[f Hf]|(tm2 & Htm2 & Hs2)]];
      [by apply eventually_now|by apply (in_call_ends f); [lia|]|].
    rewrite Htm' in Htm2. simplify_eq. rewrite Hs' in Hs2. by destruct Hs2 as [[? _]|]. }
  destruct (watched_by t _ (run_winv n) Hwt) as [Ho|[[f Hf]|(tm & Htm & [[Hs Hd]|Hs])]];
    [by apply eventually_now|by apply (in_call_ends f)| |by eapply Hfired].
  destruct (fair_due _ Hfair n t tm Htm Hs Hd) as (k & tm' & Hk & Htm' & Hs'). apply (eventually_from n k); [done|].
  destruct (watched_by t _ (run_winv k) (Hlater k Hk)) as [Ho|[[f Hf]|(tm2 & Htm2 & Hs2)]];
    [by apply eventually_now|by apply (in_call_ends f); [lia|]|].
  rewrite Htm' in Htm2. simplify_eq. destruct Hs2 as [[? _]|Hs2]; [done|by eapply Hfired].
Qed.

Lemma overdue_ends n : (n0 <= n)%nat -> overdue id (d_world (run n)) -> eventually n over.
Proof using All.
  intros Hn Ho. destruct (live_or_over (d_world (run n))) as [(tx & Htx)|]; [|by apply eventually_now].
  destruct (Ho tx Htx) as [Hst Hdl]. destruct (tx_HandoffInProgress tx) eqn:Hh.
  - destruct (handoff_call _ _ (run_winv n) Htx Hh) as (f & Hf & Hr). apply (in_call_ends f); [done|]. split; [done|].
    intros tx' Htx'. unfold live in *. simplify_eq. split; [done|]. exists f. auto.
  - destruct (run_winv n) as [_ I]. pose proof (inv_settled _ _ _ _ I _ _ Htx ltac:(done)) as [_ B _].
    destruct (B Hst Hh) as (t & _ & Ht & _). apply (watched_ends t); [done|]. split; [done|].
    intros tx' Htx'. unfold live in *. by simplify_eq.
Qed.

(** Every request ends. *)
Lemma request_ends tx : live (d_world (run n0)) id tx -> eventually n0 over.
Proof using All.
  intros Htx. destruct (rq_cover _ _ (di_requests _ _ _ _ (run_inv n0)) id tx Htx) as (i & l & pc & Hi & Hid).
  destruct (goroutine_ends n0 i l pc Hi) as (k & Hk & Hdone). apply (eventually_from n0 k); [done|].
  destruct (rq_staged _ _ (di_requests _ _ _ _ (run_inv k)) i l _ Hdone) as [_ Hset]. rewrite Hid in Hset. cbn in Hset.
  apply (eventually_then flying); [by apply settled_flies|]. intros j Hj Hf.
  apply (eventually_then (overdue id)); [apply flying_overdue; [lia|done]|]. intros j' Hj' Ho.
  apply overdue_ends; [lia|done].
Qed.

(** What it was, and that it has ended, is not forgotten. *)
Lemma remembered_stable tx : stable id (fun w => request_of (mgr w) id tx).
Proof.
  intros w w' Hw _ Hs. apply request_of_keeps.
  destruct (step_keeps _ _ Hw Hs) as [[Hk _]|[Hk _]]; [by apply same_keeps|done].
Qed.

End Run.

(** ** Coming to rest

    A daemon in which nothing is left to do but to let time pass. *)
Record at_rest d : Prop := {
  ar_exec : Forall (fun x => x.2 = XDone) (d_exec d);
  ar_timers : Forall (fun tm => tm_status tm = TimerDone) (timers (mgr (d_world d)));
  ar_frames : frames (d_world d) = []
}.

(** An execution that comes to rest while time passes is fair. *)
Lemma rest_fair (run : nat -> daemon S St) stop :
  (forall n, (stop <= n)%nat -> at_rest (run n)) ->
  (forall n k, (stop <= k)%nat -> (length (timers (mgr (d_world (run n)))) <= length (timers (mgr (d_world (run k)))))%nat) ->
  (forall n t, exists k, (n <= k)%nat /\ t <= clock (d_world (run k))) ->
  fair run.
Proof.
  intros Hr Hlen Hclock.
  assert (forall n, at_rest (run (n + stop)%nat)) as Hrest by (intros n; apply Hr; lia).
  assert (forall n i, is_Some (timers (mgr (d_world (run n))) !! i) ->
    exists tm', timers (mgr (d_world (run (n + stop)%nat))) !! i = Some tm' /\ tm_status tm' = TimerDone) as Htimer.
  { intros n i Hi%lookup_lt_is_Some.
    destruct (lookup_lt_is_Some_2 (timers (mgr (d_world (run (n + stop)%nat)))) i) as [tm' Htm'].
    { specialize (Hlen n (n + stop)%nat ltac:(lia)). lia. }
    exists tm'. split; [done|]. by apply (Forall_lookup_1 _ _ _ _ (ar_timers _ (Hrest n)) Htm'). }
  split; [exact Hclock|..].
  - intros n i l pc Hi Hne. exists (n + stop)%nat. split; [lia|]. intros Hi'. apply Hne.
    exact (Forall_lookup_1 _ _ _ _ (ar_exec _ (Hrest n)) Hi').
  - intros n i tm Htm _ _. destruct (Htimer n i ltac:(by eexists)) as (tm' & ? & Hs).
    exists (n + stop)%nat, tm'. split_and!; [lia|done|by rewrite Hs].
  - intros n i tm Htm _. destruct (Htimer n i ltac:(by eexists)) as (tm' & ? & Hs).
    exists (n + stop)%nat, tm'. split_and!; [lia|done|done].
  - intros n f _ _. exists (n + stop)%nat. split; [lia|]. rewrite (ar_frames _ (Hrest n)). by apply not_elem_of_nil.
Qed.

(** ** Nobody waits in vain *)

(** The dispatch goroutine gets ahead whenever it runs. *)
Lemma goroutine_runs `{AgentClient} d i l pc :
  d_exec d !! i = Some (l, pc) -> pc <> XDone ->
  exists d' pc', dstep d d' /\ d_exec d' !! i = Some (l, pc') /\ (steps_left pc' < steps_left pc)%nat.
Proof.
  intros Hi Hne. destruct (exec_step lim allowed h (mkEnv (clock (d_world d)) (ns_client (d_nats d)) None) l
    (pc, d_used d, mgr (d_world d))) as [[pc' used'] m'] eqn:He.
  eexists _, pc'. split_and!; [by eapply ds_exec| |].
  - cbn. apply list_lookup_insert_eq. by eapply lookup_lt_Some.
  - destruct (exec_step_slots _ _ _ _ _ _ _ _ _ _ _ He) as [Hs _].
    assert (0 < steps_left pc)%nat by (destruct pc; cbn; [lia..|done]). lia.
Qed.

(** A suspended call always has a next section. *)
Lemma advance_total w f fr : exists w' f', advance w f w' fr f'.
Proof.
  destruct f as [r o tx resp|r o resp err|r o p|o k|o k|r p].
  - destruct (store_Save (store w) None (clock w) (retained_operation (mgr w) (clock w) o tx)) as [st err] eqn:E.
    eexists _, _. by eapply adv_save.
  - destruct (retain_finish (mgr w) (clock w) r o resp err) as [m [op e|p]] eqn:E; eexists _, _;
      [by eapply adv_finish_done|by eapply adv_finish_release].
  - destruct (release_begin (mgr w) o) as [m [e|]] eqn:E; eexists _, _; [by eapply adv_release_refused|by eapply adv_release].
  - destruct (store_Delete (store w) None (clock w) o) as [st err] eqn:E. eexists _, _. by eapply adv_delete.
  - eexists _, _. apply adv_end.
  - eexists _, _. apply adv_last.
Qed.

Lemma call_runs d f :
  dinv h nats resultCap d -> f ∈ frames (d_world d) -> frame_rpc f <> None ->
  exists d', dstep d d' /\ f ∉ frames (d_world d').
Proof.
  intros I Hf Hr. destruct (call_result d f (di_calls _ _ _ _ I) Hf Hr) as (res & tx & Hx).
  pose proof Hf as (l1 & l2 & Hl)%list_elem_of_split.
  destruct (advance_total (d_world d) f (l1 ++ l2)) as (w' & f' & Ha).
  assert (takes f (frames (d_world d)) (l1 ++ l2)) as Ht by (rewrite Hl; constructor).
  pose proof (rs_advance serial res (d_world d) tx f (l1 ++ l2) w' f' Ht Ha) as Hs.
  assert (f ∉ resume f' (l1 ++ l2)) as Hno.
  { destruct (di_world _ _ _ _ I) as [_ Hinv]. pose proof (inv_once _ _ _ _ Hinv) as HN.
    rewrite (takes_perm _ _ _ Ht) in HN. cbn in HN. destruct (frame_rpc f) as [i|] eqn:Hfi; [|done].
    apply NoDup_cons in HN as [HN _]. assert (f ∉ l1 ++ l2) as Hno.
    { intros Hin. apply HN, list_elem_of_omap. by exists f. }
    destruct f' as [f'|]; [|done]. cbn. rewrite elem_of_cons. intros [->|?]; [|done].
    pose proof (advance_stage _ _ _ _ _ Ha). lia. }
  unfold results in Hx. apply elem_of_app in Hx as [Hx|Hx].
  - destruct (d_worker d) as [x|] eqn:Hw; [|by apply elem_of_nil in Hx].
    apply list_elem_of_singleton in Hx as <-. eexists. split; [by eapply ds_worker|exact Hno].
  - apply list_elem_of_lookup in Hx as [i Hi]. eexists. split; [by eapply ds_callback|exact Hno].
Qed.

(** The sessions of the daemon are those of its writer's own model. *)
Lemma running_sessions d :
  0 <= dispatchBufferCap h -> 0 <= resultCap -> running d -> sessions_ok SInv (d_writer d).
Proof using All.
  intros Hcap Hres (d0 & Hs & Hr).
  destruct (running_steps lim allowed h serial cloud nats resultCap SInv d0 d Hcap Hres Hs Hr) as [_ Hw].
  apply (steps_ok SInv cloud _ _ _ Hw). destruct Hs as [_ _ (links & client & ctx & register & agent_Close & s & -> & _ & HS & _)].
  by split; [|constructor|].
Qed.

(** C30: At no moment of an execution is a part of the daemon blocked, as long as it
    is scheduled: whatever fairness asks for can be done at once, in one step.
    A dispatch goroutine that has not ended gets ahead; a timer that is due
    fires; the function of one that has fired returns; a call suspended between
    its critical sections finishes the next; and an open session gets on,
    staying open, unless its feeder sleeps on an empty scheduler. *)
Theorem daemon_never_blocks `{AgentClient} d :
  0 <= dispatchBufferCap h -> 0 <= resultCap -> running d ->
  (forall i l pc, d_exec d !! i = Some (l, pc) -> pc <> XDone ->
     exists d' pc', dstep d d' /\ d_exec d' !! i = Some (l, pc') /\ (steps_left pc' < steps_left pc)%nat) /\
  (forall i tm, timers (mgr (d_world d)) !! i = Some tm ->
     tm_status tm = TimerArmed /\ tm_deadline tm <= clock (d_world d) ->
     exists d', dstep d d' /\ timers (mgr (d_world d')) !! i = Some (set_status TimerFired tm)) /\
  (forall i tm, timers (mgr (d_world d)) !! i = Some tm -> tm_status tm = TimerFired ->
     exists d' tm', dstep d d' /\ timers (mgr (d_world d')) !! i = Some tm' /\ tm_status tm' = TimerDone) /\
  (forall f, f ∈ frames (d_world d) -> frame_rpc f <> None ->
     exists d', dstep d d' /\ f ∉ frames (d_world d')) /\
  (forall t, exists d', dstep d d' /\ t <= clock (d_world d')) /\
  (forall i s, w_sessions (d_writer d) !! i = Some s -> ss_done s = false ->
     asleep (d_writer d) s \/
     exists d' s', dstep d d' /\ w_sessions (d_writer d') !! i = Some s' /\ ss_done s' = false /\ s' <> s).
Proof using All.
  intros Hcap Hres Hrun. pose proof (running_inv _ _ _ _ _ _ _ _ d Hcap Hres Hrun) as I. split_and!.
  - intros i l pc. by eapply goroutine_runs.
  - intros i tm Htm [Hs Hd]. eexists. split; [apply ds_background; by eapply bg_fire|].
    cbn. apply list_lookup_insert_eq. by eapply lookup_lt_Some.
  - intros i tm Htm Hs. destruct (Timeout_ (mgr (d_world d)) (clock (d_world d)) (tm_rpcID tm)) as [m r] eqn:E.
    destruct (Timeout_timers (mgr (d_world d)) (clock (d_world d)) (tm_rpcID tm) _ _ Htm) as (tm' & Htm' & _).
    rewrite E in Htm'. eexists _, (set_status TimerDone tm'). split_and!; [apply ds_background; by eapply bg_timeout| |done].
    cbn in Htm' |- *. by rewrite list_lookup_alter_eq, Htm'.
  - intros f. by apply call_runs.
  - intros t. exists (put_world (mkWorld (mgr (d_world d)) (store (d_world d)) (Z.max (clock (d_world d)) t)
      (frames (d_world d)) (issued (d_world d))) d).
    split; [apply ds_background, bg_tick; lia|cbn; lia].
  - intros i s Hs Hd.
    destruct (session_runs SInv cloud (d_writer d) i s (running_sessions d Hcap Hres Hrun) Hs Hd)
      as [?|(mv & g & s' & Hm & Hd' & Hne)]; [by left|right].
    eexists _, s'. split; [by eapply ds_move|]. split; [|done]. cbn. apply list_lookup_insert_eq. by eapply lookup_lt_Some.
Qed.

(** The end of a request, and what has been handed over for it. *)
Lemma request_answered run n id tx :
  0 <= dispatchBufferCap h -> 0 <= resultCap -> execution run -> fair run ->
  live (d_world (run n)) id tx ->
  exists k tx', (n <= k)%nat /\
    (forall j, (k <= j)%nat -> transactionsByRPCID (mgr (d_world (run j))) !! id = None) /\
    detached (mgr (d_world (run k))) !! id = Some tx' /\ terminal (tx_State tx') = true /\
    tx_request tx' = tx_request tx /\
    (tx_RespondToCloud tx = true ->
       (exists p, (id, mkMsg (tx_CloudSessionID tx) PriorityHighest p) ∈ pushed (mgr (d_world (run k))) /\
                  reply_to serial (d_received (run k)) id (tx_CloudRPCID tx) p) \/
       unreportable (d_received (run k)) id).
Proof using All.
  intros Hcap Hres Hrun Hfair Htx.
  assert (id ∈ issued (d_world (run n))) as Hi.
  { destruct (run_winv run Hcap Hres Hrun Hfair n) as [_ I]. by apply (inv_tx _ _ _ _ I _ _ Htx). }
  destruct (request_ends run Hcap Hres Hrun Hfair id n Hi tx Htx) as (k & Hk & Hgone).
  assert (request_of (mgr (d_world (run k))) id tx) as Hreq.
  { apply (run_stable run Hcap Hres Hrun Hfair id _ n k (remembered_stable id tx) Hk Hi).
    apply request_of_deref. unfold deref, live in *. by rewrite Htx. }
  unfold request_of, deref in Hreq. pose proof Hgone as Hg. unfold gone in Hg. rewrite Hg in Hreq.
  destruct (detached (mgr (d_world (run k))) !! id) as [tx'|] eqn:Hd; [|done]. apply (inj Some) in Hreq.
  destruct (run_winv run Hcap Hres Hrun Hfair k) as [_ I]. destruct (inv_detached _ _ _ _ I _ _ Hd) as (_ & Hterm & _).
  exists k, tx'. split_and!; try done.
  - intros j Hj. apply (run_stable run Hcap Hres Hrun Hfair id (gone id) k j (gone_stable id) Hj); [|done].
    by apply (run_issued run Hcap Hres Hrun Hfair id n k).
  - intros Hr. unfold tx_request in Hreq. injection Hreq as _ Hsess Hcloud _ Hrespond _.
    destruct (running_origins lim allowed h serial cloud nats resultCap SInv (run k) Hcap Hres (execution_running run Hrun k))
      as (_ & _ & C).
    destruct (good_ended _ _ _ (co_mgr _ _ C) _ _ Hd) as [(tx2 & Hd2 & Hp) Hpush].
    unfold deref in Hd2. rewrite Hg, Hd in Hd2. injection Hd2 as <-. rewrite Hrespond, Hr in Hpush.
    unfold reply_or_none in Hp. rewrite Hrespond, Hcloud, Hr in Hp.
    destruct (tx_Payload tx') as [p|]; [left|by destruct Hp as [|]; [|right]].
    exists p. split; [|done]. unfold response_to in Hpush. rewrite <- Hsess. apply Hpush; [done|done|].
    intros ->. destruct Hp as [(i & c & msg & data & Hp & _)|(res & i & v & _ & _ & _ & Hp & _)]; done.
Qed.

(** C2: Every request is answered.  In an execution whose clock advances and in
    which no part is starved, a request that is in progress at any moment is
    over at a later one, for good: it has left the map in a terminal state,
    itself unchanged, and if it asked for an answer a response to it, with its
    id and either an error or the result of the device, has been handed over
    for the session it came from - unless the agent delivered a result for it
    whose payload nests as deep as a JSON text may, 10000 levels.  Whether the
    device answers, late or never, whatever fails on the way, makes no
    difference. *)
Theorem daemon_answers_requests run n id tx :
  0 <= dispatchBufferCap h -> 0 <= resultCap -> execution run -> fair run ->
  live (d_world (run n)) id tx ->
  exists k tx', (n <= k)%nat /\
    (forall j, (k <= j)%nat -> transactionsByRPCID (mgr (d_world (run j))) !! id = None) /\
    detached (mgr (d_world (run k))) !! id = Some tx' /\ terminal (tx_State tx') = true /\
    tx_request tx' = tx_request tx /\
    (tx_RespondToCloud tx = true ->
       (exists p, (id, mkMsg (tx_CloudSessionID tx) PriorityHighest p) ∈ pushed (mgr (d_world (run k))) /\
                  reply_to serial (d_received (run k)) id (tx_CloudRPCID tx) p) \/
       unreportable (d_received (run k)) id).
Proof using All. apply request_answered. Qed.

End Fair.
