(* ===== verification/DaemonLive.v ===== *)
(** * What the daemon as a whole guarantees

    The requests are never left to nobody ([daemon_watches_requests]), the
    parts run as their own models say on shared state ([daemon_refines]),
    slots, queue and NATS client are accounted for ([daemon_resources]), and
    what is on the wire was given once, by the handler or for a finished
    request ([daemon_wire]). *)

From S2P Require Import Prelude GoTime Scheduler Json Enums Rpc Commands Envelopes DeviceResult Config Capabilities WsClient WsWriter NatsClient NatsConnect RequestKey Transaction Cache Store Manager ManagerSteps ManagerInv ManagerSafety ManagerProgress ManagerPush ManagerContent Responses Handler HandlerSafe HandlerAnswers HandlerLive NatsResults Daemon DaemonSafe DaemonInv DaemonContent DaemonOrigin.
Import RequestManager.

Section Live.
Context {S : Type} `{OutboundScheduler S} {St : Type} `{OperationStore St} `{GoLib}.
Context (lim : limits) (allowed : option URL) (h : frameHandler) (serial : string).
Context (cloud : CloudConfig) (nats : NATSConfig) (resultCap : Z).
Context (SInv : S -> Prop) `{!OutboundSchedulerLaws S SInv}.

Implicit Types (w : world S St) (d : daemon S St) (m : t S).
Abbreviation dstep := (dstep lim allowed h serial cloud nats resultCap).
Abbreviation running := (running lim allowed h serial cloud nats resultCap SInv).
Abbreviation dinv := (dinv h nats resultCap).

(** The call that suspends a handoff belongs to a result being processed. *)
Lemma handoff_result d id tx :
  dinv d -> live (d_world d) id tx -> tx_HandoffInProgress tx = true ->
  exists res tx' f, (res, RRetaining tx' f) ∈ results d /\ re_RPCID res = id.
Proof.
  intros I Htx Hh. destruct (di_world _ _ _ _ I) as [_ Hinv].
  destruct (tx_handoff _ _ _ _ (inv_settled _ _ _ _ Hinv _ _ Htx ltac:(done)) Hh) as (_ & f & Hf & Hr).
  destruct (call_result d f (di_calls _ _ _ _ I) Hf ltac:(by rewrite Hr)) as (res & tx' & Hx).
  exists res, tx', f. split; [done|].
  pose proof (ca_own _ _ (di_calls _ _ _ _ I)) as Ho. rewrite Forall_forall in Ho. specialize (Ho _ Hx).
  apply Forall_inv in Ho. cbn in Ho. congruence.
Qed.

(** C6: No admitted request is ever left to nobody.  At every moment of any
    execution of the daemon a request in progress has its dispatch goroutine at
    work; or it is in flight and its response timer is armed, no later than its
    deadline, or has fired; or it is in a handoff, and a result being processed
    is in the middle of the call that will end it. *)
Theorem daemon_watches_requests d id tx :
  0 <= dispatchBufferCap h -> 0 <= resultCap -> running d -> live (d_world d) id tx ->
  (exists l pc, (l, pc) ∈ d_exec d /\ tx_RPCID (l_tx l) = id /\ pc <> XDone) \/
  (tx_State tx = TxInFlight /\ tx_HandoffInProgress tx = false /\
   exists i tm, tx_ResponseTimer tx = Some i /\ timers (mgr (d_world d)) !! i = Some tm /\
     (tm_status tm = TimerArmed /\ tm_deadline tm <= tx_ResponseDeadline tx \/ tm_status tm = TimerFired)) \/
  (tx_HandoffInProgress tx = true /\
   exists res tx' f, (res, RRetaining tx' f) ∈ results d /\ re_RPCID res = id).
Proof using All.
  intros Hcap Hres Hrun Htx. pose proof (running_inv _ _ _ _ _ _ _ _ d Hcap Hres Hrun) as I.
  destruct (rq_cover _ _ (di_requests _ _ _ _ I) id tx Htx) as (i & l & pc & Hi & Hid).
  assert (pc = XDone \/ pc <> XDone) as [->|Hne] by (destruct pc; auto).
  2:{ left. exists l, pc. split_and!; [by eapply list_elem_of_lookup_2|done|done]. }
  right. destruct (tx_HandoffInProgress tx) eqn:Hh.
  { right. split; [done|]. by eapply handoff_result. }
  left. destruct (rq_staged _ _ (di_requests _ _ _ _ I) _ _ _ Hi) as [_ Hs]. cbn in Hs. rewrite Hid in Hs.
  destruct (di_world _ _ _ _ I) as [_ Hinv].
  destruct (Hs tx Htx) as [Hr|[Hh' _]]; [|congruence].
  assert (Hfl : tx_State tx = TxInFlight)
    by (apply rank_inflight; [by apply (inv_tx _ _ _ _ Hinv _ _ Htx)|done]).
  split_and!; [done..|]. pose proof (inv_settled _ _ _ _ Hinv _ _ Htx ltac:(done)) as [_ B _].
  destruct (B Hfl Hh) as (k & tm & ? & ? & ?). by exists k, tm.
Qed.

(** The manager's part of an execution, and the writer's. *)
Lemma running_reachable d :
  0 <= dispatchBufferCap h -> 0 <= resultCap -> running d -> reachable (d_world d).
Proof using All.
  intros Hcap Hres (d0 & Hs & Hr). exists (d_world d0). split; [apply Hs|].
  by apply (running_steps lim allowed h serial cloud nats resultCap SInv d0 d Hcap Hres Hs Hr).
Qed.

Lemma running_writer d :
  0 <= dispatchBufferCap h -> 0 <= resultCap -> running d ->
  exists s, SInv s /\ os_contents s = [] /\ WsWriter.reachable cloud false s (d_writer d).
Proof using All.
  intros Hcap Hres (d0 & Hs & Hr).
  destruct (running_steps lim allowed h serial cloud nats resultCap SInv d0 d Hcap Hres Hs Hr) as [_ Hw].
  destruct Hs as [_ _ (links & client & ctx & register & agent_Close & s & Hd & _ & HS & He & _)]. exists s.
  split_and!; [done..|]. unfold WsWriter.reachable.
  by replace (WsWriter.initial s) with (d_writer d0) by (by rewrite Hd).
Qed.

(** C7: The daemon is its parts.  In every execution the request manager runs as
    its concurrent model and the WebSocket writer as its own, from their
    initial states, on one scheduler, which both see alike; and every single
    step of the daemon is made of steps of these two. *)
Theorem daemon_refines d :
  0 <= dispatchBufferCap h -> 0 <= resultCap -> running d ->
  reachable (d_world d) /\
  (exists s, SInv s /\ WsWriter.reachable cloud false s (d_writer d)) /\
  scheduler (mgr (d_world d)) = Some (sh_scheduler (w_shared (d_writer d))) /\
  forall d', dstep d d' -> rtc step (d_world d) (d_world d') /\ rtc (wstep cloud false) (d_writer d) (d_writer d').
Proof using All.
  intros Hcap Hres Hrun. pose proof (running_inv _ _ _ _ _ _ _ _ d Hcap Hres Hrun) as I.
  split_and!; [| |apply I|].
  - by apply running_reachable.
  - destruct (running_writer d Hcap Hres Hrun) as (s & ? & _ & ?). by exists s.
  - intros d' Hd.
    by destruct (dstep_steps _ _ _ _ _ _ _ SInv d d' (di_world _ _ _ _ I) (di_synced _ _ _ _ I) Hd) as (? & ? & _).
Qed.

(** C14: Nothing is used twice or lost count of.  The used slots of the dispatch
    buffer are those held by dispatch goroutines, one each, and never more
    than the capacity; the result queue stays within its own.  The NATS clients
    that are open are the one the handler uses or the one the recovery goroutine
    is setting up, never both, and those whose [Close] returned an error; the
    handler's is ready and the link reported connected, and while the handler
    has none the recovery goroutine is at work. *)
Theorem daemon_resources d :
  0 <= dispatchBufferCap h -> 0 <= resultCap -> running d ->
  d_used d = Z.of_nat (length (filter (fun x => slots x.2 = 1) (d_exec d))) /\
  0 <= d_used d <= dispatchBufferCap h /\
  Z.of_nat (length (d_queue d)) <= resultCap /\
  match ns_client (d_nats d) with
  | Some n => nc_agent n = true /\ nc_target n = n_Target nats /\ natsLink (d_links d) = LinkConnected /\
              ns_recovery (d_nats d) = NrOff /\ ns_open (d_nats d) ≡ₚ n :: ns_unclosed (d_nats d)
  | None => ns_recovery (d_nats d) <> NrOff /\
            ns_open (d_nats d) ≡ₚ option_list (recovery_client (ns_recovery (d_nats d))) ++ ns_unclosed (d_nats d)
  end.
Proof using All.
  intros Hcap Hres Hrun. pose proof (running_inv _ _ _ _ _ _ _ _ d Hcap Hres Hrun) as I.
  pose proof (di_slots _ _ _ _ I) as Hs. pose proof (slots_held_nonneg (d_exec d)).
  split_and!; [|lia|apply I|apply I|].
  - rewrite Hs. clear. induction (d_exec d) as [|[l pc] exec IH]; [done|]. cbn [slots_held foldr]. fold (slots_held exec).
    rewrite IH. assert (slots pc = 0 \/ slots pc = 1) as [Hp|Hp] by (destruct pc as [| | | | |[]|]; auto); cbn [snd].
    + rewrite filter_cons_False by (cbn; lia). lia.
    + rewrite filter_cons_True by done. cbn. lia.
  - destruct (di_nats _ _ _ _ I) as [Hopen Htgt Hrec Hlink _].
    destruct (ns_client (d_nats d)) as [n|]; cbn in Hopen.
    + rewrite (proj2 Hrec) in Hopen |- * by done. cbn in Hopen. rewrite Hopen in Htgt. apply Forall_cons in Htgt as [<- _].
      split_and!; [done|done|by apply Hlink|done|done].
    + split; [|done]. intros Hoff. by apply Hrec in Hoff as [].
Qed.

(** ** What is on the wire *)

Lemma running_wire d :
  0 <= dispatchBufferCap h -> 0 <= resultCap -> running d ->
  wire_msgs (w_shared (d_writer d)) ⊆+ w_accepted (d_writer d) /\
  Forall (wire_ok cloud) (sh_wire (w_shared (d_writer d))).
Proof using All.
  intros Hcap Hres Hrun. destruct (running_writer d Hcap Hres Hrun) as (s & HS & He & Hw).
  destruct (reachable_ok SInv cloud false s (d_writer d) HS He Hw) as [_ Ha [Hwire _] _ _].
  split; [|done]. rewrite Ha. unfold account.
  rewrite <- !app_assoc. do 2 apply submseteq_inserts_l. by apply submseteq_inserts_r.
Qed.

(** What answers a frame was written on the session of the frame. *)
Lemma wire_addressed (P : OutboundMessage -> string * InboundFrame -> Prop)
    (l : list (string * bool * OutboundMessage)) causes :
  (forall msg e, P msg e -> addressed (f_SessionID e.2) msg) ->
  Forall (wire_ok cloud) l -> Forall2 P (snd <$> l) causes ->
  Forall2 (fun '(session, _, msg) e => session = f_SessionID e.2 /\ P msg e) l causes.
Proof.
  intros HP Hl HF. rewrite Forall2_fmap_l in HF. revert Hl.
  induction HF as [|[[s b] msg] e l' causes' He _ IH]; intros Hl; [constructor|].
  inversion Hl as [|? ? [Hs _]]; subst. constructor; [|by apply IH].
  cbn in *. split; [|done]. destruct (HP _ _ He) as [E Hpr]. by rewrite <- E, (Hs Hpr).
Qed.

(** C3: What the cloud receives.  Every message written to a WebSocket has one
    frame that caused it, another for each message, is written on the session
    this frame came from and no other, at priority 0, and answers it: the cloud
    reads from it the id of the request and either an error or the result
    object of a result that the agent delivered for this request - or, when the
    same request was received before, for that one.  Responses are logged once
    for each request, which has ended and left the map, and answer the request
    they are logged for: it was created from a received frame, with the session
    and the id of that frame, and asked for an answer. *)
Theorem daemon_wire d :
  0 <= dispatchBufferCap h -> 0 <= resultCap -> running d ->
  (exists causes, causes ⊆+ d_frames d /\
     Forall2 (fun '(session, _, msg) e =>
                session = f_SessionID e.2 /\ answers_frame serial (d_frames d) (d_received d) msg e)
       (sh_wire (w_shared (d_writer d))) causes) /\
  NoDup (fst <$> pushed (mgr (d_world d))) /\
  (forall id msg, (id, msg) ∈ pushed (mgr (d_world d)) ->
     transactionsByRPCID (mgr (d_world d)) !! id = None /\
     exists tx f, detached (mgr (d_world d)) !! id = Some tx /\ terminal (tx_State tx) = true /\
       (id, f) ∈ d_frames d /\ created_from f tx /\ answers_tx tx msg /\
       reply_frame serial (d_received d) (id, f) (Payload msg)).
Proof using All.
  intros Hcap Hres Hrun. pose proof (running_inv _ _ _ _ _ _ _ _ d Hcap Hres Hrun) as I.
  destruct (running_origins lim allowed h serial cloud nats resultCap SInv d Hcap Hres Hrun) as (Hsrc & Ho & C).
  pose proof (running_reachable d Hcap Hres Hrun) as Hr.
  destruct (di_world _ _ _ _ I) as [_ Hinv]. destruct (inv_pushed _ _ _ _ Hinv) as [Hnd Hin].
  split_and!; [|done|].
  - destruct (messages_caused serial d Hr Ho C) as (causes & Hc & HF).
    destruct (running_wire d Hcap Hres Hrun) as [Hacc Hok].
    destruct (submseteq_Forall2 _ _ (wire_msgs (w_shared (d_writer d))) causes (PreOrder_Transitive _ _ _ Hacc Hsrc) HF)
      as (k & Hk & HF').
    exists k. split; [by etrans|]. apply wire_addressed; [by intros ?? []|done|done].
  - intros id msg Hm. destruct (Hin id) as [tx Htx].
    { apply list_elem_of_fmap. by exists (id, msg). }
    destruct (inv_detached _ _ _ _ Hinv _ _ Htx) as (Hnone & Hterm & _). split; [done|].
    pose proof (reachable_answers _ Hr) as Ha. rewrite Forall_forall in Ha.
    pose proof (good_pushed _ _ _ (co_mgr _ _ C)) as Hg. rewrite Forall_forall in Hg.
    destruct (Ha _ Hm) as (tx' & Hd & Hans). destruct (Hg _ Hm) as (tx2 & Hd2 & Hp).
    unfold deref in Hd, Hd2. cbn in Hd, Hans, Hd2, Hp. rewrite Hnone, Htx in Hd, Hd2.
    injection Hd as <-. injection Hd2 as <-. destruct Ho as (adm & ans & Hsub & _ & Ho).
    destruct (Ho id tx) as (f & Hf & Hcr); [unfold deref; by rewrite Hnone|].
    exists tx, f. split_and!; try done; [eapply elem_of_submseteq; [|exact Hsub]; apply elem_of_app; by left|].
    unfold reply_frame. cbn. by rewrite <- (created_id _ _ Hcr).
Qed.

End Live.
