(* ===== verification/DaemonDeliver.v ===== *)
(** * Every request gets its answer on the wire

    The way from a frame to the answer the cloud reads, through all of the
    parts: a frame that arrives on a session which stays open is answered on
    this session, if it asks for an answer ([daemon_serves]).  It joins what
    [DaemonFair] proves of the requests to what [WsLive] proves of the writer;
    between them stands the scheduler, which may be full. *)

From S2P Require Import Prelude GoTime Scheduler Json Enums Rpc Responses Commands Envelopes DeviceResult Config Capabilities WsClient WsWriter WsLive NatsClient NatsConnect RequestKey Transaction Cache Store Manager ManagerSteps ManagerInv ManagerSafety ManagerProgress ManagerReplay ManagerDue ManagerOps ManagerPush ManagerOnce ManagerContent Handler HandlerSafe HandlerAnswers HandlerLive NatsResults Daemon DaemonSafe DaemonInv DaemonContent DaemonOrigin DaemonFair DaemonLive.
Import RequestManager.

Section Deliver.
Context {S : Type} `{OutboundScheduler S} {St : Type} `{OperationStore St} `{GoLib}.
Context (lim : limits) (allowed : option URL) (h : frameHandler) (serial : string).
Context (cloud : CloudConfig) (nats : NATSConfig) (resultCap : Z).
Context (SInv : S -> Prop) `{!OutboundSchedulerLaws S SInv} `{!OutboundSchedulerPrompt S SInv}.

Implicit Types (w : world S St) (d : daemon S St) (m : t S).
Abbreviation dstep := (Daemon.dstep lim allowed h serial cloud nats resultCap).
Abbreviation running := (DaemonInv.running lim allowed h serial cloud nats resultCap SInv).
Abbreviation execution := (DaemonFair.execution lim allowed h serial cloud nats resultCap SInv).

(** ** From the manager and the handler to the scheduler *)

(** The scheduler has no room for the message. *)
Definition no_room d (msg : OutboundMessage) : Prop :=
  (os_Push (sh_scheduler (w_shared (d_writer d))) msg).2 <> None.

(** The message was offered to it: it took it, or had no room. *)
Definition offered d d' (msg : OutboundMessage) : Prop :=
  no_room d msg \/ w_accepted (d_writer d') = w_accepted (d_writer d) ++ [msg].

(** A step hands over one message at most: a response, or an answer of the
    frame handler. *)
Definition hands d d' : Prop :=
  (pushed (mgr (d_world d')) = pushed (mgr (d_world d)) /\ d_answers d' = d_answers d) \/
  (exists e, pushed (mgr (d_world d')) = pushed (mgr (d_world d)) ++ [e] /\ d_answers d' = d_answers d /\
             offered d d' e.2) \/
  (exists msg, pushed (mgr (d_world d')) = pushed (mgr (d_world d)) /\ d_answers d' = d_answers d ++ [msg] /\
               offered d d' msg).

Lemma deliver_offered msg (x : WsWriter.world S) :
  (os_Push (sh_scheduler (w_shared x)) msg).2 <> None \/ w_accepted (deliver [msg] x) = w_accepted x ++ [msg].
Proof. cbn. unfold deliver1. destruct (os_Push _ msg) as [s [e|]]; [left; by cbn|by right]. Qed.

Lemma put_world_hands w d : once (mgr (d_world d)) (mgr w) -> hands d (put_world w d).
Proof.
  intros [E|[e E]]; [by left|]. right. left. exists e. split_and!; [done..|].
  unfold offered, no_room, put_world, handed. cbn. rewrite E, drop_app_length. apply deliver_offered.
Qed.

Lemma exec_step_once `{AgentClient} m env l pc used pc' used' m' :
  exec_step lim allowed h env l (pc, used, m) = (pc', used', m') -> once m m'.
Proof.
  unfold exec_step. destruct pc; simpl.
  - destruct (used <? dispatchBufferCap h); intros [= <- <- <-]; by left.
  - pose proof (run_call_once (CMarkPreparingDispatch (tx_RPCID (l_tx l))) 0 m) as Ho. simpl in Ho.
    by destruct (MarkPreparingDispatch _ _) as [m1 []]; intros [= <- <- <-].
  - pose proof (run_call_once (CMarkPendingPublish (tx_RPCID (l_tx l))) 0 m) as Ho. simpl in Ho.
    by destruct (MarkPendingPublish _ _) as [m1 []]; intros [= <- <- <-].
  - destruct (e_client env); [|intros [= <- <- <-]; by left].
    destruct (dispatch _ _ _ _ _ _); intros [= <- <- <-]; by left.
  - intros [= <- <- <-]. apply MarkInFlight_once.
  - unfold failTransactionWithCode. intros [= <- <- <-]. apply Fail_once.
  - intros [= <- <- <-]. by left.
Qed.

Lemma rstep_once res pc w pc' w' : rstep serial res (pc, w) (pc', w') -> once (mgr w) (mgr w').
Proof.
  intros Hs. inversion Hs; subst; clear Hs; simpl.
  - by left.
  - apply Complete_once.
  - apply Fail_once.
  - left. by eapply retain_begin_pushed.
  - left. by eapply retain_begin_pushed.
  - by eapply advance_once.
Qed.

Lemma background_once w w' : background w w' -> once (mgr w) (mgr w').
Proof.
  intros Hb. destruct Hb; simpl; try by left.
  - apply (f_equal fst) in H4. simpl in H4. subst m. apply Timeout_once.
  - left. by eapply release_begin_pushed.
  - by eapply advance_once.
Qed.

Lemma on_frame_hands d rpcID frame :
  dinv h nats resultCap d -> fresh_id rpcID (d_world d) -> hands d (on_frame lim allowed h rpcID frame d).
Proof using All.
  intros I Hf. pose proof (on_frame_world lim allowed h d rpcID frame
    (inv_cache _ _ _ _ (proj2 (di_world _ _ _ _ I))) Hf) as (_ & Hp & _).
  assert (forall o, o = HandleFrame lim allowed h (d_links d) (mgr (d_world d)) (clock (d_world d)) rpcID frame ->
    hd_pushed o = None \/ exists msg, hd_pushed o = Some msg) as Ho by (intros o _; destruct (hd_pushed o); eauto).
  specialize (Ho _ eq_refl). destruct Ho as [Ho|[msg Ho]].
  - left. split; [done|]. unfold on_frame. cbn. rewrite Ho. apply app_nil_r.
  - right. right. exists msg. split_and!; [done|unfold on_frame; cbn; by rewrite Ho|].
    unfold offered, no_room, on_frame. cbn -[deliver]. rewrite Ho. apply deliver_offered.
Qed.

Lemma dstep_hands d d' : dinv h nats resultCap d -> dstep d d' -> hands d d'.
Proof using All.
  intros I Hd. destruct Hd; try by left.
  - by apply on_frame_hands.
  - refine (put_world_hands (set_mgr m' (d_world d)) d _). by eapply exec_step_once.
  - unfold on_envelope. destruct (on_result _ _); [|by left]. by destruct (_ <? _); left.
  - refine (put_world_hands w' d _). by eapply rstep_once.
  - refine (put_world_hands w' d _). by eapply rstep_once.
  - apply put_world_hands. by eapply background_once.
Qed.

(** ** Executions *)

Section Run.
Context (run : nat -> daemon S St).
Hypothesis Hcap : 0 <= dispatchBufferCap h.
Hypothesis Hres : 0 <= resultCap.
Hypothesis Hrun : execution run.

Abbreviation writer n := (d_writer (run n)).

Lemma daemon_inv n : dinv h nats resultCap (run n).
Proof using All. by eapply running_inv, execution_running. Qed.

(** The writer's part of an execution. *)
Lemma writer_execution : wexecution SInv cloud (fun n => writer n).
Proof using All.
  split.
  - destruct (ex_start _ _ _ _ _ _ _ _ _ Hrun) as [_ _ (links & client & ctx & register & agent_Close & s & Hd & _ & HS & _)].
    exists s. split; [done|]. rewrite Hd. unfold WsWriter.reachable. done.
  - intros n. destruct (ex_step _ _ _ _ _ _ _ _ _ Hrun n) as [->|Hs]; [done|].
    pose proof (daemon_inv n) as I.
    by apply (dstep_steps _ _ _ _ _ _ _ SInv _ _ (di_world _ _ _ _ I) (di_synced _ _ _ _ I)) in Hs as (_ & ? & _).
Qed.

Lemma run_hands n : hands (run n) (run (n + 1)%nat).
Proof using All.
  destruct (ex_step _ _ _ _ _ _ _ _ _ Hrun n) as [->|Hs]; [by left|].
  apply dstep_hands; [apply daemon_inv|done].
Qed.

Lemma writer_steps n k : (n <= k)%nat -> rtc (wstep cloud false) (writer n) (writer k).
Proof using All. apply (client_steps SInv cloud (fun n => writer n)), writer_execution. Qed.

Lemma wire_grows n k : (n <= k)%nat -> exists l, sh_wire (w_shared (writer k)) = sh_wire (w_shared (writer n)) ++ l.
Proof using All. intros Hk. eapply steps_wire. by apply writer_steps. Qed.

Lemma run_records n k :
  (n <= k)%nat ->
  (forall e, e ∈ d_frames (run n) -> e ∈ d_frames (run k)) /\
  (forall res, res ∈ d_received (run n) -> res ∈ d_received (run k)).
Proof using Hrun.
  induction 1 as [|k _ [IHf IHr]]; [done|]. rewrite <- Nat.add_1_r.
  assert ((forall e, e ∈ d_frames (run k) -> e ∈ d_frames (run (k + 1)%nat)) /\
          (forall res, res ∈ d_received (run k) -> res ∈ d_received (run (k + 1)%nat))) as [Hf Hr]; [|auto].
  destruct (ex_step _ _ _ _ _ _ _ _ _ Hrun k) as [->|Hd]; [done|].
  destruct Hd; try done.
  - split; [|done]. intros e He. apply elem_of_app. by left.
  - unfold on_envelope. destruct (on_result _ _) as [r|]; [|done].
    split; [by destruct (_ <? _)|]. intros res Hin. destruct (_ <? _); apply elem_of_app; by left.
Qed.

(** A message has been written on the session it is for, since the moment [n]. *)
Definition written_since n (session : string) (msg : OutboundMessage) j : Prop :=
  exists l b, sh_wire (w_shared (writer j)) = sh_wire (w_shared (writer n)) ++ l /\ (session, b, msg) ∈ l.

Lemma written_earlier n k session msg j :
  (n <= k)%nat -> written_since k session msg j -> written_since n session msg j.
Proof using All.
  intros Hk (l & b & Hl & Hin). destruct (wire_grows n k Hk) as [l0 Hl0]. exists (l0 ++ l), b.
  rewrite Hl, Hl0, app_assoc. split; [done|]. apply elem_of_app. by right.
Qed.

Hypothesis Hsessions : sessions_run (fun n => writer n).

(** What the scheduler takes for a session that stays open is written. *)
Lemma accepted_is_written n i s msg :
  w_sessions (writer n) !! i = Some s -> addressed (ss_id s) msg ->
  w_accepted (writer (n + 1)) = w_accepted (writer n) ++ [msg] ->
  exists j, (n < j)%nat /\ (closed i (writer j) \/ written_since n (ss_id s) msg j).
Proof using All.
  intros Hs [Hid Hp] Ha.
  destruct (taken_are_written SInv cloud _ writer_execution Hsessions msg i n (n + 1)%nat s ltac:(lia) Hs (conj Hp Hid))
    as (j & Hj & [Hc|Hw]); exists j; (split; [lia|]); [by left|right].
  rewrite Ha, count_app, count_cons, count_nil in Hw. unfold single in Hw. rewrite decide_True in Hw by done.
  destruct (wire_grows n j ltac:(lia)) as [l Hl]. unfold wire_msgs in Hw. rewrite Hl, fmap_app, count_app in Hw.
  assert (msg ∈ (fun x : string * bool * OutboundMessage => x.2) <$> l) as Hin by (apply count_elem; lia).
  apply list_elem_of_fmap in Hin as ([[session b] msg'] & Hmsg & Hin). cbn in Hmsg. subst msg'.
  destruct (running_wire lim allowed h serial cloud nats resultCap SInv (run j) Hcap Hres (execution_running _ _ _ _ _ _ _ _ _ Hrun j))
    as [_ Hok].
  rewrite Hl, Forall_app in Hok. destruct Hok as [_ Hok]. rewrite Forall_forall in Hok.
  destruct (Hok _ Hin) as [Hown _]. cbn in Hown. rewrite (Hown Hp) in Hid. subst session. by exists l, b.
Qed.

(** The first moment at which a message is in the log. *)
Lemma handed_over n k e :
  (n <= k)%nat -> e ∉ pushed (mgr (d_world (run n))) -> e ∈ pushed (mgr (d_world (run k))) ->
  exists j, (n <= j < k)%nat /\ pushed (mgr (d_world (run (j + 1)))) = pushed (mgr (d_world (run j))) ++ [e] /\
            offered (run j) (run (j + 1)%nat) e.2.
Proof using All.
  induction 1 as [|k Hk IH]; [done|]. rewrite <- Nat.add_1_r. intros Hn Hin.
  destruct (decide (e ∈ pushed (mgr (d_world (run k))))) as [Hin'|Hno].
  { destruct (IH Hn Hin') as (j & Hj & ?). exists j. split; [lia|done]. }
  exists k. split; [lia|].
  destruct (run_hands k) as [[E _]|[(e' & E & _ & Ho)|(msg & E & _)]]; rewrite E in Hin |- *; try done.
  apply elem_of_app in Hin as [?|Hin%list_elem_of_singleton]; [done|]. by subst e'.
Qed.

(** A session stays in its place. *)
Lemma session_stays n k i s :
  (n <= k)%nat -> w_sessions (writer n) !! i = Some s ->
  exists s', w_sessions (writer k) !! i = Some s' /\ ss_id s' = ss_id s.
Proof using All.
  intros Hk Hs. destruct (steps_session SInv cloud _ _ _ _ _ (writer_steps n k Hk)
    (client_ok SInv cloud _ writer_execution n) Hs) as (s' & ? & ? & _). by exists s'.
Qed.

(** The answer [msg] to the frame, handed over in the step from [k], was turned
    away: the scheduler had no room for it. *)
Definition turned_away k msg : Prop :=
  no_room (run k) msg /\
  ((exists id, pushed (mgr (d_world (run (k + 1)%nat))) = pushed (mgr (d_world (run k))) ++ [(id, msg)]) \/
   d_answers (run (k + 1)%nat) = d_answers (run k) ++ [msg]).

(** What becomes of a frame [e] received at [n] on the session at place [i],
    seen from [j]: an answer to it has been written on its session; or this
    session has ended; or there was no room for an answer; or the payload
    of the device's result for it nests too deep. *)
Definition served n i (e : string * InboundFrame) j : Prop :=
  (exists msg, answers_frame serial (d_frames (run j)) (d_received (run j)) msg e /\
               written_since n (f_SessionID e.2) msg j) \/
  closed i (writer j) \/
  (exists k msg, (n <= k < j)%nat /\ turned_away k msg /\
     answers_frame serial (d_frames (run j)) (d_received (run j)) msg e) \/
  unreportable (d_received (run j)) e.1.

Abbreviation answers_at j := (answers_frame serial (d_frames (run j)) (d_received (run j))).

Lemma answers_at_later n k msg e : (n <= k)%nat -> answers_at n msg e -> answers_at k msg e.
Proof using Hrun. intros Hk. destruct (run_records n k Hk). by apply answers_frame_later. Qed.

Lemma written_later n session msg j j' : (j <= j')%nat -> written_since n session msg j -> written_since n session msg j'.
Proof using All.
  intros Hj (l & b & Hl & Hin). destruct (wire_grows j j' Hj) as [l' Hl']. exists (l ++ l'), b.
  rewrite Hl', Hl, app_assoc. split; [done|]. apply elem_of_app. by left.
Qed.

Lemma closed_later i j j' : (j <= j')%nat -> closed i (writer j) -> closed i (writer j').
Proof using All.
  intros Hj (s & Hs & Hd). destruct (steps_session SInv cloud _ _ _ _ _ (writer_steps j j' Hj)
    (client_ok SInv cloud _ writer_execution j) Hs) as (s' & ? & _ & ?). exists s'. auto.
Qed.

Lemma served_earlier n k i e j : (n <= k)%nat -> served k i e j -> served n i e j.
Proof using All.
  intros Hk [(msg & Ha & Hw)|[Hc|[(k' & msg & Hk' & Hend)|Hun]]].
  - left. exists msg. split; [done|]. by eapply written_earlier.
  - by right; left.
  - right. right. left. exists k', msg. split; [lia|done].
  - by right; right; right.
Qed.

(** An answer that was offered to the scheduler. *)
Lemma offered_is_served n i k k' s msg e :
  (n <= k)%nat -> w_sessions (writer n) !! i = Some s -> ss_id s = f_SessionID e.2 ->
  answers_at k' msg e -> offered (run k) (run (k + 1)%nat) msg ->
  ((exists id, pushed (mgr (d_world (run (k + 1)%nat))) = pushed (mgr (d_world (run k))) ++ [(id, msg)]) \/
   d_answers (run (k + 1)%nat) = d_answers (run k) ++ [msg]) ->
  exists j, (n < j)%nat /\ served n i e j.
Proof using All.
  intros Hk Hs Hid Ha [Hno|Hacc] Hh.
  - exists (k + 1 + k')%nat. split; [lia|]. right. right. left. exists k, msg.
    split; [lia|]. split; [by split|]. by eapply answers_at_later; [|exact Ha]; lia.
  - destruct (session_stays n k i s Hk Hs) as (s' & Hs' & Hid'). rewrite <- Hid' in Hid.
    assert (addressed (ss_id s') msg) as Hm by (rewrite Hid; apply Ha).
    destruct (accepted_is_written k i s' msg Hs' Hm Hacc) as (j & Hj & Hend); exists (j + k')%nat; (split; [lia|]).
    destruct Hend as [Hc|Hw]; [right; left; by eapply closed_later; [|exact Hc]; lia|].
    left. exists msg. split; [by eapply answers_at_later; [|exact Ha]; lia|].
    rewrite Hid in Hw. eapply written_earlier; [exact Hk|]. by eapply written_later; [|exact Hw]; lia.
Qed.

Hypothesis Hfair : fair run.

(** The request of an admitted frame. *)
Lemma request_is_served n i s id f tx :
  w_sessions (writer n) !! i = Some s -> ss_id s = f_SessionID f -> created_from f tx ->
  live (d_world (run n)) id tx -> tx_RespondToCloud tx = true ->
  exists j, (n < j)%nat /\ served n i (id, f) j.
Proof using All.
  intros Hs Hid Hcr Htx Hr.
  destruct (request_answered lim allowed h serial cloud nats resultCap SInv run n id tx Hcap Hres Hrun Hfair Htx)
    as (k & tx' & Hk & _ & _ & _ & _ & Hans).
  destruct (Hans Hr) as [(p & Hin & Hp)|Hun].
  2:{ exists (k + 1)%nat. split; [lia|]. right. right. right.
      destruct Hun as (res & Hres' & Hun). exists res. split; [|done]. by apply (run_records k (k + 1)%nat ltac:(lia)). }
  set (msg := mkMsg (tx_CloudSessionID tx) PriorityHighest p) in *.
  assert ((id, msg) ∉ pushed (mgr (d_world (run n)))) as Hnew.
  { intros Hold. destruct (di_world _ _ _ _ (daemon_inv n)) as [_ I]. destruct (inv_pushed _ _ _ _ I) as [_ Hd].
    destruct (Hd id) as [tx0 Htx0]; [apply list_elem_of_fmap; by exists (id, msg)|].
    destruct (inv_detached _ _ _ _ I _ _ Htx0) as (Hno & _). unfold live in Htx. congruence. }
  destruct (handed_over n k (id, msg) Hk Hnew Hin) as (j & Hj & Hpu & Ho). cbn in Ho.
  assert (answers_at k msg (id, f)) as Ha.
  { split; [split; [apply Hcr|done]|left]. unfold reply_frame. cbn. by rewrite <- (created_id _ _ Hcr). }
  eapply (offered_is_served n i j k s msg (id, f)); try done; [lia|]. left. by exists id.
Qed.

Lemma frame_is_served n i s rpcID f :
  fresh_id rpcID (d_world (run n)) -> run (n + 1)%nat = on_frame lim allowed h rpcID f (run n) ->
  w_sessions (writer n) !! i = Some s -> ss_id s = f_SessionID f ->
  ~ unanswerable h (f_Payload f) ->
  exists j, (n < j)%nat /\ served n i (rpcID, f) j.
Proof using All.
  intros Hfresh Hn Hs Hid Hnot. pose proof (daemon_inv n) as I.
  pose proof (inv_cache _ _ _ _ (proj2 (di_world _ _ _ _ I))) as Hc.
  destruct (frame_outcome lim allowed h (d_links (run n)) (mgr (d_world (run n))) (clock (d_world (run n))) rpcID f Hc)
    as [[l [(Hl & _) _ (r & Hdec & Hval & changing & _ & _ & _ & _ & _ & Hcr) _]]|
        [(_ & msg & Hp & Hm & Hmgr)|[_ ?]]]; [| |done].
  - (* admitted *)
    assert (is_notification (req_id r) = false) as Hresp.
    { destruct (is_notification (req_id r)) eqn:E; [|done]. destruct Hnot. right. right. by exists r. }
    rewrite Hresp in Hcr. destruct (CreateTransaction_spec _ _ _ _ _ _ _ _ _ _ _ Hcr) as (_ & _ & _ & _ & Htx & Hmap & _).
    destruct (session_stays n (n + 1)%nat i s ltac:(lia) Hs) as (s' & Hs' & Hid').
    destruct (request_is_served (n + 1)%nat i s' rpcID f (l_tx l)) as (j & Hj & Hend).
    + done.
    + congruence.
    + rewrite Htx. split; [done|]. by exists r.
    + rewrite Hn. unfold live, on_frame. cbn. rewrite Hmap. by apply lookup_insert_eq.
    + by rewrite Htx.
    + exists j. split; [lia|]. by eapply served_earlier; [|exact Hend]; lia.
  - eapply (offered_is_served n i n (n + 1)%nat s msg (rpcID, f)); try done.
    + rewrite Hn. apply (answers_frame_later serial (d_frames (run n)) _ (d_received (run n)) _); [|done|].
      * intros e He. apply elem_of_app. by left.
      * destruct (running_origins lim allowed h serial cloud nats resultCap SInv (run n) Hcap Hres
          (execution_running _ _ _ _ _ _ _ _ _ Hrun n)) as (_ & Ho & C). by apply (handler_answers_frame lim allowed h).
    + unfold offered, no_room. rewrite Hn. unfold on_frame. cbn -[deliver]. rewrite Hp. apply deliver_offered.
    + right. rewrite Hn. unfold on_frame. cbn. by rewrite Hp.
Qed.

End Run.

(** C1: Every request gets its answer on the wire.  In an execution whose clock
    advances and in which no part is starved, a frame that arrives on a session
    and asks for an answer - it is no notification, and where it is larger than
    its method allows it has an id and is within the absolute limit - is
    answered, a text that is no request included: some time later a message that answers it has been written on
    this session, since the frame arrived; unless the session has ended before;
    or the scheduler, full, turned such an answer away when it was handed over;
    or the payload of the result that the agent delivered for the request
    nests as deep as a JSON text may, 10000 levels.  While the process runs -
    a null result with white space around it ends it - nothing else can go
    wrong: neither in the handler, the manager, the agent or the store, nor by
    other traffic or by what earlier sessions have left behind. *)
Theorem daemon_serves run n i s rpcID f :
  0 <= dispatchBufferCap h -> 0 <= resultCap ->
  execution run -> fair run -> sessions_run (fun k => d_writer (run k)) ->
  fresh_id rpcID (d_world (run n)) -> run (n + 1)%nat = on_frame lim allowed h rpcID f (run n) ->
  w_sessions (d_writer (run n)) !! i = Some s -> ss_id s = f_SessionID f ->
  ~ unanswerable h (f_Payload f) ->
  exists j, (n < j)%nat /\
    ((exists l b msg, sh_wire (w_shared (d_writer (run j))) = sh_wire (w_shared (d_writer (run n))) ++ l /\
        (f_SessionID f, b, msg) ∈ l /\
        answers_frame serial (d_frames (run j)) (d_received (run j)) msg (rpcID, f)) \/
     closed i (d_writer (run j)) \/
     (exists k msg, (n <= k < j)%nat /\ turned_away run k msg /\
        answers_frame serial (d_frames (run j)) (d_received (run j)) msg (rpcID, f)) \/
     unreportable (d_received (run j)) rpcID).
Proof using All.
  intros Hcap Hres Hrun Hfair Hses Hid Hn Hs Hsf Hnot.
  destruct (frame_is_served run Hcap Hres Hrun Hses Hfair n i s rpcID f Hid Hn Hs Hsf Hnot) as (j & Hj & Hend).
  exists j. split; [done|]. destruct Hend as [(msg & Ha & l & b & Hl & Hin)|Hend]; [left; by exists l, b, msg|by right].
Qed.

End Deliver.
