(* ===== verification/Teardown.v ===== *)
(** * The life of the process

    [main] in cmd/ucentral-client/main.go from the launch of the loops on: it
    waits for a signal or for the reconnect loop to fail, closes what is open
    and leaves with a status, while all the goroutines of [Daemon] go on
    working; a panic in one of them ends the process at any moment.  [lstep]
    has all their interleavings.  A daemon that has started leaves by itself
    only if the CA file it reads before a dial has no certificate any more
    ([daemon_exits]), and panics only on a result whose payload is a null with
    white space around it; a network that fails never ends it. *)

From S2P Require Import Prelude GoTime Scheduler Json Enums Rpc Commands Envelopes DeviceResult Config Capabilities NatsClient NatsConnect Transaction Cache Store Manager ManagerSteps ManagerInv Handler WsClient WsWriter NatsResults Startup StartupSafe Daemon DaemonSafe DaemonInv DaemonContent DaemonOrigin.
Import RequestManager.

(** ** What wakes [main] *)

(** What the goroutine of the reconnect loop sends on [fatalErr], once the loop
    has returned. *)
Definition fatal_error (r : option (option error)) : option error :=
  match r with
  | Some (Some e) => if errors_Is e context_Canceled then None else Some e
  | _ => None
  end.

Inductive wake := BySignal (sig : string) | ByFailure (e : error).

Definition exitCode (w : wake) : Z := match w with BySignal _ => 0 | ByFailure _ => 1 end.

(** ** The process *)

(** What the teardown has done: the context is cancelled, [Close] was called on
    the WebSocket client, which had the connection [conn], and on a NATS
    client, with a deadline, and returned [err]. *)
Inductive teardown_event :=
| TdCancel
| TdSocket (conn : option Z)
| TdNats (n : NATSClient) (timeout : Z) (err : option error).

Definition teardown_timeout : Z := 5 * Second.

(** Where [main] is: at its [select], before [cancel], before the [Close] of
    the socket, before [GetNATSClient], before the [Close] of the client it got
    and before [os.Exit]. *)
Inductive main_pc :=
| MSelect
| MCancel (w : wake)
| MSocket (w : wake)
| MLook (w : wake)
| MNats (w : wake) (n : NATSClient)
| MExit (w : wake).

(** The two channels have one slot each. *)
Record program {St : Type} := mkProgram {
  p_daemon : daemon PriorityScheduler.t St;
  p_ws : WSClient;
  (** The passes the reconnect loop has made. *)
  p_passes : list attempt;
  (** History: the signals that were sent. *)
  p_told : list string;
  p_sigChan : option string;
  p_fatalErr : option error;
  p_main : main_pc;
  p_done : list teardown_event
}.
Arguments program : clear implicits.

Inductive life {St : Type} :=
| Live (p : program St)
| Killed
| Exited (code : Z) (p : program St).
Arguments life : clear implicits.

Section Life.
Context {St : Type} `{OperationStore St} `{GoLib} `{ConfigLib}.
Context (lim : limits) (allowed : option URL) (h : frameHandler) (serial : string).
Context (cloud : CloudConfig) (nats : NATSConfig) (resultCap : Z).
(** The client the loop was started with, and what a pass can meet. *)
Context (ws : WSClient) (asks : attempt -> Prop).
Abbreviation dstep := (Daemon.dstep lim allowed h serial cloud nats resultCap).
Implicit Types p : program St.

Definition born (d : daemon PriorityScheduler.t St) : program St :=
  mkProgram _ d ws [] [] None None MSelect [].

Definition with_daemon d p : program St :=
  mkProgram _ d (p_ws p) (p_passes p) (p_told p) (p_sigChan p) (p_fatalErr p) (p_main p) (p_done p).
Definition with_ws c p : program St :=
  mkProgram _ (p_daemon p) c (p_passes p) (p_told p) (p_sigChan p) (p_fatalErr p) (p_main p) (p_done p).
Definition go (pc : main_pc) (done : list teardown_event) p : program St :=
  mkProgram _ (p_daemon p) (p_ws p) (p_passes p) (p_told p) (p_sigChan p) (p_fatalErr p) pc (p_done p ++ done).

(** [signal.Notify] does not wait for a full channel. *)
Definition notify (sig : string) p : program St :=
  mkProgram _ (p_daemon p) (p_ws p) (p_passes p) (p_told p ++ [sig])
    (match p_sigChan p with None => Some sig | Some s => Some s end) (p_fatalErr p) (p_main p) (p_done p).

Definition loop_result (passes : list attempt) : option (option error) := (ReconnectLoop false passes ws).2.

(** The loop makes a pass, and when it returns its goroutine tells [main]. *)
Definition make_pass (a : attempt) p : program St :=
  let passes := p_passes p ++ [a] in
  mkProgram _ (p_daemon p) (p_ws p) passes (p_told p) (p_sigChan p)
    (match fatal_error (loop_result passes) with Some e => Some e | None => p_fatalErr p end) (p_main p) (p_done p).

Definition take_signal (sig : string) p : program St :=
  mkProgram _ (p_daemon p) (p_ws p) (p_passes p) (p_told p) None (p_fatalErr p) (MCancel (BySignal sig)) (p_done p).
Definition take_failure (e : error) p : program St :=
  mkProgram _ (p_daemon p) (p_ws p) (p_passes p) (p_told p) (p_sigChan p) None (MCancel (ByFailure e)) (p_done p).

(** [main] closes the client the handler has, if any. *)
Definition look (w : wake) (ns : nats_side) : main_pc :=
  match GetNATSClient ns with Some n => MNats w n | None => MExit w end.

(** A step of [main]; [agent_Close] is what the library returns. *)
Inductive mstep p : life St -> Prop :=
| m_signal sig : p_main p = MSelect -> p_sigChan p = Some sig -> mstep p (Live (take_signal sig p))
| m_failure e : p_main p = MSelect -> p_fatalErr p = Some e -> mstep p (Live (take_failure e p))
| m_cancel w : p_main p = MCancel w -> mstep p (Live (go (MSocket w) [TdCancel] p))
| m_socket w :
    p_main p = MSocket w ->
    mstep p (Live (with_ws (Close (p_ws p)).1 (go (MLook w) [TdSocket (ws_conn (p_ws p))] p)))
| m_look w :
    p_main p = MLook w ->
    mstep p (Live (go (look w (d_nats (p_daemon p))) [] p))
| m_nats w n agent_Close :
    p_main p = MNats w n ->
    mstep p (Live (go (MExit w) [TdNats n teardown_timeout (NATSClient_Close n agent_Close)] p))
| m_exit w : p_main p = MExit w -> mstep p (Exited (exitCode w) p).

(** The process: the daemon, a panic of it, a signal from outside, the
    reconnect loop - its passes, and the connections it stores and drops in the
    course of one - and [main]. *)
Inductive lstep : life St -> life St -> Prop :=
| l_daemon p d' : dstep (p_daemon p) d' -> lstep (Live p) (Live (with_daemon d' p))
| l_panic p : panics serial (p_daemon p) -> lstep (Live p) Killed
| l_signal p sig : lstep (Live p) (Live (notify sig p))
| l_pass p a : asks a -> loop_result (p_passes p) = None -> lstep (Live p) (Live (make_pass a p))
| l_link p conn generation cancel :
    lstep (Live p) (Live (with_ws (set_link conn generation cancel (p_ws p)) p))
| l_main p l : mstep p l -> lstep (Live p) l.

(** [main] alone. *)
Inductive mains : life St -> life St -> Prop :=
| mains_step p l : mstep p l -> mains (Live p) l.

(** [main] has been told to end. *)
Definition woken p : Prop := p_main p <> MSelect \/ is_Some (p_sigChan p) \/ is_Some (p_fatalErr p).

(** Nothing can keep it from doing so. *)
Lemma main_ends p : woken p -> exists code p', rtc mains (Live p) (Exited code p').
Proof.
  assert (Hstep : forall p1 p2 : program St, mstep p1 (Live p2) ->
    (exists code p', rtc mains (Live p2) (Exited code p')) -> exists code p', rtc mains (Live p1) (Exited code p')).
  { intros p1 p2 Hs (code & p' & Hr). exists code, p'. eapply rtc_l; [by constructor|exact Hr]. }
  assert (Hexit : forall p w, p_main p = MExit w -> exists code p', rtc mains (Live p) (Exited code p')).
  { intros q w Hq. exists (exitCode w), q. apply rtc_once. constructor. by apply m_exit. }
  assert (Hnats : forall p w n, p_main p = MNats w n -> exists code p', rtc mains (Live p) (Exited code p')).
  { intros q w n Hq. eapply Hstep; [by apply (m_nats q w n None)|]. by eapply Hexit. }
  assert (Hlook : forall p w, p_main p = MLook w -> exists code p', rtc mains (Live p) (Exited code p')).
  { intros q w Hq. eapply Hstep; [by apply (m_look q w)|].
    unfold look. destruct (GetNATSClient _); [by eapply Hnats|by eapply Hexit]. }
  assert (Hsocket : forall p w, p_main p = MSocket w -> exists code p', rtc mains (Live p) (Exited code p')).
  { intros q w Hq. eapply Hstep; [by apply (m_socket q w)|]. by eapply Hlook. }
  assert (Hcancel : forall p w, p_main p = MCancel w -> exists code p', rtc mains (Live p) (Exited code p')).
  { intros q w Hq. eapply Hstep; [by apply (m_cancel q w)|]. by eapply Hsocket. }
  intros Hw. destruct (p_main p) as [|w|w|w|w n|w] eqn:Hp; eauto.
  destruct Hw as [?|[[sig Hs]|[e He]]]; [done|..].
  - eapply Hstep; [by apply (m_signal p sig)|]. by eapply Hcancel.
  - eapply Hstep; [by apply (m_failure p e)|]. by eapply Hcancel.
Qed.

(** ** What is known of it *)

Section Laws.
Context `{!AgentLib}.
Context (d0 : daemon PriorityScheduler.t St).
Context (started : DaemonInv.starts nats PriorityScheduler.wf d0).
Context (Hcap : 0 <= dispatchBufferCap h) (Hres : 0 <= resultCap).

(** The only results that make a goroutine panic. *)
Lemma panic_cause d :
  rtc dstep d0 d -> panics serial d -> exists res, res ∈ d_received d /\ disguised_null (re_Payload res).
Proof using All.
  intros Hr Hp. assert (DaemonInv.running lim allowed h serial cloud nats resultCap PriorityScheduler.wf d) as Hrun by by exists d0.
  pose proof (running_inv _ _ _ _ _ _ _ _ _ Hcap Hres Hrun) as I.
  destruct (running_origins _ _ _ _ _ _ _ _ _ Hcap Hres Hrun) as (_ & _ & C).
  assert (Hget : forall res, (res, RGet) ∈ results d -> result_get serial res (mgr (d_world d)) = None ->
            exists res, res ∈ d_received d /\ disguised_null (re_Payload res)).
  { intros res Hin Hg. pose proof (proj1 (Forall_forall _ _) (co_results _ _ C) _ Hin) as [Hrec _].
    exists res. split; [done|]. unfold result_get in Hg. destruct (GetTransaction _ _); [|done].
    destruct (format_result serial res) eqn:Hf; [|by apply object_missing in Hf]. by destruct (_ =s _), (device_refused res). }
  destruct Hp as [(res & Hw & Hg)|[(i & res & Hcb & Hg)|Hcr]].
  - apply (Hget res); [|done]. unfold results. rewrite Hw. by left.
  - apply (Hget res); [|done]. unfold results. apply elem_of_app. right. by eapply list_elem_of_lookup_2.
  - by rewrite (inv_crashed _ _ _ _ (proj2 (di_world _ _ _ _ I))) in Hcr.
Qed.

(** The handler keeps its client. *)
Lemma client_kept d d' n :
  dinv h nats resultCap d -> dstep d d' -> ns_client (d_nats d) = Some n -> ns_client (d_nats d') = Some n.
Proof.
  intros I Hd Hn. destruct Hd; try exact Hn; cbn.
  - unfold on_envelope. destruct (on_result _ _); [|done]. by destruct (_ <? _).
  - exfalso. apply H3, (no_recovery _ _ _ (di_nats _ _ _ _ I)). by eexists.
Qed.

(** Why [main] is on its way out. *)
Definition reason p (w : wake) : Prop :=
  match w with
  | BySignal _ => p_told p <> []
  | ByFailure e => Exists (fun a => fatal_cause (ws_config ws) a) (p_passes p)
  end.

(** What [main] found when it asked for the client, and did with it. *)
Definition closed_nats (d : daemon PriorityScheduler.t St) (closed : list teardown_event) : Prop :=
  exists d1 agent_Close, rtc dstep d0 d1 /\ rtc dstep d1 d /\
    closed = match ns_client (d_nats d1) with
             | Some n => [TdNats n teardown_timeout (NATSClient_Close n agent_Close)]
             | None => []
             end.

Definition teardown_ok p : Prop :=
  match p_main p with
  | MSelect | MCancel _ => p_done p = []
  | MSocket _ => p_done p = [TdCancel]
  | MLook _ => exists conn, p_done p = [TdCancel; TdSocket conn]
  | MNats _ n =>
      (exists conn, p_done p = [TdCancel; TdSocket conn]) /\
      exists d1, rtc dstep d0 d1 /\ rtc dstep d1 (p_daemon p) /\ ns_client (d_nats d1) = Some n
  | MExit _ => exists conn closed, p_done p = TdCancel :: TdSocket conn :: closed /\ closed_nats (p_daemon p) closed
  end.

Definition wake_of (pc : main_pc) : option wake :=
  match pc with
  | MSelect => None
  | MCancel w | MSocket w | MLook w | MNats w _ | MExit w => Some w
  end.

Record program_ok p : Prop := {
  po_daemon : rtc dstep d0 (p_daemon p);
  po_signal : is_Some (p_sigChan p) -> p_told p <> [];
  po_passes : Forall asks (p_passes p);
  po_fatal e : p_fatalErr p = Some e -> reason p (ByFailure e);
  po_wake w : wake_of (p_main p) = Some w -> reason p w;
  po_done : teardown_ok p
}.

Definition life_ok (l : life St) : Prop :=
  match l with
  | Live p => program_ok p
  | Killed => exists d, rtc dstep d0 d /\ panics serial d
  | Exited code p => program_ok p /\ exists w, p_main p = MExit w /\ code = exitCode w
  end.

Lemma born_ok : life_ok (Live (born d0)).
Proof. split; cbn; try done; by intros []. Qed.

Lemma closed_nats_later d d' closed : dstep d d' -> closed_nats d closed -> closed_nats d' closed.
Proof. intros Hd (d1 & a & ? & ? & ?). exists d1, a. split_and!; [done|by eapply rtc_r|done]. Qed.

Lemma fatal_error_spec r e : fatal_error r = Some e -> r = Some (Some e).
Proof. unfold fatal_error. destruct r as [[e'|]|]; [|done..]. destruct (errors_Is _ _); [done|]. by intros [= ->]. Qed.

(** An error of the loop has a cause among its passes. *)
Lemma loop_fails passes e :
  ws_running ws = false -> fatal_error (loop_result passes) = Some e ->
  Exists (fun a => fatal_cause (ws_config ws) a) passes.
Proof.
  intros Hidle Hf%fatal_error_spec. unfold loop_result in Hf.
  destruct (ReconnectLoop false passes ws) as [[c evs] r] eqn:Hl. cbn in Hf. subst r.
  destruct (ReconnectLoop_inv _ _ _ _ _ Hl Hidle) as (evs' & _ & [_ _ _ Hs] & _). apply (Hs (Some e) eq_refl).
Qed.

Lemma mstep_ok p l : program_ok p -> mstep p l -> life_ok l.
Proof.
  intros [Hd Hsig Hp Hf Hw Ht] Hs. unfold teardown_ok in Ht.
  inversion Hs as [sig Hpc Hc|e Hpc Hc|w Hpc|w Hpc|w Hpc|w n agent_Close Hpc|w Hpc]; subst; clear Hs; rewrite Hpc in Hw, Ht.
  - split; cbn; try done. intros w [= <-]. apply Hsig. by eexists.
  - split; cbn; try done. intros w [= <-]. by apply (Hf e).
  - split; cbn; try done. unfold teardown_ok. cbn. by rewrite Ht.
  - split; cbn; try done. unfold teardown_ok. cbn. rewrite Ht. by eexists.
  - destruct Ht as [conn Ht]. unfold look, GetNATSClient. destruct (ns_client (d_nats (p_daemon p))) as [n|] eqn:Hn;
      (split; cbn; [done..|unfold teardown_ok; cbn; rewrite app_nil_r]).
    + split; [by exists conn|]. by exists (p_daemon p).
    + exists conn, []. split; [done|]. exists (p_daemon p), None. by rewrite Hn.
  - destruct Ht as [[conn Ht] (d1 & ? & ? & Hn)]. split; cbn; try done. unfold teardown_ok. cbn. rewrite Ht.
    exists conn. eexists. split; [done|]. exists d1, agent_Close. by rewrite Hn.
  - split; [|by exists w]. split; try done; [by rewrite Hpc|unfold teardown_ok; by rewrite Hpc].
Qed.

Lemma lstep_ok l l' : ws_running ws = false -> life_ok l -> lstep l l' -> life_ok l'.
Proof.
  intros Hidle Hok Hs. destruct Hs as [p d' Hd|p Hp|p sig|p a Ha Hr|p conn g cancel|p l Hm]; cbn in Hok.
  - destruct Hok as [Hd0 Hsig Hp Hf Hw Ht]. split; cbn; try done; [by eapply rtc_r|].
    revert Ht. unfold teardown_ok. cbn. destruct (p_main p); try done.
    + intros [? (d1 & ? & ? & ?)]. split; [done|]. exists d1. split_and!; [done|by eapply rtc_r|done].
    + intros (conn & closed & ? & ?). exists conn, closed. split; [done|by eapply closed_nats_later].
  - exists (p_daemon p). split; [apply Hok|done].
  - destruct Hok as [Hd0 Hsig Hp Hf Hw Ht]. assert (p_told p ++ [sig] <> []) as Hne by by destruct (p_told p).
    split; cbn; try done. intros [s|e] Hpc; [done|]. by apply (Hw _ Hpc).
  - destruct Hok as [Hd0 Hsig Hp Hf Hw Ht].
    assert (Hmore : forall e, reason p (ByFailure e) -> reason (make_pass a p) (ByFailure e))
      by (intros e He; apply Exists_app; by left).
    split; cbn; try done.
    + apply Forall_app. split; [done|]. by constructor.
    + intros e. destruct (fatal_error (loop_result (p_passes p ++ [a]))) as [e'|] eqn:He; [intros _; by eapply loop_fails|].
      intros Hpe. by apply (Hmore e), Hf.
    + intros [s|e] Hpc; [by apply (Hw _ Hpc)|]. by apply (Hmore e), (Hw _ Hpc).
  - destruct Hok as [Hd0 Hsig Hp Hf Hw Ht]. by split.
  - by eapply mstep_ok.
Qed.

Lemma life_sound l : ws_running ws = false -> rtc lstep (Live (born d0)) l -> life_ok l.
Proof.
  intros Hidle Hr. pose proof born_ok as Hok. revert Hok. induction Hr as [|l0 l1 l Hs _ IH]; [done|].
  intros Hok. apply IH. by eapply lstep_ok.
Qed.

Lemma steps_inv d d' : dinv h nats resultCap d -> rtc dstep d d' -> dinv h nats resultCap d'.
Proof using All. intros I Hr. induction Hr as [|d d1 d2 Hd _ IH]; [done|]. apply IH. by eapply (dstep_inv lim allowed h serial cloud nats resultCap PriorityScheduler.wf). Qed.

(** The client that [main] has closed is the handler's to the end, and the only
    other clients that are open have refused to be closed. *)
Lemma closed_for_good d d1 n :
  rtc dstep d0 d1 -> rtc dstep d1 d -> ns_client (d_nats d1) = Some n ->
  ns_client (d_nats d) = Some n /\ ns_open (close_client n None (d_nats d)) ≡ₚ ns_unclosed (d_nats d).
Proof using All.
  intros Hr0 Hr1 Hn. apply (starts_inv h nats resultCap) in started as I; [|done..].
  apply (steps_inv _ _ I) in Hr0 as I1. assert (ns_client (d_nats d) = Some n) as Hc.
  { clear Hr0. induction Hr1 as [|d1 d2 d Hd _ IH]; [done|]. apply IH; [by eapply client_kept|]. by eapply (steps_inv d1), rtc_once. }
  split; [done|]. pose proof (di_nats _ _ _ _ (steps_inv _ _ I1 Hr1)) as [Hopen _ Hrec _ _].
  rewrite Hc, (proj2 Hrec) in Hopen by by eexists. apply (close_client_open n None (d_nats d) [] Hopen).
Qed.

End Laws.

End Life.

(** ** From start-up to the end *)

Section Teardown.
Context {St : Type} `{OperationStore St} `{GoLib} `{ConfigLib} `{AgentLib}.
Context (url_Parse : string -> result URL) (NewDiskOperationStore : string -> result St).

(** A pass of the reconnect loop asks the provider of [main], whatever it has
    cached by then. *)
Definition asks (provider : connectMetadataProvider) (a : attempt) : Prop :=
  exists read p, mp_serial p = mp_serial provider /\ a_ConnectParams a = (ConnectParams read p).2.


End Teardown.
