(* ===== verification/HandlerDemo.v ===== *)
(** * The frame handler at work

    A request for the LEDs arrives at an idle gateway, is admitted, dispatched
    and in flight: the theorems on the handler at that run. *)

From S2P Require Import Prelude GoTime Scheduler Json Enums Rpc Commands Envelopes NatsClient Transaction Cache Store Manager Handler ManagerSteps ManagerInv ManagerSafety ManagerDemo HandlerSafe HandlerAnswers HandlerLive.
Import RequestManager DemoLib MemoryStore.

Module DemoHandler.

#[export] Instance agent : AgentClient := {
  agent_SubmitConfigure _ := None;
  agent_SubmitAction _ := None
}.

Definition demo_limits : limits := SetLimits 100000 100000 100000.
Definition handler : frameHandler :=
  mkHandler "24f5a2" "vyos" 4 (5 * Second) (30 * Second) (60 * Second) (120 * Second)
    200000 100000 100000 100000 150000.
Definition links : systemStateManager := mkSystemState LinkConnected LinkConnected.

Definition leds_frame : InboundFrame :=
  mkFrame "sess" 1
    (dq "{'jsonrpc':'2.0','id':7,'method':'leds','params':{'serial':'24f5a2','pattern':'blink'}}").

Definition outcome : handled PriorityScheduler.t :=
  HandleFrame demo_limits None handler links (mgr demo0) (clock demo0) "rpc-1" leds_frame.

Example leds_launched :
  match hd_launch outcome with
  | Some l => l_action l = ActionLeds /\ tx_Method (l_tx l) = "leds" /\ hd_disposition outcome = FrameAccepted
  | None => False
  end.
Proof. vm_compute. by split_and!. Qed.

(** A text that is no JSON, and so has no id, is answered all the same; a
    request without an id is not. *)
Definition garbage : InboundFrame := mkFrame "sess" 1 "}{".
Definition trace_notification : InboundFrame :=
  mkFrame "sess" 1 (dq "{'jsonrpc':'2.0','method':'telemetry','params':{}}").

Example notification_silent :
  hd_pushed (HandleFrame demo_limits None handler links (mgr demo0) (clock demo0) "rpc-1" trace_notification) = None.
Proof. reflexivity. Qed.

Lemma frame_answered_witness :
  cache (mgr demo0) !! "" = None /\ fresh_id "rpc-1" demo0 /\ malformed handler (f_Payload garbage) ErrParse /\
  (exists w', rtc step demo0 w' /\ moved demo0 (hd_mgr outcome) w') /\
  rejected_as (HandleFrame demo_limits None handler links (mgr demo0) (clock demo0) "rpc-1" garbage) garbage ErrParse.
Proof.
  assert (cache (mgr demo0) !! "" = None) as Hc by reflexivity.
  assert (fresh_id "rpc-1" demo0) as Hf by (split; [done|set_solver]).
  assert (malformed handler (f_Payload garbage) ErrParse) as Hg.
  { split; [|split]; [vm_compute; discriminate..|vm_compute; reflexivity]. }
  split; [exact Hc|]. split; [exact Hf|]. split; [exact Hg|]. split.
  - exact (proj2 (proj2 (proj2 (frame_answered demo_limits None handler links demo0 "rpc-1" leds_frame Hc Hf)))).
  - exact (proj1 (proj2 (frame_answered demo_limits None handler links demo0 "rpc-1" garbage Hc Hf)) ErrParse Hg).
Defined.

(** The request was admitted. *)
Lemma leds_authorized :
  exists l, authorized demo_limits None handler links (mgr demo0) (clock demo0) "rpc-1" leds_frame outcome l.
Proof.
  destruct (frame_outcome demo_limits None handler links (mgr demo0) (clock demo0) "rpc-1" leds_frame eq_refl)
    as [?|[Ha|[[Hu _] _]]]; [done|exfalso..].
  - destruct Ha. vm_compute in *. congruence.
  - vm_compute in *. congruence.
Qed.

Definition demo_env : exec_env := mkEnv demo_time (Some (mkClient "vyos" true)) None.

Lemma launched_command_is_submitted_witness :
  exists l, hd_launch outcome = Some l /\ l_command l = CommandAction /\
  dispatch demo_limits None handler demo_env (mkClient "vyos" true) l =
    agent_SubmitAction (mkActionCommand EnvelopeVersion (tx_RPCID (l_tx l)) (h_target handler)
      (l_command l) (l_action l) (l_params l) (e_now demo_env)).
Proof.
  destruct leds_authorized as [l Hl]. exists l.
  assert (l_command l = CommandAction) as Hc.
  { destruct (au_outcome _ _ _ _ _ _ _ _ _ _ Hl) as [Hlaunch _]. vm_compute in Hlaunch. by injection Hlaunch as <-. }
  split; [apply (au_outcome _ _ _ _ _ _ _ _ _ _ Hl)|]. split; [exact Hc|].
  pose proof (launched_command_is_submitted demo_limits None handler links (mgr demo0) (clock demo0) "rpc-1"
    leds_frame l demo_env (mkClient "vyos" true) Hl ltac:(vm_compute; reflexivity) eq_refl eq_refl) as Hd.
  assert ((l_command l =s CommandConfigure) = false) as Hn by (rewrite Hc; reflexivity).
  rewrite Hn in Hd. exact Hd.
Defined.

(** The goroutine runs alone from here. *)
Definition demo_world0 : world PriorityScheduler.t MemoryStore.t := demo_create "leds" demo0.
Definition demo_launch : launch :=
  mkLaunch (demo_tx demo_world0) CommandAction ActionLeds (dq "{'serial':'24f5a2','pattern':'blink'}") "0".

Definition own_step (x : exec_pc * Z * world PriorityScheduler.t MemoryStore.t)
    : exec_pc * Z * world PriorityScheduler.t MemoryStore.t :=
  let '(pc, used, w) := x in
  let '(pc, used, m) := exec_step demo_limits None handler demo_env demo_launch (pc, used, mgr w) in
  (pc, used, set_mgr m w).

Lemma own_steps n pc used w :
  clock w = demo_time ->
  rtc (xstep demo_limits None handler demo_launch) (pc, used, w) (Nat.iter n own_step (pc, used, w)).
Proof.
  intros Hw. enough (rtc (xstep demo_limits None handler demo_launch) (pc, used, w) (Nat.iter n own_step (pc, used, w))
    /\ clock (Nat.iter n own_step (pc, used, w)).2 = demo_time) by tauto.
  induction n as [|n [IH Hc]]; [split; [apply rtc_refl|exact Hw]|].
  change (Nat.iter (S n) own_step ?x) with (own_step (Nat.iter n own_step x)).
  destruct (Nat.iter n own_step (pc, used, w)) as [[pc1 used1] w1]. unfold own_step.
  destruct (exec_step demo_limits None handler demo_env demo_launch (pc1, used1, mgr w1)) as [[pc2 used2] m2] eqn:E.
  split; [|exact Hc]. eapply rtc_r; [exact IH|]. eapply xstep_own; [|exact E]. symmetry. exact Hc.
Qed.

Lemma dispatch_never_strands_witness :
  exists w' used' tx,
    rtc (xstep demo_limits None handler demo_launch) (XAcquire, 0, demo_world0) (XDone, used', w') /\
    used' = 0 /\ live w' "rpc-1" tx /\ tx_State tx = TxInFlight.
Proof.
  pose proof (own_steps 5 XAcquire 0 demo_world0 eq_refl) as Hx.
  destruct (Nat.iter 5 own_step (XAcquire, 0, demo_world0)) as [[pc used'] w'] eqn:E.
  assert (pc = XDone /\ used' = 0) as [-> ->].
  { split; [change pc with (pc, used', w').1.1|change used' with (pc, used', w').1.2]; rewrite <- E; by vm_compute. }
  destruct (transactionsByRPCID (mgr w') !! "rpc-1") as [tx|] eqn:Htx.
  2: { exfalso. change w' with (XDone, 0, w').2 in Htx. rewrite <- E in Htx. vm_compute in Htx. discriminate Htx. }
  exists w', 0, tx. split; [exact Hx|]. split; [reflexivity|]. split; [exact Htx|].
  assert (reachable demo_world0) as Hr.
  { exists demo0. split; [apply demo0_initial|]. apply rtc_once.
    eapply (step_create demo0 "rpc-1"); [split; [done|set_solver]|apply surjective_pairing]. }
  assert (tx_RPCID (l_tx demo_launch) ∈ issued demo_world0) as Hi by (vm_compute; set_solver).
  assert (tx_RPCID (l_tx demo_launch) = "rpc-1") as Hid by (by vm_compute).
  assert (tx_HandoffInProgress tx = false) as Hh.
  { change w' with (XDone, 0, w').2 in Htx. rewrite <- E in Htx. vm_compute in Htx. by injection Htx as <-. }
  destruct (dispatch_never_strands demo_limits None handler demo_launch 0 demo_world0 0 w' Hr Hi Hx tx
    ltac:(rewrite Hid; exact Htx)) as [[Hs _]|[Hbad _]]; [exact Hs|rewrite Hh in Hbad; discriminate Hbad].
Defined.

Lemma dispatch_returns_slot_witness :
  interleaved demo_limits None handler demo_launch (replicate 5 (demo_env, 2, mgr demo_world0)) XAcquire = (XDone, 0).
Proof. apply dispatch_returns_slot. cbn. lia. Defined.

End DemoHandler.
