(* ===== verification/WsDemo.v ===== *)
(** * The WebSocket client at work

    A failed dial, a stable session and the end; frames of the cloud read by
    the client's handler; and messages written over two sessions, also when
    the feeder of the first outlives it. *)

From S2P Require Import Prelude GoTime Scheduler Json Enums Rpc Commands Envelopes Config Capabilities Transaction Manager Handler WsClient WsReader WsWriter WsOrder WsLive ManagerDemo HandlerDemo.
Import DemoLib DemoConfig.

Module DemoWs.

Definition cloud : CloudConfig :=
  mkCloud "wss://gw:15002" 10 10 30 60 60 2048 (11 * 1024 * 1024) 3 (mkCloudTLS "ca" "cert" "key" "").

(** ** Connecting *)

Definition client : WSClient := mkWS false None 0 false cloud None.

Definition params : CloudConnectParams := mkConnectParams " 24f5a2 " 0 "4.1.0" (Some ∅).

Definition attempt_with (dial : option error) (lasted : Z) (cancelled : bool) : attempt :=
  mkAttempt cancelled (fun path => Ok path) (fun cert _ => Ok [cert]) dial (Ok params) None None lasted
    (2 ^ 52) false.

Definition attempts : list attempt :=
  [attempt_with (Some (ENew "refused")) 0 false; attempt_with None (100 * Second) false;
   attempt_with None 0 true].

Definition demo_run := ReconnectLoop false attempts client.

Example connect_frame :
  connect_request params "24f5a2" =
  dq "{'jsonrpc':'2.0','method':'connect','params':{'capabilities':{},'firmware':'4.1.0','serial':'24f5a2','uuid':0}}".
Proof. vm_compute. reflexivity. Qed.

(** The first wait is the initial backoff and half of it. *)
Example run_events :
  demo_run.1.2 =
  [ EvState LinkConnecting;
    EvDial "wss://gw:15002" (Some (mkTLS "" (Some "ca") (Some ["cert"]))) (10 * Second);
    EvWait (3 * Second);
    EvDial "wss://gw:15002" (Some (mkTLS "" (Some "ca") (Some ["cert"]))) (10 * Second);
    EvConnected 1 (11 * 1024 * 1024);
    EvSend false (connect_request params "24f5a2");
    EvState LinkConnected; EvSession "sess-1" (100 * Second); EvState LinkConnecting ].
Proof. vm_compute. reflexivity. Qed.

Lemma demo_run_eq : ReconnectLoop false attempts client = (demo_run.1.1, demo_run.1.2, demo_run.2).
Proof. unfold demo_run. by destruct (ReconnectLoop false attempts client) as [[? ?] ?]. Qed.

Lemma demo_run_ended : demo_run.2 = Some None.
Proof. vm_compute. reflexivity. Qed.

Lemma reconnect_protocol_witness :
  ws_running client = false /\
  exists evs' p, demo_run.1.2 = EvState LinkConnecting :: evs'
  /\ phases (ws_config client) (Some (PIdle, ws_generation client)) evs' = Some (p, ws_generation demo_run.1.1)
  /\ Forall introduces evs'.
Proof. split; [reflexivity|]. exact (reconnect_protocol attempts client _ _ _ demo_run_eq eq_refl). Defined.

Lemma reconnect_backoff_witness :
  ws_running client = false /\ waits_ok (stableThreshold (ws_config client)) 0 demo_run.1.2.
Proof. split; [reflexivity|]. exact (reconnect_backoff attempts client _ _ _ demo_run_eq eq_refl). Defined.

Lemma reconnect_stops_witness :
  ws_running demo_run.1.1 = false /\ exists a, a ∈ attempts /\ stop_cause (ws_config client) a None.
Proof.
  pose proof demo_run_eq as He. rewrite demo_run_ended in He.
  exact (reconnect_stops attempts client _ _ None He eq_refl).
Defined.

(** ** Reading *)

(** A handler whose answers are given with the frames. *)
Definition scripted (e : Z * option error) (h : unit) (f : InboundFrame) : unit * Z * option error :=
  (h, e.1, e.2).

Definition bad_frame : input (E := Z * option error) := InFrame (0, Some (ENew "bad")) 1 "x" None.
Definition good_frame : input (E := Z * option error) := InFrame (1, None) 1 "x" None.

Definition three_bad : list (input (E := Z * option error)) :=
  [bad_frame; good_frame; bad_frame; InPong 5; bad_frame; bad_frame].

Lemma cloud_limit_ok : limit_ok cloud.
Proof. unfold limit_ok. vm_compute. done. Qed.

Lemma reader_error_budget_witness :
  (error_run 3 (handle_all scripted "sess-1" tt three_bad).2
   /\ (startReaderLoop scripted cloud 1 0 tt three_bad).2 = Some too_many_errors)
  \/ (~ error_run 3 (handle_all scripted "sess-1" tt three_bad).2
   /\ (startReaderLoop scripted cloud 1 0 tt three_bad).2 = None).
Proof.
  apply (reader_error_budget scripted cloud 1 0 tt three_bad (handle_all scripted "sess-1" tt three_bad).2
           cloud_limit_ok ltac:(vm_compute; discriminate) ltac:(vm_compute; reflexivity) eq_refl).
  cbn. repeat (apply Forall_cons_2; [unfold keeps; cbn; auto|]). apply Forall_nil_2.
Defined.

Example three_bad_end : (startReaderLoop scripted cloud 1 0 tt three_bad).2 = Some too_many_errors.
Proof. vm_compute. reflexivity. Qed.

Definition cloud_frames : list (input (E := handler_env)) :=
  [ InPing None;
    InFrame (mkHandlerEnv DemoHandler.links demo_time "rpc-1") 1 (f_Payload DemoHandler.leds_frame) None;
    InFrame (mkHandlerEnv DemoHandler.links demo_time "rpc-2") 1 "not json" None ].

Lemma reader_survives_cloud_witness :
  exists deadline,
    startReaderLoop (client_handle DemoHandler.demo_limits None DemoHandler.handler) cloud 1 0 (demo_manager, []) cloud_frames =
    (mkReader (handle_all (client_handle DemoHandler.demo_limits None DemoHandler.handler) "sess-1" (demo_manager, []) cloud_frames).1 0
       deadline (frames_of "sess-1" cloud_frames), None).
Proof.
  exact (reader_survives_cloud DemoHandler.demo_limits None DemoHandler.handler cloud 1 0 demo_manager cloud_frames
           cloud_limit_ok ltac:(vm_compute; reflexivity)).
Defined.

(** ** Writing *)

Inductive action := AcPush (m : OutboundMessage) | AcOpen | AcMove (i : nat) (mv : move).

Abbreviation wworld := (WsWriter.world PriorityScheduler.t).

Definition writer_left_b (s : session) : bool := match ss_writer s with WrExit _ => true | _ => false end.
Definition feeder_left_b (s : session) : bool := match ss_feeder s with FdExit => true | _ => false end.

Definition act (orderly : bool) (w : wworld) (a : action) : option wworld :=
  match a with
  | AcPush m =>
      match os_Push (sh_scheduler (w_shared w)) m with
      | (s, None) => Some (WsWriter.mkWorld (set_scheduler s (w_shared w)) (w_sessions w) (w_generation w)
                             (w_accepted w ++ [m]))
      | _ => None
      end
  | AcOpen =>
      if forallb writer_left_b (w_sessions w) && (negb orderly || forallb feeder_left_b (w_sessions w))
      then Some (WsWriter.mkWorld (w_shared w) (w_sessions w ++ [new_session (session_id (w_generation w))])
                   (w_generation w) (w_accepted w))
      else None
  | AcMove i mv =>
      s ← w_sessions w !! i;
      '(g, s') ← session_move cloud mv (w_shared w) s;
      Some (WsWriter.mkWorld g (<[i := s']> (w_sessions w)) (w_generation w) (w_accepted w))
  end.

Fixpoint acts (orderly : bool) (w : wworld) (l : list action) : option wworld :=
  match l with [] => Some w | a :: l => w ← act orderly w a; acts orderly w l end.

Lemma forallb_Forall {A} (p : A -> bool) (P : A -> Prop) l :
  (forall a, p a = true -> P a) -> forallb p l = true -> Forall P l.
Proof. intros HP. induction l as [|a l IH]; [done|]. cbn. intros [? ?]%andb_true_iff. constructor; auto. Qed.

Lemma act_wstep orderly w a w' : act orderly w a = Some w' -> wstep cloud orderly w w'.
Proof.
  destruct a as [m| |i mv]; cbn -[os_Push].
  - destruct (os_Push _ m) as [s [e|]] eqn:Hp; [done|]. intros [= <-]. by constructor.
  - destruct (forallb writer_left_b _) eqn:Hw; [|done]. destruct (negb orderly || _) eqn:Hf; [|done].
    intros [= <-]. constructor.
    + eapply forallb_Forall; [|exact Hw]. intros s. unfold writer_left_b, writer_left.
      destruct (ss_writer s); try done. by eexists.
    + intros ->. eapply forallb_Forall; [|exact Hf]. intros s. unfold feeder_left_b, feeder_left.
      by destruct (ss_feeder s).
  - destruct (w_sessions w !! i) as [s|] eqn:Hs; [|done]. cbn.
    destruct (session_move cloud mv _ s) as [[g s']|] eqn:Hm; [|done]. intros [= <-]. by eapply step_move.
Qed.

Lemma acts_reachable orderly l w :
  acts orderly (WsWriter.initial PriorityScheduler.demo_new) l = Some w ->
  WsWriter.reachable cloud orderly PriorityScheduler.demo_new w.
Proof.
  unfold WsWriter.reachable. generalize (WsWriter.initial PriorityScheduler.demo_new).
  induction l as [|a l IH]; intros w0; cbn; [by intros [= <-]|].
  destruct (act orderly w0 a) as [w1|] eqn:Ha; [|done]. cbn. intros Hl.
  eapply rtc_l; [by eapply act_wstep|by apply IH].
Qed.

Definition first_msg : OutboundMessage := mkMsg "" PriorityHigh "first".
Definition second_msg : OutboundMessage := mkMsg "" PriorityHigh "second".

(** The first write fails; the second session sends both. *)
Definition retry_actions : list action :=
  [AcPush first_msg; AcPush second_msg; AcOpen; AcMove 0 MvStart; AcMove 0 MvNext; AcMove 0 MvHandOver;
   AcMove 0 (MvWritten (Some (ENew "broken pipe"))); AcMove 0 MvFeederStop;
   AcOpen; AcMove 1 MvStart; AcMove 1 MvHandOver; AcMove 1 (MvWritten None); AcMove 1 MvAck;
   AcMove 1 MvNext; AcMove 1 MvHandOver; AcMove 1 (MvWritten None)].

(** The feeder of the first session gives its message up only when the second
    session has used the slot. *)
Definition overlap_actions : list action :=
  [AcPush first_msg; AcPush second_msg; AcOpen; AcMove 0 MvStart; AcMove 0 MvNext; AcMove 0 MvCancel;
   AcMove 0 MvWriterStop; AcOpen; AcMove 1 MvStart; AcMove 1 MvNext; AcMove 1 MvHandOver;
   AcMove 1 (MvWritten (Some (ENew "broken pipe"))); AcMove 0 MvGiveUp].

Definition run_actions (orderly : bool) (l : list action) : wworld :=
  default (WsWriter.initial PriorityScheduler.demo_new) (acts orderly (WsWriter.initial PriorityScheduler.demo_new) l).

Example retry_wire : wire_msgs (w_shared (run_actions true retry_actions)) = [first_msg; second_msg].
Proof. vm_compute. reflexivity. Qed.

Lemma retry_reachable : WsWriter.reachable cloud true PriorityScheduler.demo_new (run_actions true retry_actions).
Proof. apply (acts_reachable true retry_actions). vm_compute. reflexivity. Qed.

Lemma writer_in_order_witness :
  let w := run_actions true retry_actions in
  durable (sh_dequeued (w_shared w)) = durable (wire_msgs (w_shared w)) ++ durable (WsWriter.held w)
  /\ (length (WsWriter.held w) <= 1)%nat /\ Forall kept (sh_discarded (w_shared w)).
Proof. exact (writer_in_order cloud PriorityScheduler.demo_new _ retry_reachable). Defined.


(** since nothing waits for the feeder of an ended session, a message above
    priority 0 that the scheduler has released can be dropped: when that
    feeder gives it up after the next session has used the slot. *)
Theorem overlap_loses :
  exists w, WsWriter.reachable cloud false PriorityScheduler.demo_new w /\
  exists m, Priority m = PriorityHigh /\ (SlotTaken, m) ∈ sh_discarded (w_shared w).
Proof.
  exists (run_actions false overlap_actions). split.
  - apply (acts_reachable false overlap_actions). vm_compute. reflexivity.
  - exists first_msg. split; [done|]. vm_compute. by left.
Qed.

(** A response for the second session, which has a message of the first to send
    before; the feeder of the first lingers. *)
Definition response_msg : OutboundMessage := mkMsg (session_id 0) PriorityHighest "response".

Definition response_actions : list action :=
  [AcPush first_msg; AcOpen; AcMove 0 MvStart; AcMove 0 MvNext; AcMove 0 MvHandOver;
   AcMove 0 (MvWritten (Some (ENew "broken pipe")));
   AcOpen; AcMove 1 MvStart; AcPush response_msg; AcMove 1 MvHandOver; AcMove 1 (MvWritten None); AcMove 1 MvAck;
   AcMove 1 MvNext; AcMove 1 MvHandOver; AcMove 1 (MvWritten None); AcMove 1 MvAck].

Definition response_run (n : nat) : wworld := run_actions false (take n response_actions).

Lemma acts_app o l l' w : acts o w (l ++ l') = acts o w l ≫= fun w => acts o w l'.
Proof. revert w. induction l as [|a l IH]; intros w; [done|]. cbn. destruct (act o w a); [apply IH|done]. Qed.

Lemma response_execution : wexecution PriorityScheduler.wf cloud response_run.
Proof.
  split; [exists PriorityScheduler.demo_new; split; [exact PriorityScheduler.demo_new_wf|by apply rtc_refl]|].
  intros n. unfold response_run, run_actions.
  assert (is_Some (acts false (WsWriter.initial PriorityScheduler.demo_new) response_actions)) as Hall by (vm_compute; by eexists).
  rewrite <- (take_drop (n + 1) response_actions), acts_app in Hall.
  destruct (acts false _ (take (n + 1) response_actions)) as [w'|] eqn:Hw'; [|by destruct Hall].
  destruct (decide (n < length response_actions)%nat) as [Hlt|Hge].
  - destruct (lookup_lt_is_Some_2 response_actions n Hlt) as [a Ha].
    rewrite Nat.add_1_r, (take_S_r _ _ _ Ha), acts_app in Hw'.
    destruct (acts false _ (take n response_actions)) as [w|]; [|done]. cbn in Hw' |- *.
    destruct (act false w a) as [w1|] eqn:Hact; [|done]. injection Hw' as <-. apply rtc_once. by eapply act_wstep.
  - rewrite !take_ge in * by lia. rewrite Hw'. by apply rtc_refl.
Qed.

Lemma response_sessions : sessions_run response_run.
Proof.
  apply (rest_sessions_run _ (length response_actions)). intros n s Hn. unfold response_run. rewrite take_ge by done.
  assert (w_sessions (run_actions false response_actions) =
    [mkSession (session_id 0) true FdAwaitAck (WrExit (write_failed (ENew "broken pipe")));
     mkSession (session_id 0) false FdNext WrSelect]) as -> by (vm_compute; reflexivity).
  rewrite elem_of_cons, list_elem_of_singleton. intros [->| ->]; [done|]. intros _. split; [reflexivity|vm_compute; reflexivity].
Qed.

Lemma urgent_written_witness :
  count response_msg (w_accepted (response_run 9)) = 1%nat /\ count response_msg (w_accepted (response_run 7)) = 0%nat /\
  exists j, (9 <= j)%nat /\
    (closed 1 (response_run j) \/
     (count response_msg (w_accepted (response_run 9)) + count response_msg (wire_msgs (w_shared (response_run 7)))
      <= count response_msg (w_accepted (response_run 7)) + count response_msg (wire_msgs (w_shared (response_run j))))%nat).
Proof.
  split; [vm_compute; reflexivity|]. split; [vm_compute; reflexivity|].
  apply (urgent_written PriorityScheduler.wf cloud response_run response_msg 1 7 9 (new_session (session_id 0))
    response_execution response_sessions); [lia|vm_compute; reflexivity|reflexivity|reflexivity].
Defined.

End DemoWs.
