(* ===== verification/StartupDemo.v ===== *)
(** * A start-up

    A host with a configuration, a serial number and capabilities on which the
    daemon starts, with the limits clamped to the frame size; capacities that
    make it panic; a daemon that ends; and a result for a request in flight. *)

From S2P Require Import Prelude GoTime Scheduler Json Enums Rpc Commands Envelopes Config Capabilities DeviceResult NatsClient NatsConnect Transaction Cache Store Manager Handler WsClient ManagerSteps Startup StartupSafe ManagerSafety NatsResults Daemon DaemonInv DaemonStart Teardown ManagerDemo.
Import RequestManager DemoLib DemoConnect MemoryStore.

Module DemoStartup.

(** The text of a configuration with two capacities left open. *)
Definition config_text (results telemetry : string) : string :=
  dq ("{'cloud':{'url':'wss://gw:15002','connect_timeout_seconds':10,'write_timeout_seconds':10,'ping_interval_seconds':30,'pong_timeout_seconds':60,'stable_session_threshold_seconds':60,'max_frame_size_bytes':1048576,'tls':{'ca_file':'ca','client_cert_file':'24f5a2','client_key_file':'key'}},'nats':{'servers':['tls://n:4222'],'credentials_file':'creds','ca_file':'ca'},'queues':{'ws_writer_capacity':8,'emergency_capacity':64,'nats_publish_capacity':4,'command_result_capacity':" +:+ results +:+ ",'telemetry_capacity':" +:+ telemetry +:+ "}}").

#[export] Instance gateway : ConfigLib := {
  os_Stat _ := Ok false;
  os_Open _ := None;
  os_ReadFile_at path :=
    if String.eqb path "config.json" then Ok (config_text "4" "4") else
    if String.eqb path "telemetry.json" then Ok (config_text "4" "1152921504606846976") else
    if String.eqb path "results.json" then Ok (config_text "1152921504606846976" "4") else
    if String.eqb path "/etc/ucentral/interface_map.json" then Ok (dq "{'serial':' 24F5A2 '}") else
    if String.eqb path "/etc/ucentral/capabilities.json" then Ok DemoCapabilities.caps_file else Ok path;
  tls_LoadX509KeyPair cert _ := Ok [cert];
  x509_ParseCertificate der := Ok (mkCertificate der [] []);
  AppendCertsFromPEM s := String.eqb s "ca";
  jwt_ParseDecoratedJWT s := if String.eqb s "creds" then None else Some (ENew "jwt");
  jwt_ParseDecoratedNKey s := None;
  net_local_IP s := String.eqb s "127.0.0.1";
  strings_ToLower := string_map lower_ascii
}.

Definition no_env : environment := fun _ => "".

Definition started :=
  main_startup (St := MemoryStore.t) (fun _ => Err json_error) (fun _ => Ok ∅) no_env "config.json".

Example startup_succeeds :
  match started with
  | Some (Ok (cfg, app, h)) =>
      Serial cfg = "24F5A2" /\ n_Target (NATS cfg) = "vyos" /\ ap_natsLink app = LinkConnected /\
      payloadLimitAbsolute h = 1048576 /\ payloadLimitConfigure h = 1048576 /\
      payloadLimitScript h = 1048576 /\ timeoutConfigure h = 30 * Second
  | _ => False
  end.
Proof. vm_compute. by split_and!. Qed.

(** The daemon, with results of 200 bytes, and the program that runs it. *)
Definition launched_daemon : option (daemon PriorityScheduler.t MemoryStore.t) :=
  match started with
  | Some (Ok (cfg, app, h)) => main_launch 200 cfg app None demo_time None None None
  | _ => None
  end.

Lemma startup_launches_daemon_witness :
  match started with
  | Some (Ok (cfg, app, h)) =>
      exists d, launched_daemon = Some d /\ starts (NATS cfg) PriorityScheduler.wf d
  | _ => False
  end.
Proof.
  pose proof (startup_launches_daemon named (fun _ => Err json_error) (fun _ => Ok ∅) 200 no_env "config.json") as Hs.
  change (main_startup _ _ _ _) with started in Hs.
  assert (Hok : match started with Some (Ok (_, app, _)) => ap_Store app = ∅ /\ is_Some launched_daemon | _ => False end)
    by (vm_compute; split; [reflexivity|eexists; reflexivity]).
  revert Hok. unfold launched_daemon. destruct started as [[[[cfg app] h]|e]|]; [|done..]. intros [Hempty [d Hd]].
  destruct Hs as (_ & _ & _ & Hl).
  specialize (Hl None demo_time None None None ltac:(rewrite Hempty; intros id op; by rewrite lookup_empty) ltac:(vm_compute; reflexivity)).
  rewrite Hd in Hl. exists d. split; [exact Hd|exact Hl].
Defined.

(** Capacities that are accepted, and that [make] panics for: the one of the
    telemetry queue in start-up, the one of the result queue at the launch. *)
Example telemetry_panics :
  main_startup (St := MemoryStore.t) (fun _ => Err json_error) (fun _ => Ok ∅) no_env "telemetry.json" = None.
Proof. vm_compute. reflexivity. Qed.

Example results_panic :
  match main_startup (St := MemoryStore.t) (fun _ => Err json_error) (fun _ => Ok ∅) no_env "results.json" with
  | Some (Ok (cfg, app, h)) => main_launch 200 cfg app None demo_time None None None = None
  | _ => False
  end.
Proof. vm_compute. reflexivity. Qed.

(** ** The end

    The CA file is replaced while the daemon runs, and holds no certificate any
    more: the next dial is the last, and the daemon leaves with status 1. *)
Definition emptied_ca (provider : connectMetadataProvider) : attempt :=
  mkAttempt false (fun _ => Ok "") (fun cert _ => Ok [cert]) None (ConnectParams (fun path => Ok path) provider).2
    None None 0 0 false.

Lemma emptied_ca_asks provider : asks provider (emptied_ca provider).
Proof. by exists (fun path => Ok path), provider. Qed.

(** The reconnect loop fails, [main] wakes and goes through its teardown. *)
Lemma failing_pass {St} `{OperationStore St} lim allowed h serial cloud nats resultCap ws (may : attempt -> Prop)
    (d : daemon PriorityScheduler.t St) a e n agent_Close :
  may a -> loop_result ws [] = None -> fatal_error (loop_result ws [a]) = Some e -> ns_client (d_nats d) = Some n ->
  exists p, rtc (lstep lim allowed h serial cloud nats resultCap ws may) (Live (born ws d)) (Exited 1 p) /\
    p_daemon p = d /\ p_done p = [TdCancel; TdSocket (ws_conn ws); TdNats n teardown_timeout (NATSClient_Close n agent_Close)].
Proof.
  intros Ha Hno He Hn. eexists. split; [|split].
  - eapply rtc_l; [by apply (l_pass _ _ _ _ _ _ _ _ _ (born ws d) a)|].
    eapply rtc_l; [apply l_main, (m_failure _ e); [done|cbn; by rewrite He]|].
    eapply rtc_l; [by apply l_main, (m_cancel _ (ByFailure e))|].
    eapply rtc_l; [by apply l_main, (m_socket _ (ByFailure e))|].
    eapply rtc_l; [by apply l_main, (m_look _ (ByFailure e))|].
    eapply rtc_l; [apply l_main, (m_nats _ (ByFailure e) n agent_Close); cbn; unfold look, GetNATSClient; by rewrite Hn|].
    apply rtc_once, l_main. by apply (m_exit _ (ByFailure e)).
  - done.
  - done.
Qed.


(** ** A result *)

Definition demo_result : ResultEnvelope :=
  mkResultEnvelope EnvelopeVersion "rpc-1" "vyos" CommandAction ActionLeds "" ResultSuccess "" "" (dq "{'pattern':'blink'}")
    demo_time.

Lemma result_settles_request_witness :
  exists obj m' st',
    format_result "24f5a2" demo_result = Some obj /\
    processNATSResult "24f5a2" demo_result (mgr (demo_inflight "leds")) (store (demo_inflight "leds")) None
      (clock (demo_inflight "leds")) "op-1" = Some (m', st') /\
    transactionsByRPCID m' !! "rpc-1" = None.
Proof.
  assert (transactionsByRPCID (mgr (demo_inflight "leds")) !! "rpc-1" = Some (demo_tx (demo_inflight "leds"))) as Htx
    by (vm_compute; reflexivity).
  pose proof (result_settles_request "24f5a2" (demo_inflight "leds") demo_result (demo_tx (demo_inflight "leds")) None "op-1"
    (demo_inflight_reachable "leds") Htx ltac:(vm_compute; reflexivity) ltac:(vm_compute; reflexivity)
    ltac:(vm_compute; discriminate)) as Hr.
  destruct (processNATSResult _ _ _ _ _ _ _) as [[m' st']|].
  - destruct Hr as [_ (Hg & _ & obj & Hobj & _)]; [vm_compute; discriminate|].
    exists obj, m', st'. split; [exact Hobj|]. split; [reflexivity|exact Hg].
  - exfalso. destruct Hr as [_ Hn]. vm_compute in Hn. discriminate Hn.
Defined.

Lemma result_never_dropped_witness :
  match handleNATSResult "24f5a2" 1 demo_result [] (mgr (demo_inflight "leds")) (∅ : MemoryStore.t) None demo_time "op-1" with
  | Some (queue', _, _) => Z.of_nat (length queue') <= 1
  | None => False
  end.
Proof.
  pose proof (result_never_dropped "24f5a2" 1 demo_result [] (mgr (demo_inflight "leds")) (∅ : MemoryStore.t) None
    demo_time "op-1" ltac:(cbn; lia)) as Hr. revert Hr.
  unfold handleNATSResult. cbn [length Z.of_nat Z.ltb Z.compare]. intros [Hr _]. exact Hr.
Defined.

End DemoStartup.
