(* ===== verification/DaemonDemo.v ===== *)
(** * The daemon at work

    A request for the LEDs from the frame to the wire: admitted, dispatched to
    the agent, answered by its result and written to the session it came from.
    The theorems about the whole daemon at states of that run, and the outage
    that a failed first subscription hides. *)

From S2P Require Import Prelude GoTime Scheduler Json Enums Rpc Responses Commands Envelopes Config Capabilities DeviceResult NatsClient NatsConnect WsClient WsWriter WsLive Transaction Cache Store Manager Handler HandlerSafe HandlerAnswers ManagerSteps ManagerSafety NatsResults ManagerDemo HandlerDemo HandlerLive StartupDemo WsDemo Daemon DaemonSafe DaemonInv DaemonContent DaemonOrigin DaemonFair DaemonLive DaemonDeliver.
Import RequestManager DemoLib DemoConfig DemoConnect DemoHandler MemoryStore.

Module DemoDaemon.

Definition nats1 : NATSConfig := mkNATS ["tls://n:4222"] "creds" "ca" "" "" false "vyos".

Abbreviation daemon := (Daemon.daemon PriorityScheduler.t MemoryStore.t).
Abbreviation dstep := (Daemon.dstep demo_limits None handler "24f5a2" DemoWs.cloud nats1 4).
Abbreviation running := (DaemonInv.running demo_limits None handler "24f5a2" DemoWs.cloud nats1 4 PriorityScheduler.wf).

(** ** An interpreter of some steps *)

Inductive action :=
| DFrame (id : string) (f : InboundFrame)
| DExec (i : nat)
| DEnvelope (msg : ResultEnvelope)
| DTake
| DWorker
| DMove (i : nat) (mv : move)
| DOpen
| DTick (now : Z)
| DFire (i : nat)
| DTimeout (i : nat)
| DRecover (register agent_Close : option error).

(** Time passes. *)
Definition at_time (now : Z) (d : daemon) : daemon :=
  let w := d_world d in put_world (mkWorld (mgr w) (store w) now (frames w) (issued w)) d.

Definition rnext (res : ResultEnvelope) (pc : result_pc) (w : world PriorityScheduler.t MemoryStore.t)
    : option (result_pc * world PriorityScheduler.t MemoryStore.t) :=
  match pc with
  | RGet => pc ← result_get "24f5a2" res (mgr w); Some (pc, w)
  | RComplete r => Some (RDone, set_mgr (Complete (mgr w) (clock w) (re_RPCID res) r).1 w)
  | _ => None
  end.

Definition dact (a : action) (d : daemon) : option daemon :=
  match a with
  | DFrame id f =>
      if bool_decide (id <> "" /\ id ∉ issued (d_world d)) then Some (on_frame demo_limits None handler id f d) else None
  | DExec i =>
      '(l, pc) ← d_exec d !! i;
      let '(pc', used', m') :=
        exec_step demo_limits None handler (mkEnv (clock (d_world d)) (ns_client (d_nats d)) None) l
          (pc, d_used d, mgr (d_world d)) in
      Some (put_exec used' (<[i := (l, pc')]> (d_exec d)) (put_world (set_mgr m' (d_world d)) d))
  | DEnvelope msg =>
      match ns_client (d_nats d) with None => None | _ => Some (on_envelope nats1 4 msg d) end
  | DTake =>
      match d_queue d, d_worker d with
      | res :: queue, None => Some (put_results queue (Some (res, RGet)) (d_callbacks d) d)
      | _, _ => None
      end
  | DWorker =>
      '(res, pc) ← d_worker d;
      '(pc', w') ← rnext res pc (d_world d);
      Some (put_results (d_queue d) (Some (res, pc')) (d_callbacks d) (put_world w' d))
  | DMove i mv =>
      s ← w_sessions (d_writer d) !! i;
      '(g, s') ← session_move DemoWs.cloud mv (w_shared (d_writer d)) s;
      Some (put_writer (WsWriter.mkWorld g (<[i := s']> (w_sessions (d_writer d)))
                          (w_generation (d_writer d)) (w_accepted (d_writer d))) d)
  | DOpen =>
      let x := d_writer d in
      match w_sessions x with
      | [] => Some (put_writer (WsWriter.mkWorld (w_shared x) [new_session (session_id (w_generation x))]
                                  (w_generation x) (w_accepted x)) d)
      | _ => None
      end
  | DTick now => if clock (d_world d) <=? now then Some (at_time now d) else None
  | DFire i =>
      let w := d_world d in
      tm ← timers (mgr w) !! i;
      if bool_decide (tm_status tm = TimerArmed) && (tm_deadline tm <=? clock w)
      then Some (put_world (set_mgr (set_timers (<[i := set_status TimerFired tm]> (timers (mgr w))) (mgr w)) w) d)
      else None
  | DTimeout i =>
      let w := d_world d in
      tm ← timers (mgr w) !! i;
      if bool_decide (tm_status tm = TimerFired)
      then let m := (Timeout_ (mgr w) (clock w) (tm_rpcID tm)).1 in
           Some (put_world (set_mgr (set_timers (alter (set_status TimerDone) i (timers m)) m) w) d)
      else None
  | DRecover register agent_Close =>
      match ns_recovery (d_nats d) with
      | NrOff => None
      | _ => let '(links, ns) := recovery_step nats1 None register agent_Close (d_links d) (d_nats d) in
             Some (put_links links ns d)
      end
  end.

Lemma tick_step d now : clock (d_world d) <= now -> dstep d (at_time now d).
Proof. intros Hn. by apply ds_background, bg_tick. Qed.

Lemma rnext_rstep res pc w pc' w' : rnext res pc w = Some (pc', w') -> rstep "24f5a2" res (pc, w) (pc', w').
Proof.
  destruct pc; cbn; try done.
  - destruct (result_get _ _ _) as [pc0|] eqn:E; [|done]. intros [= <- <-]. by apply rs_get.
  - intros [= <- <-]. apply rs_complete.
Qed.

Lemma dact_dstep a d d' : dact a d = Some d' -> dstep d d'.
Proof.
  destruct a as [id f|i|msg| | |i mv| |now|i|i|register agent_Close]; cbn [dact].
  - case_bool_decide as Hf; [|done]. intros [= <-]. by apply ds_frame.
  - destruct (d_exec d !! i) as [[l pc]|] eqn:Hi; [|done]. cbn -[exec_step].
    destruct (exec_step _ _ _ _ _ _) as [[pc' used'] m'] eqn:E. intros [= <-]. by eapply ds_exec.
  - destruct (ns_client (d_nats d)) eqn:Ho; [|done]. intros [= <-]. apply ds_envelope. left. by rewrite Ho.
  - destruct (d_queue d) as [|res q] eqn:Hq; [done|]. destruct (d_worker d) eqn:Hw; [done|].
    intros [= <-]. by apply ds_take.
  - destruct (d_worker d) as [[res pc]|] eqn:Hw; [|done]. cbn -[rnext].
    destruct (rnext _ _ _) as [[pc' w']|] eqn:Hr; [|done]. intros [= <-].
    eapply ds_worker; [exact Hw|]. by apply rnext_rstep.
  - destruct (w_sessions (d_writer d) !! i) as [s|] eqn:Hs; [|done]. cbn -[session_move].
    destruct (session_move _ _ _ _) as [[g s']|] eqn:Hm; [|done]. intros [= <-]. by eapply ds_move.
  - destruct (w_sessions (d_writer d)) eqn:Hs; [|done]. intros [= <-].
    pose proof (ds_open demo_limits None handler "24f5a2" DemoWs.cloud nats1 4 d) as Ho. cbn in Ho.
    rewrite Hs in Ho. apply Ho. constructor.
  - destruct (Z.leb_spec (clock (d_world d)) now); [|done]. intros [= <-]. by apply tick_step.
  - destruct (timers (mgr (d_world d)) !! i) as [tm|] eqn:Htm; [|done]. cbn.
    case_bool_decide; [|done]. destruct (Z.leb_spec (tm_deadline tm) (clock (d_world d))); [|done].
    intros [= <-]. by apply ds_background, bg_fire.
  - destruct (timers (mgr (d_world d)) !! i) as [tm|] eqn:Htm; [|done]. cbn -[Timeout_].
    case_bool_decide; [|done]. intros [= <-]. apply ds_background.
    destruct (Timeout_ (mgr (d_world d)) (clock (d_world d)) (tm_rpcID tm)) as [m r] eqn:E. by eapply bg_timeout.
  - destruct (recovery_step _ _ _ _ _ _) as [lk ns] eqn:E. intros Hs.
    assert (ns_recovery (d_nats d) <> NrOff) as Hon by (by destruct (ns_recovery (d_nats d))).
    assert (d' = put_links lk ns d) as -> by (by destruct (ns_recovery (d_nats d)); simplify_eq).
    by eapply ds_recover.
Qed.

Fixpoint dacts (l : list action) (d : daemon) : option daemon :=
  match l with [] => Some d | a :: l => d ← dact a d; dacts l d end.

Lemma dacts_steps l d d' : dacts l d = Some d' -> rtc dstep d d'.
Proof.
  revert d. induction l as [|a l IH]; intros d; cbn [dacts]; [by intros [= <-]|].
  destruct (dact a d) as [d1|] eqn:Ha; [|done]. cbn. intros Hd.
  eapply rtc_l; [by eapply dact_dstep|by apply IH].
Qed.

(** ** The run *)

Definition leds_result : ResultEnvelope :=
  mkResultEnvelope EnvelopeVersion "rpc-1" "vyos" CommandAction ActionLeds "" ResultSuccess "" "" "" demo_time.

(** The frame of [DemoHandler] on the first session. *)
Definition frame0 : InboundFrame := mkFrame (session_id 0) 1 (f_Payload leds_frame).

Definition first_subscription (register : option error) : daemon :=
  launched demo0 PriorityScheduler.demo_new links
    (main_subscribe None register None "vyos" (Some (mkClient "vyos" true))).

Definition start0 : daemon := first_subscription None.

Lemma starts_with register : starts nats1 PriorityScheduler.wf (first_subscription register).
Proof.
  split; [exact demo0_initial|reflexivity|].
  exists links, (Some (mkClient "vyos" true)), None, register, None, PriorityScheduler.demo_new.
  split; [reflexivity|]. split; [reflexivity|]. split; [exact PriorityScheduler.demo_new_wf|]. split; [reflexivity|].
  by intros n [= <-].
Qed.

Definition to_agent : list action := [DOpen; DFrame "rpc-1" frame0; DExec 0; DExec 0; DExec 0; DExec 0; DExec 0].
Definition to_wire : list action :=
  to_agent ++ [DEnvelope leds_result; DTake; DWorker; DWorker;
               DMove 0 MvStart; DMove 0 MvNext; DMove 0 MvHandOver; DMove 0 (MvWritten None)].

Definition at_agent : daemon := default start0 (dacts to_agent start0).
Definition at_wire : daemon := default start0 (dacts to_wire start0).

Lemma run_running l : is_Some (dacts l start0) -> running (default start0 (dacts l start0)).
Proof.
  intros [d Hd]. rewrite Hd. exists start0. split; [apply starts_with|by eapply dacts_steps].
Qed.

Lemma at_agent_running : running at_agent.
Proof. apply run_running. vm_compute. by eexists. Qed.

Lemma at_wire_running : running at_wire.
Proof. apply run_running. vm_compute. by eexists. Qed.

(** The request is with the agent, its slot given back. *)
Example request_at_agent :
  d_used at_agent = 0 /\ (d_exec at_agent !! 0%nat) ≫= (fun x => Some x.2) = Some XDone /\
  (transactionsByRPCID (mgr (d_world at_agent)) !! "rpc-1") ≫= (fun tx => Some (tx_State tx)) = Some TxInFlight.
Proof. vm_compute. by split_and!. Qed.

(** Its response was written, on its own session. *)
Example response_on_wire :
  wire_msgs (w_shared (d_writer at_wire)) =
  [mkMsg (session_id 0) PriorityHighest
     (dq "{'jsonrpc':'2.0','result':{'serial':'24f5a2','status':{'error':0,'text':'Success'}},'id':7}")].
Proof. vm_compute. reflexivity. Qed.

(** ** The theorems on the run *)

Lemma capacity_ok : 0 <= dispatchBufferCap handler.
Proof. vm_compute. discriminate. Qed.

Definition demo_request (d : daemon) : Transaction :=
  default (mkTx "" "" "" "" false "" TxCreated None false 0 0 0 0 None None)
    (transactionsByRPCID (mgr (d_world d)) !! "rpc-1").

Lemma daemon_watches_requests_witness :
  live (d_world at_agent) "rpc-1" (demo_request at_agent) /\
  (exists i tm, tx_ResponseTimer (demo_request at_agent) = Some i /\
     timers (mgr (d_world at_agent)) !! i = Some tm /\
     (tm_status tm = TimerArmed /\ tm_deadline tm <= tx_ResponseDeadline (demo_request at_agent) \/
      tm_status tm = TimerFired)).
Proof.
  assert (live (d_world at_agent) "rpc-1" (demo_request at_agent)) as Hl by (vm_compute; reflexivity).
  split; [exact Hl|].
  destruct (daemon_watches_requests demo_limits None handler "24f5a2" DemoWs.cloud nats1 4 PriorityScheduler.wf
    at_agent "rpc-1" (demo_request at_agent) capacity_ok ltac:(lia) at_agent_running Hl)
    as [(l & pc & Hx & _ & Hpc)|[(_ & _ & Ht)|[Hh _]]].
  - exfalso. vm_compute in Hx. apply list_elem_of_singleton in Hx. injection Hx as _ ->. by apply Hpc.
  - exact Ht.
  - exfalso. vm_compute in Hh. discriminate Hh.
Defined.

Lemma daemon_refines_witness :
  reachable (d_world at_wire) /\
  scheduler (mgr (d_world at_wire)) = Some (sh_scheduler (w_shared (d_writer at_wire))).
Proof.
  destruct (daemon_refines demo_limits None handler "24f5a2" DemoWs.cloud nats1 4 PriorityScheduler.wf
    at_wire capacity_ok ltac:(lia) at_wire_running) as (Hr & _ & Hs & _).
  split; [exact Hr|exact Hs].
Defined.

Lemma daemon_resources_witness :
  0 <= d_used at_agent <= dispatchBufferCap handler /\ ns_client (d_nats at_agent) = Some (mkClient "vyos" true)
  /\ natsLink (d_links at_agent) = LinkConnected.
Proof.
  destruct (daemon_resources demo_limits None handler "24f5a2" DemoWs.cloud nats1 4 PriorityScheduler.wf
    at_agent capacity_ok ltac:(lia) at_agent_running) as (_ & Hu & _ & Hn).
  split; [exact Hu|]. split; [vm_compute; reflexivity|].
  assert (ns_client (d_nats at_agent) = Some (mkClient "vyos" true)) as Hc by (vm_compute; reflexivity).
  rewrite Hc in Hn. destruct Hn as (_ & _ & Hl & _). exact Hl.
Defined.

Lemma daemon_wire_witness :
  length (d_frames at_wire) = 1%nat /\
  (read_response ∘ Payload ∘ snd) <$> sh_wire (w_shared (d_writer at_wire)) =
    [Some (JNum "7",
       OResult (JObj [("serial", ("", JStr "24f5a2"));
         ("status", ("", JObj [("error", ("", JNum "0")); ("text", ("", JStr "Success"))]))]))] /\
  exists causes, causes ⊆+ d_frames at_wire /\
    Forall2 (fun '(session, _, msg) e =>
               session = f_SessionID e.2 /\ answers_frame "24f5a2" (d_frames at_wire) (d_received at_wire) msg e)
      (sh_wire (w_shared (d_writer at_wire))) causes.
Proof.
  split_and!; [vm_compute; reflexivity..|].
  exact (proj1 (daemon_wire demo_limits None handler "24f5a2" DemoWs.cloud nats1 4 PriorityScheduler.wf
    at_wire capacity_ok ltac:(lia) at_wire_running)).
Defined.

(** ** An agent that never answers

    The request is dispatched, its time runs out, its timer fires, the timeout
    is written, and from then on only time passes. *)
Definition unanswered : list action :=
  to_agent ++ [DTick (demo_time + 60 * Second); DFire 0; DTimeout 0;
               DMove 0 MvStart; DMove 0 MvNext; DMove 0 MvHandOver; DMove 0 (MvWritten None); DMove 0 MvAck].

Definition silent (n : nat) : daemon :=
  let d := default start0 (dacts (take n unanswered) start0) in
  if (length unanswered <? n)%nat then at_time (clock (d_world d) + Z.of_nat n) d else d.

Definition timed_out : daemon := default start0 (dacts unanswered start0).

Lemma dacts_app l l' d : dacts (l ++ l') d = dacts l d ≫= dacts l'.
Proof. revert d. induction l as [|a l IH]; intros d; [done|]. cbn. destruct (dact a d); [apply IH|done]. Qed.

Lemma silent_late n : (length unanswered < n)%nat -> silent n = at_time (clock (d_world timed_out) + Z.of_nat n) timed_out.
Proof.
  intros Hn. unfold silent. rewrite (proj2 (Nat.ltb_lt _ _) Hn). cbv zeta. by rewrite take_ge by lia.
Qed.

(** Between two moments only the clock differs. *)
Lemma at_time_again t t' d : at_time t' (at_time t d) = at_time t' d.
Proof. unfold at_time, put_world, handed. cbn. by rewrite !drop_all. Qed.

Lemma at_time_timers now d : timers (mgr (d_world (at_time now d))) = timers (mgr (d_world d)).
Proof. done. Qed.
Lemma at_time_writer now d : d_writer (at_time now d) = d_writer d.
Proof. unfold at_time, put_world, handed. cbn. by rewrite drop_all. Qed.
Lemma at_time_rest now d : at_rest d -> at_rest (at_time now d).
Proof. intros []. by split. Qed.

Lemma silent_execution : execution demo_limits None handler "24f5a2" DemoWs.cloud nats1 4 PriorityScheduler.wf silent.
Proof.
  split; [exact (starts_with None)|]. intros n. right.
  assert (is_Some (dacts unanswered start0)) as Hall by (vm_compute; by eexists).
  assert (forall n, is_Some (dacts (take n unanswered) start0)) as Hpre.
  { intros k. rewrite <- (take_drop k unanswered), dacts_app in Hall. by destruct (dacts (take k unanswered) start0), Hall. }
  destruct (Nat.lt_trichotomy n (length unanswered)) as [Hlt|[->|Hgt]].
  - unfold silent. rewrite !(proj2 (Nat.ltb_ge _ _)) by lia. cbv zeta.
    destruct (lookup_lt_is_Some_2 unanswered n Hlt) as [a Ha]. pose proof (Hpre (n + 1)%nat) as [d' Hd'].
    rewrite Hd'. rewrite Nat.add_1_r in Hd'. rewrite (take_S_r _ _ _ Ha), dacts_app in Hd'.
    destruct (dacts (take n unanswered) start0) as [d|]; [|done]. cbn in Hd' |- *.
    destruct (dact a d) eqn:Hda; [|done]. injection Hd' as <-. by apply (dact_dstep a).
  - rewrite (silent_late (length unanswered + 1)) by lia. unfold silent. rewrite Nat.ltb_irrefl. cbv zeta. rewrite take_ge by lia.
    change (default start0 (dacts unanswered start0)) with timed_out. apply tick_step. lia.
  - rewrite !silent_late by lia. rewrite <- (at_time_again (clock (d_world timed_out) + Z.of_nat n) (_ + Z.of_nat (n + 1))).
    apply tick_step. cbn [at_time put_world d_world clock]. lia.
Qed.

Lemma silent_fair : fair silent.
Proof.
  assert (forall n, (length unanswered < n)%nat -> timers (mgr (d_world (silent n))) = timers (mgr (d_world timed_out))) as Hlate.
  { intros n Hn. rewrite silent_late by done. apply at_time_timers. }
  assert (at_rest timed_out) as Hrest.
  { split; [vm_compute; by repeat constructor|vm_compute; by repeat constructor|reflexivity]. }
  apply (rest_fair _ (length unanswered + 1)).
  - intros n Hn. rewrite silent_late by lia. by apply at_time_rest.
  - intros n k Hk. rewrite (Hlate k) by lia. destruct (Nat.le_gt_cases n (length unanswered)) as [Hn|Hn]; [|by rewrite Hlate].
    assert (forallb (fun n => length (timers (mgr (d_world (silent n)))) <=? length (timers (mgr (d_world timed_out))))%nat
      (seq 0 (length unanswered + 1)) = true) as HF by (vm_compute; reflexivity).
    rewrite forallb_forall in HF. apply Nat.leb_le, HF, in_seq. lia.
  - intros n t. exists (n + length unanswered + 1 + Z.to_nat (t - clock (d_world timed_out)))%nat. split; [lia|].
    rewrite silent_late by lia. cbn [at_time put_world d_world clock]. lia.
Qed.

Lemma daemon_answers_requests_witness :
  live (d_world (silent (length to_agent))) "rpc-1" (demo_request at_agent) /\
  exists k, (length to_agent <= k)%nat /\ transactionsByRPCID (mgr (d_world (silent k))) !! "rpc-1" = None.
Proof.
  assert (live (d_world (silent (length to_agent))) "rpc-1" (demo_request at_agent)) as Hl by (vm_compute; reflexivity).
  split; [exact Hl|].
  destruct (daemon_answers_requests demo_limits None handler "24f5a2" DemoWs.cloud nats1 4 PriorityScheduler.wf
    silent (length to_agent) "rpc-1" (demo_request at_agent) capacity_ok ltac:(lia) silent_execution silent_fair Hl)
    as (k & tx' & Hk & Hgone & _).
  exists k. split; [exact Hk|]. apply (Hgone k). lia.
Defined.

Lemma silent_sessions : sessions_run (fun n => d_writer (silent n)).
Proof.
  apply (rest_sessions_run _ (length unanswered + 1)). intros n s Hn Hs Hd. revert Hs. rewrite silent_late by lia.
  rewrite at_time_writer.
  assert (w_sessions (d_writer timed_out) = [mkSession (session_id 0) false FdNext WrSelect]) as -> by (vm_compute; reflexivity).
  intros ->%list_elem_of_singleton. split; [reflexivity|vm_compute; reflexivity].
Qed.

Lemma daemon_serves_witness :
  fresh_id "rpc-1" (d_world (silent 1)) /\ silent 2 = on_frame demo_limits None handler "rpc-1" frame0 (silent 1) /\
  exists j, (1 < j)%nat /\
    ((exists l b msg, sh_wire (w_shared (d_writer (silent j))) = sh_wire (w_shared (d_writer (silent 1))) ++ l /\
        (session_id 0, b, msg) ∈ l /\
        answers_frame "24f5a2" (d_frames (silent j)) (d_received (silent j)) msg ("rpc-1", frame0)) \/
     closed 0 (d_writer (silent j)) \/
     (exists k msg, (1 <= k < j)%nat /\ turned_away silent k msg /\
        answers_frame "24f5a2" (d_frames (silent j)) (d_received (silent j)) msg ("rpc-1", frame0)) \/
     unreportable (d_received (silent j)) "rpc-1").
Proof.
  assert (fresh_id "rpc-1" (d_world (silent 1))) as Hf by (apply (bool_decide_unpack (fresh_id "rpc-1" (d_world (silent 1)))); vm_compute; exact I).
  assert (silent 2 = on_frame demo_limits None handler "rpc-1" frame0 (silent 1)) as Hs by (vm_compute; reflexivity).
  split; [exact Hf|]. split; [exact Hs|].
  apply (daemon_serves demo_limits None handler "24f5a2" DemoWs.cloud nats1 4 PriorityScheduler.wf
    silent 1 0 (new_session (session_id 0)) "rpc-1" frame0 capacity_ok ltac:(lia) silent_execution silent_fair silent_sessions
    Hf Hs); [vm_compute; reflexivity|reflexivity|].
  intros [Hn|[[Hn _]|(r & Hd & _ & Hn)]]; [vm_compute in Hn; discriminate Hn..|].
  vm_compute in Hd. injection Hd as <-. vm_compute in Hn. discriminate Hn.
Defined.

(** What is written is the timeout. *)
Example timeout_on_wire :
  (read_response ∘ Payload ∘ snd) <$> sh_wire (w_shared (d_writer timed_out)) =
    [Some (JNum "7", OError ErrInternal "Command timed out waiting for device response"
                       (Some (JObj [("application_code", ("", JNum "2"))])))].
Proof. vm_compute. reflexivity. Qed.

(** Before the agent is asked the goroutine can go on; when the time is up the
    timer can fire. *)
Definition admitted : daemon := default start0 (dacts [DOpen; DFrame "rpc-1" frame0] start0).
Definition time_up : daemon := default start0 (dacts (to_agent ++ [DTick (demo_time + 60 * Second)]) start0).

Lemma daemon_never_blocks_witness :
  (exists d' l pc, dstep admitted d' /\ d_exec d' !! 0%nat = Some (l, pc) /\ (steps_left pc < 5)%nat) /\
  exists d', dstep time_up d' /\
    timers (mgr (d_world d')) !! 0%nat = Some (mkTimer "rpc-1" (demo_time + 60 * Second) TimerFired).
Proof.
  split.
  - assert (running admitted) as Hr by (apply run_running; vm_compute; by eexists).
    destruct (daemon_never_blocks demo_limits None handler "24f5a2" DemoWs.cloud nats1 4 PriorityScheduler.wf
      admitted capacity_ok ltac:(lia) Hr) as (He & _).
    destruct (d_exec admitted !! 0%nat) as [[l pc]|] eqn:Hi; [|vm_compute in Hi; discriminate Hi].
    assert (pc = XAcquire) as -> by (vm_compute in Hi; by injection Hi as _ <-).
    destruct (He 0%nat l XAcquire Hi) as (d' & pc' & Hd & Hi' & Hs); [done|].
    exists d', l, pc'. split; [exact Hd|]. split; [exact Hi'|exact Hs].
  - assert (running time_up) as Hr by (apply run_running; vm_compute; by eexists).
    destruct (daemon_never_blocks demo_limits None handler "24f5a2" DemoWs.cloud nats1 4 PriorityScheduler.wf
      time_up capacity_ok ltac:(lia) Hr) as (_ & Hf & _).
    apply (Hf 0%nat (mkTimer "rpc-1" (demo_time + 60 * Second) TimerArmed)); [vm_compute; reflexivity|].
    split; [reflexivity|]. vm_compute. discriminate.
Defined.

(** The timeout is what the cloud reads. *)
Example unanswered_reply :
  (read_response ∘ Payload ∘ snd) <$> pushed (mgr (d_world timed_out)) =
    [Some (JNum "7", OError ErrInternal "Command timed out waiting for device response"
                       (Some (JObj [("application_code", ("", JNum "2"))])))].
Proof. vm_compute. reflexivity. Qed.

(** ** A hidden outage

    The agent is started, the link reported connected, and then the first
    subscription fails: the client is closed and removed, but the link state
    stays as it is.  The daemon has no client, does not count as degraded, and
    admits a request it cannot dispatch. *)
Definition no_subscription : daemon := first_subscription (Some (ENew "no responders")).

Lemma subscription_failure_hides_outage :
  running no_subscription /\ ns_client (d_nats no_subscription) = None /\
  GetSystemState (d_links no_subscription) <> StateNATSDegraded /\
  exists l, hd_launch (HandleFrame demo_limits None handler (d_links no_subscription)
                        (mgr (d_world no_subscription)) demo_time "rpc-1" frame0) = Some l.
Proof.
  split; [exists no_subscription; split; [apply starts_with|done]|].
  split; [done|]. split; [vm_compute; discriminate|]. vm_compute. by eexists.
Qed.

(** The recovery goroutine then builds a client, which is open while the handler
    has none; the first time its subscription fails and it is closed, and its
    [Close] fails too; the second client goes to the handler. *)
Definition recovering : list action :=
  [DRecover None None; DRecover None None; DRecover None None; DRecover (Some (ENew "no responders")) None;
   DRecover None (Some (ENew "closed already"))].
Definition recovered : list action :=
  recovering ++ [DRecover None None; DRecover None None; DRecover None None; DRecover None None; DRecover None None].

Definition nats_after (l : list action) : nats_side :=
  d_nats (default no_subscription (dacts l no_subscription)).

Example recovery_run :
  let n := mkClient "vyos" true in
  nats_after (take 1 recovering) = mkNats None (NrReport [LinkConnected] (Ok n)) [n] [] /\
  nats_after recovering = mkNats None NrWait [n] [n] /\
  nats_after recovered = mkNats (Some n) NrOff [n; n] [n].
Proof. vm_compute. by split_and!. Qed.

End DemoDaemon.
